(** * GPUSPH host orchestration: partitioner, command dispatch, simulation loop

    A shallow embedding of the host side of GPUSPH (the [GPUSPH] class:
    [sortParticlesByHash], [particleSwap], [doCommand], [rollCallParticles],
    [updateArrayIndices], [buildNeibList], [saBoundaryConditions],
    [move_bodies], [saveParticles] and the main loop of [runSimulation]),
    with the properties of the partitioner, of the two-barrier dispatch
    protocol, of the loop's failure handling and termination guards, of
    the recount of the partition and of the roll call proved about it.

    Conventions.
    - [uint] values are integers in [Z]; every arithmetic operation of the
      source that can wrap is written with [wrap32].
    - [devcount_t] (an 8-bit device key) is a [nat].
    - A C array is a [list]; reading or writing outside it is undefined
      behaviour, which the pure helpers report as [None] and the command
      monad as [Undefined].
    - An exception is the [Throw] outcome; the state reached when it was
      raised is kept, as in C++. *)

From Stdlib Require Import ZArith Lia Bool String.
From Stdlib Require Import PrimFloat.
From stdpp Require Import base option list.

Open Scope Z_scope.

(** ** Machine integers *)

Definition UINT_MAX : Z := 4294967295.

(** Reduction of an integer to the range of [uint] (32 bits). *)
Definition wrap32 (x : Z) : Z := x mod 4294967296.

(** [devcount_t], the type of a device key. *)
Abbreviation devcount_t := nat (only parsing).

(** ** Flags and buffer keys

    [flag_t] is a bit set in the source; the bit values live in headers
    outside this development, so a flag word is the list of the named
    flags or-ed together. *)

Inductive flag : Type :=
| BUFFER_POS | BUFFER_VEL | BUFFER_INFO | BUFFER_HASH | BUFFER_POS_GLOBAL
| BUFFER_EULERVEL | BUFFER_TKE | BUFFER_EPSILON | BUFFER_TURBVISC
| BUFFER_SPS_TURBVISC | BUFFER_BOUNDELEMENTS | BUFFER_GRADGAMMA
| BUFFER_VERTICES | BUFFER_VERTPOS | BUFFER_SIGMA | BUFFER_TAU
| BUFFER_VOLUME | BUFFER_INTERNAL_ENERGY | BUFFER_FORCES | BUFFER_NEIBSLIST
| DBLBUFFER_READ | DBLBUFFER_WRITE
| INTEGRATOR_STEP_1 | INTEGRATOR_STEP_2 | INITIALIZATION_STEP
| ALL_INTEGRATION_STEPS
| POST_FORCES_UPDATE_BUFFERS | POST_COMPUTE_SWAP_BUFFERS | IMPORT_BUFFERS
| POST_SA_SEGMENT_UPDATE_BUFFERS | POST_SA_VERTEX_UPDATE_BUFFERS.

Definition flag_t : Type := list flag.
Definition NO_FLAGS : flag_t := [].

Global Instance flag_eq_dec : EqDecision flag.
Proof. solve_decision. Defined.

(** [f & bit] used as a condition. *)
Definition has_flag (f : flag_t) (bit : flag) : bool := bool_decide (bit ∈ f).

(** ** Commands, configuration and diagnostics *)

Inductive CommandType : Type :=
| IDLE | CALCHASH | SORT | REORDER | BUILDNEIBS | CROP | APPEND_EXTERNAL
| UPDATE_EXTERNAL | UPDATE_SEGMENTS | DUMP | DUMP_CELLS | SWAP_BUFFERS
| FILTER | POSTPROCESS | SPS | COMPUTE_DENSITY
| FORCES_SYNC | FORCES_ENQUEUE | FORCES_COMPLETE | EULER
| REDUCE_BODIES_FORCES | UPLOAD_GRAVITY | UPLOAD_OBJECTS_MATRICES
| UPLOAD_OBJECTS_VELOCITIES | FORCES_UPLOAD_OBJECTS_CG | EULER_UPLOAD_OBJECTS_CG
| DOWNLOAD_NEWNUMPARTS | UPLOAD_NEWNUMPARTS
| DOWNLOAD_IOWATERDEPTH | UPLOAD_IOWATERDEPTH
| IDENTIFY_CORNER_VERTICES | INIT_IO_MASS_VERTEX_COUNT | INIT_IO_MASS | INIT_GAMMA
| IMPOSE_OPEN_BOUNDARY_CONDITION | DISABLE_OUTGOING_PARTS
| SA_CALC_SEGMENT_BOUNDARY_CONDITIONS | SA_CALC_VERTEX_BOUNDARY_CONDITIONS
| QUIT.

Inductive SPHFormulation : Type := SPH_F1 | SPH_F2 | SPH_GRENIER.
Inductive ViscosityType : Type := ARTVISC | KINEMATICVISC | DYNAMICVISC | SPSVISC | KEPSVISC.
Inductive BoundaryType : Type := LJ_BOUNDARY | MK_BOUNDARY | SA_BOUNDARY | DYN_BOUNDARY.
Inductive simflag : Type :=
| ENABLE_DTADAPT | ENABLE_DENSITY_SUM | ENABLE_INLET_OUTLET | ENABLE_WATER_DEPTH
| ENABLE_INTERNAL_ENERGY | ENABLE_PLANES.

Global Instance SPHFormulation_eq_dec : EqDecision SPHFormulation.
Proof. solve_decision. Defined.
Global Instance ViscosityType_eq_dec : EqDecision ViscosityType.
Proof. solve_decision. Defined.
Global Instance BoundaryType_eq_dec : EqDecision BoundaryType.
Proof. solve_decision. Defined.
Global Instance simflag_eq_dec : EqDecision simflag.
Proof. solve_decision. Defined.

(** [double4].  A wave gage is one: its place [x], [y], the water level
    [z] that [doWrite] computes, and its smoothing length [w]. *)
Record double4 : Type := {
  d4_x : float;
  d4_y : float;
  d4_z : float;
  d4_w : float
}.

(** [problem->simparams()], as far as the host core reads and writes it. *)
Record SimParams : Type := {
  buildneibsfreq : Z;
  gcallback : bool;
  sph_formulation : SPHFormulation;
  visctype : ViscosityType;
  boundarytype : BoundaryType;
  simflags : list simflag;
  numbodies : Z;
  numforcesbodies : Z;
  numOpenBoundaries : Z;
  maxneibsnum : Z;
  gage : list double4
}.

Definition set_gage (v : list double4) (sp : SimParams) : SimParams :=
  {| buildneibsfreq := buildneibsfreq sp; gcallback := gcallback sp;
     sph_formulation := sph_formulation sp; visctype := visctype sp;
     boundarytype := boundarytype sp; simflags := simflags sp; numbodies := numbodies sp;
     numforcesbodies := numforcesbodies sp; numOpenBoundaries := numOpenBoundaries sp;
     maxneibsnum := maxneibsnum sp; gage := v |}.

(** [simflags & bit] used as a condition. *)
Definition has_simflag (sp : SimParams) (bit : simflag) : bool :=
  bool_decide (bit ∈ simflags sp).

(** [gdata->clOptions]. *)
Record Options : Type := {
  striping : bool;
  maxiter : Z;
  nosave : bool;
  no_leak_warning : bool;
  resume_fname_empty : bool
}.

(** [gdata->debug]. *)
Record DebugValues : Type := {
  inspect_preforce : bool;
  debug_neibs : bool;
  debug_forces : bool
}.

(** One registered post-processing engine: its type and the buffers it
    reports as updated in place and as written. *)
Record PostProcessEngine : Type := {
  pp_type : Z;
  get_updated_buffers : flag_t;
  get_written_buffers : flag_t
}.

(** [gdata->simframework], as far as the host loop reads it. *)
Record SimFramework : Type := {
  getFilterFreqList : list (Z * Z);
  getPostProcEngines : list PostProcessEngine;
  hasBCEngine : bool;
  get_multi_buffered : flag_t
}.

Record TimingInfo : Type := {
  maxNeibs : Z;
  numInteractions : Z;
  hasTooManyNeibs : Z;
  hasMaxNeibs : Z
}.

Inductive exn : Type :=
| runtime_error (what : string)
| DtZeroException (t dt : float).

(** What the host prints; one constructor per message. *)
Inductive log_msg : Type :=
| LogStatus
| LogDeviceParts (d : nat) (assigned_parts : Z)
| LogSortNotMonotonic (p : nat) (pdev cdev : devcount_t)
| LogSortBadCount (d : nat) (counted expected : Z)
| LogArrayOK
| LogArrayERROR
| LogException (e : exn)
| LogDtUnderEpsilon (dt : float) (iterations : Z)
| LogTimeStill (dt : float) (iterations : Z)
| LogTooManyNeibs (currDevMaxNeibs maxPossibleNeibs iterations : Z)
| LogPossibleCulprit (hasTooManyNeibs hasMaxNeibs : Z)
| LogDuplicateId (iterations : Z) (t : float) (part_id addr part_index : Z)
| LogMissingId (iterations : Z) (t : float) (part_id : Z)
| LogRollCallRecap
| LogRecapDevice (d : nat)
| LogCountChanged (iterations old new : Z)
| LogCapacityExceeded (iterations processCount allocated : Z)
| LogNanPosition (i id pos : Z) (cellHash : nat) (dpos : double4).

(** Calls that leave the host core: the problem, the writers, the
    post-processing engines and the counters of the host object that the
    core only prints. *)
Inductive host_call : Type :=
| CallGravityCallback
| CallBodiesForcesCallback (step : Z)
| CallBodiesTimestep (step : Z)
| CallPostTimestepCallback
| CallHostProcess (filter : Z)
| CallTrackPeakSpeed (max_part_speed : float)
| CallStartWriting (write_flags : flag_t)
| CallWriteWaveGage
| CallWriteObjectForces
| CallWriteObjects
| CallEngineWrite (filter : Z)
| CallWriteEnergy (energy : list double4)
| CallWrite
| CallMarkWritten
| CallFakeMarkWritten
| CallReduceBodiesForces
| CallReduceWaterDepth
| CallRestartCounter.

(** What an observer of the host thread sees, in order.  [EvPost] marks
    the command record having been written, with the value the liveness
    flag had at that moment; [EvBarrier] is one rendezvous, with the
    command record that was in shared state when it was entered. *)
Inductive event : Type :=
| EvPost (cmd : CommandType) (flags : flag_t) (arg : float) (alive : bool)
| EvBarrier (cmd : CommandType) (flags : flag_t) (arg : float)
| EvForceUnlock
| EvLog (m : log_msg)
| EvHost (c : host_call).

(** How a host routine ends: normally, by a C++ exception, or in
    undefined behaviour (an access outside an array, a division by zero). *)
Inductive result (A : Type) : Type :=
| Ret (a : A)
| Throw (e : exn)
| Undefined.
Arguments Ret {A} a.
Arguments Throw {A} e.
Arguments Undefined {A}.

(** ** Host buffers

    [BufferList] maps a buffer key to a host array; the entries are listed
    in iteration order.  Every element is kept as the integer that encodes
    it (a hash, a particle info word, ...). *)

Definition BufferList : Type := list (flag * list Z).

Fixpoint getData (key : flag) (bl : BufferList) : option (list Z) :=
  match bl with
  | [] => None
  | (k, col) :: rest => if decide (k = key) then Some col else getData key rest
  end.

(** The array of a buffer of the list replaced by another. *)
Fixpoint setData (key : flag) (col : list Z) (bl : BufferList) : BufferList :=
  match bl with
  | [] => []
  | (k, c) :: rest =>
      if decide (k = key) then (k, col) :: rest else (k, c) :: setData key col rest
  end.

(** Modelled from the spec: [AbstractBuffer::swap_elements] is declared
    outside the given sources; the spec has it as the swap of the two
    records of one buffer ("swap is a full-record swap across every
    parallel buffer").  Both positions must lie inside the array. *)
Definition swap_elements {A : Type} (idx1 idx2 : nat) (col : list A) : option (list A) :=
  x ← col !! idx1;
  y ← col !! idx2;
  Some (<[idx2 := x]> (<[idx1 := y]> col)).

(** [GPUSPH::particleSwap]: the iterator loop over [gdata->s_hBuffers]. *)
Fixpoint particleSwap (idx1 idx2 : nat) (bl : BufferList) : option BufferList :=
  match bl with
  | [] => Some []
  | (k, col) :: rest =>
      col' ← swap_elements idx1 idx2 col;
      rest' ← particleSwap idx1 idx2 rest;
      Some ((k, col') :: rest')
  end.

(** ** Loops *)

(** [for (uint p = first; p < first + n; p++) body], the body not
    assigning [p]. *)
Fixpoint for_loop {St : Type} (n : nat) (p : nat) (body : nat → St → option St) (s : St) : option St :=
  match n with
  | O => Some s
  | S n' => s' ← body p s; for_loop n' (S p) body s'
  end.

(** [a[i]++] on an array of [uint]. *)
Definition incr (a : list Z) (i : nat) : option (list Z) :=
  x ← a !! i; Some (<[i := wrap32 (x + 1)]> a).

(** [a[i] = v]. *)
Definition store {A : Type} (a : list A) (i : nat) (v : A) : option (list A) :=
  if decide (i < length a)%nat then Some (<[i := v]> a) else None.

Section GPUSPH.

(** The inline helpers of [GlobalData] that decode a device key, the hash
    decoder and the capacity constants are declared outside the given
    sources: they are parameters here. *)
Variables RANK DEVICE GLOBAL_DEVICE_NUM : devcount_t → devcount_t.
Variable cellHashFromParticleHash : Z → nat.
Variables MAX_DEVICES_PER_NODE MAX_NODES_PER_CLUSTER MAX_DEVICES_PER_CLUSTER : nat.
Variable EMPTY_SEGMENT : Z.

(** *** The counting pass (first loop of [sortParticlesByHash]) *)

Record counters : Type := {
  m_hParticleKeys : list devcount_t;
  c_processParticles : list Z;
  particlesPerGlobalDevice : list Z;
  c_hPartsPerDevice : list Z
}.

Definition count_particle (mpi_rank : Z) (s_hDeviceMap : list devcount_t)
    (bl : BufferList) (p : nat) (c : counters) : option counters :=
  hashes ← getData BUFFER_HASH bl;
  h ← hashes !! p;
  whichGlobalDev ← s_hDeviceMap !! cellHashFromParticleHash h;
  ks ← store (m_hParticleKeys c) p whichGlobalDev;
  pp ← incr (c_processParticles c) (RANK whichGlobalDev);
  pg ← incr (particlesPerGlobalDevice c) (GLOBAL_DEVICE_NUM whichGlobalDev);
  pd ← (if decide (Z.of_nat (RANK whichGlobalDev) = mpi_rank)
        then incr (c_hPartsPerDevice c) (DEVICE whichGlobalDev)
        else Some (c_hPartsPerDevice c));
  Some {| m_hParticleKeys := ks; c_processParticles := pp;
          particlesPerGlobalDevice := pg; c_hPartsPerDevice := pd |}.

(** The counters are reset, the key array is allocated, and every
    particle is counted. *)
Definition count_particles (totParticles mpi_rank : Z) (s_hDeviceMap : list devcount_t)
    (bl : BufferList) : option counters :=
  for_loop (Z.to_nat totParticles) 0 (count_particle mpi_rank s_hDeviceMap bl)
    {| m_hParticleKeys := replicate (Z.to_nat totParticles) 0%nat;
       c_processParticles := replicate MAX_NODES_PER_CLUSTER 0;
       particlesPerGlobalDevice := replicate MAX_DEVICES_PER_CLUSTER 0;
       c_hPartsPerDevice := replicate MAX_DEVICES_PER_NODE 0 |}.

(** *** Start offsets (the incremental sum after the counting pass) *)

Definition add_prev_node (processParticles : list Z) (n : nat) (start : list Z) : option (list Z) :=
  s0 ← start !! 0%nat;
  pn ← processParticles !! n;
  Some (<[0%nat := wrap32 (s0 + pn)]> start).

Definition add_prev_device (parts : list Z) (d : nat) (start : list Z) : option (list Z) :=
  sp ← start !! (d - 1)%nat;
  pp ← parts !! (d - 1)%nat;
  store start d (wrap32 (sp + pp)).

(** *** The compaction pass *)

Record cursors : Type := {
  keys : list devcount_t;
  bufs : BufferList;
  leftB : Z;
  rightB : Z;
  nswaps : nat
}.

(** [while (GLOBAL_DEVICE_NUM(m_hParticleKeys[rightB]) != currentGlobalDevice) rightB--;]
    The cursor is unsigned: decrementing it at 0 gives [UINT_MAX], which is
    past the end of any key array, so the next read is out of bounds. *)
Fixpoint scan_right (ks : list devcount_t) (currentGlobalDevice : nat) (r : nat) : option nat :=
  match ks !! r with
  | None => None
  | Some k =>
      if decide (GLOBAL_DEVICE_NUM k = currentGlobalDevice) then Some r
      else match r with
           | O => None
           | S r' => scan_right ks currentGlobalDevice r'
           end
  end.

(** One iteration of [while (leftB < nextBucketBeginsAt)]. *)
Definition place_one (currentGlobalDevice : nat) (s : cursors) : option cursors :=
  k ← keys s !! Z.to_nat (leftB s);
  s1 ← (if decide (GLOBAL_DEVICE_NUM k ≠ currentGlobalDevice) then
          r ← scan_right (keys s) currentGlobalDevice (Z.to_nat (rightB s));
          b' ← particleSwap (Z.to_nat (leftB s)) r (bufs s);
          k' ← swap_elements (Z.to_nat (leftB s)) r (keys s);
          Some {| keys := k'; bufs := b'; leftB := leftB s;
                  rightB := Z.of_nat r; nswaps := S (nswaps s) |}
        else Some s);
  Some {| keys := keys s1; bufs := bufs s1; leftB := wrap32 (leftB s1 + 1);
          rightB := rightB s1; nswaps := nswaps s1 |}.

(** [while (leftB < nextBucketBeginsAt)]: [leftB] grows by one per
    iteration and the bound is fixed, so the loop runs
    [nextBucketBeginsAt - leftB] times (not at all when that is not
    positive). *)
Fixpoint fill_bucket (n : nat) (currentGlobalDevice : nat) (s : cursors) : option cursors :=
  match n with
  | O => Some s
  | S n' => s' ← place_one currentGlobalDevice s; fill_bucket n' currentGlobalDevice s'
  end.

(** The body of the [for] over [currentGlobalDevice]; the state carries
    [nextBucketBeginsAt]. *)
Definition bucket_pass (counts : list Z) (maxIdx : Z) (currentGlobalDevice : nat)
    (st : cursors * Z) : option (cursors * Z) :=
  cnt ← counts !! currentGlobalDevice;
  let nextBucketBeginsAt := wrap32 (st.2 + cnt) in
  let s := st.1 in
  s' ← fill_bucket (Z.to_nat (nextBucketBeginsAt - leftB s)) currentGlobalDevice
         {| keys := keys s; bufs := bufs s; leftB := leftB s;
            rightB := maxIdx; nswaps := nswaps s |};
  Some (s', nextBucketBeginsAt).

Definition compact (totParticles totDevices : Z) (counts : list Z)
    (ks : list devcount_t) (bl : BufferList) : option (cursors * Z) :=
  let maxIdx := wrap32 (totParticles - 1) in
  for_loop (Z.to_nat (wrap32 (totDevices - 1))) 0 (bucket_pass counts maxIdx)
    ({| keys := ks; bufs := bl; leftB := 0; rightB := 0; nswaps := 0 |}, 0).

(** *** The self-check that ends [sortParticlesByHash] *)

Record sort_check : Type := {
  monotonic : bool;
  hcount : list Z;
  check_log : list log_msg
}.

Definition check_particle (mpi_rank : Z) (s_hDeviceMap : list devcount_t)
    (bl : BufferList) (p : nat) (c : sort_check) : option sort_check :=
  hashes ← getData BUFFER_HASH bl;
  h ← hashes !! p;
  cdev ← s_hDeviceMap !! cellHashFromParticleHash h;
  '(mono, log) ←
    match p with
    | O => Some (monotonic c, check_log c)
    | S p' =>
        h' ← hashes !! p';
        pdev ← s_hDeviceMap !! cellHashFromParticleHash h';
        if decide (cdev < pdev)%nat
        then Some (false, check_log c ++ [LogSortNotMonotonic p pdev cdev])
        else Some (monotonic c, check_log c)
    end;
  hc ← (if decide (Z.of_nat (RANK cdev) = mpi_rank)
        then incr (hcount c) (DEVICE cdev)
        else Some (hcount c));
  Some {| monotonic := mono; hcount := hc; check_log := log |}.

(** [for (uint p = 0; p < totParticles && monotonic; p++)] *)
Fixpoint check_particles (n : nat) (p : nat) (mpi_rank : Z) (s_hDeviceMap : list devcount_t)
    (bl : BufferList) (c : sort_check) : option sort_check :=
  match n with
  | O => Some c
  | S n' =>
      if monotonic c then
        c' ← check_particle mpi_rank s_hDeviceMap bl p c;
        check_particles n' (S p) mpi_rank s_hDeviceMap bl c'
      else Some c
  end.

Definition check_count (hc parts : list Z) (d : nat) (st : bool * list log_msg)
    : option (bool * list log_msg) :=
  counted ← hc !! d;
  expected ← parts !! d;
  if decide (counted ≠ expected)
  then Some (false, st.2 ++ [LogSortBadCount d counted expected])
  else Some st.

(** [s_dSegmentsStart[currentDevice][...] = EMPTY_SEGMENT] for the four
    cell types, with the line printed before. *)
Definition init_segments (parts : list Z) (currentDevice : nat)
    (st : list (list Z) * list log_msg) : option (list (list Z) * list log_msg) :=
  assigned_parts ← parts !! currentDevice;
  seg ← store st.1 currentDevice (replicate 4 EMPTY_SEGMENT);
  Some (seg, st.2 ++ [LogDeviceParts currentDevice assigned_parts]).

(** ** Shared state *)

(** Everything outside the host core that the run depends on: device
    memory, the workers' private state, the network, the writers, the
    problem. *)
Context {W : Type}.

Record GlobalData : Type := {
  mpi_rank : Z;
  mpi_nodes : Z;
  devices : Z;
  totDevices : Z;
  allocatedParticles : Z;
  simparams : SimParams;
  clOptions : Options;
  debug : DebugValues;
  simframework : SimFramework;
  totParticles : Z;
  processParticles : list Z;
  s_hPartsPerDevice : list Z;
  s_hStartPerDevice : list Z;
  s_hDeviceMap : list devcount_t;
  s_hBuffers : BufferList;
  s_dSegmentsStart : list (list Z);
  nextCommand : CommandType;
  commandFlags : flag_t;
  extraCommandArg : float;
  keep_going : bool;
  quit_request : bool;
  save_request : bool;
  iterations : Z;
  t : float;
  dt : float;
  dts : list float;
  only_internal : bool;
  particlesCreated : bool;
  particlesCreatedOnNode : list bool;
  createdParticlesIterations : Z;
  timingInfo : list TimingInfo;
  lastGlobalPeakNeibsNum : Z;
  lastGlobalNumInteractions : Z;
  world : W
}.

Definition set_totParticles (v : Z) (g : GlobalData) : GlobalData :=
  {| mpi_rank := mpi_rank g; mpi_nodes := mpi_nodes g; devices := devices g;
     totDevices := totDevices g; allocatedParticles := allocatedParticles g;
     simparams := simparams g; clOptions := clOptions g; debug := debug g;
     simframework := simframework g; totParticles := v; processParticles := processParticles g;
     s_hPartsPerDevice := s_hPartsPerDevice g; s_hStartPerDevice := s_hStartPerDevice g;
     s_hDeviceMap := s_hDeviceMap g; s_hBuffers := s_hBuffers g;
     s_dSegmentsStart := s_dSegmentsStart g; nextCommand := nextCommand g;
     commandFlags := commandFlags g; extraCommandArg := extraCommandArg g;
     keep_going := keep_going g; quit_request := quit_request g; save_request := save_request g;
     iterations := iterations g; t := t g; dt := dt g; dts := dts g;
     only_internal := only_internal g; particlesCreated := particlesCreated g;
     particlesCreatedOnNode := particlesCreatedOnNode g;
     createdParticlesIterations := createdParticlesIterations g; timingInfo := timingInfo g;
     lastGlobalPeakNeibsNum := lastGlobalPeakNeibsNum g;
     lastGlobalNumInteractions := lastGlobalNumInteractions g; world := world g |}.

Definition set_simparams (v : SimParams) (g : GlobalData) : GlobalData :=
  {| mpi_rank := mpi_rank g; mpi_nodes := mpi_nodes g; devices := devices g;
     totDevices := totDevices g; allocatedParticles := allocatedParticles g;
     simparams := v; clOptions := clOptions g; debug := debug g;
     simframework := simframework g; totParticles := totParticles g;
     processParticles := processParticles g; s_hPartsPerDevice := s_hPartsPerDevice g;
     s_hStartPerDevice := s_hStartPerDevice g; s_hDeviceMap := s_hDeviceMap g;
     s_hBuffers := s_hBuffers g; s_dSegmentsStart := s_dSegmentsStart g;
     nextCommand := nextCommand g; commandFlags := commandFlags g;
     extraCommandArg := extraCommandArg g; keep_going := keep_going g;
     quit_request := quit_request g; save_request := save_request g; iterations := iterations g;
     t := t g; dt := dt g; dts := dts g; only_internal := only_internal g;
     particlesCreated := particlesCreated g; particlesCreatedOnNode := particlesCreatedOnNode g;
     createdParticlesIterations := createdParticlesIterations g; timingInfo := timingInfo g;
     lastGlobalPeakNeibsNum := lastGlobalPeakNeibsNum g;
     lastGlobalNumInteractions := lastGlobalNumInteractions g; world := world g |}.

Definition set_processParticles (v : list Z) (g : GlobalData) : GlobalData :=
  {| mpi_rank := mpi_rank g; mpi_nodes := mpi_nodes g; devices := devices g;
     totDevices := totDevices g; allocatedParticles := allocatedParticles g;
     simparams := simparams g; clOptions := clOptions g; debug := debug g;
     simframework := simframework g; totParticles := totParticles g; processParticles := v;
     s_hPartsPerDevice := s_hPartsPerDevice g; s_hStartPerDevice := s_hStartPerDevice g;
     s_hDeviceMap := s_hDeviceMap g; s_hBuffers := s_hBuffers g;
     s_dSegmentsStart := s_dSegmentsStart g; nextCommand := nextCommand g;
     commandFlags := commandFlags g; extraCommandArg := extraCommandArg g;
     keep_going := keep_going g; quit_request := quit_request g; save_request := save_request g;
     iterations := iterations g; t := t g; dt := dt g; dts := dts g;
     only_internal := only_internal g; particlesCreated := particlesCreated g;
     particlesCreatedOnNode := particlesCreatedOnNode g;
     createdParticlesIterations := createdParticlesIterations g; timingInfo := timingInfo g;
     lastGlobalPeakNeibsNum := lastGlobalPeakNeibsNum g;
     lastGlobalNumInteractions := lastGlobalNumInteractions g; world := world g |}.

Definition set_s_hPartsPerDevice (v : list Z) (g : GlobalData) : GlobalData :=
  {| mpi_rank := mpi_rank g; mpi_nodes := mpi_nodes g; devices := devices g;
     totDevices := totDevices g; allocatedParticles := allocatedParticles g;
     simparams := simparams g; clOptions := clOptions g; debug := debug g;
     simframework := simframework g; totParticles := totParticles g;
     processParticles := processParticles g; s_hPartsPerDevice := v;
     s_hStartPerDevice := s_hStartPerDevice g; s_hDeviceMap := s_hDeviceMap g;
     s_hBuffers := s_hBuffers g; s_dSegmentsStart := s_dSegmentsStart g;
     nextCommand := nextCommand g; commandFlags := commandFlags g;
     extraCommandArg := extraCommandArg g; keep_going := keep_going g;
     quit_request := quit_request g; save_request := save_request g; iterations := iterations g;
     t := t g; dt := dt g; dts := dts g; only_internal := only_internal g;
     particlesCreated := particlesCreated g; particlesCreatedOnNode := particlesCreatedOnNode g;
     createdParticlesIterations := createdParticlesIterations g; timingInfo := timingInfo g;
     lastGlobalPeakNeibsNum := lastGlobalPeakNeibsNum g;
     lastGlobalNumInteractions := lastGlobalNumInteractions g; world := world g |}.

Definition set_s_hStartPerDevice (v : list Z) (g : GlobalData) : GlobalData :=
  {| mpi_rank := mpi_rank g; mpi_nodes := mpi_nodes g; devices := devices g;
     totDevices := totDevices g; allocatedParticles := allocatedParticles g;
     simparams := simparams g; clOptions := clOptions g; debug := debug g;
     simframework := simframework g; totParticles := totParticles g;
     processParticles := processParticles g; s_hPartsPerDevice := s_hPartsPerDevice g;
     s_hStartPerDevice := v; s_hDeviceMap := s_hDeviceMap g; s_hBuffers := s_hBuffers g;
     s_dSegmentsStart := s_dSegmentsStart g; nextCommand := nextCommand g;
     commandFlags := commandFlags g; extraCommandArg := extraCommandArg g;
     keep_going := keep_going g; quit_request := quit_request g; save_request := save_request g;
     iterations := iterations g; t := t g; dt := dt g; dts := dts g;
     only_internal := only_internal g; particlesCreated := particlesCreated g;
     particlesCreatedOnNode := particlesCreatedOnNode g;
     createdParticlesIterations := createdParticlesIterations g; timingInfo := timingInfo g;
     lastGlobalPeakNeibsNum := lastGlobalPeakNeibsNum g;
     lastGlobalNumInteractions := lastGlobalNumInteractions g; world := world g |}.

Definition set_s_hBuffers (v : BufferList) (g : GlobalData) : GlobalData :=
  {| mpi_rank := mpi_rank g; mpi_nodes := mpi_nodes g; devices := devices g;
     totDevices := totDevices g; allocatedParticles := allocatedParticles g;
     simparams := simparams g; clOptions := clOptions g; debug := debug g;
     simframework := simframework g; totParticles := totParticles g;
     processParticles := processParticles g; s_hPartsPerDevice := s_hPartsPerDevice g;
     s_hStartPerDevice := s_hStartPerDevice g; s_hDeviceMap := s_hDeviceMap g; s_hBuffers := v;
     s_dSegmentsStart := s_dSegmentsStart g; nextCommand := nextCommand g;
     commandFlags := commandFlags g; extraCommandArg := extraCommandArg g;
     keep_going := keep_going g; quit_request := quit_request g; save_request := save_request g;
     iterations := iterations g; t := t g; dt := dt g; dts := dts g;
     only_internal := only_internal g; particlesCreated := particlesCreated g;
     particlesCreatedOnNode := particlesCreatedOnNode g;
     createdParticlesIterations := createdParticlesIterations g; timingInfo := timingInfo g;
     lastGlobalPeakNeibsNum := lastGlobalPeakNeibsNum g;
     lastGlobalNumInteractions := lastGlobalNumInteractions g; world := world g |}.

Definition set_s_dSegmentsStart (v : list (list Z)) (g : GlobalData) : GlobalData :=
  {| mpi_rank := mpi_rank g; mpi_nodes := mpi_nodes g; devices := devices g;
     totDevices := totDevices g; allocatedParticles := allocatedParticles g;
     simparams := simparams g; clOptions := clOptions g; debug := debug g;
     simframework := simframework g; totParticles := totParticles g;
     processParticles := processParticles g; s_hPartsPerDevice := s_hPartsPerDevice g;
     s_hStartPerDevice := s_hStartPerDevice g; s_hDeviceMap := s_hDeviceMap g;
     s_hBuffers := s_hBuffers g; s_dSegmentsStart := v; nextCommand := nextCommand g;
     commandFlags := commandFlags g; extraCommandArg := extraCommandArg g;
     keep_going := keep_going g; quit_request := quit_request g; save_request := save_request g;
     iterations := iterations g; t := t g; dt := dt g; dts := dts g;
     only_internal := only_internal g; particlesCreated := particlesCreated g;
     particlesCreatedOnNode := particlesCreatedOnNode g;
     createdParticlesIterations := createdParticlesIterations g; timingInfo := timingInfo g;
     lastGlobalPeakNeibsNum := lastGlobalPeakNeibsNum g;
     lastGlobalNumInteractions := lastGlobalNumInteractions g; world := world g |}.

Definition set_nextCommand (v : CommandType) (g : GlobalData) : GlobalData :=
  {| mpi_rank := mpi_rank g; mpi_nodes := mpi_nodes g; devices := devices g;
     totDevices := totDevices g; allocatedParticles := allocatedParticles g;
     simparams := simparams g; clOptions := clOptions g; debug := debug g;
     simframework := simframework g; totParticles := totParticles g;
     processParticles := processParticles g; s_hPartsPerDevice := s_hPartsPerDevice g;
     s_hStartPerDevice := s_hStartPerDevice g; s_hDeviceMap := s_hDeviceMap g;
     s_hBuffers := s_hBuffers g; s_dSegmentsStart := s_dSegmentsStart g; nextCommand := v;
     commandFlags := commandFlags g; extraCommandArg := extraCommandArg g;
     keep_going := keep_going g; quit_request := quit_request g; save_request := save_request g;
     iterations := iterations g; t := t g; dt := dt g; dts := dts g;
     only_internal := only_internal g; particlesCreated := particlesCreated g;
     particlesCreatedOnNode := particlesCreatedOnNode g;
     createdParticlesIterations := createdParticlesIterations g; timingInfo := timingInfo g;
     lastGlobalPeakNeibsNum := lastGlobalPeakNeibsNum g;
     lastGlobalNumInteractions := lastGlobalNumInteractions g; world := world g |}.

Definition set_commandFlags (v : flag_t) (g : GlobalData) : GlobalData :=
  {| mpi_rank := mpi_rank g; mpi_nodes := mpi_nodes g; devices := devices g;
     totDevices := totDevices g; allocatedParticles := allocatedParticles g;
     simparams := simparams g; clOptions := clOptions g; debug := debug g;
     simframework := simframework g; totParticles := totParticles g;
     processParticles := processParticles g; s_hPartsPerDevice := s_hPartsPerDevice g;
     s_hStartPerDevice := s_hStartPerDevice g; s_hDeviceMap := s_hDeviceMap g;
     s_hBuffers := s_hBuffers g; s_dSegmentsStart := s_dSegmentsStart g;
     nextCommand := nextCommand g; commandFlags := v; extraCommandArg := extraCommandArg g;
     keep_going := keep_going g; quit_request := quit_request g; save_request := save_request g;
     iterations := iterations g; t := t g; dt := dt g; dts := dts g;
     only_internal := only_internal g; particlesCreated := particlesCreated g;
     particlesCreatedOnNode := particlesCreatedOnNode g;
     createdParticlesIterations := createdParticlesIterations g; timingInfo := timingInfo g;
     lastGlobalPeakNeibsNum := lastGlobalPeakNeibsNum g;
     lastGlobalNumInteractions := lastGlobalNumInteractions g; world := world g |}.

Definition set_extraCommandArg (v : float) (g : GlobalData) : GlobalData :=
  {| mpi_rank := mpi_rank g; mpi_nodes := mpi_nodes g; devices := devices g;
     totDevices := totDevices g; allocatedParticles := allocatedParticles g;
     simparams := simparams g; clOptions := clOptions g; debug := debug g;
     simframework := simframework g; totParticles := totParticles g;
     processParticles := processParticles g; s_hPartsPerDevice := s_hPartsPerDevice g;
     s_hStartPerDevice := s_hStartPerDevice g; s_hDeviceMap := s_hDeviceMap g;
     s_hBuffers := s_hBuffers g; s_dSegmentsStart := s_dSegmentsStart g;
     nextCommand := nextCommand g; commandFlags := commandFlags g; extraCommandArg := v;
     keep_going := keep_going g; quit_request := quit_request g; save_request := save_request g;
     iterations := iterations g; t := t g; dt := dt g; dts := dts g;
     only_internal := only_internal g; particlesCreated := particlesCreated g;
     particlesCreatedOnNode := particlesCreatedOnNode g;
     createdParticlesIterations := createdParticlesIterations g; timingInfo := timingInfo g;
     lastGlobalPeakNeibsNum := lastGlobalPeakNeibsNum g;
     lastGlobalNumInteractions := lastGlobalNumInteractions g; world := world g |}.

Definition set_keep_going (v : bool) (g : GlobalData) : GlobalData :=
  {| mpi_rank := mpi_rank g; mpi_nodes := mpi_nodes g; devices := devices g;
     totDevices := totDevices g; allocatedParticles := allocatedParticles g;
     simparams := simparams g; clOptions := clOptions g; debug := debug g;
     simframework := simframework g; totParticles := totParticles g;
     processParticles := processParticles g; s_hPartsPerDevice := s_hPartsPerDevice g;
     s_hStartPerDevice := s_hStartPerDevice g; s_hDeviceMap := s_hDeviceMap g;
     s_hBuffers := s_hBuffers g; s_dSegmentsStart := s_dSegmentsStart g;
     nextCommand := nextCommand g; commandFlags := commandFlags g;
     extraCommandArg := extraCommandArg g; keep_going := v; quit_request := quit_request g;
     save_request := save_request g; iterations := iterations g; t := t g; dt := dt g;
     dts := dts g; only_internal := only_internal g; particlesCreated := particlesCreated g;
     particlesCreatedOnNode := particlesCreatedOnNode g;
     createdParticlesIterations := createdParticlesIterations g; timingInfo := timingInfo g;
     lastGlobalPeakNeibsNum := lastGlobalPeakNeibsNum g;
     lastGlobalNumInteractions := lastGlobalNumInteractions g; world := world g |}.

Definition set_quit_request (v : bool) (g : GlobalData) : GlobalData :=
  {| mpi_rank := mpi_rank g; mpi_nodes := mpi_nodes g; devices := devices g;
     totDevices := totDevices g; allocatedParticles := allocatedParticles g;
     simparams := simparams g; clOptions := clOptions g; debug := debug g;
     simframework := simframework g; totParticles := totParticles g;
     processParticles := processParticles g; s_hPartsPerDevice := s_hPartsPerDevice g;
     s_hStartPerDevice := s_hStartPerDevice g; s_hDeviceMap := s_hDeviceMap g;
     s_hBuffers := s_hBuffers g; s_dSegmentsStart := s_dSegmentsStart g;
     nextCommand := nextCommand g; commandFlags := commandFlags g;
     extraCommandArg := extraCommandArg g; keep_going := keep_going g; quit_request := v;
     save_request := save_request g; iterations := iterations g; t := t g; dt := dt g;
     dts := dts g; only_internal := only_internal g; particlesCreated := particlesCreated g;
     particlesCreatedOnNode := particlesCreatedOnNode g;
     createdParticlesIterations := createdParticlesIterations g; timingInfo := timingInfo g;
     lastGlobalPeakNeibsNum := lastGlobalPeakNeibsNum g;
     lastGlobalNumInteractions := lastGlobalNumInteractions g; world := world g |}.

Definition set_save_request (v : bool) (g : GlobalData) : GlobalData :=
  {| mpi_rank := mpi_rank g; mpi_nodes := mpi_nodes g; devices := devices g;
     totDevices := totDevices g; allocatedParticles := allocatedParticles g;
     simparams := simparams g; clOptions := clOptions g; debug := debug g;
     simframework := simframework g; totParticles := totParticles g;
     processParticles := processParticles g; s_hPartsPerDevice := s_hPartsPerDevice g;
     s_hStartPerDevice := s_hStartPerDevice g; s_hDeviceMap := s_hDeviceMap g;
     s_hBuffers := s_hBuffers g; s_dSegmentsStart := s_dSegmentsStart g;
     nextCommand := nextCommand g; commandFlags := commandFlags g;
     extraCommandArg := extraCommandArg g; keep_going := keep_going g;
     quit_request := quit_request g; save_request := v; iterations := iterations g; t := t g;
     dt := dt g; dts := dts g; only_internal := only_internal g;
     particlesCreated := particlesCreated g; particlesCreatedOnNode := particlesCreatedOnNode g;
     createdParticlesIterations := createdParticlesIterations g; timingInfo := timingInfo g;
     lastGlobalPeakNeibsNum := lastGlobalPeakNeibsNum g;
     lastGlobalNumInteractions := lastGlobalNumInteractions g; world := world g |}.

Definition set_iterations (v : Z) (g : GlobalData) : GlobalData :=
  {| mpi_rank := mpi_rank g; mpi_nodes := mpi_nodes g; devices := devices g;
     totDevices := totDevices g; allocatedParticles := allocatedParticles g;
     simparams := simparams g; clOptions := clOptions g; debug := debug g;
     simframework := simframework g; totParticles := totParticles g;
     processParticles := processParticles g; s_hPartsPerDevice := s_hPartsPerDevice g;
     s_hStartPerDevice := s_hStartPerDevice g; s_hDeviceMap := s_hDeviceMap g;
     s_hBuffers := s_hBuffers g; s_dSegmentsStart := s_dSegmentsStart g;
     nextCommand := nextCommand g; commandFlags := commandFlags g;
     extraCommandArg := extraCommandArg g; keep_going := keep_going g;
     quit_request := quit_request g; save_request := save_request g; iterations := v; t := t g;
     dt := dt g; dts := dts g; only_internal := only_internal g;
     particlesCreated := particlesCreated g; particlesCreatedOnNode := particlesCreatedOnNode g;
     createdParticlesIterations := createdParticlesIterations g; timingInfo := timingInfo g;
     lastGlobalPeakNeibsNum := lastGlobalPeakNeibsNum g;
     lastGlobalNumInteractions := lastGlobalNumInteractions g; world := world g |}.

Definition set_t (v : float) (g : GlobalData) : GlobalData :=
  {| mpi_rank := mpi_rank g; mpi_nodes := mpi_nodes g; devices := devices g;
     totDevices := totDevices g; allocatedParticles := allocatedParticles g;
     simparams := simparams g; clOptions := clOptions g; debug := debug g;
     simframework := simframework g; totParticles := totParticles g;
     processParticles := processParticles g; s_hPartsPerDevice := s_hPartsPerDevice g;
     s_hStartPerDevice := s_hStartPerDevice g; s_hDeviceMap := s_hDeviceMap g;
     s_hBuffers := s_hBuffers g; s_dSegmentsStart := s_dSegmentsStart g;
     nextCommand := nextCommand g; commandFlags := commandFlags g;
     extraCommandArg := extraCommandArg g; keep_going := keep_going g;
     quit_request := quit_request g; save_request := save_request g; iterations := iterations g;
     t := v; dt := dt g; dts := dts g; only_internal := only_internal g;
     particlesCreated := particlesCreated g; particlesCreatedOnNode := particlesCreatedOnNode g;
     createdParticlesIterations := createdParticlesIterations g; timingInfo := timingInfo g;
     lastGlobalPeakNeibsNum := lastGlobalPeakNeibsNum g;
     lastGlobalNumInteractions := lastGlobalNumInteractions g; world := world g |}.

Definition set_dt (v : float) (g : GlobalData) : GlobalData :=
  {| mpi_rank := mpi_rank g; mpi_nodes := mpi_nodes g; devices := devices g;
     totDevices := totDevices g; allocatedParticles := allocatedParticles g;
     simparams := simparams g; clOptions := clOptions g; debug := debug g;
     simframework := simframework g; totParticles := totParticles g;
     processParticles := processParticles g; s_hPartsPerDevice := s_hPartsPerDevice g;
     s_hStartPerDevice := s_hStartPerDevice g; s_hDeviceMap := s_hDeviceMap g;
     s_hBuffers := s_hBuffers g; s_dSegmentsStart := s_dSegmentsStart g;
     nextCommand := nextCommand g; commandFlags := commandFlags g;
     extraCommandArg := extraCommandArg g; keep_going := keep_going g;
     quit_request := quit_request g; save_request := save_request g; iterations := iterations g;
     t := t g; dt := v; dts := dts g; only_internal := only_internal g;
     particlesCreated := particlesCreated g; particlesCreatedOnNode := particlesCreatedOnNode g;
     createdParticlesIterations := createdParticlesIterations g; timingInfo := timingInfo g;
     lastGlobalPeakNeibsNum := lastGlobalPeakNeibsNum g;
     lastGlobalNumInteractions := lastGlobalNumInteractions g; world := world g |}.

Definition set_dts (v : list float) (g : GlobalData) : GlobalData :=
  {| mpi_rank := mpi_rank g; mpi_nodes := mpi_nodes g; devices := devices g;
     totDevices := totDevices g; allocatedParticles := allocatedParticles g;
     simparams := simparams g; clOptions := clOptions g; debug := debug g;
     simframework := simframework g; totParticles := totParticles g;
     processParticles := processParticles g; s_hPartsPerDevice := s_hPartsPerDevice g;
     s_hStartPerDevice := s_hStartPerDevice g; s_hDeviceMap := s_hDeviceMap g;
     s_hBuffers := s_hBuffers g; s_dSegmentsStart := s_dSegmentsStart g;
     nextCommand := nextCommand g; commandFlags := commandFlags g;
     extraCommandArg := extraCommandArg g; keep_going := keep_going g;
     quit_request := quit_request g; save_request := save_request g; iterations := iterations g;
     t := t g; dt := dt g; dts := v; only_internal := only_internal g;
     particlesCreated := particlesCreated g; particlesCreatedOnNode := particlesCreatedOnNode g;
     createdParticlesIterations := createdParticlesIterations g; timingInfo := timingInfo g;
     lastGlobalPeakNeibsNum := lastGlobalPeakNeibsNum g;
     lastGlobalNumInteractions := lastGlobalNumInteractions g; world := world g |}.

Definition set_only_internal (v : bool) (g : GlobalData) : GlobalData :=
  {| mpi_rank := mpi_rank g; mpi_nodes := mpi_nodes g; devices := devices g;
     totDevices := totDevices g; allocatedParticles := allocatedParticles g;
     simparams := simparams g; clOptions := clOptions g; debug := debug g;
     simframework := simframework g; totParticles := totParticles g;
     processParticles := processParticles g; s_hPartsPerDevice := s_hPartsPerDevice g;
     s_hStartPerDevice := s_hStartPerDevice g; s_hDeviceMap := s_hDeviceMap g;
     s_hBuffers := s_hBuffers g; s_dSegmentsStart := s_dSegmentsStart g;
     nextCommand := nextCommand g; commandFlags := commandFlags g;
     extraCommandArg := extraCommandArg g; keep_going := keep_going g;
     quit_request := quit_request g; save_request := save_request g; iterations := iterations g;
     t := t g; dt := dt g; dts := dts g; only_internal := v;
     particlesCreated := particlesCreated g; particlesCreatedOnNode := particlesCreatedOnNode g;
     createdParticlesIterations := createdParticlesIterations g; timingInfo := timingInfo g;
     lastGlobalPeakNeibsNum := lastGlobalPeakNeibsNum g;
     lastGlobalNumInteractions := lastGlobalNumInteractions g; world := world g |}.

Definition set_particlesCreated (v : bool) (g : GlobalData) : GlobalData :=
  {| mpi_rank := mpi_rank g; mpi_nodes := mpi_nodes g; devices := devices g;
     totDevices := totDevices g; allocatedParticles := allocatedParticles g;
     simparams := simparams g; clOptions := clOptions g; debug := debug g;
     simframework := simframework g; totParticles := totParticles g;
     processParticles := processParticles g; s_hPartsPerDevice := s_hPartsPerDevice g;
     s_hStartPerDevice := s_hStartPerDevice g; s_hDeviceMap := s_hDeviceMap g;
     s_hBuffers := s_hBuffers g; s_dSegmentsStart := s_dSegmentsStart g;
     nextCommand := nextCommand g; commandFlags := commandFlags g;
     extraCommandArg := extraCommandArg g; keep_going := keep_going g;
     quit_request := quit_request g; save_request := save_request g; iterations := iterations g;
     t := t g; dt := dt g; dts := dts g; only_internal := only_internal g;
     particlesCreated := v; particlesCreatedOnNode := particlesCreatedOnNode g;
     createdParticlesIterations := createdParticlesIterations g; timingInfo := timingInfo g;
     lastGlobalPeakNeibsNum := lastGlobalPeakNeibsNum g;
     lastGlobalNumInteractions := lastGlobalNumInteractions g; world := world g |}.

Definition set_particlesCreatedOnNode (v : list bool) (g : GlobalData) : GlobalData :=
  {| mpi_rank := mpi_rank g; mpi_nodes := mpi_nodes g; devices := devices g;
     totDevices := totDevices g; allocatedParticles := allocatedParticles g;
     simparams := simparams g; clOptions := clOptions g; debug := debug g;
     simframework := simframework g; totParticles := totParticles g;
     processParticles := processParticles g; s_hPartsPerDevice := s_hPartsPerDevice g;
     s_hStartPerDevice := s_hStartPerDevice g; s_hDeviceMap := s_hDeviceMap g;
     s_hBuffers := s_hBuffers g; s_dSegmentsStart := s_dSegmentsStart g;
     nextCommand := nextCommand g; commandFlags := commandFlags g;
     extraCommandArg := extraCommandArg g; keep_going := keep_going g;
     quit_request := quit_request g; save_request := save_request g; iterations := iterations g;
     t := t g; dt := dt g; dts := dts g; only_internal := only_internal g;
     particlesCreated := particlesCreated g; particlesCreatedOnNode := v;
     createdParticlesIterations := createdParticlesIterations g; timingInfo := timingInfo g;
     lastGlobalPeakNeibsNum := lastGlobalPeakNeibsNum g;
     lastGlobalNumInteractions := lastGlobalNumInteractions g; world := world g |}.

Definition set_createdParticlesIterations (v : Z) (g : GlobalData) : GlobalData :=
  {| mpi_rank := mpi_rank g; mpi_nodes := mpi_nodes g; devices := devices g;
     totDevices := totDevices g; allocatedParticles := allocatedParticles g;
     simparams := simparams g; clOptions := clOptions g; debug := debug g;
     simframework := simframework g; totParticles := totParticles g;
     processParticles := processParticles g; s_hPartsPerDevice := s_hPartsPerDevice g;
     s_hStartPerDevice := s_hStartPerDevice g; s_hDeviceMap := s_hDeviceMap g;
     s_hBuffers := s_hBuffers g; s_dSegmentsStart := s_dSegmentsStart g;
     nextCommand := nextCommand g; commandFlags := commandFlags g;
     extraCommandArg := extraCommandArg g; keep_going := keep_going g;
     quit_request := quit_request g; save_request := save_request g; iterations := iterations g;
     t := t g; dt := dt g; dts := dts g; only_internal := only_internal g;
     particlesCreated := particlesCreated g; particlesCreatedOnNode := particlesCreatedOnNode g;
     createdParticlesIterations := v; timingInfo := timingInfo g;
     lastGlobalPeakNeibsNum := lastGlobalPeakNeibsNum g;
     lastGlobalNumInteractions := lastGlobalNumInteractions g; world := world g |}.

Definition set_timingInfo (v : list TimingInfo) (g : GlobalData) : GlobalData :=
  {| mpi_rank := mpi_rank g; mpi_nodes := mpi_nodes g; devices := devices g;
     totDevices := totDevices g; allocatedParticles := allocatedParticles g;
     simparams := simparams g; clOptions := clOptions g; debug := debug g;
     simframework := simframework g; totParticles := totParticles g;
     processParticles := processParticles g; s_hPartsPerDevice := s_hPartsPerDevice g;
     s_hStartPerDevice := s_hStartPerDevice g; s_hDeviceMap := s_hDeviceMap g;
     s_hBuffers := s_hBuffers g; s_dSegmentsStart := s_dSegmentsStart g;
     nextCommand := nextCommand g; commandFlags := commandFlags g;
     extraCommandArg := extraCommandArg g; keep_going := keep_going g;
     quit_request := quit_request g; save_request := save_request g; iterations := iterations g;
     t := t g; dt := dt g; dts := dts g; only_internal := only_internal g;
     particlesCreated := particlesCreated g; particlesCreatedOnNode := particlesCreatedOnNode g;
     createdParticlesIterations := createdParticlesIterations g; timingInfo := v;
     lastGlobalPeakNeibsNum := lastGlobalPeakNeibsNum g;
     lastGlobalNumInteractions := lastGlobalNumInteractions g; world := world g |}.

Definition set_lastGlobalPeakNeibsNum (v : Z) (g : GlobalData) : GlobalData :=
  {| mpi_rank := mpi_rank g; mpi_nodes := mpi_nodes g; devices := devices g;
     totDevices := totDevices g; allocatedParticles := allocatedParticles g;
     simparams := simparams g; clOptions := clOptions g; debug := debug g;
     simframework := simframework g; totParticles := totParticles g;
     processParticles := processParticles g; s_hPartsPerDevice := s_hPartsPerDevice g;
     s_hStartPerDevice := s_hStartPerDevice g; s_hDeviceMap := s_hDeviceMap g;
     s_hBuffers := s_hBuffers g; s_dSegmentsStart := s_dSegmentsStart g;
     nextCommand := nextCommand g; commandFlags := commandFlags g;
     extraCommandArg := extraCommandArg g; keep_going := keep_going g;
     quit_request := quit_request g; save_request := save_request g; iterations := iterations g;
     t := t g; dt := dt g; dts := dts g; only_internal := only_internal g;
     particlesCreated := particlesCreated g; particlesCreatedOnNode := particlesCreatedOnNode g;
     createdParticlesIterations := createdParticlesIterations g; timingInfo := timingInfo g;
     lastGlobalPeakNeibsNum := v; lastGlobalNumInteractions := lastGlobalNumInteractions g;
     world := world g |}.

Definition set_lastGlobalNumInteractions (v : Z) (g : GlobalData) : GlobalData :=
  {| mpi_rank := mpi_rank g; mpi_nodes := mpi_nodes g; devices := devices g;
     totDevices := totDevices g; allocatedParticles := allocatedParticles g;
     simparams := simparams g; clOptions := clOptions g; debug := debug g;
     simframework := simframework g; totParticles := totParticles g;
     processParticles := processParticles g; s_hPartsPerDevice := s_hPartsPerDevice g;
     s_hStartPerDevice := s_hStartPerDevice g; s_hDeviceMap := s_hDeviceMap g;
     s_hBuffers := s_hBuffers g; s_dSegmentsStart := s_dSegmentsStart g;
     nextCommand := nextCommand g; commandFlags := commandFlags g;
     extraCommandArg := extraCommandArg g; keep_going := keep_going g;
     quit_request := quit_request g; save_request := save_request g; iterations := iterations g;
     t := t g; dt := dt g; dts := dts g; only_internal := only_internal g;
     particlesCreated := particlesCreated g; particlesCreatedOnNode := particlesCreatedOnNode g;
     createdParticlesIterations := createdParticlesIterations g; timingInfo := timingInfo g;
     lastGlobalPeakNeibsNum := lastGlobalPeakNeibsNum g; lastGlobalNumInteractions := v;
     world := world g |}.

Definition set_world (v : W) (g : GlobalData) : GlobalData :=
  {| mpi_rank := mpi_rank g; mpi_nodes := mpi_nodes g; devices := devices g;
     totDevices := totDevices g; allocatedParticles := allocatedParticles g;
     simparams := simparams g; clOptions := clOptions g; debug := debug g;
     simframework := simframework g; totParticles := totParticles g;
     processParticles := processParticles g; s_hPartsPerDevice := s_hPartsPerDevice g;
     s_hStartPerDevice := s_hStartPerDevice g; s_hDeviceMap := s_hDeviceMap g;
     s_hBuffers := s_hBuffers g; s_dSegmentsStart := s_dSegmentsStart g;
     nextCommand := nextCommand g; commandFlags := commandFlags g;
     extraCommandArg := extraCommandArg g; keep_going := keep_going g;
     quit_request := quit_request g; save_request := save_request g; iterations := iterations g;
     t := t g; dt := dt g; dts := dts g; only_internal := only_internal g;
     particlesCreated := particlesCreated g; particlesCreatedOnNode := particlesCreatedOnNode g;
     createdParticlesIterations := createdParticlesIterations g; timingInfo := timingInfo g;
     lastGlobalPeakNeibsNum := lastGlobalPeakNeibsNum g;
     lastGlobalNumInteractions := lastGlobalNumInteractions g; world := v |}.

(** Modelled from the spec: the macros [MULTI_NODE], [SINGLE_NODE],
    [MULTI_GPU] and [MULTI_DEVICE] come from GlobalData.h, which is outside
    the given sources.  The spec speaks of single-node, multi-node and
    multi-device mode: more than one node process, respectively more than
    one device in the node or more than one node. *)
Definition MULTI_NODE (g : GlobalData) : bool := 1 <? mpi_nodes g.
Definition SINGLE_NODE (g : GlobalData) : bool := negb (MULTI_NODE g).
Definition MULTI_GPU (g : GlobalData) : bool := 1 <? devices g.
Definition MULTI_DEVICE (g : GlobalData) : bool := MULTI_GPU g || MULTI_NODE g.

(** Modelled from the spec: the Worker Unit is an external collaborator
    that "executes whatever command is currently posted in Shared State and
    reports completion/failure at the next barrier".  What the workers
    write into shared state while the host waits in a barrier is the
    record below: a failure report (which clears the liveness flag), the
    per-device results, the host buffers they dump into, and their own
    world.  Command fields and partition ranges are host-written only. *)
Record WorkerWrites : Type := {
  failed : bool;
  w_quit_request : bool;
  w_dts : list float;
  w_particlesCreatedOnNode : list bool;
  w_timingInfo : list TimingInfo;
  w_s_hBuffers : BufferList;
  w_world : W
}.

(** ** The environment of the host core *)

Variable workers : GlobalData → WorkerWrites.
(** [gdata->GPUWORKERS[d]->getNumInternalParticles()] *)
Variable getNumInternalParticles : W → nat → Z.
(** [networkManager->allGatherUints(&processCount, processParticles)]:
    the array after the gather. *)
Variable allGatherUints : W → Z → list Z → list Z.
Variable networkBoolReduction : W → bool → bool.
(** [networkFloatReduction(&dt, 1, MIN_REDUCTION)] *)
Variable networkFloatReduction_min : W → float → float.
Variable problem_finished : W → float → bool.
Variable problem_need_write : W → float → bool.
(** [Writer::NeedWrite(t)]: the write frequencies of the writers that are
    due. *)
Variable Writer_NeedWrite : W → float → list float.
(** The effect of a call that leaves the host core on the world. *)
Variable host : host_call → GlobalData → W.
(** [id(info)]: the identity stored in a particle info word. *)
Variable particle_id : Z → Z.
(** The default of [doCommand]'s scalar argument (declared in GPUSPH.h). *)
Variable default_arg : float.
(** [float(filter)]: an enumerator converted to [float]. *)
Variable float_of_enum : Z → float.
(** [networkFloatReduction(&x, 1, MAX_REDUCTION)] *)
Variable networkFloatReduction_max : W → float → float.
(** The position of a particle in the world, in double precision, from
    the hash of its cell and its position record:
    [make_double4(calcGlobalPosOffset(calcGridPosFromCellHash(cellHash),
    as_float3(pos)) + wo, pos.w)], [wo] being the world origin of the
    problem.  The helpers are declared outside the given sources. *)
Variable global_position : W → nat → Z → double4.
(** The integer that stands for a [double4] in a host buffer. *)
Variable word_of_double4 : double4 → Z.
(** [SURFACE(info)], [FLUID(info)], [fluid_num(info)] and
    [MAX_FLUID_TYPES], from particledefine.h. *)
Variables SURFACE FLUID : Z → bool.
Variable fluid_num : Z → nat.
Variable MAX_FLUID_TYPES : nat.
(** The energies of a particle, from its position in the world, its
    velocity record and its internal energy:
    [dpos.w*make_double4(sqlength3(vel)/2, -dot3(dpos, gravity), intEnergy, 0)],
    with the gravity of the problem. *)
Variable particle_energies : W → double4 → Z → Z → double4.
(** [length(as_float3(vel))] *)
Variable particle_speed : Z → float.

Definition apply_workers (g : GlobalData) : GlobalData :=
  let w := workers g in
  set_keep_going (keep_going g && negb (failed w))
    (set_quit_request (quit_request g || w_quit_request w)
      (set_dts (w_dts w)
        (set_particlesCreatedOnNode (w_particlesCreatedOnNode w)
          (set_timingInfo (w_timingInfo w)
            (set_s_hBuffers (w_s_hBuffers w)
              (set_world (w_world w) g)))))).

(** ** The host object and the command monad *)

(** The [GPUSPH] singleton: the shared state it points to, its roll-call
    arrays, and the record of what it did. *)
Record GPUSPH : Type := {
  gdata : GlobalData;
  initialized : bool;
  m_rcBitmap : list bool;
  m_rcNotified : list bool;
  m_rcAddrs : list Z;
  trace : list event
}.

Definition set_gdata (g : GlobalData) (s : GPUSPH) : GPUSPH :=
  {| gdata := g; initialized := initialized s; m_rcBitmap := m_rcBitmap s;
     m_rcNotified := m_rcNotified s; m_rcAddrs := m_rcAddrs s; trace := trace s |}.

Definition add_trace (es : list event) (s : GPUSPH) : GPUSPH :=
  {| gdata := gdata s; initialized := initialized s; m_rcBitmap := m_rcBitmap s;
     m_rcNotified := m_rcNotified s; m_rcAddrs := m_rcAddrs s; trace := trace s ++ es |}.

Definition set_rollcall (bitmap notified : list bool) (addrs : list Z) (s : GPUSPH) : GPUSPH :=
  {| gdata := gdata s; initialized := initialized s; m_rcBitmap := bitmap;
     m_rcNotified := notified; m_rcAddrs := addrs; trace := trace s |}.

Definition M (A : Type) : Type := GPUSPH → result A * GPUSPH.

Definition ret {A : Type} (a : A) : M A := λ s, (Ret a, s).

Definition bind {A B : Type} (m : M A) (k : A → M B) : M B :=
  λ s, match m s with
       | (Ret a, s') => k a s'
       | (Throw e, s') => (Throw e, s')
       | (Undefined, s') => (Undefined, s')
       end.

Declare Scope M_scope.
Notation "x <- y ; z" := (bind y (λ x, z))
  (at level 20, y at level 100, z at level 200, only parsing) : M_scope.
Notation "' x <- y ; z" := (bind y (λ x, z))
  (at level 20, x pattern, y at level 100, z at level 200, only parsing) : M_scope.
Notation "y ;; z" := (bind y (λ _, z))
  (at level 100, z at level 200, only parsing, right associativity) : M_scope.
Local Open Scope M_scope.

Definition throw {A : Type} (e : exn) : M A := λ s, (Throw e, s).
Definition undefined {A : Type} : M A := λ s, (Undefined, s).

Definition lift_option {A : Type} (o : option A) : M A :=
  match o with Some a => ret a | None => undefined end.

(** [try { m } catch (exception &e) { h e }] *)
Definition try_catch (m : M unit) (h : exn → M unit) : M unit :=
  λ s, match m s with
       | (Throw e, s') => h e s'
       | r => r
       end.

Definition read {A : Type} (f : GlobalData → A) : M A := λ s, (Ret (f (gdata s)), s).

Definition upd (f : GlobalData → GlobalData) : M unit :=
  λ s, (Ret tt, set_gdata (f (gdata s)) s).

Definition emit (e : event) : M unit := λ s, (Ret tt, add_trace [e] s).

Definition log (m : log_msg) : M unit := emit (EvLog m).

Definition when (b : bool) (m : M unit) : M unit := if b then m else ret tt.

Fixpoint for_each {A : Type} (l : list A) (body : A → M unit) : M unit :=
  match l with
  | [] => ret tt
  | x :: l' => body x;; for_each l' body
  end.

(** A call that leaves the host core: recorded, and the world moves on. *)
Definition call (c : host_call) : M unit :=
  g <- read (λ g, g);
  emit (EvHost c);;
  upd (set_world (host c g)).

(** [a % b] on unsigned operands; dividing by zero is undefined. *)
Definition umod (a b : Z) : M Z :=
  if decide (b = 0) then undefined else ret (a mod b).

(** An [int] used as an array index. *)
Definition index (i : Z) : option nat :=
  if decide (0 ≤ i) then Some (Z.to_nat i) else None.

(** ** [GPUSPH::sortParticlesByHash] *)

(** The whole routine as a function of the shared state: the new state,
    the number of calls to [particleSwap], and what was printed.  [None]
    is an access outside an array. *)
Definition sortParticlesByHash_pure (g : GlobalData) : option (GlobalData * nat * list log_msg) :=
  c ← count_particles (totParticles g) (mpi_rank g) (s_hDeviceMap g) (s_hBuffers g);
  st0 ← store (s_hStartPerDevice g) 0%nat 0;
  st1 ← (if MULTI_NODE g
         then for_loop (Z.to_nat (mpi_rank g)) 0 (add_prev_node (c_processParticles c)) st0
         else Some st0);
  st2 ← for_loop (Z.to_nat (devices g - 1)) 1 (add_prev_device (c_hPartsPerDevice c)) st1;
  r ← compact (totParticles g) (totDevices g) (particlesPerGlobalDevice c)
        (m_hParticleKeys c) (s_hBuffers g);
  seg ← for_loop (Z.to_nat (devices g)) 0 (init_segments (c_hPartsPerDevice c))
          (s_dSegmentsStart g, []);
  chk ← check_particles (Z.to_nat (totParticles g)) 0 (mpi_rank g) (s_hDeviceMap g)
          (bufs r.1)
          {| monotonic := true; hcount := replicate MAX_DEVICES_PER_NODE 0; check_log := [] |};
  cc ← for_loop (Z.to_nat (devices g)) 0 (check_count (hcount chk) (c_hPartsPerDevice c))
         (true, check_log chk);
  Some (set_s_hPartsPerDevice (c_hPartsPerDevice c)
          (set_processParticles (c_processParticles c)
            (set_s_hStartPerDevice st2
              (set_s_hBuffers (bufs r.1)
                (set_s_dSegmentsStart seg.1 g)))),
        nswaps r.1,
        seg.2 ++ cc.2 ++ [if monotonic chk && cc.1 then LogArrayOK else LogArrayERROR]).

Definition sortParticlesByHash : M unit :=
  g <- read (λ g, g);
  '(g', _, logs) <- lift_option (sortParticlesByHash_pure g);
  upd (λ _, g');;
  for_each logs log.

(** ** The synchronizer and [GPUSPH::doCommand] *)

(** [threadSynchronizer->barrier()]: one rendezvous.  The workers run
    while the host waits in it. *)
Definition barrier : M unit :=
  g <- read (λ g, g);
  emit (EvBarrier (nextCommand g) (commandFlags g) (extraCommandArg g));;
  upd apply_workers.

(** [threadSynchronizer->forceUnlock()] *)
Definition forceUnlock : M unit := emit EvForceUnlock.

(** The message of the exception [doCommand] throws. *)
Definition aborted_by_worker : exn := runtime_error "GPUSPH aborted by worker thread".

Definition doCommand (cmd : CommandType) (flags : flag_t) (arg : float) : M unit :=
  upd (set_nextCommand cmd);;
  upd (set_commandFlags flags);;
  upd (set_extraCommandArg arg);;
  alive <- read keep_going;
  emit (EvPost cmd flags arg alive);;
  barrier;;
  barrier;;
  alive' <- read keep_going;
  if alive' then ret tt
  else throw aborted_by_worker.

(** ** [GPUSPH::rollCallParticles] *)

Definition WARN_EVERY_TIME : bool := false.

Record rollcall : Type := {
  rc_bitmap : list bool;
  rc_notified : list bool;
  rc_addrs : list Z;
  all_normal : bool;
  first_double_warned : bool;
  first_missing_warned : bool;
  rc_log : list log_msg
}.

(** First loop: reset bitmap and addresses. *)
Definition rc_reset (part_id : nat) (r : rollcall) : option rollcall :=
  b ← store (rc_bitmap r) part_id false;
  a ← store (rc_addrs r) part_id UINT_MAX;
  Some {| rc_bitmap := b; rc_notified := rc_notified r; rc_addrs := a;
          all_normal := all_normal r; first_double_warned := first_double_warned r;
          first_missing_warned := first_missing_warned r; rc_log := rc_log r |}.

(** Second loop: fill the bitmap and look for duplicates. *)
Definition rc_mark (g : GlobalData) (part_index : nat) (r : rollcall) : option rollcall :=
  infos ← getData BUFFER_INFO (s_hBuffers g);
  info ← infos !! part_index;
  part_id ← index (particle_id info);
  seen ← rc_bitmap r !! part_id;
  anomaly ← (if (seen : bool) then negb <$> rc_notified r !! part_id else Some false);
  r1 ← (if (anomaly : bool) then
          '(lg, warned) ←
            (if WARN_EVERY_TIME || negb (first_double_warned r) then
               addr ← rc_addrs r !! part_id;
               Some (rc_log r ++ [LogDuplicateId (iterations g) (t g) (Z.of_nat part_id)
                                    addr (Z.of_nat part_index)], true)
             else Some (rc_log r, first_double_warned r));
          n ← store (rc_notified r) part_id true;
          Some {| rc_bitmap := rc_bitmap r; rc_notified := n; rc_addrs := rc_addrs r;
                  all_normal := false; first_double_warned := warned;
                  first_missing_warned := first_missing_warned r; rc_log := lg |}
        else Some r);
  b ← store (rc_bitmap r1) part_id true;
  a ← store (rc_addrs r1) part_id (Z.of_nat part_index);
  Some {| rc_bitmap := b; rc_notified := rc_notified r1; rc_addrs := a;
          all_normal := all_normal r1; first_double_warned := first_double_warned r1;
          first_missing_warned := first_missing_warned r1; rc_log := rc_log r1 |}.

(** Third loop: who is missing? *)
Definition rc_missing (g : GlobalData) (part_id : nat) (r : rollcall) : option rollcall :=
  seen ← rc_bitmap r !! part_id;
  anomaly ← (if negb seen then negb <$> rc_notified r !! part_id else Some false);
  if (anomaly : bool) then
    let '(lg, warned) :=
      if WARN_EVERY_TIME || negb (first_missing_warned r)
      then (rc_log r ++ [LogMissingId (iterations g) (t g) (Z.of_nat part_id)], true)
      else (rc_log r, first_missing_warned r) in
    n ← store (rc_notified r) part_id true;
    Some {| rc_bitmap := rc_bitmap r; rc_notified := n; rc_addrs := rc_addrs r;
            all_normal := false; first_double_warned := first_double_warned r;
            first_missing_warned := warned; rc_log := lg |}
  else Some r.

Definition rc_recap (g : GlobalData) (d : nat) (lg : list log_msg) : option (list log_msg) :=
  _ ← s_hPartsPerDevice g !! d;
  _ ← s_hStartPerDevice g !! d;
  Some (lg ++ [LogRecapDevice d]).

Definition rollCallParticles_pure (g : GlobalData) (bitmap notified : list bool)
    (addrs : list Z) : option rollcall :=
  let r0 := {| rc_bitmap := bitmap; rc_notified := notified; rc_addrs := addrs;
               all_normal := true; first_double_warned := false;
               first_missing_warned := false; rc_log := [] |} in
  rank ← index (mpi_rank g);
  parts ← processParticles g !! rank;
  r1 ← for_loop (Z.to_nat parts) 0 rc_reset r0;
  r2 ← for_loop (Z.to_nat parts) 0 (rc_mark g) r1;
  r3 ← for_loop (Z.to_nat parts) 0 (rc_missing g) r2;
  if all_normal r3 then Some r3
  else
    lg ← for_loop (Z.to_nat (devices g)) 0 (rc_recap g) (rc_log r3 ++ [LogRollCallRecap]);
    Some {| rc_bitmap := rc_bitmap r3; rc_notified := rc_notified r3; rc_addrs := rc_addrs r3;
            all_normal := all_normal r3; first_double_warned := first_double_warned r3;
            first_missing_warned := first_missing_warned r3; rc_log := lg |}.

Definition rollCallParticles : M unit :=
  λ s, match rollCallParticles_pure (gdata s) (m_rcBitmap s) (m_rcNotified s) (m_rcAddrs s) with
       | None => (Undefined, s)
       | Some r =>
           (Ret tt, add_trace (EvLog <$> rc_log r)
                      (set_rollcall (rc_bitmap r) (rc_notified r) (rc_addrs r) s))
       end.

(** ** [GPUSPH::updateArrayIndices] *)

Definition count_device (w : W) (d : nat) (st : list Z * Z) : option (list Z * Z) :=
  let n := getNumInternalParticles w d in
  parts ← store st.1 d n;
  Some (parts, wrap32 (st.2 + n)).

Definition sum_nodes (processParticles : list Z) (n : nat) (acc : Z) : option Z :=
  x ← processParticles !! n; Some (wrap32 (acc + x)).

(** The counters and offsets: everything up to the comparison of totals. *)
Definition recount : M Z :=
  g <- read (λ g, g);
  '(parts, processCount) <-
    lift_option (for_loop (Z.to_nat (devices g)) 0 (count_device (world g))
                   (s_hPartsPerDevice g, 0));
  upd (set_s_hPartsPerDevice parts);;
  rank <- lift_option (index (mpi_rank g));
  pp <- lift_option (store (processParticles g) rank processCount);
  upd (set_processParticles pp);;
  when (MULTI_NODE g)
    (upd (λ g, set_processParticles
                 (allGatherUints (world g) processCount (processParticles g)) g));;
  g1 <- read (λ g, g);
  st0 <- lift_option (store (s_hStartPerDevice g1) 0%nat 0);
  st1 <- lift_option (for_loop (Z.to_nat (mpi_rank g1)) 0
                        (add_prev_node (processParticles g1)) st0);
  st2 <- lift_option (for_loop (Z.to_nat (devices g1 - 1)) 1
                        (add_prev_device (s_hPartsPerDevice g1)) st1);
  upd (set_s_hStartPerDevice st2);;
  ret processCount.

(** The comparison of the new simulation total with the stored one. *)
Definition reconcile_total : M unit :=
  g <- read (λ g, g);
  let inlet_outlet := has_simflag (simparams g) ENABLE_INLET_OUTLET in
  when (bool_decide (mpi_rank g = 0) || inlet_outlet)
    (newSimulationTotal <-
       lift_option (for_loop (Z.to_nat (mpi_nodes g)) 0 (sum_nodes (processParticles g)) 0);
     if ((newSimulationTotal <? totParticles g) && inlet_outlet)
        || ((totParticles g <? newSimulationTotal) && inlet_outlet)
     then upd (set_totParticles newSimulationTotal)
     else
       when (bool_decide (newSimulationTotal ≠ totParticles g)
             && bool_decide (mpi_rank g = 0))
         (when ((totParticles g <? newSimulationTotal) || negb (no_leak_warning (clOptions g)))
            (log (LogCountChanged (iterations g) (totParticles g) newSimulationTotal);;
             when (SINGLE_NODE g)
               (doCommand DUMP [BUFFER_INFO; DBLBUFFER_READ] default_arg;;
                rollCallParticles));;
          upd (set_totParticles newSimulationTotal))).

(** The capacity check that ends the routine. *)
Definition check_capacity (processCount : Z) : M unit :=
  g <- read (λ g, g);
  when (allocatedParticles g <? processCount)
    (log (LogCapacityExceeded (iterations g) processCount (allocatedParticles g));;
     upd (set_quit_request true)).

Definition updateArrayIndices : M unit :=
  processCount <- recount;
  reconcile_total;;
  check_capacity processCount.

(** ** Writing, moving bodies, callbacks *)

Definition printStatus : M unit := log LogStatus.

(** [GPUSPH::Wendland2D] *)
Definition M_PI : float := 0x1.921fb54442d18p+1%float.
Definition DBL_MAX : float := 0x1.fffffffffffffp+1023%float.

Definition Wendland2D (r h : float) : float :=
  let q := (r / h)%float in
  let temp := (1 - q / 2)%float in
  let temp := (temp * temp)%float in
  let temp := (temp * temp)%float in
  (7 / (4 * M_PI * h * h) * temp * (2 * q + 1))%float.

(** [fmax] of C. *)
Definition fmax (a b : float) : float :=
  if PrimFloat.is_nan a then b
  else if PrimFloat.is_nan b then a
  else if PrimFloat.ltb a b then b else a.

Definition set_z (z : float) (p : double4) : double4 :=
  {| d4_x := d4_x p; d4_y := d4_y p; d4_z := z; d4_w := d4_w p |}.

(** [+=] on [double4]. *)
Definition add4 (a b : double4) : double4 :=
  {| d4_x := (d4_x a + d4_x b)%float; d4_y := (d4_y a + d4_y b)%float;
     d4_z := (d4_z a + d4_z b)%float; d4_w := (d4_w a + d4_w b)%float |}.

Definition zero4 : double4 := {| d4_x := 0; d4_y := 0; d4_z := 0; d4_w := 0 |}.

(** [GPUSPH::doWrite].  The wave gages are kept with their entry of the
    local array [gages_W]. *)

(** The first loop: [gages_W[g]] and [gages[g].z] are reset. *)
Definition reset_gage (gg : double4) : double4 * float :=
  (set_z 0 gg, if PrimFloat.eqb (d4_w gg) 0 then DBL_MAX else 0%float).

(** The body of the loop over the gages, for one surface particle. *)
Definition gage_add (dpos : double4) (gw : double4 * float) : double4 * float :=
  let gg := gw.1 in
  let gslength := d4_w gg in
  let r := PrimFloat.sqrt ((d4_x dpos - d4_x gg) * (d4_x dpos - d4_x gg)
                           + (d4_y dpos - d4_y gg) * (d4_y dpos - d4_y gg))%float in
  if PrimFloat.ltb 0 gslength then
    if PrimFloat.ltb r (2 * gslength)%float then
      let W := Wendland2D r gslength in
      (set_z (d4_z gg + d4_z dpos * W)%float gg, (gw.2 + W)%float)
    else gw
  else
    if PrimFloat.ltb r gw.2 then (set_z (d4_z dpos) gg, r) else gw.

(** The loop after the writers were started: [gages[g].z /= gages_W[g]]. *)
Definition gage_level (gw : double4 * float) : double4 :=
  if negb (PrimFloat.eqb (d4_w gw.1) 0) then set_z (d4_z gw.1 / gw.2)%float gw.1 else gw.1.

(** The locals of the loop over the particles of the node, with the array
    of [BUFFER_POS_GLOBAL] that it fills ([None] when the list has no such
    buffer) and what the warning about a position that is not finite
    prints. *)
Record write_scan : Type := {
  ws_gages : list (double4 * float);
  ws_energy : list double4;
  ws_gpos : option (list Z);
  warned_nan_pos : bool;
  local_max_part_speed : float;
  ws_nan : list (Z * Z * Z * nat * double4)
}.

(** One particle.  Reading through the pointer of a buffer that is not in
    the list, or outside its array, is undefined behaviour. *)
Definition write_particle (g : GlobalData) (i : nat) (ws : write_scan) : option write_scan :=
  let bl := s_hBuffers g in
  pos ← getData BUFFER_POS bl ≫= (.!! i);
  h ← getData BUFFER_HASH bl ≫= (.!! i);
  let cellHash := cellHashFromParticleHash h in
  let dpos := global_position (world g) cellHash pos in
  '(warned, nan) ←
    (if negb (warned_nan_pos ws)
        && negb (PrimFloat.is_finite (d4_x dpos) && PrimFloat.is_finite (d4_y dpos)
                 && PrimFloat.is_finite (d4_z dpos))
     then
       info ← getData BUFFER_INFO bl ≫= (.!! i);
       Some (true, ws_nan ws ++ [(Z.of_nat i, particle_id info, pos, cellHash, dpos)])
     else Some (warned_nan_pos ws, ws_nan ws));
  energy ←
    match getData BUFFER_INTERNAL_ENERGY bl with
    | Some intEnergy =>
        vel ← getData BUFFER_VEL bl ≫= (.!! i);
        e ← intEnergy !! i;
        info ← getData BUFFER_INFO bl ≫= (.!! i);
        let idx := if FLUID info then fluid_num info else MAX_FLUID_TYPES in
        old ← ws_energy ws !! idx;
        Some (<[idx := add4 old (particle_energies (world g) dpos vel e)]> (ws_energy ws))
    | None => Some (ws_energy ws)
    end;
  gages ←
    match ws_gages ws with
    | [] => Some []
    | _ =>
        info ← getData BUFFER_INFO bl ≫= (.!! i);
        Some (if SURFACE info then gage_add dpos <$> ws_gages ws else ws_gages ws)
    end;
  gpos ← ws_gpos ws ≫= (λ col, store col i (word_of_double4 dpos));
  vel ← getData BUFFER_VEL bl ≫= (.!! i);
  Some {| ws_gages := gages; ws_energy := energy; ws_gpos := Some gpos;
          warned_nan_pos := warned;
          local_max_part_speed := fmax (local_max_part_speed ws) (particle_speed vel);
          ws_nan := nan |}.

(** [for (uint i = node_offset; i < node_offset + processParticles[mpi_rank]; i++)],
    after the reset of the gages. *)
Definition scan_particles (g : GlobalData) : option write_scan :=
  node_offset ← s_hStartPerDevice g !! 0%nat;
  rank ← index (mpi_rank g);
  parts ← processParticles g !! rank;
  for_loop (Z.to_nat (wrap32 (node_offset + parts) - node_offset)) (Z.to_nat node_offset)
    (write_particle g)
    {| ws_gages := reset_gage <$> gage (simparams g);
       ws_energy := replicate (S MAX_FLUID_TYPES) zero4;
       ws_gpos := getData BUFFER_POS_GLOBAL (s_hBuffers g);
       warned_nan_pos := false; local_max_part_speed := 0; ws_nan := [] |}.

(** What follows the loop over the particles: its results are stored,
    the peak speed is tracked and the writers are called. *)
Definition write_out (write_flags : flag_t) (g : GlobalData) (ws : write_scan) : M unit :=
  upd (λ g, set_simparams (set_gage (ws_gages ws).*1 (simparams g)) g);;
  match ws_gpos ws with
  | Some col => upd (λ g, set_s_hBuffers (setData BUFFER_POS_GLOBAL col (s_hBuffers g)) g)
  | None => ret tt
  end;;
  for_each (ws_nan ws)
    (λ w, log (LogNanPosition w.1.1.1.1 w.1.1.1.2 w.1.1.2 w.1.2 w.2));;
  call (CallTrackPeakSpeed
          (if MULTI_NODE g
           then networkFloatReduction_max (world g) (local_max_part_speed ws)
           else local_max_part_speed ws));;
  call (CallStartWriting write_flags);;
  when (negb (bool_decide (gage (simparams g) = [])))
    (upd (λ g, set_simparams (set_gage (gage_level <$> ws_gages ws) (simparams g)) g);;
     call CallWriteWaveGage);;
  when (0 <? numforcesbodies (simparams g)) (call CallWriteObjectForces);;
  when (0 <? numbodies (simparams g)) (call CallWriteObjects);;
  for_each (getPostProcEngines (simframework g)) (λ flt, call (CallEngineWrite (pp_type flt)));;
  call (CallWriteEnergy (ws_energy ws));;
  call CallWrite;;
  call CallMarkWritten.

Definition doWrite (write_flags : flag_t) : M unit :=
  g <- read (λ g, g);
  ws <- lift_option (scan_particles g);
  write_out write_flags g ws.

Definition doCallBacks : M unit :=
  g <- read (λ g, g);
  when (gcallback (simparams g)) (call CallGravityCallback).

Fixpoint fold_M {A B : Type} (l : list A) (f : A → B → M B) (b : B) : M B :=
  match l with
  | [] => ret b
  | x :: l' => b' <- f x b; fold_M l' f b'
  end.

Definition opt_flags (b : bool) (f : flag_t) : flag_t := if b then f else [].

Definition saveParticles (enabledPostProcess : list PostProcessEngine)
    (write_flags : flag_t) : M unit :=
  g <- read (λ g, g);
  let sp := simparams g in
  let which_buffers :=
    [BUFFER_POS; BUFFER_VEL; BUFFER_INFO; BUFFER_HASH]
    ++ [DBLBUFFER_READ]
    ++ opt_flags (debug_neibs (debug g)) [BUFFER_NEIBSLIST]
    ++ opt_flags (debug_forces (debug g)) [BUFFER_FORCES]
    ++ opt_flags (has_simflag sp ENABLE_INTERNAL_ENERGY) [BUFFER_INTERNAL_ENERGY]
    ++ opt_flags (bool_decide (boundarytype sp = SA_BOUNDARY))
         [BUFFER_GRADGAMMA; BUFFER_VERTICES; BUFFER_BOUNDELEMENTS]
    ++ opt_flags (bool_decide (sph_formulation sp = SPH_GRENIER)) [BUFFER_VOLUME; BUFFER_SIGMA]
    ++ opt_flags (bool_decide (visctype sp = KEPSVISC))
         [BUFFER_TKE; BUFFER_EPSILON; BUFFER_TURBVISC]
    ++ opt_flags (bool_decide (visctype sp = SPSVISC)) [BUFFER_SPS_TURBVISC]
    ++ opt_flags (has_simflag sp ENABLE_INLET_OUTLET || bool_decide (visctype sp = KEPSVISC))
         [BUFFER_EULERVEL] in
  which_buffers <-
    fold_M enabledPostProcess
      (λ flt which_buffers,
         upd (set_only_internal true);;
         doCommand POSTPROCESS NO_FLAGS (float_of_enum (pp_type flt));;
         call (CallHostProcess (pp_type flt));;
         doCommand SWAP_BUFFERS (get_written_buffers flt) default_arg;;
         ret (which_buffers ++ get_updated_buffers flt ++ get_written_buffers flt))
      which_buffers;
  doCommand DUMP which_buffers default_arg;;
  doWrite write_flags.

Definition move_bodies (step : Z) : M unit :=
  g <- read (λ g, g);
  let sp := simparams g in
  when (0 <? numbodies sp)
    (when (0 <? numforcesbodies sp)
       (doCommand REDUCE_BODIES_FORCES NO_FLAGS default_arg;;
        call CallReduceBodiesForces;;
        call (CallBodiesForcesCallback step));;
     call (CallBodiesTimestep step);;
     when (step =? 2) (call CallPostTimestepCallback);;
     doCommand UPLOAD_OBJECTS_MATRICES NO_FLAGS default_arg;;
     doCommand UPLOAD_OBJECTS_VELOCITIES NO_FLAGS default_arg;;
     when (negb (numforcesbodies sp =? 0))
       (doCommand FORCES_UPLOAD_OBJECTS_CG NO_FLAGS default_arg)).

(** ** [GPUSPH::buildNeibList] *)

(** One device of the scan; the state is the peak, the number of
    interactions and the timing records of the devices that were warned
    about so far. *)
Definition scan_neibs (g : GlobalData) (d : nat) (st : Z * Z * list TimingInfo)
    : option (Z * Z * list TimingInfo) :=
  let '(peak, interactions, warned) := st in
  ti ← timingInfo g !! d;
  let currDevMaxNeibs := maxNeibs ti in
  let warned' := if maxneibsnum (simparams g) <? currDevMaxNeibs
                 then warned ++ [ti]
                 else warned in
  Some (if peak <? currDevMaxNeibs then currDevMaxNeibs else peak,
        wrap32 (interactions + numInteractions ti), warned').

Definition buildNeibList : M unit :=
  upd (set_only_internal false);;
  doCommand SWAP_BUFFERS [BUFFER_POS] default_arg;;
  doCommand CALCHASH NO_FLAGS default_arg;;
  doCommand SWAP_BUFFERS [BUFFER_POS; BUFFER_INFO] default_arg;;
  doCommand SORT NO_FLAGS default_arg;;
  doCommand REORDER NO_FLAGS default_arg;;
  doCommand DOWNLOAD_NEWNUMPARTS NO_FLAGS default_arg;;
  g <- read (λ g, g);
  doCommand SWAP_BUFFERS (get_multi_buffered (simframework g)) default_arg;;
  (if MULTI_DEVICE g then
     doCommand DUMP_CELLS NO_FLAGS default_arg;;
     doCommand UPDATE_SEGMENTS NO_FLAGS default_arg;;
     updateArrayIndices;;
     doCommand CROP NO_FLAGS default_arg;;
     doCommand APPEND_EXTERNAL [IMPORT_BUFFERS] default_arg;;
     when (has_simflag (simparams g) ENABLE_INLET_OUTLET)
       (doCommand UPLOAD_NEWNUMPARTS NO_FLAGS default_arg)
   else updateArrayIndices);;
  upd (set_only_internal true);;
  doCommand BUILDNEIBS NO_FLAGS default_arg;;
  when (MULTI_DEVICE g && bool_decide (boundarytype (simparams g) = SA_BOUNDARY))
    (doCommand UPDATE_EXTERNAL [BUFFER_VERTPOS] default_arg);;
  g1 <- read (λ g, g);
  '(peak, interactions, warned) <-
    lift_option (for_loop (Z.to_nat (devices g1)) 0 (scan_neibs g1)
                   (0, lastGlobalNumInteractions g1, []));
  upd (set_lastGlobalPeakNeibsNum peak);;
  upd (set_lastGlobalNumInteractions interactions);;
  for_each warned
    (λ ti, log (LogTooManyNeibs (maxNeibs ti) (maxneibsnum (simparams g1)) (iterations g1));;
           log (LogPossibleCulprit (hasTooManyNeibs ti) (hasMaxNeibs ti))).

(** ** [GPUSPH::saBoundaryConditions] *)

Definition saBoundaryConditions (cFlag : flag_t) : M unit :=
  g <- read (λ g, g);
  let sp := simparams g in
  let inlet_outlet := has_simflag sp ENABLE_INLET_OUTLET in
  when (negb (hasBCEngine (simframework g)))
    (throw (runtime_error "no boundary conditions engine loaded"));;
  when (has_flag cFlag INITIALIZATION_STEP)
    (doCommand SWAP_BUFFERS [BUFFER_INFO] default_arg;;
     doCommand IDENTIFY_CORNER_VERTICES NO_FLAGS default_arg;;
     when (MULTI_DEVICE g)
       (doCommand UPDATE_EXTERNAL [BUFFER_INFO; DBLBUFFER_WRITE] default_arg);;
     doCommand SWAP_BUFFERS [BUFFER_INFO] default_arg;;
     when inlet_outlet
       (doCommand INIT_IO_MASS_VERTEX_COUNT NO_FLAGS default_arg;;
        when (MULTI_DEVICE g) (doCommand UPDATE_EXTERNAL [BUFFER_FORCES] default_arg);;
        doCommand INIT_IO_MASS NO_FLAGS default_arg;;
        when (MULTI_DEVICE g)
          (doCommand UPDATE_EXTERNAL [BUFFER_POS; DBLBUFFER_WRITE] default_arg);;
        doCommand SWAP_BUFFERS [BUFFER_POS] default_arg);;
     doCommand SWAP_BUFFERS
       [BUFFER_VEL; BUFFER_TKE; BUFFER_EPSILON; BUFFER_POS; BUFFER_EULERVEL;
        BUFFER_GRADGAMMA; BUFFER_VERTICES] default_arg);;
  when inlet_outlet
    (when (MULTI_DEVICE g && has_simflag sp ENABLE_WATER_DEPTH)
       (doCommand DOWNLOAD_IOWATERDEPTH NO_FLAGS default_arg;;
        call CallReduceWaterDepth;;
        doCommand UPLOAD_IOWATERDEPTH NO_FLAGS default_arg);;
     upd (set_only_internal false);;
     doCommand SWAP_BUFFERS [BUFFER_POS] default_arg;;
     doCommand IMPOSE_OPEN_BOUNDARY_CONDITION NO_FLAGS default_arg;;
     doCommand SWAP_BUFFERS [BUFFER_POS] default_arg);;
  upd (set_only_internal true);;
  when (negb (has_flag cFlag INITIALIZATION_STEP))
    (doCommand SWAP_BUFFERS [BUFFER_VERTICES] default_arg);;
  doCommand SA_CALC_SEGMENT_BOUNDARY_CONDITIONS cFlag default_arg;;
  when (MULTI_DEVICE g)
    (doCommand UPDATE_EXTERNAL [POST_SA_SEGMENT_UPDATE_BUFFERS; DBLBUFFER_WRITE] default_arg);;
  doCommand SA_CALC_VERTEX_BOUNDARY_CONDITIONS cFlag default_arg;;
  when (MULTI_DEVICE g)
    (doCommand UPDATE_EXTERNAL [POST_SA_VERTEX_UPDATE_BUFFERS; DBLBUFFER_WRITE] default_arg);;
  when (inlet_outlet && has_flag cFlag INTEGRATOR_STEP_2)
    (doCommand DISABLE_OUTGOING_PARTS NO_FLAGS default_arg;;
     when (MULTI_DEVICE g)
       (doCommand UPDATE_EXTERNAL [BUFFER_POS; BUFFER_VERTICES; DBLBUFFER_WRITE] default_arg));;
  when (has_flag cFlag INITIALIZATION_STEP)
    (doCommand SWAP_BUFFERS
       [BUFFER_VEL; BUFFER_TKE; BUFFER_EPSILON; BUFFER_POS; BUFFER_EULERVEL;
        BUFFER_GRADGAMMA; BUFFER_VERTICES] default_arg;;
     when (resume_fname_empty (clOptions g))
       (doCommand SWAP_BUFFERS [BUFFER_BOUNDELEMENTS] default_arg;;
        doCommand INIT_GAMMA NO_FLAGS default_arg;;
        when (MULTI_DEVICE g)
          (doCommand UPDATE_EXTERNAL [BUFFER_GRADGAMMA; BUFFER_BOUNDELEMENTS; DBLBUFFER_WRITE]
             default_arg);;
        doCommand SWAP_BUFFERS [BUFFER_GRADGAMMA; BUFFER_BOUNDELEMENTS] default_arg)).

(** ** The main loop of [GPUSPH::runSimulation] *)

Definition FLT_EPSILON : float := 0x1p-23%float.

(** [unsigned long] arithmetic. *)
Definition wrap64 (x : Z) : Z := x mod 18446744073709551616.

(** [std::min] on floats. *)
Definition fmin (a b : float) : float := if PrimFloat.ltb b a then b else a.

Definition run_filter (flt : Z * Z) : M unit :=
  g <- read (λ g, g);
  r <- umod (iterations g) flt.2;
  when (r =? 0)
    (upd (set_only_internal true);;
     doCommand FILTER NO_FLAGS (float_of_enum flt.1);;
     when (MULTI_DEVICE g)
       (doCommand UPDATE_EXTERNAL [BUFFER_VEL; DBLBUFFER_WRITE] default_arg);;
     doCommand SWAP_BUFFERS [BUFFER_VEL] default_arg).

(** Grenier's formulation: sigma and smoothed density. *)
Definition grenier_density (step : flag) : M unit :=
  g <- read (λ g, g);
  when (bool_decide (sph_formulation (simparams g) = SPH_GRENIER))
    (doCommand SWAP_BUFFERS [BUFFER_VEL] default_arg;;
     upd (set_only_internal true);;
     doCommand COMPUTE_DENSITY [step] default_arg;;
     when (MULTI_DEVICE g)
       (doCommand UPDATE_EXTERNAL [BUFFER_SIGMA; BUFFER_VEL; DBLBUFFER_WRITE] default_arg);;
     doCommand SWAP_BUFFERS [BUFFER_VEL] default_arg).

Definition sps_stress (step : flag) : M unit :=
  g <- read (λ g, g);
  when (bool_decide (visctype (simparams g) = SPSVISC))
    (upd (set_only_internal true);;
     doCommand SPS [step] default_arg;;
     when (MULTI_DEVICE g) (doCommand UPDATE_EXTERNAL [BUFFER_TAU] default_arg)).

Definition compute_forces (step : flag) : M unit :=
  g <- read (λ g, g);
  upd (set_only_internal true);;
  (if striping (clOptions g) && MULTI_DEVICE g
   then doCommand FORCES_ENQUEUE [step] default_arg
   else doCommand FORCES_SYNC [step] default_arg);;
  when (MULTI_DEVICE g)
    (doCommand UPDATE_EXTERNAL [POST_FORCES_UPDATE_BUFFERS; DBLBUFFER_WRITE] default_arg);;
  when (striping (clOptions g) && MULTI_DEVICE g)
    (doCommand FORCES_COMPLETE [step] default_arg).

Definition or_created (g : GlobalData) (d : nat) (acc : bool) : option bool :=
  c ← particlesCreatedOnNode g !! d; Some (acc || c).

(** The inlet/outlet bookkeeping after the second step. *)
Definition download_created : M unit :=
  doCommand DOWNLOAD_NEWNUMPARTS NO_FLAGS default_arg;;
  g <- read (λ g, g);
  c0 <- lift_option (particlesCreatedOnNode g !! 0%nat);
  created <- lift_option (for_loop (Z.to_nat (devices g - 1)) 1 (or_created g) c0);
  upd (set_particlesCreated created);;
  when (MULTI_NODE g)
    (upd (λ g, set_particlesCreated (networkBoolReduction (world g) (particlesCreated g)) g));;
  g1 <- read (λ g, g);
  when (particlesCreated g1)
    (upd (set_createdParticlesIterations (wrap32 (createdParticlesIterations g1 + 1)))).

(** Everything in the body up to the last buffer swap of the step. *)
Definition loop_commands : M unit :=
  printStatus;;
  g <- read (λ g, g);
  let sp := simparams g in
  let density_sum := has_simflag sp ENABLE_DENSITY_SUM in
  r <- umod (iterations g) (buildneibsfreq sp);
  when ((r =? 0) || particlesCreated g) buildNeibList;;
  when (0 <? iterations g) (for_each (getFilterFreqList (simframework g)) run_filter);;
  when (gcallback sp) (doCallBacks;; doCommand UPLOAD_GRAVITY NO_FLAGS default_arg);;
  grenier_density INTEGRATOR_STEP_1;;
  sps_stress INTEGRATOR_STEP_1;;
  when (inspect_preforce (debug g)) (saveParticles [] [INTEGRATOR_STEP_1]);;
  compute_forces INTEGRATOR_STEP_1;;
  doCommand SWAP_BUFFERS [BUFFER_BOUNDELEMENTS] default_arg;;
  move_bodies 1;;
  when (negb density_sum) (upd (set_only_internal false));;
  doCommand EULER [INTEGRATOR_STEP_1] default_arg;;
  when density_sum
    (when (MULTI_DEVICE g)
       (doCommand UPDATE_EXTERNAL
          [BUFFER_POS; BUFFER_VEL; BUFFER_EULERVEL; BUFFER_TKE; BUFFER_EPSILON;
           BUFFER_BOUNDELEMENTS; BUFFER_GRADGAMMA; DBLBUFFER_WRITE] default_arg;;
        doCommand UPDATE_EXTERNAL [BUFFER_VEL; BUFFER_GRADGAMMA; DBLBUFFER_READ] default_arg));;
  doCommand SWAP_BUFFERS [BUFFER_BOUNDELEMENTS] default_arg;;
  when (gcallback sp) (doCallBacks;; doCommand UPLOAD_GRAVITY NO_FLAGS default_arg);;
  when (bool_decide (boundarytype sp = SA_BOUNDARY)) (saBoundaryConditions [INTEGRATOR_STEP_1]);;
  doCommand SWAP_BUFFERS [POST_COMPUTE_SWAP_BUFFERS] default_arg;;
  grenier_density INTEGRATOR_STEP_2;;
  sps_stress INTEGRATOR_STEP_2;;
  when (inspect_preforce (debug g)) (saveParticles [] [INTEGRATOR_STEP_2]);;
  compute_forces INTEGRATOR_STEP_2;;
  doCommand SWAP_BUFFERS
    [BUFFER_POS; BUFFER_VEL; BUFFER_INTERNAL_ENERGY; BUFFER_VOLUME; BUFFER_TKE;
     BUFFER_EPSILON; BUFFER_BOUNDELEMENTS] default_arg;;
  move_bodies 2;;
  when (negb density_sum) (upd (set_only_internal false));;
  doCommand EULER [INTEGRATOR_STEP_2] default_arg;;
  when density_sum
    (when (MULTI_DEVICE g)
       (doCommand UPDATE_EXTERNAL
          [BUFFER_POS; BUFFER_VEL; BUFFER_EULERVEL; BUFFER_TKE; BUFFER_EPSILON;
           BUFFER_BOUNDELEMENTS; BUFFER_GRADGAMMA; DBLBUFFER_WRITE] default_arg));;
  when (0 <? numbodies sp) (doCommand EULER_UPLOAD_OBJECTS_CG NO_FLAGS default_arg);;
  doCommand SWAP_BUFFERS [BUFFER_BOUNDELEMENTS] default_arg;;
  when (bool_decide (boundarytype sp = SA_BOUNDARY)) (saBoundaryConditions [INTEGRATOR_STEP_2]);;
  when (has_simflag sp ENABLE_INLET_OUTLET) download_created;;
  doCommand SWAP_BUFFERS [POST_COMPUTE_SWAP_BUFFERS] default_arg.

Definition min_dt (g : GlobalData) (d : nat) (acc : float) : option float :=
  x ← dts g !! d; Some (fmin acc x).

(** The counters, the clock and the choice of the next timestep; the
    value is the time before the step. *)
Definition advance_time : M float :=
  upd (λ g, set_iterations (wrap64 (iterations g + 1)) g);;
  g <- read (λ g, g);
  let previous_t := t g in
  upd (set_t (t g + dt g)%float);;
  when (has_simflag (simparams g) ENABLE_DTADAPT)
    (d0 <- lift_option (dts g !! 0%nat);
     m <- lift_option (for_loop (Z.to_nat (devices g - 1)) 1 (min_dt g) d0);
     upd (set_dt m);;
     when (MULTI_NODE g)
       (upd (λ g, set_dt (networkFloatReduction_min (world g) (dt g)) g)));;
  ret previous_t.

Definition max_freq (writers : list float) : float :=
  foldl (λ maxfreq freq, if PrimFloat.ltb maxfreq freq then freq else maxfreq) 0%float writers.

(** The two timestep guards: [check that dt is not too small (absolute)]
    and [(relative to t)]. *)
Definition check_timestep (previous_t : float) : M unit :=
  g <- read (λ g, g);
  (if PrimFloat.eqb (t g) 0%float then throw (DtZeroException (t g) (dt g))
   else when (PrimFloat.ltb (dt g) FLT_EPSILON)
          (log (LogDtUnderEpsilon (dt g) (iterations g));;
           upd (set_quit_request true)));;
  when (PrimFloat.eqb (t g) previous_t)
    (log (LogTimeStill (dt g) (iterations g));;
     upd (set_quit_request true)).

(** The termination test, the write, and the end of the run. *)
Definition finish_iteration : M unit :=
  g1 <- read (λ g, g);
  let we_are_done :=
    problem_finished (world g1) (t g1)
    || (negb (maxiter (clOptions g1) =? 0) && (maxiter (clOptions g1) <=? iterations g1))
    || quit_request g1 in
  let writers := Writer_NeedWrite (world g1) (t g1) in
  let need_write := negb (bool_decide (length writers = 0%nat)) in
  let force_write :=
    problem_need_write (world g1) (t g1) || we_are_done || save_request g1 in
  when force_write (upd (set_save_request false));;
  when (need_write || force_write)
    (if nosave (clOptions g1) && negb force_write
     then call CallFakeMarkWritten
     else
       saveParticles (getPostProcEngines (simframework g1))
         (if force_write then [ALL_INTEGRATION_STEPS] else NO_FLAGS);;
       when (force_write || PrimFloat.ltb 0%float (max_freq writers))
         (printStatus;; call CallRestartCounter));;
  when we_are_done (upd (set_keep_going false)).

(** The tail of the loop body, after the clock was advanced. *)
Definition conclude_iteration (previous_t : float) : M unit :=
  check_timestep previous_t;;
  finish_iteration.

Definition loop_body : M unit :=
  loop_commands;;
  previous_t <- advance_time;
  conclude_iteration previous_t.

(** The [catch (exception &e)] block. *)
Definition loop_handler (e : exn) : M unit :=
  log (LogException e);;
  upd (set_keep_going false);;
  forceUnlock.

Definition iteration : M unit := try_catch loop_body loop_handler.

(** [while (gdata->keep_going) try { ... } catch ...], run for at most
    [fuel] iterations; the value tells whether the loop was left. *)
Fixpoint simulation_loop (fuel : nat) : M bool :=
  alive <- read keep_going;
  if alive : bool then
    match fuel with
    | O => ret false
    | S fuel' => iteration;; simulation_loop fuel'
    end
  else ret true.

(** A direct assignment to [gdata->nextCommand]. *)
Definition post_kind (cmd : CommandType) : M unit :=
  upd (set_nextCommand cmd);;
  g <- read (λ g, g);
  emit (EvPost cmd (commandFlags g) (extraCommandArg g) (keep_going g)).

(** [GPUSPH::runSimulation]; [None] when the loop is still running after
    [fuel] iterations. *)
Definition runSimulation (fuel : nat) : M (option bool) :=
  λ s,
  if negb (initialized s) then (Ret (Some false), s)
  else
    (doWrite [INITIALIZATION_STEP];;
     barrier;;
     post_kind IDLE;;
     barrier;;
     barrier;;
     g <- read (λ g, g);
     when (bool_decide (boundarytype (simparams g) = SA_BOUNDARY))
       (buildNeibList;;
        saBoundaryConditions [INITIALIZATION_STEP]);;
     printStatus;;
     left <- simulation_loop fuel;
     if left : bool then
       post_kind QUIT;;
       barrier;;
       barrier;;
       barrier;;
       ret (Some true)
     else ret None) s.

(** ** Specification vocabulary *)

(** The bucket of a key: its linearized device number. *)
Definition bucket (k : devcount_t) : nat := GLOBAL_DEVICE_NUM k.

Definition count_bucket (c : nat) (ks : list devcount_t) : nat :=
  length (filter (λ k, bucket k = c) ks).

(** How many keys belong to a bucket before [c]: where bucket [c] starts. *)
Definition below (c : nat) (ks : list devcount_t) : nat :=
  length (filter (λ k, (bucket k < c)%nat) ks).

(** For every pair of indices [i < j], [bucket i ≤ bucket j]. *)
Definition sorted_by_bucket (ks : list devcount_t) : Prop :=
  ∀ (i j : nat) (ki kj : devcount_t),
    (i < j)%nat → ks !! i = Some ki → ks !! j = Some kj → (bucket ki ≤ bucket kj)%nat.

(** Position [i] lies in the range of the bucket of the key it holds. *)
Definition bucket_membership (ks : list devcount_t) : Prop :=
  ∀ (i : nat) (k : devcount_t),
    ks !! i = Some k → (below (bucket k) ks ≤ i < below (S (bucket k)) ks)%nat.

(** The device key of a particle, from its hash and the device map. *)
Definition key_of (s_hDeviceMap : list devcount_t) (h : Z) : option devcount_t :=
  s_hDeviceMap !! cellHashFromParticleHash h.

(** The keys of the particles of the array, in array order, read from
    the hash buffer through the device map. *)
Definition particle_keys (g : GlobalData) : option (list devcount_t) :=
  hashes ← getData BUFFER_HASH (s_hBuffers g);
  mapM (key_of (s_hDeviceMap g)) (take (Z.to_nat (totParticles g)) hashes).

(** The particles of the local node that the device map gives to the
    device with local index [d], counted over a list of keys. *)
Definition count_local (mpi_rank : Z) (d : nat) (ks : list devcount_t) : nat :=
  length (filter (λ k, Z.of_nat (RANK k) = mpi_rank ∧ DEVICE k = d) ks).

(** A key names a device of the run, within the capacity of the counters. *)
Definition valid_key (g : GlobalData) (k : devcount_t) : Prop :=
  (RANK k < MAX_NODES_PER_CLUSTER)%nat
  ∧ (DEVICE k < MAX_DEVICES_PER_NODE)%nat
  ∧ Z.of_nat (GLOBAL_DEVICE_NUM k) < totDevices g.

(** The input of the partitioner is well formed: the particle count is a
    [uint]; every host buffer holds that many particles; every particle's
    cell is in the device map, which gives it a device of the run; the
    device and node counts fit the arrays. *)
Definition well_formed (g : GlobalData) : Prop :=
  0 ≤ totParticles g < 4294967296
  ∧ is_Some (getData BUFFER_HASH (s_hBuffers g))
  ∧ Forall (λ b, (Z.to_nat (totParticles g) ≤ length b.2)%nat) (s_hBuffers g)
  ∧ (∀ hashes, getData BUFFER_HASH (s_hBuffers g) = Some hashes →
       Forall (λ h, ∃ k, key_of (s_hDeviceMap g) h = Some k ∧ valid_key g k)
         (take (Z.to_nat (totParticles g)) hashes))
  ∧ 1 ≤ totDevices g ≤ Z.of_nat MAX_DEVICES_PER_CLUSTER
  ∧ totDevices g < 4294967296
  ∧ 1 ≤ devices g ≤ Z.of_nat MAX_DEVICES_PER_NODE
  ∧ (Z.to_nat (devices g) ≤ length (s_hStartPerDevice g))%nat
  ∧ (Z.to_nat (devices g) ≤ length (s_dSegmentsStart g))%nat
  ∧ mpi_rank g ≤ Z.of_nat MAX_NODES_PER_CLUSTER.

(** A counter array holds, at every index, the number of keys of a list
    that a classifier sends to that index. *)
Definition counts_of (f : devcount_t → option nat) (N : nat) (ks : list devcount_t)
    (a : list Z) : Prop :=
  length a = N
  ∧ ∀ i, (i < N)%nat → a !! i = Some (Z.of_nat (length (filter (λ k, f k = Some i) ks))).

(** The classifier of the per-device counter of the local node. *)
Definition local_device (mpi_rank : Z) (k : devcount_t) : option nat :=
  if decide (Z.of_nat (RANK k) = mpi_rank) then Some (DEVICE k) else None.

(** What the counting pass needs of a key. *)
Definition countable_key (mpi_rank : Z) (k : devcount_t) : Prop :=
  (RANK k < MAX_NODES_PER_CLUSTER)%nat
  ∧ (GLOBAL_DEVICE_NUM k < MAX_DEVICES_PER_CLUSTER)%nat
  ∧ (Z.of_nat (RANK k) = mpi_rank → (DEVICE k < MAX_DEVICES_PER_NODE)%nat).

(** The key array and the host buffers describe the same particles: the
    key at each position is the one the hash at that position maps to,
    and every buffer holds all the particles. *)
Definition keys_match (s_hDeviceMap : list devcount_t) (ks : list devcount_t)
    (bl : BufferList) : Prop :=
  (∃ hashes, getData BUFFER_HASH bl = Some hashes
             ∧ Forall2 (λ k h, key_of s_hDeviceMap h = Some k) ks (take (length ks) hashes))
  ∧ Forall (λ b, (length ks ≤ length b.2)%nat) bl.

(** The state of the compaction while it fills bucket [c]. *)
Definition pass_inv (s_hDeviceMap : list devcount_t) (ks0 : list devcount_t) (c : nat)
    (s : cursors) : Prop :=
  ∃ L R : nat,
    leftB s = Z.of_nat L ∧ rightB s = Z.of_nat R
    ∧ keys s ≡ₚ ks0
    ∧ (R < length (keys s) ∨ length (keys s) = 0)%nat
    ∧ (∀ i k, (i < L)%nat → keys s !! i = Some k → (bucket k ≤ c)%nat)
    ∧ (∀ j k, (L ≤ j)%nat → keys s !! j = Some k → (c ≤ bucket k)%nat)
    ∧ (∀ i j ki kj, (i < L)%nat → (i < j)%nat → keys s !! i = Some ki →
         keys s !! j = Some kj → (bucket ki ≤ bucket kj)%nat)
    ∧ (count_bucket c (take L (keys s)) + below c ks0 = L)%nat
    ∧ (∀ j k, (R < j)%nat → keys s !! j = Some k → bucket k ≠ c)
    ∧ keys_match s_hDeviceMap (keys s) (bufs s).

(** The state of the compaction between two buckets. *)
Definition outer_inv (s_hDeviceMap : list devcount_t) (ks0 : list devcount_t) (c : nat)
    (st : cursors * Z) : Prop :=
  st.2 = Z.of_nat (below c ks0) ∧ leftB st.1 = st.2
  ∧ keys st.1 ≡ₚ ks0
  ∧ (∀ i k, (i < below c ks0)%nat → keys st.1 !! i = Some k → (bucket k < c)%nat)
  ∧ (∀ j k, (below c ks0 ≤ j)%nat → keys st.1 !! j = Some k → (c ≤ bucket k)%nat)
  ∧ (∀ i j ki kj, (i < below c ks0)%nat → (i < j)%nat → keys st.1 !! i = Some ki →
       keys st.1 !! j = Some kj → (bucket ki ≤ bucket kj)%nat)
  ∧ keys_match s_hDeviceMap (keys st.1) (bufs st.1).

(** The compaction pass as the host runs it: leaving an array is
    undefined behaviour. *)
Definition partition_pass (totParticles totDevices : Z) (counts : list Z)
    (ks : list devcount_t) (bl : BufferList) : M (cursors * Z) :=
  lift_option (compact totParticles totDevices counts ks bl).

(** The shared state a command is executed in: the record as the host
    wrote it. *)
Definition posted (cmd : CommandType) (flags : flag_t) (arg : float) (g : GlobalData)
    : GlobalData :=
  set_extraCommandArg arg (set_commandFlags flags (set_nextCommand cmd g)).

(** ** Assertions about host routines *)

(** A routine started in a state satisfying [P] ends in a state
    satisfying [Q] (with its value), [Qt] (with the exception it threw) or
    [Qu] (it ran into undefined behaviour). *)
Definition hoare {A : Type} (P : GPUSPH → Prop) (m : M A) (Q : A → GPUSPH → Prop)
    (Qt : exn → GPUSPH → Prop) (Qu : GPUSPH → Prop) : Prop :=
  ∀ s, P s → match m s with
             | (Ret a, s') => Q a s'
             | (Throw e, s') => Qt e s'
             | (Undefined, s') => Qu s'
             end.

(** An update of the shared state that leaves the liveness flag and the
    quit request alone. *)
Definition keeps (f : GlobalData → GlobalData) : Prop :=
  ∀ g, keep_going (f g) = keep_going g ∧ quit_request (f g) = quit_request g.

(** The events that only [doCommand], [runSimulation] and
    [rollCallParticles] produce: a posted command, a roll-call warning. *)
Definition benign (e : event) : Prop :=
  match e with
  | EvPost _ _ _ _ => False
  | EvLog (LogDuplicateId _ _ _ _ _) => False
  | EvLog (LogMissingId _ _ _) => False
  | _ => True
  end.

(** A command was posted while the run was alive. *)
Definition posted_alive (e : event) : Prop :=
  match e with
  | EvPost _ _ _ alive => alive = true
  | _ => True
  end.

(** Every command of a trace was posted while the run was alive. *)
Definition posts_alive (tr : list event) : Prop := Forall posted_alive tr.

(** The run is alive and has only posted commands while alive. *)
Definition alive_inv (s : GPUSPH) : Prop :=
  keep_going (gdata s) = true ∧ posts_alive (trace s).

(** The quit request is set, and the trace extends [pre]. *)
Definition quit_pending (pre : list event) (s : GPUSPH) : Prop :=
  quit_request (gdata s) = true ∧ pre `prefix_of` trace s.

(** Message [m] was logged on the way from [s] to [s']. *)
Definition logged_since (s s' : GPUSPH) (m : log_msg) : Prop :=
  ∃ tr, trace s' = trace s ++ tr ∧ EvLog m ∈ tr.

(** A roll-call warning about the particle identity [pid]. *)
Definition warns (pid : Z) (e : event) : bool :=
  match e with
  | EvLog (LogDuplicateId _ _ part_id _ _) => part_id =? pid
  | EvLog (LogMissingId _ _ part_id) => part_id =? pid
  | _ => false
  end.

(** How many warnings about [pid] a trace holds. *)
Definition warnings (pid : Z) (tr : list event) : nat :=
  length (List.filter (warns pid) tr).

(** An event that is no roll-call warning. *)
Definition silent (e : event) : Prop := ∀ pid, warns pid e = false.

(** Every identity was warned about at most once, and the identities
    that were warned about are marked in the notified map. *)
Definition warned_once_in (tr : list event) (notified : list bool) : Prop :=
  ∀ pid, warnings pid tr = 0%nat
         ∨ (warnings pid tr = 1%nat ∧ 0 ≤ pid ∧ notified !! Z.to_nat pid = Some true).

Definition warned_once (s : GPUSPH) : Prop := warned_once_in (trace s) (m_rcNotified s).

(** No entry of the notified map [n0] that was set is reset in [n]. *)
Definition notified_kept (n0 n : list bool) : Prop :=
  ∀ id, n0 !! id = Some true → n !! id = Some true.

Definition rollcall_inv (n0 : list bool) (s : GPUSPH) : Prop :=
  notified_kept n0 (m_rcNotified s) ∧ warned_once s.

(** What one step of a roll-call loop may do to the notified map and to
    the messages: nothing, or mark an identity that was not marked yet,
    with at most one warning, about that identity. *)
Definition rc_step (r r' : rollcall) : Prop :=
  (rc_notified r' = rc_notified r ∧ rc_log r' = rc_log r)
  ∨ ∃ id, rc_notified r !! id = Some false
          ∧ rc_notified r' = <[id := true]> (rc_notified r)
          ∧ (rc_log r' = rc_log r
             ∨ ∃ m, rc_log r' = rc_log r ++ [m]
                    ∧ warns (Z.of_nat id) (EvLog m) = true
                    ∧ ∀ pid, pid ≠ Z.of_nat id → warns pid (EvLog m) = false).

Definition rc_inv (tr0 : list event) (n0 : list bool) (r : rollcall) : Prop :=
  notified_kept n0 (rc_notified r)
  ∧ warned_once_in (tr0 ++ (EvLog <$> rc_log r)) (rc_notified r).

(** A sum of [uint]s, as the code accumulates it, and the same sum in
    the integers. *)
Definition usum (l : list Z) : Z := foldl (λ acc x, wrap32 (acc + x)) 0 l.
Definition zsum (l : list Z) : Z := foldl Z.add 0 l.

(** What the workers of the local devices report. *)
Definition internal_counts (g : GlobalData) : list Z :=
  getNumInternalParticles (world g) <$> seq 0 (Z.to_nat (devices g)).

(** The ranges [start[d], start[d] + parts[d]) of the devices [0 .. D-1]
    follow each other, in the order of the devices, from [first] to
    [last]. *)
Definition tiles (parts start : list Z) (D : nat) (first last : Z) : Prop :=
  start !! 0%nat = Some first
  ∧ ∀ d, (d < D)%nat →
      ∃ a n, start !! d = Some a ∧ parts !! d = Some n ∧ 0 ≤ n
             ∧ if decide (S d = D) then a + n = last else start !! S d = Some (a + n).

(** The partition of the local node is as in [s0]: the counts, the
    offsets, the totals of the nodes. *)
Definition same_ranges (s0 s : GPUSPH) : Prop :=
  s_hPartsPerDevice (gdata s) = s_hPartsPerDevice (gdata s0)
  ∧ s_hStartPerDevice (gdata s) = s_hStartPerDevice (gdata s0)
  ∧ processParticles (gdata s) = processParticles (gdata s0).

(** The total of the simulation, summed over the nodes as
    [updateArrayIndices] does. *)
Definition new_total (g : GlobalData) : option Z :=
  for_loop (Z.to_nat (mpi_nodes g)) 0 (sum_nodes (processParticles g)) 0.

(** A change of the total without open boundaries is warned about, the
    routine returns, and the stored total is the new one. *)
Definition count_drift_is_diagnostic (s : GPUSPH) : Prop :=
  let g := gdata s in
  ∀ total, new_total g = Some total → total ≠ totParticles g →
    has_simflag (simparams g) ENABLE_INLET_OUTLET = false →
    ∃ s', reconcile_total s = (Ret tt, s')
          ∧ logged_since s s' (LogCountChanged (iterations g) (totParticles g) total)
          ∧ totParticles (gdata s') = total.

(** A routine whose only undefined behaviour is that of [doWrite] running
    off a host array: when it ends in undefined behaviour, it is in a
    state in which the loop of [doWrite] over the particles of the node
    leaves an array. *)
Definition overruns_only {A : Type} (m : M A) : Prop :=
  ∀ s, match m s with
       | (Undefined, s') => scan_particles (gdata s') = None
       | _ => True
       end.

(** ** A sample run

    One node with two devices.  Every key is its own device number on
    node 0 and a hash is its own cell; of four particles the device map
    sends two to each device; the workers report two particles each,
    change nothing, and either all succeed or all fail. *)

Definition ex_RANK (k : devcount_t) : devcount_t := 0%nat.
Definition ex_DEVICE (k : devcount_t) : devcount_t := k.
Definition ex_cellHash (h : Z) : nat := Z.to_nat h.

Definition ex_simparams : SimParams :=
  {| buildneibsfreq := 10; gcallback := false; sph_formulation := SPH_F1;
     visctype := ARTVISC; boundarytype := LJ_BOUNDARY; simflags := [ENABLE_DTADAPT];
     numbodies := 0; numforcesbodies := 0; numOpenBoundaries := 0; maxneibsnum := 128; gage := [] |}.

Definition ex_options (no_leak : bool) : Options :=
  {| striping := false; maxiter := 3; nosave := false; no_leak_warning := no_leak;
     resume_fname_empty := true |}.

Definition ex_debug : DebugValues :=
  {| inspect_preforce := false; debug_neibs := false; debug_forces := false |}.

Definition ex_framework : SimFramework :=
  {| getFilterFreqList := []; getPostProcEngines := []; hasBCEngine := false;
     get_multi_buffered := [BUFFER_POS; BUFFER_VEL] |}.

(** The host buffers of the sample runs: eight slots each, with the
    hashes and the particle infos as given. *)
Definition ex_buffers (hashes infos : list Z) : BufferList :=
  [(BUFFER_POS_GLOBAL, replicate 8 0); (BUFFER_POS, replicate 8 0); (BUFFER_HASH, hashes);
   (BUFFER_VEL, replicate 8 0); (BUFFER_INFO, infos)].

(** Shared state with [allocated] particle slots, a stored total of
    [total] particles and the timestep [dt0] on every device. *)
Definition ex_gdata (w : W) (allocated total : Z) (no_leak : bool) (dt0 : float) : GlobalData :=
  {| mpi_rank := 0; mpi_nodes := 1; devices := 2; totDevices := 2;
     allocatedParticles := allocated;
     simparams := ex_simparams; clOptions := ex_options no_leak; debug := ex_debug;
     simframework := ex_framework;
     totParticles := total; processParticles := [4];
     s_hPartsPerDevice := [2; 2]; s_hStartPerDevice := [0; 2];
     s_hDeviceMap := [0%nat; 1%nat];
     s_hBuffers := ex_buffers [1; 0; 1; 0; 0; 0; 0; 0] [0; 1; 2; 3; 0; 0; 0; 0];
     s_dSegmentsStart := [[0; 0; 0; 0]; [0; 0; 0; 0]];
     nextCommand := IDLE; commandFlags := []; extraCommandArg := 0%float;
     keep_going := true; quit_request := false; save_request := false;
     iterations := 0; t := 0%float; dt := dt0; dts := [dt0; dt0];
     only_internal := false; particlesCreated := false;
     particlesCreatedOnNode := [false; false]; createdParticlesIterations := 0;
     timingInfo := [{| maxNeibs := 3; numInteractions := 5; hasTooManyNeibs := -1; hasMaxNeibs := 0 |};
                    {| maxNeibs := 4; numInteractions := 5; hasTooManyNeibs := -1; hasMaxNeibs := 0 |}];
     lastGlobalPeakNeibsNum := 0; lastGlobalNumInteractions := 0; world := w |}.

Definition ex_state (g : GlobalData) : GPUSPH :=
  {| gdata := g; initialized := true; m_rcBitmap := replicate 8 false;
     m_rcNotified := replicate 8 false; m_rcAddrs := replicate 8 0; trace := [] |}.

Definition ex_workers (ok : bool) (g : GlobalData) : WorkerWrites :=
  {| failed := negb ok; w_quit_request := false; w_dts := dts g;
     w_particlesCreatedOnNode := particlesCreatedOnNode g; w_timingInfo := timingInfo g;
     w_s_hBuffers := s_hBuffers g; w_world := world g |}.

Definition ex_counts (w : W) (d : nat) : Z := 2.
Definition ex_gather (w : W) (c : Z) (l : list Z) : list Z := l.
Definition ex_reduce_bool (w : W) (b : bool) : bool := b.
Definition ex_reduce_min (w : W) (x : float) : float := x.
Definition ex_never (w : W) (time : float) : bool := false.
Definition ex_no_writer (w : W) (time : float) : list float := [].
Definition ex_host (c : host_call) (g : GlobalData) : W := world g.
Definition ex_id (info : Z) : Z := info.
Definition ex_enum (e : Z) : float := 0%float.
Definition ex_reduce_max (w : W) (x : float) : float := x.
Definition ex_position (w : W) (cellHash : nat) (pos : Z) : double4 :=
  {| d4_x := 0; d4_y := 0; d4_z := 0; d4_w := 0 |}.
Definition ex_word (p : double4) : Z := 0.
Definition ex_no (info : Z) : bool := false.
Definition ex_fluid_num (info : Z) : nat := 0%nat.
Definition ex_energies (w : W) (dpos : double4) (vel e : Z) : double4 :=
  {| d4_x := 0; d4_y := 0; d4_z := 0; d4_w := 0 |}.
Definition ex_speed (vel : Z) : float := 0%float.

(** Workers that report five particles each. *)
Definition ex_five (w : W) (d : nat) : Z := 5.

(** The start of the run; the same with a timestep of [2^-30], with three
    slots for the four particles, with a stored total of five particles
    and leak warnings off, and with a stored total of three. *)
Definition ex_start (w : W) : GPUSPH := ex_state (ex_gdata w 8 4 false 0x1p-10%float).
Definition ex_tiny (w : W) : GPUSPH := ex_state (ex_gdata w 8 4 false 0x1p-30%float).
Definition ex_small (w : W) : GPUSPH := ex_state (ex_gdata w 3 4 false 0x1p-10%float).
Definition ex_leak (w : W) : GPUSPH := ex_state (ex_gdata w 8 5 true 0x1p-10%float).
Definition ex_drift (w : W) : GPUSPH := ex_state (ex_gdata w 8 3 false 0x1p-10%float).

(** The same array already in bucket order: two particles of device 0,
    then two of device 1. *)
Definition ex_sorted (w : W) : GPUSPH :=
  ex_state
    (set_s_hBuffers (ex_buffers [0; 0; 1; 1; 0; 0; 0; 0] [0; 1; 2; 3; 0; 0; 0; 0])
       (ex_gdata w 8 4 false 0x1p-10%float)).

(** The same run with a limit of three neighbours per particle, which
    the second device, with four, exceeds. *)
Definition ex_crowded (w : W) : GPUSPH :=
  ex_state
    (set_simparams
       {| buildneibsfreq := 10; gcallback := false; sph_formulation := SPH_F1;
          visctype := ARTVISC; boundarytype := LJ_BOUNDARY; simflags := [ENABLE_DTADAPT];
          numbodies := 0; numforcesbodies := 0; numOpenBoundaries := 0; maxneibsnum := 3;
          gage := [] |}
       (ex_gdata w 8 4 false 0x1p-10%float)).

(** ** A sample run on two nodes

    Two nodes with two devices each.  A key holds the node above two bits
    for the device, and the linearized device number is the dense index
    of the device: the keys 0, 1, 4 and 5 name the devices 0, 1, 2 and 3.
    This is the node of rank 1; of six particles the device map gives two
    to the other node and two to each device of this one. *)
Definition ex_cluster_RANK (k : devcount_t) : devcount_t := (k / 4)%nat.
Definition ex_cluster_DEVICE (k : devcount_t) : devcount_t := (k mod 4)%nat.
Definition ex_cluster_NUM (k : devcount_t) : devcount_t := (k / 4 * 2 + k mod 4)%nat.

Definition ex_cluster (w : W) : GPUSPH :=
  ex_state
    {| mpi_rank := 1; mpi_nodes := 2; devices := 2; totDevices := 4;
       allocatedParticles := 8;
       simparams := ex_simparams; clOptions := ex_options false; debug := ex_debug;
       simframework := ex_framework;
       totParticles := 6; processParticles := [2; 4; 0; 0];
       s_hPartsPerDevice := [2; 2; 0; 0]; s_hStartPerDevice := [2; 4; 0; 0];
       s_hDeviceMap := [0%nat; 1%nat; 4%nat; 5%nat];
       s_hBuffers := ex_buffers [3; 0; 2; 1; 3; 2; 0; 0] [0; 1; 2; 3; 4; 5; 0; 0];
       s_dSegmentsStart := [[0; 0; 0; 0]; [0; 0; 0; 0]];
       nextCommand := IDLE; commandFlags := []; extraCommandArg := 0%float;
       keep_going := true; quit_request := false; save_request := false;
       iterations := 0; t := 0%float; dt := 0x1p-10%float;
       dts := [0x1p-10%float; 0x1p-10%float];
       only_internal := false; particlesCreated := false;
       particlesCreatedOnNode := [false; false]; createdParticlesIterations := 0;
       timingInfo := [{| maxNeibs := 3; numInteractions := 5; hasTooManyNeibs := -1;
                         hasMaxNeibs := 0 |};
                      {| maxNeibs := 4; numInteractions := 5; hasTooManyNeibs := -1;
                         hasMaxNeibs := 0 |}];
       lastGlobalPeakNeibsNum := 0; lastGlobalNumInteractions := 0; world := w |}.

(** ** More about the partitioner *)

(** The linearized device number is the dense index of the device in
    the run: with [M] devices on every node, it orders the devices by
    node and, within a node, by device. *)
Definition linearized (M : nat) : Prop :=
  ∀ k, GLOBAL_DEVICE_NUM k = (RANK k * M + DEVICE k)%nat.

(** The first particle whose key is below its predecessor's. *)
Definition first_decrease (ks : list devcount_t) (q : nat) (a b : devcount_t) : Prop :=
  ks !! q = Some a ∧ ks !! S q = Some b ∧ (b < a)%nat
  ∧ ∀ q' a' b', (q' < q)%nat → ks !! q' = Some a' → ks !! S q' = Some b' → (a' ≤ b')%nat.

(** The keys of node [n]; those of the nodes before [rank]; those of the
    devices before [d] of node [rank]. *)
Definition count_node (n : nat) (ks : list devcount_t) : nat :=
  length (filter (λ k, RANK k = n) ks).

Definition count_before_node (rank : Z) (ks : list devcount_t) : nat :=
  length (filter (λ k, Z.of_nat (RANK k) < rank) ks).

Definition count_before_device (rank : Z) (d : nat) (ks : list devcount_t) : nat :=
  length (filter (λ k, Z.of_nat (RANK k) = rank ∧ (DEVICE k < d)%nat) ks).

(** The keys, as numbers, never decrease from a particle to the next. *)
Definition keys_nondecreasing (ks : list devcount_t) : Prop :=
  ∀ q a b, ks !! q = Some a → ks !! S q = Some b → (a ≤ b)%nat.

(** The lines that announce the particles assigned to the devices of the
    node. *)
Definition device_lines (D : nat) (rank : Z) (ks : list devcount_t) : list log_msg :=
  (λ d, LogDeviceParts d (Z.of_nat (count_local rank d ks))) <$> seq 0 D.

(** ** The dispatch protocol over a run *)

(** Every command posted in a trace is followed at once by two barriers
    that carry the same command, flags and argument. *)
Definition protocol_ok (tr : list event) : Prop :=
  ∀ i cmd flags arg alive,
    tr !! i = Some (EvPost cmd flags arg alive) →
    tr !! S i = Some (EvBarrier cmd flags arg)
    ∧ tr !! S (S i) = Some (EvBarrier cmd flags arg).

Definition protocol_inv (s : GPUSPH) : Prop := protocol_ok (trace s).

(** An event that posts no command. *)
Definition no_post (e : event) : Prop :=
  match e with
  | EvPost _ _ _ _ => False
  | _ => True
  end.

(** ** Configuration and clock *)

(** What is fixed when the run is set up: the options, the parameters of
    the simulation but for the wave gages (whose levels [doWrite]
    computes), the framework, the debug switches, the shape of the cluster
    and the capacity of the particle arrays. *)
Definition settings (g : GlobalData)
    : Options * SimParams * SimFramework * DebugValues * (Z * Z * Z * Z * Z) :=
  (clOptions g, set_gage [] (simparams g), simframework g, debug g,
   (mpi_rank g, mpi_nodes g, devices g, totDevices g, allocatedParticles g)).

(** The iteration counter, the simulated time and the timestep. *)
Definition clock (g : GlobalData) : Z * float * float := (iterations g, t g, dt g).

(** An update of the shared state that changes neither. *)
Definition steady (f : GlobalData → GlobalData) : Prop :=
  ∀ g, settings (f g) = settings g ∧ clock (f g) = clock g.

(** A routine that changes neither, however it ends. *)
Definition steady_routine {A : Type} (m : M A) : Prop :=
  ∀ s, settings (gdata (m s).2) = settings (gdata s)
       ∧ clock (gdata (m s).2) = clock (gdata s).

(** The termination test of an iteration: the problem says it is
    finished, the iteration limit is reached, or a quit was requested. *)
Definition we_are_done (g1 : GlobalData) : bool :=
  problem_finished (world g1) (t g1)
  || (negb (maxiter (clOptions g1) =? 0) && (maxiter (clOptions g1) <=? iterations g1))
  || quit_request g1.

(** ** The sample run with open boundaries

    The same node with an inlet: the stored total is three particles
    while the node counts four. *)
Definition ex_open_params : SimParams :=
  {| buildneibsfreq := 10; gcallback := false; sph_formulation := SPH_F1;
     visctype := ARTVISC; boundarytype := LJ_BOUNDARY;
     simflags := [ENABLE_DTADAPT; ENABLE_INLET_OUTLET];
     numbodies := 0; numforcesbodies := 0; numOpenBoundaries := 1; maxneibsnum := 128; gage := [] |}.

Definition ex_open (w : W) : GPUSPH :=
  ex_state
    {| mpi_rank := 0; mpi_nodes := 1; devices := 2; totDevices := 2;
       allocatedParticles := 8;
       simparams := ex_open_params; clOptions := ex_options false; debug := ex_debug;
       simframework := ex_framework;
       totParticles := 3; processParticles := [4];
       s_hPartsPerDevice := [2; 2]; s_hStartPerDevice := [0; 2];
       s_hDeviceMap := [0%nat; 1%nat];
       s_hBuffers := ex_buffers [1; 0; 1; 0; 0; 0; 0; 0] [0; 1; 2; 3; 0; 0; 0; 0];
       s_dSegmentsStart := [[0; 0; 0; 0]; [0; 0; 0; 0]];
       nextCommand := IDLE; commandFlags := []; extraCommandArg := 0%float;
       keep_going := true; quit_request := false; save_request := false;
       iterations := 0; t := 0%float; dt := 0x1p-10%float;
       dts := [0x1p-10%float; 0x1p-10%float];
       only_internal := false; particlesCreated := false;
       particlesCreatedOnNode := [false; false]; createdParticlesIterations := 0;
       timingInfo := [{| maxNeibs := 3; numInteractions := 5; hasTooManyNeibs := -1; hasMaxNeibs := 0 |};
                      {| maxNeibs := 4; numInteractions := 5; hasTooManyNeibs := -1; hasMaxNeibs := 0 |}];
       lastGlobalPeakNeibsNum := 0; lastGlobalNumInteractions := 0; world := w |}.

(** ** Writing *)









(** ** The neighbour warnings *)

(** The two lines printed for a device whose largest number of
    neighbours is above the limit. *)
Definition neibs_warning (limit iterations : Z) (ti : TimingInfo) : list log_msg :=
  [LogTooManyNeibs (maxNeibs ti) limit iterations;
   LogPossibleCulprit (hasTooManyNeibs ti) (hasMaxNeibs ti)].

(** ** The roll call on a given array *)

(** The identities of the particles of the node, in array order. *)
Definition node_particle_ids (g : GlobalData) (ids : list nat) : Prop :=
  ∃ rank parts infos,
    index (mpi_rank g) = Some rank
    ∧ processParticles g !! rank = Some parts
    ∧ getData BUFFER_INFO (s_hBuffers g) = Some infos
    ∧ length ids = Z.to_nat parts
    ∧ Forall2 (λ info id, particle_id info = Z.of_nat id) (take (Z.to_nat parts) infos) ids.

(** The three roll-call arrays have at least [k] entries. *)
Definition rc_fits (s : GPUSPH) (k : nat) : Prop :=
  (k ≤ length (m_rcBitmap s))%nat ∧ (k ≤ length (m_rcNotified s))%nat
  ∧ (k ≤ length (m_rcAddrs s))%nat.

(** ** The sample run with a lost particle

    The particle with identity 2 is gone: the four particles of the node
    have the identities 0, 1, 3 and 4. *)
Definition ex_hole (w : W) : GPUSPH :=
  ex_state
    (set_s_hBuffers (ex_buffers [1; 0; 1; 0; 0; 0; 0; 0] [0; 1; 3; 4; 0; 0; 0; 0])
       (ex_gdata w 8 4 false 0x1p-10%float)).


(** ** Exchanges of the double buffers *)

(** Does the event post a SWAP_BUFFERS command that names buffer [b]? *)
Definition is_swap_of (b : flag) (e : event) : bool :=
  match e with
  | EvPost SWAP_BUFFERS flags _ _ => has_flag flags b
  | _ => false
  end.

(** How many times the commands of [tr] exchange the copies of [b]. *)
Definition swap_count (b : flag) (tr : list event) : nat :=
  sum_list_with (λ e, if is_swap_of b e then 1%nat else 0%nat) tr.

(** A routine that, when it returns, has exchanged buffer [b] [c b] times. *)
Definition swaps (m : M unit) (c : flag → nat) : Prop :=
  ∀ s s', m s = (Ret tt, s') →
    ∃ tr, trace s' = trace s ++ tr ∧ ∀ b, swap_count b tr = c b.

(** ** The sample run with semi-analytical and open boundaries *)
Definition ex_sa_params : SimParams :=
  {| buildneibsfreq := 10; gcallback := false; sph_formulation := SPH_F1;
     visctype := ARTVISC; boundarytype := SA_BOUNDARY;
     simflags := [ENABLE_DTADAPT; ENABLE_INLET_OUTLET];
     numbodies := 0; numforcesbodies := 0; numOpenBoundaries := 1; maxneibsnum := 128; gage := [] |}.

Definition ex_sa_framework : SimFramework :=
  {| getFilterFreqList := []; getPostProcEngines := []; hasBCEngine := true;
     get_multi_buffered := [BUFFER_POS; BUFFER_VEL] |}.

Definition ex_sa (w : W) : GPUSPH :=
  ex_state
    {| mpi_rank := 0; mpi_nodes := 1; devices := 2; totDevices := 2;
       allocatedParticles := 8;
       simparams := ex_sa_params; clOptions := ex_options false; debug := ex_debug;
       simframework := ex_sa_framework;
       totParticles := 4; processParticles := [4];
       s_hPartsPerDevice := [2; 2]; s_hStartPerDevice := [0; 2];
       s_hDeviceMap := [0%nat; 1%nat];
       s_hBuffers := ex_buffers [1; 0; 1; 0; 0; 0; 0; 0] [0; 1; 2; 3; 0; 0; 0; 0];
       s_dSegmentsStart := [[0; 0; 0; 0]; [0; 0; 0; 0]];
       nextCommand := IDLE; commandFlags := []; extraCommandArg := 0%float;
       keep_going := true; quit_request := false; save_request := false;
       iterations := 0; t := 0%float; dt := 0x1p-10%float;
       dts := [0x1p-10%float; 0x1p-10%float];
       only_internal := false; particlesCreated := false;
       particlesCreatedOnNode := [false; false]; createdParticlesIterations := 0;
       timingInfo := [{| maxNeibs := 3; numInteractions := 5; hasTooManyNeibs := -1; hasMaxNeibs := 0 |};
                      {| maxNeibs := 4; numInteractions := 5; hasTooManyNeibs := -1; hasMaxNeibs := 0 |}];
       lastGlobalPeakNeibsNum := 0; lastGlobalNumInteractions := 0; world := w |}.
(** * Properties *)

(** ** Loops and arrays *)

Lemma wrap32_small (x : Z) : 0 ≤ x < 4294967296 → wrap32 x = x.
Proof. intros H. unfold wrap32. apply Z.mod_small. lia. Qed.

Lemma for_loop_snoc {St : Type} (n p : nat) (body : nat → St → option St) (s : St) :
  for_loop (S n) p body s = for_loop n p body s ≫= body (p + n)%nat.
Proof.
  revert p s. induction n as [|n IH]; intros p s.
  - simpl. replace (p + 0)%nat with p by lia. destruct (body p s); reflexivity.
  - change (for_loop (S (S n)) p body s)
      with (body p s ≫= for_loop (S n) (S p) body).
    change (for_loop (S n) p body s) with (body p s ≫= for_loop n (S p) body).
    destruct (body p s) as [s'|]; [|reflexivity].
    change (for_loop (S n) (S p) body s'
            = for_loop n (S p) body s' ≫= body (p + S n)%nat).
    rewrite IH. replace (S p + n)%nat with (p + S n)%nat by lia. reflexivity.
Qed.

(** An invariant carried through a loop whose body cannot fail under it. *)
Lemma for_loop_total {St : Type} (I : nat → St → Prop) (n p : nat)
    (body : nat → St → option St) (s : St) :
  I p s →
  (∀ i s, (p ≤ i < p + n)%nat → I i s → ∃ s', body i s = Some s' ∧ I (S i) s') →
  ∃ s', for_loop n p body s = Some s' ∧ I (p + n)%nat s'.
Proof.
  revert p s. induction n as [|n IH]; intros p s H0 Hstep.
  - exists s. replace (p + 0)%nat with p by lia. auto.
  - destruct (Hstep p s) as (s1 & Hb & H1); [lia|assumption|].
    destruct (IH (S p) s1) as (s2 & Hl & H2); [assumption| |].
    + intros i s' Hi. apply Hstep. lia.
    + exists s2. simpl. rewrite Hb. simpl. rewrite Hl.
      replace (p + S n)%nat with (S p + n)%nat by lia. auto.
Qed.

(** An invariant carried through a loop that is known to have ended. *)
Lemma for_loop_inv {St : Type} (I : nat → St → Prop) (n p : nat)
    (body : nat → St → option St) (s s' : St) :
  for_loop n p body s = Some s' →
  I p s →
  (∀ i s s', (p ≤ i < p + n)%nat → I i s → body i s = Some s' → I (S i) s') →
  I (p + n)%nat s'.
Proof.
  revert p s. induction n as [|n IH]; intros p s Hl H0 Hstep.
  - simpl in Hl. injection Hl as <-. replace (p + 0)%nat with p by lia. assumption.
  - simpl in Hl. destruct (body p s) as [s1|] eqn:Hb; simpl in Hl; [|discriminate].
    replace (p + S n)%nat with (S p + n)%nat by lia.
    apply (IH (S p) s1); [assumption| |].
    + apply (Hstep p s s1); [lia|assumption|assumption].
    + intros i x x' Hi. apply Hstep. lia.
Qed.

Lemma store_Some {A : Type} (a : list A) (i : nat) (v : A) :
  (i < length a)%nat → store a i v = Some (<[i := v]> a).
Proof. intros H. unfold store. destruct (decide (i < length a)%nat); [reflexivity|lia]. Qed.

Lemma store_inv {A : Type} (a a' : list A) (i : nat) (v : A) :
  store a i v = Some a' → (i < length a)%nat ∧ a' = <[i := v]> a.
Proof.
  unfold store. destruct (decide (i < length a)%nat); [|discriminate].
  intros [= <-]. auto.
Qed.

(** ** Swapping two particles *)

Lemma swap_elements_inv {A : Type} (i j : nat) (l l' : list A) :
  swap_elements i j l = Some l' →
  ∃ x y, l !! i = Some x ∧ l !! j = Some y ∧ l' = <[j := x]> (<[i := y]> l).
Proof.
  unfold swap_elements. intros H.
  destruct (l !! i) as [x|] eqn:Hx; simpl in H; [|discriminate].
  destruct (l !! j) as [y|] eqn:Hy; simpl in H; [|discriminate].
  injection H as <-. eauto.
Qed.

Lemma swap_elements_Some {A : Type} (i j : nat) (l : list A) (x y : A) :
  l !! i = Some x → l !! j = Some y →
  swap_elements i j l = Some (<[j := x]> (<[i := y]> l)).
Proof. intros Hx Hy. unfold swap_elements. rewrite Hx. simpl. rewrite Hy. reflexivity. Qed.

Lemma swap_lookup {A : Type} (i j m : nat) (l : list A) (x y : A) :
  l !! i = Some x → l !! j = Some y →
  <[j := x]> (<[i := y]> l) !! m
  = if decide (m = j) then Some x else if decide (m = i) then Some y else l !! m.
Proof.
  intros Hx Hy.
  destruct (decide (m = j)) as [->|Hj].
  - apply list_lookup_insert_eq. rewrite length_insert. eapply lookup_lt_Some; eauto.
  - rewrite list_lookup_insert_ne by auto. destruct (decide (m = i)) as [->|Hi].
    + apply list_lookup_insert_eq. eapply lookup_lt_Some; eauto.
    + rewrite list_lookup_insert_ne by auto. reflexivity.
Qed.

Lemma particleSwap_Some (i j n : nat) (bl : BufferList) :
  (i < n)%nat → (j < n)%nat → Forall (λ b, (n ≤ length b.2)%nat) bl →
  ∃ bl', particleSwap i j bl = Some bl'.
Proof.
  intros Hi Hj. induction 1 as [|[k col] bl Hlen _ IH]; simpl.
  - eauto.
  - simpl in Hlen.
    destruct (lookup_lt_is_Some_2 col i) as [x Hx]; [lia|].
    destruct (lookup_lt_is_Some_2 col j) as [y Hy]; [lia|].
    rewrite (swap_elements_Some _ _ _ _ _ Hx Hy). simpl.
    destruct IH as [bl' ->]. simpl. eauto.
Qed.

Lemma particleSwap_getData (i j : nat) (bl bl' : BufferList) (key : flag) (col : list Z) :
  particleSwap i j bl = Some bl' → getData key bl = Some col →
  ∃ col', swap_elements i j col = Some col' ∧ getData key bl' = Some col'.
Proof.
  revert bl'. induction bl as [|[k c] bl IH]; intros bl' Hs Hg; simpl in *.
  - discriminate.
  - destruct (swap_elements i j c) as [c'|] eqn:Hc; simpl in Hs; [|discriminate].
    destruct (particleSwap i j bl) as [r|] eqn:Hr; simpl in Hs; [|discriminate].
    injection Hs as <-. simpl.
    destruct (decide (k = key)).
    + injection Hg as <-. eauto.
    + apply (IH r); auto.
Qed.

Lemma particleSwap_lengths (i j n : nat) (bl bl' : BufferList) :
  particleSwap i j bl = Some bl' →
  Forall (λ b, (n ≤ length b.2)%nat) bl → Forall (λ b, (n ≤ length b.2)%nat) bl'.
Proof.
  revert bl'. induction bl as [|[k c] bl IH]; intros bl' Hs Hf; simpl in *.
  - injection Hs as <-. constructor.
  - destruct (swap_elements i j c) as [c'|] eqn:Hc; simpl in Hs; [|discriminate].
    destruct (particleSwap i j bl) as [r|] eqn:Hr; simpl in Hs; [|discriminate].
    injection Hs as <-. inversion Hf as [|? ? Hh Ht]; subst.
    constructor.
    + simpl in *. apply swap_elements_inv in Hc as (x & y & _ & _ & ->).
      rewrite !length_insert. assumption.
    + apply IH; auto.
Qed.

Lemma keys_match_swap (map ks ks' : list devcount_t) (bl bl' : BufferList) (i j : nat) :
  keys_match map ks bl →
  swap_elements i j ks = Some ks' → particleSwap i j bl = Some bl' →
  keys_match map ks' bl'.
Proof.
  intros [(hashes & Hg & Hf) Hlen] Hk Hb.
  apply swap_elements_inv in Hk as (x & y & Hx & Hy & ->).
  pose proof (lookup_lt_Some _ _ _ Hx) as Hi.
  pose proof (lookup_lt_Some _ _ _ Hy) as Hj.
  destruct (particleSwap_getData _ _ _ _ _ _ Hb Hg) as (col' & Hc & Hg').
  apply swap_elements_inv in Hc as (hx & hy & Hhx & Hhy & ->).
  split.
  - exists (<[j := hx]> (<[i := hy]> hashes)). split; [assumption|].
    rewrite !length_insert.
    rewrite take_insert_lt by assumption. rewrite take_insert_lt by assumption.
    apply Forall2_insert; [apply Forall2_insert; [assumption|]|].
    + apply (Forall2_lookup_lr _ _ _ j _ hy Hf Hy).
      rewrite lookup_take_lt by assumption. assumption.
    + apply (Forall2_lookup_lr _ _ _ i _ hx Hf Hx).
      rewrite lookup_take_lt by assumption. assumption.
  - rewrite !length_insert. eapply particleSwap_lengths; eauto.
Qed.

(** ** Counting keys *)

Lemma count_bucket_app (c : nat) (l1 l2 : list devcount_t) :
  count_bucket c (l1 ++ l2) = (count_bucket c l1 + count_bucket c l2)%nat.
Proof. unfold count_bucket. rewrite filter_app, length_app. reflexivity. Qed.

Lemma count_bucket_perm (c : nat) (l1 l2 : list devcount_t) :
  l1 ≡ₚ l2 → count_bucket c l1 = count_bucket c l2.
Proof. intros H. unfold count_bucket. rewrite H. reflexivity. Qed.

Lemma below_perm (c : nat) (l1 l2 : list devcount_t) :
  l1 ≡ₚ l2 → below c l1 = below c l2.
Proof. intros H. unfold below. rewrite H. reflexivity. Qed.

Lemma count_bucket_split (c L : nat) (ks : list devcount_t) :
  count_bucket c ks = (count_bucket c (take L ks) + count_bucket c (drop L ks))%nat.
Proof. rewrite <- count_bucket_app, take_drop. reflexivity. Qed.

Lemma below_S (c : nat) (ks : list devcount_t) :
  below (S c) ks = (below c ks + count_bucket c ks)%nat.
Proof.
  unfold below, count_bucket. induction ks as [|k ks IH]; [reflexivity|].
  rewrite !filter_cons.
  destruct (decide (bucket k < S c)%nat), (decide (bucket k < c)%nat),
    (decide (bucket k = c)); simpl; lia.
Qed.

Lemma below_le_length (c : nat) (ks : list devcount_t) : (below c ks ≤ length ks)%nat.
Proof. apply length_filter. Qed.

Lemma count_bucket_zero (c : nat) (ks : list devcount_t) :
  count_bucket c ks = 0%nat → ∀ i k, ks !! i = Some k → bucket k ≠ c.
Proof.
  unfold count_bucket. induction ks as [|x ks IH]; intros H i k Hi.
  - rewrite lookup_nil in Hi. discriminate.
  - rewrite filter_cons in H. destruct (decide (bucket x = c)); [discriminate|].
    destruct i as [|i]; simpl in Hi.
    + injection Hi as <-. assumption.
    + eapply IH; eauto.
Qed.

Lemma count_bucket_pos (c : nat) (ks : list devcount_t) :
  (0 < count_bucket c ks)%nat → ∃ i k, ks !! i = Some k ∧ bucket k = c.
Proof.
  unfold count_bucket. induction ks as [|x ks IH]; intros H.
  - simpl in H. lia.
  - rewrite filter_cons in H. destruct (decide (bucket x = c)).
    + exists 0%nat, x. auto.
    + destruct (IH H) as (i & k & Hi & Hk). exists (S i), k. auto.
Qed.

Lemma count_bucket_none (c : nat) (ks : list devcount_t) :
  (∀ i k, ks !! i = Some k → bucket k ≠ c) → count_bucket c ks = 0%nat.
Proof.
  intros H. destruct (count_bucket c ks) eqn:E; [reflexivity|].
  destruct (count_bucket_pos c ks) as (i & k & Hi & Hk); [lia|].
  exfalso. eapply H; eauto.
Qed.

(** ** The right-to-left scan *)

Lemma scan_right_finds (ks : list devcount_t) (c R p : nat) (kp : devcount_t) :
  (p ≤ R)%nat → (R < length ks)%nat → ks !! p = Some kp → bucket kp = c →
  ∃ r kr, scan_right ks c R = Some r ∧ (p ≤ r ≤ R)%nat ∧ ks !! r = Some kr
          ∧ bucket kr = c
          ∧ ∀ j k, (r < j ≤ R)%nat → ks !! j = Some k → bucket k ≠ c.
Proof.
  unfold bucket. induction R as [|R IH]; intros HpR HR Hp Hc.
  - assert (p = 0%nat) as -> by lia. simpl. rewrite Hp.
    destruct (decide (GLOBAL_DEVICE_NUM kp = c)); [|contradiction].
    exists 0%nat, kp. repeat split; auto. intros j k Hj. lia.
  - destruct (lookup_lt_is_Some_2 ks (S R)) as [k Hk]; [lia|].
    simpl. rewrite Hk. destruct (decide (GLOBAL_DEVICE_NUM k = c)) as [Heq|Hne].
    + exists (S R), k. repeat split; auto. intros j k' Hj. lia.
    + assert (p ≠ S R) by (intros ->; congruence).
      destruct IH as (r & kr & Hs & Hr & Hkr & Hbr & Hall); [lia|lia|assumption|assumption|].
      exists r, kr. repeat split; auto; try lia.
      intros j k' Hj Hk'. destruct (decide (j = S R)) as [->|].
      * congruence.
      * eapply Hall; [|eassumption]. lia.
Qed.

(** ** The compaction pass *)

Lemma count_bucket_singleton (c : nat) (k : devcount_t) :
  count_bucket c [k] = if decide (bucket k = c) then 1%nat else 0%nat.
Proof.
  unfold count_bucket. rewrite filter_cons, filter_nil.
  destruct (decide (bucket k = c)); reflexivity.
Qed.

(** One step of the inner loop: while the bucket is not full, the key at
    [leftB] is read inside the array, the scan (if needed) finds a key of
    the bucket to the right of [leftB], and the invariant is kept. *)
Lemma place_one_spec (map ks0 : list devcount_t) (c : nat) (s : cursors) :
  Z.of_nat (length ks0) < 4294967296 →
  pass_inv map ks0 c s →
  (Z.to_nat (leftB s) < below (S c) ks0)%nat →
  ∃ s', place_one c s = Some s'
        ∧ pass_inv map ks0 c s'
        ∧ leftB s' = leftB s + 1.
Proof.
  intros Hlen (L & R & HL & HR & Hperm & HRlen & P2 & P3 & P4 & P5 & P6 & Hm) Hlt.
  rewrite HL, Nat2Z.id in Hlt.
  pose proof (Permutation_length Hperm) as Hlenk.
  assert (0 < count_bucket c (drop L (keys s)))%nat as Hcnt.
  { pose proof (below_S c ks0) as H1.
    pose proof (count_bucket_split c L (keys s)) as H2.
    rewrite (count_bucket_perm c _ _ Hperm) in H2. lia. }
  destruct (count_bucket_pos _ _ Hcnt) as (i0 & kp & Hi0 & Hkp).
  rewrite lookup_drop in Hi0.
  pose proof (lookup_lt_Some _ _ _ Hi0) as Hp.
  destruct (lookup_lt_is_Some_2 (keys s) L) as [k Hk]; [lia|].
  assert (wrap32 (Z.of_nat L + 1) = Z.of_nat (S L)) as Hw.
  { rewrite wrap32_small; lia. }
  unfold place_one. rewrite HL, Nat2Z.id, Hk. simpl.
  destruct (decide (GLOBAL_DEVICE_NUM k ≠ c)) as [Hne|Heq].
  - assert (i0 ≠ 0%nat) as Hi0'.
    { intros ->. replace (L + 0)%nat with L in Hi0 by lia.
      rewrite Hk in Hi0. injection Hi0 as ->. contradiction. }
    assert (L + i0 ≤ R)%nat as HpR.
    { destruct (decide (L + i0 ≤ R)%nat); [assumption|].
      exfalso. apply (P6 (L + i0)%nat kp); [lia|assumption|assumption]. }
    destruct (scan_right_finds (keys s) c R (L + i0) kp)
      as (r & kr & Hs & Hr & Hkr & Hbr & Hall); [assumption|lia|assumption|assumption|].
    rewrite HR, Nat2Z.id, Hs. simpl.
    destruct (particleSwap_Some L r (length (keys s)) (bufs s)) as [bl' Hbl'];
      [lia|lia|apply Hm|].
    rewrite Hbl'. simpl.
    rewrite (swap_elements_Some _ _ _ _ _ Hk Hkr). simpl.
    eexists. split; [reflexivity|]. simpl. split; [|lia].
    exists (S L), r. simpl.
    assert (∀ m, <[r := k]> (<[L := kr]> (keys s)) !! m
                 = if decide (m = r) then Some k
                   else if decide (m = L) then Some kr else keys s !! m) as Hlk.
    { intros m. apply swap_lookup; assumption. }
    split; [assumption|]. split; [reflexivity|].
    split; [rewrite Permutation_insert_swap by assumption; assumption|].
    split; [rewrite !length_insert; lia|].
    split; [|split; [|split; [|split; [|split]]]].
    + intros i x Hi Hx. rewrite Hlk in Hx.
      destruct (decide (i = r)); [lia|]. destruct (decide (i = L)).
      * injection Hx as <-. unfold bucket in *. lia.
      * apply (P2 i); [lia|assumption].
    + intros j x Hj Hx. rewrite Hlk in Hx.
      destruct (decide (j = r)).
      * injection Hx as <-. apply (P3 L); [lia|assumption].
      * destruct (decide (j = L)); [lia|]. apply (P3 j); [lia|assumption].
    + intros i j xi xj Hi Hij Hxi Hxj. rewrite Hlk in Hxi, Hxj.
      destruct (decide (i = r)); [lia|].
      destruct (decide (j = r)).
      * injection Hxj as <-. destruct (decide (i = L)).
        -- injection Hxi as <-. rewrite Hbr. apply (P3 L); [lia|assumption].
        -- apply (P4 i L); [lia|lia|assumption|assumption].
      * destruct (decide (j = L)).
        -- injection Hxj as <-. destruct (decide (i = L)); [lia|].
           rewrite Hbr. apply (P2 i); [lia|assumption].
        -- destruct (decide (i = L)).
           ++ injection Hxi as <-. rewrite Hbr. apply (P3 j); [lia|assumption].
           ++ apply (P4 i j); [lia|lia|assumption|assumption].
    + rewrite (take_S_r _ _ kr).
      * rewrite take_insert_ge by lia. rewrite take_insert_ge by lia.
        rewrite count_bucket_app, count_bucket_singleton.
        destruct (decide (bucket kr = c)); [lia|contradiction].
      * rewrite Hlk. destruct (decide (L = r)); [lia|].
        destruct (decide (L = L)); [reflexivity|contradiction].
    + intros j x Hj Hx. rewrite Hlk in Hx.
      destruct (decide (j = r)); [lia|]. destruct (decide (j = L)); [lia|].
      destruct (decide (j ≤ R)%nat).
      * apply (Hall j); [lia|assumption].
      * apply (P6 j); [lia|assumption].
    + eapply keys_match_swap; [exact Hm| |exact Hbl'].
      apply swap_elements_Some; assumption.
  - assert (bucket k = c) as Hkc.
    { unfold bucket. destruct (decide (GLOBAL_DEVICE_NUM k = c)); [assumption|contradiction]. }
    simpl. eexists. split; [reflexivity|]. simpl. rewrite !HL, Hw. split; [|lia].
    exists (S L), R. simpl.
    split; [reflexivity|]. split; [assumption|]. split; [assumption|].
    split; [assumption|].
    split; [|split; [|split; [|split; [|split]]]]; try assumption.
    + intros i x Hi Hx. destruct (decide (i = L)) as [->|].
      * rewrite Hk in Hx. injection Hx as <-. lia.
      * apply (P2 i); [lia|assumption].
    + intros j x Hj Hx. apply (P3 j); [lia|assumption].
    + intros i j xi xj Hi Hij Hxi Hxj. destruct (decide (i = L)) as [->|].
      * rewrite Hk in Hxi. injection Hxi as <-. rewrite Hkc.
        apply (P3 j); [lia|assumption].
      * apply (P4 i j); [lia|lia|assumption|assumption].
    + rewrite (take_S_r _ _ k) by assumption.
      rewrite count_bucket_app, count_bucket_singleton.
      destruct (decide (bucket k = c)); [lia|contradiction].
Qed.

Lemma fill_bucket_spec (map ks0 : list devcount_t) (c m : nat) (s : cursors) :
  Z.of_nat (length ks0) < 4294967296 →
  pass_inv map ks0 c s →
  (Z.to_nat (leftB s) + m = below (S c) ks0)%nat →
  ∃ s', fill_bucket m c s = Some s'
        ∧ pass_inv map ks0 c s'
        ∧ Z.to_nat (leftB s') = below (S c) ks0.
Proof.
  intros Hlen. revert s. induction m as [|m IH]; intros s Hinv Hm.
  - exists s. simpl. repeat split; [assumption|lia].
  - destruct (place_one_spec map ks0 c s) as (s1 & H1 & Hinv1 & HL1); [assumption|assumption|lia|].
    assert (0 ≤ leftB s) as Hnn.
    { destruct Hinv as (L & _ & HL & _). lia. }
    destruct (IH s1) as (s2 & H2 & Hinv2 & HL2); [assumption|lia|].
    exists s2. simpl. rewrite H1. simpl. auto.
Qed.

Lemma below_0 (ks : list devcount_t) : below 0 ks = 0%nat.
Proof.
  unfold below. induction ks as [|k ks IH]; [reflexivity|].
  rewrite filter_cons. destruct (decide (bucket k < 0)%nat); [lia|assumption].
Qed.

Lemma below_mono (c c' : nat) (ks : list devcount_t) :
  (c ≤ c')%nat → (below c ks ≤ below c' ks)%nat.
Proof.
  intros H. unfold below. induction ks as [|k ks IH]; [reflexivity|].
  rewrite !filter_cons.
  destruct (decide (bucket k < c)%nat), (decide (bucket k < c')%nat); simpl; lia.
Qed.

(** One bucket: from the state between buckets [c] and [c + 1]. *)
Lemma bucket_pass_spec (map ks0 : list devcount_t) (counts : list Z) (c : nat)
    (st : cursors * Z) :
  Z.of_nat (length ks0) < 4294967296 →
  counts !! c = Some (Z.of_nat (count_bucket c ks0)) →
  outer_inv map ks0 c st →
  ∃ st', bucket_pass counts (wrap32 (Z.of_nat (length ks0) - 1)) c st = Some st'
         ∧ outer_inv map ks0 (S c) st'.
Proof.
  intros Hlen Hc (Hn & HL & Hperm & Q2 & Q3 & Q4 & Hm).
  destruct st as [s nb]. simpl in *. subst nb.
  pose proof (Permutation_length Hperm) as Hlenk.
  pose proof (below_S c ks0) as HS.
  pose proof (below_le_length (S c) ks0) as Hle.
  unfold bucket_pass. rewrite Hc. simpl.
  assert (wrap32 (Z.of_nat (below c ks0) + Z.of_nat (count_bucket c ks0))
          = Z.of_nat (below (S c) ks0)) as Hnext.
  { rewrite wrap32_small; lia. }
  rewrite Hnext, HL.
  set (maxIdx := wrap32 (Z.of_nat (length ks0) - 1)).
  assert (0 ≤ maxIdx) as HmaxIdx.
  { unfold maxIdx, wrap32. apply Z.mod_pos_bound. lia. }
  destruct (fill_bucket_spec map ks0 c (count_bucket c ks0)
              {| keys := keys s; bufs := bufs s; leftB := Z.of_nat (below c ks0);
                 rightB := maxIdx; nswaps := nswaps s |})
    as (s' & Hf & (L' & R' & HL' & HR' & Hperm' & _ & P2 & P3 & P4 & P5 & _ & Hm') & Hend).
  - assumption.
  - exists (below c ks0), (Z.to_nat maxIdx). simpl.
    split; [reflexivity|]. split; [lia|]. split; [assumption|].
    assert (length (keys s) = 0%nat ∨ Z.to_nat maxIdx = (length (keys s) - 1)%nat) as Hcase.
    { destruct (length (keys s)) as [|n] eqn:E; [left; reflexivity|right].
      unfold maxIdx. rewrite wrap32_small; lia. }
    split; [lia|].
    split; [|split; [|split; [|split; [|split]]]].
    + intros i k Hi Hk. specialize (Q2 i k Hi Hk). lia.
    + assumption.
    + assumption.
    + rewrite count_bucket_none; [lia|].
      intros i k Hk. apply lookup_take_Some in Hk as [Hk Hi].
      specialize (Q2 i k Hi Hk). lia.
    + intros j k Hj Hk. apply lookup_lt_Some in Hk. lia.
    + assumption.
  - simpl. rewrite Nat2Z.id. lia.
  - replace (Z.to_nat (Z.of_nat (below (S c) ks0) - Z.of_nat (below c ks0)))
      with (count_bucket c ks0) by lia.
    rewrite Hf. simpl. eexists. split; [reflexivity|].
    assert (L' = below (S c) ks0) as -> by lia.
    repeat split; simpl; try assumption.
    + intros i k Hi Hk. specialize (P2 i k Hi Hk). lia.
    + intros j k Hj Hk.
      assert (bucket k ≠ c); [|specialize (P3 j k Hj Hk); lia].
      assert (count_bucket c (drop (below (S c) ks0) (keys s')) = 0%nat) as Hz.
      { pose proof (count_bucket_split c (below (S c) ks0) (keys s')) as H2.
        rewrite (count_bucket_perm c _ _ Hperm') in H2. lia. }
      apply (count_bucket_zero _ _ Hz (j - below (S c) ks0)%nat k).
      rewrite lookup_drop. rewrite <- Hk. f_equal. lia.
    + apply Hm'.
    + apply Hm'.
Qed.

(** The pass ends, for any keys, when the counts are those of the keys. *)
Lemma compact_spec (map ks : list devcount_t) (bl : BufferList) (counts : list Z) (D : Z) :
  Z.of_nat (length ks) < 4294967296 →
  keys_match map ks bl →
  (∀ c, (c < Z.to_nat (wrap32 (D - 1)))%nat →
        counts !! c = Some (Z.of_nat (count_bucket c ks))) →
  ∃ st, compact (Z.of_nat (length ks)) D counts ks bl = Some st
        ∧ outer_inv map ks (Z.to_nat (wrap32 (D - 1))) st.
Proof.
  intros Hlen Hm Hc. unfold compact.
  apply (for_loop_total (λ c st, outer_inv map ks c st)).
  - unfold outer_inv. simpl. rewrite below_0.
    split; [reflexivity|]. split; [reflexivity|]. split; [reflexivity|].
    split; [intros; lia|]. split; [intros; lia|]. split; [intros; lia|assumption].
  - intros c st Hi Hinv. apply bucket_pass_spec; [assumption| |assumption].
    apply Hc. lia.
Qed.

Lemma outer_inv_sorted (map ks : list devcount_t) (c : nat) (st : cursors * Z) :
  outer_inv map ks c st →
  Forall (λ k, (bucket k ≤ c)%nat) ks →
  sorted_by_bucket (keys st.1).
Proof.
  intros (_ & _ & Hperm & Q2 & Q3 & Q4 & _) Hall i j ki kj Hij Hi Hj.
  destruct (decide (i < below c ks)%nat).
  - apply (Q4 i j); assumption.
  - assert (c ≤ bucket ki)%nat by (apply (Q3 i); [lia|assumption]).
    assert (c ≤ bucket kj)%nat by (apply (Q3 j); [lia|assumption]).
    assert (bucket ki ≤ c)%nat.
    { rewrite <- Hperm in Hall. rewrite Forall_lookup in Hall. apply (Hall i). assumption. }
    assert (bucket kj ≤ c)%nat.
    { rewrite <- Hperm in Hall. rewrite Forall_lookup in Hall. apply (Hall j). assumption. }
    lia.
Qed.

(** ** The counting pass *)

Lemma counts_of_incr (f : devcount_t → option nat) (N : nat) (ks : list devcount_t)
    (a : list Z) (k : devcount_t) (i : nat) :
  counts_of f N ks a → f k = Some i → (i < N)%nat →
  Z.of_nat (length ks) + 1 < 4294967296 →
  ∃ a', incr a i = Some a' ∧ counts_of f N (ks ++ [k]) a'.
Proof.
  intros [Hlen Hc] Hk Hi Hsmall. unfold incr. rewrite (Hc i Hi). simpl.
  eexists. split; [reflexivity|]. split.
  - rewrite length_insert. assumption.
  - intros j Hj. rewrite filter_app, length_app, filter_cons, filter_nil.
    destruct (decide (j = i)) as [->|Hne].
    + rewrite list_lookup_insert_eq by lia.
      destruct (decide (f k = Some i)); [|contradiction]. simpl.
      rewrite wrap32_small.
      * f_equal. lia.
      * pose proof (length_filter (λ k, f k = Some i) ks). lia.
    + rewrite list_lookup_insert_ne by auto. rewrite (Hc j Hj).
      destruct (decide (f k = Some j)); [congruence|]. simpl. f_equal. lia.
Qed.

Lemma counts_of_skip (f : devcount_t → option nat) (N : nat) (ks : list devcount_t)
    (a : list Z) (k : devcount_t) :
  counts_of f N ks a → f k = None → counts_of f N (ks ++ [k]) a.
Proof.
  intros [Hlen Hc] Hk. split; [assumption|].
  intros j Hj. rewrite filter_app, length_app, filter_cons, filter_nil.
  destruct (decide (f k = Some j)); [congruence|]. simpl. rewrite (Hc j Hj). f_equal. lia.
Qed.

Lemma counts_of_nil (f : devcount_t → option nat) (N : nat) :
  counts_of f N [] (replicate N 0).
Proof.
  split; [apply length_replicate|].
  intros i Hi. rewrite lookup_replicate_2 by assumption. reflexivity.
Qed.

Lemma counts_of_bucket (N : nat) (ks : list devcount_t) (a : list Z) (c : nat) :
  counts_of (λ k, Some (GLOBAL_DEVICE_NUM k)) N ks a → (c < N)%nat →
  a !! c = Some (Z.of_nat (count_bucket c ks)).
Proof.
  intros [_ Hc] Hlt. rewrite (Hc c Hlt). unfold count_bucket, bucket.
  do 3 f_equal. apply list_filter_iff. intros k.
  split; [intros [= ?]; assumption|intros ->; reflexivity].
Qed.

Lemma counts_of_local (mpi_rank : Z) (N : nat) (ks : list devcount_t) (a : list Z) (d : nat) :
  counts_of (local_device mpi_rank) N ks a → (d < N)%nat →
  a !! d = Some (Z.of_nat (count_local mpi_rank d ks)).
Proof.
  intros [_ Hc] Hlt. rewrite (Hc d Hlt). unfold count_local, local_device.
  do 3 f_equal. apply list_filter_iff. intros k.
  destruct (decide (Z.of_nat (RANK k) = mpi_rank)); split.
  - intros [= ?]. auto.
  - intros [_ ->]. reflexivity.
  - discriminate.
  - intros [? _]. contradiction.
Qed.

Lemma count_local_perm (mpi_rank : Z) (d : nat) (l1 l2 : list devcount_t) :
  l1 ≡ₚ l2 → count_local mpi_rank d l1 = count_local mpi_rank d l2.
Proof. intros H. unfold count_local. rewrite H. reflexivity. Qed.

Lemma count_particles_spec (mpi_rank : Z) (map : list devcount_t) (bl : BufferList)
    (hashes : list Z) (ks : list devcount_t) :
  getData BUFFER_HASH bl = Some hashes →
  Forall2 (λ k h, key_of map h = Some k) ks (take (length ks) hashes) →
  Z.of_nat (length ks) < 4294967296 →
  Forall (countable_key mpi_rank) ks →
  ∃ c, count_particles (Z.of_nat (length ks)) mpi_rank map bl = Some c
       ∧ m_hParticleKeys c = ks
       ∧ counts_of (λ k, Some (RANK k)) MAX_NODES_PER_CLUSTER ks (c_processParticles c)
       ∧ counts_of (λ k, Some (GLOBAL_DEVICE_NUM k)) MAX_DEVICES_PER_CLUSTER ks
           (particlesPerGlobalDevice c)
       ∧ counts_of (local_device mpi_rank) MAX_DEVICES_PER_NODE ks (c_hPartsPerDevice c).
Proof.
  intros Hg Hf Hsmall Hvalid. unfold count_particles. rewrite Nat2Z.id.
  set (n := length ks).
  destruct (for_loop_total
    (λ p c, (p ≤ n)%nat
            ∧ length (m_hParticleKeys c) = n
            ∧ (∀ i, (i < p)%nat → m_hParticleKeys c !! i = ks !! i)
            ∧ counts_of (λ k, Some (RANK k)) MAX_NODES_PER_CLUSTER (take p ks)
                (c_processParticles c)
            ∧ counts_of (λ k, Some (GLOBAL_DEVICE_NUM k)) MAX_DEVICES_PER_CLUSTER (take p ks)
                (particlesPerGlobalDevice c)
            ∧ counts_of (local_device mpi_rank) MAX_DEVICES_PER_NODE (take p ks)
                (c_hPartsPerDevice c))
    n 0%nat (count_particle mpi_rank map bl)
    {| m_hParticleKeys := replicate n 0%nat;
       c_processParticles := replicate MAX_NODES_PER_CLUSTER 0;
       particlesPerGlobalDevice := replicate MAX_DEVICES_PER_CLUSTER 0;
       c_hPartsPerDevice := replicate MAX_DEVICES_PER_NODE 0 |})
    as (c & Hc & _ & Hlen & Hkeys & HR & HG & HD).
  - simpl. split; [lia|]. split; [apply length_replicate|].
    split; [intros; lia|]. repeat split; try apply length_replicate;
      intros i Hi; rewrite lookup_replicate_2 by assumption; reflexivity.
  - intros p c [_ Hp] (_ & Hlen & Hkeys & HR & HG & HD). simpl in Hp.
    destruct (lookup_lt_is_Some_2 ks p) as [k Hk]; [fold n; lia|].
    destruct (Forall2_lookup_l _ _ _ _ _ Hf Hk) as (h & Hh & Hkey).
    rewrite lookup_take_lt in Hh by (fold n; lia).
    rewrite Forall_lookup in Hvalid. destruct (Hvalid p k Hk) as (V1 & V2 & V3).
    assert (take (S p) ks = take p ks ++ [k]) as Htake by (apply take_S_r; assumption).
    assert (Z.of_nat (length (take p ks)) + 1 < 4294967296) as Hsm.
    { rewrite length_take. fold n in Hsmall. lia. }
    unfold count_particle. rewrite Hg. simpl. rewrite Hh. simpl.
    unfold key_of in Hkey. rewrite Hkey. simpl.
    rewrite store_Some by lia. simpl.
    destruct (counts_of_incr _ _ _ _ k (RANK k) HR) as (pp & -> & HR'); [reflexivity|assumption|assumption|].
    simpl.
    destruct (counts_of_incr _ _ _ _ k (GLOBAL_DEVICE_NUM k) HG) as (pg & -> & HG');
      [reflexivity|assumption|assumption|].
    simpl.
    assert (∃ pd, (if decide (Z.of_nat (RANK k) = mpi_rank)
                   then incr (c_hPartsPerDevice c) (DEVICE k)
                   else Some (c_hPartsPerDevice c)) = Some pd
                  ∧ counts_of (local_device mpi_rank) MAX_DEVICES_PER_NODE
                      (take p ks ++ [k]) pd) as (pd & -> & HD').
    { destruct (decide (Z.of_nat (RANK k) = mpi_rank)) as [Heq|Hne].
      - apply (counts_of_incr _ _ _ _ k (DEVICE k) HD); [|auto|assumption].
        unfold local_device. destruct (decide (Z.of_nat (RANK k) = mpi_rank)); [reflexivity|contradiction].
      - eexists. split; [reflexivity|]. apply counts_of_skip; [assumption|].
        unfold local_device. destruct (decide (Z.of_nat (RANK k) = mpi_rank)); [contradiction|reflexivity]. }
    simpl. eexists. split; [reflexivity|]. simpl. rewrite Htake.
    split; [lia|]. split; [rewrite length_insert; assumption|].
    split; [|auto].
    intros i Hi. destruct (decide (i = p)) as [->|].
    + rewrite list_lookup_insert_eq by lia. symmetry. assumption.
    + rewrite list_lookup_insert_ne by auto. apply Hkeys. lia.
  - exists c. simpl in *. rewrite (take_ge ks) in HR, HG, HD by (unfold n; lia).
    split; [assumption|]. split; [|auto].
    apply list_eq. intros i. destruct (decide (i < n)%nat).
    + apply Hkeys. assumption.
    + rewrite !lookup_ge_None_2; [reflexivity|fold n; lia|lia].
Qed.

(** ** Offsets, segments and the self-check cannot leave their arrays *)

Lemma incr_total (a : list Z) (i : nat) :
  (i < length a)%nat → ∃ a', incr a i = Some a' ∧ length a' = length a.
Proof.
  intros H. destruct (lookup_lt_is_Some_2 a i H) as [x Hx].
  unfold incr. rewrite Hx. simpl. eexists. split; [reflexivity|apply length_insert].
Qed.

Lemma add_prev_node_total (pp start : list Z) (n m : nat) :
  (0 < length start)%nat → (n + m ≤ length pp)%nat →
  ∃ start', for_loop m n (add_prev_node pp) start = Some start'
            ∧ length start' = length start.
Proof.
  intros Hs Hp.
  destruct (for_loop_total (λ _ st, length st = length start) m n (add_prev_node pp) start)
    as (st & H1 & H2); [reflexivity| |eauto].
  intros i st Hi Hlen. unfold add_prev_node.
  destruct (lookup_lt_is_Some_2 st 0) as [s0 ->]; [lia|]. simpl.
  destruct (lookup_lt_is_Some_2 pp i) as [pn ->]; [lia|]. simpl.
  eexists. split; [reflexivity|]. rewrite length_insert. assumption.
Qed.

Lemma add_prev_device_total (parts start : list Z) (m : nat) :
  (m < length start)%nat → (m ≤ length parts)%nat →
  ∃ start', for_loop m 1 (add_prev_device parts) start = Some start'
            ∧ length start' = length start.
Proof.
  intros Hs Hp.
  destruct (for_loop_total (λ _ st, length st = length start) m 1 (add_prev_device parts) start)
    as (st & H1 & H2); [reflexivity| |eauto].
  intros i st Hi Hlen. unfold add_prev_device.
  destruct (lookup_lt_is_Some_2 st (i - 1)) as [sp ->]; [lia|]. simpl.
  destruct (lookup_lt_is_Some_2 parts (i - 1)) as [pq ->]; [lia|]. simpl.
  rewrite store_Some by lia. eexists. split; [reflexivity|].
  rewrite length_insert. assumption.
Qed.

Lemma init_segments_total (parts : list Z) (seg : list (list Z)) (m : nat) :
  (m ≤ length parts)%nat → (m ≤ length seg)%nat →
  ∃ r, for_loop m 0 (init_segments parts) (seg, []) = Some r.
Proof.
  intros Hp Hs.
  destruct (for_loop_total (λ _ st, length st.1 = length seg) m 0 (init_segments parts)
              (seg, [])) as (st & H1 & _); [reflexivity| |eauto].
  intros i st Hi Hlen. unfold init_segments.
  destruct (lookup_lt_is_Some_2 parts i) as [x ->]; [lia|]. simpl.
  rewrite store_Some by lia. simpl. eexists. split; [reflexivity|].
  simpl. rewrite length_insert. assumption.
Qed.

Lemma check_count_total (hc parts : list Z) (m : nat) (st : bool * list log_msg) :
  (m ≤ length hc)%nat → (m ≤ length parts)%nat →
  ∃ r, for_loop m 0 (check_count hc parts) st = Some r.
Proof.
  intros Hh Hp.
  destruct (for_loop_total (λ _ _, True) m 0 (check_count hc parts) st)
    as (r & H1 & _); [exact I| |eauto].
  intros i x Hi _. unfold check_count.
  destruct (lookup_lt_is_Some_2 hc i) as [a ->]; [lia|]. simpl.
  destruct (lookup_lt_is_Some_2 parts i) as [b ->]; [lia|]. simpl.
  destruct (decide (a ≠ b)); eauto.
Qed.

Lemma keys_match_hash (map ks : list devcount_t) (bl : BufferList) (p : nat) (k : devcount_t) :
  keys_match map ks bl → ks !! p = Some k →
  ∃ hashes h, getData BUFFER_HASH bl = Some hashes ∧ hashes !! p = Some h
              ∧ map !! cellHashFromParticleHash h = Some k.
Proof.
  intros [(hashes & Hg & Hf) _] Hk.
  destruct (Forall2_lookup_l _ _ _ _ _ Hf Hk) as (h & Hh & Hkey).
  rewrite lookup_take_lt in Hh by (eapply lookup_lt_Some; eassumption).
  exists hashes, h. auto.
Qed.

Lemma check_particles_total (mpi_rank : Z) (map ks : list devcount_t) (bl : BufferList)
    (m p : nat) (c : sort_check) :
  keys_match map ks bl →
  Forall (countable_key mpi_rank) ks →
  length (hcount c) = MAX_DEVICES_PER_NODE →
  (p + m ≤ length ks)%nat →
  ∃ c', check_particles m p mpi_rank map bl c = Some c'
        ∧ length (hcount c') = MAX_DEVICES_PER_NODE.
Proof.
  intros Hm Hvalid. revert p c. induction m as [|m IH]; intros p c Hlen Hp; simpl.
  - eauto.
  - destruct (monotonic c); [|eauto].
    destruct (lookup_lt_is_Some_2 ks p) as [k Hk]; [lia|].
    destruct (keys_match_hash _ _ _ _ _ Hm Hk) as (hashes & h & Hg & Hh & Hkey).
    rewrite Forall_lookup in Hvalid. destruct (Hvalid p k Hk) as (_ & _ & V3).
    assert (∃ c1, check_particle mpi_rank map bl p c = Some c1
                  ∧ length (hcount c1) = MAX_DEVICES_PER_NODE) as (c1 & Hc1 & Hlen1).
    { assert (∃ hc, (if decide (Z.of_nat (RANK k) = mpi_rank)
                     then incr (hcount c) (DEVICE k) else Some (hcount c)) = Some hc
                    ∧ length hc = MAX_DEVICES_PER_NODE) as (hc & Hhc & Hl).
      { destruct (decide (Z.of_nat (RANK k) = mpi_rank)) as [Heq|Hne]; [|eauto].
        destruct (incr_total (hcount c) (DEVICE k)) as (hc & -> & Hl); [rewrite Hlen; auto|].
        exists hc. split; [reflexivity|congruence]. }
      unfold check_particle. rewrite Hg. simpl. rewrite Hh. simpl. rewrite Hkey. simpl.
      destruct p as [|p'].
      - simpl. rewrite Hhc. simpl. eexists. split; [reflexivity|assumption].
      - destruct (lookup_lt_is_Some_2 ks p') as [k' Hk']; [lia|].
        destruct (keys_match_hash _ _ _ _ _ Hm Hk') as (hashes' & h' & Hg' & Hh' & Hkey').
        assert (hashes' = hashes) as -> by congruence.
        rewrite Hh'. simpl. rewrite Hkey'. simpl.
        destruct (decide (k < k')%nat); simpl; rewrite Hhc; simpl;
          eexists; (split; [reflexivity|assumption]). }
    rewrite Hc1. simpl. apply IH; [assumption|lia].
Qed.

(** ** An array that is already partitioned *)

Lemma below_cons (c : nat) (x : devcount_t) (l : list devcount_t) :
  below c (x :: l) = ((if decide (bucket x < c)%nat then 1 else 0) + below c l)%nat.
Proof.
  unfold below. rewrite filter_cons. destruct (decide (bucket x < c)%nat); reflexivity.
Qed.

Lemma sorted_cons_inv (x : devcount_t) (l : list devcount_t) :
  sorted_by_bucket (x :: l) →
  sorted_by_bucket l ∧ ∀ j k, l !! j = Some k → (bucket x ≤ bucket k)%nat.
Proof.
  intros H. split.
  - intros i j ki kj Hij Hi Hj. apply (H (S i) (S j)); [lia|assumption|assumption].
  - intros j k Hk. apply (H 0%nat (S j)); [lia|reflexivity|assumption].
Qed.

Lemma below_all_ge (c : nat) (l : list devcount_t) :
  (∀ j k, l !! j = Some k → (c ≤ bucket k)%nat) → below c l = 0%nat.
Proof.
  induction l as [|x l IH]; intros H; [reflexivity|].
  rewrite below_cons. rewrite IH.
  - pose proof (H 0%nat x eq_refl). destruct (decide (bucket x < c)%nat); lia.
  - intros j k Hk. apply (H (S j)). assumption.
Qed.

Lemma sorted_membership (ks : list devcount_t) :
  sorted_by_bucket ks → bucket_membership ks.
Proof.
  induction ks as [|x l IH]; intros Hs i k Hi.
  - rewrite lookup_nil in Hi. discriminate.
  - destruct (sorted_cons_inv _ _ Hs) as [Hl Hx].
    rewrite !below_cons. destruct i as [|i]; simpl in Hi.
    + injection Hi as <-.
      rewrite (below_all_ge (bucket x) l) by assumption.
      destruct (decide (bucket x < bucket x)%nat); [lia|].
      destruct (decide (bucket x < S (bucket x))%nat); lia.
    + pose proof (IH Hl i k Hi) as [H1 H2]. pose proof (Hx i k Hi) as Hxk.
      destruct (decide (bucket x < bucket k)%nat), (decide (bucket x < S (bucket k))%nat);
        lia.
Qed.

Lemma sorted_bucket_at (ks : list devcount_t) (c i : nat) (k : devcount_t) :
  sorted_by_bucket ks → ks !! i = Some k →
  (below c ks ≤ i < below (S c) ks)%nat → bucket k = c.
Proof.
  intros Hs Hi [H1 H2].
  destruct (sorted_membership ks Hs i k Hi) as [M1 M2].
  destruct (lt_eq_lt_dec (bucket k) c) as [[Hlt|Heq]|Hgt]; [|assumption|].
  - pose proof (below_mono (S (bucket k)) c ks). lia.
  - pose proof (below_mono (S c) (bucket k) ks). lia.
Qed.

Lemma fill_sorted (ks : list devcount_t) (c m L : nat) (s : cursors) :
  sorted_by_bucket ks → Z.of_nat (length ks) < 4294967296 →
  keys s = ks → leftB s = Z.of_nat L →
  (below c ks ≤ L)%nat → (L + m ≤ below (S c) ks)%nat →
  fill_bucket m c s
  = Some {| keys := ks; bufs := bufs s; leftB := Z.of_nat (L + m);
            rightB := rightB s; nswaps := nswaps s |}.
Proof.
  intros Hs Hlen. revert L s. induction m as [|m IH]; intros L s Hk HL H1 H2.
  - simpl. replace (L + 0)%nat with L by lia. rewrite <- HL, <- Hk. destruct s; reflexivity.
  - pose proof (below_le_length (S c) ks) as Hle.
    destruct (lookup_lt_is_Some_2 ks L) as [k Hlk]; [lia|].
    assert (bucket k = c) as Hb by (apply (sorted_bucket_at ks c L k); [assumption|assumption|lia]).
    simpl. unfold place_one. rewrite HL, Nat2Z.id, Hk, Hlk. simpl.
    destruct (decide (GLOBAL_DEVICE_NUM k ≠ c)) as [Hne|_]; [contradiction|].
    simpl. rewrite HL. rewrite wrap32_small by lia.
    rewrite (IH (S L)); simpl; try reflexivity; try lia.
    + do 2 f_equal. lia.
    + assumption.
Qed.

(** On keys that are already in bucket order the pass swaps nothing. *)
Lemma compact_sorted (ks : list devcount_t) (bl : BufferList) (counts : list Z) (D : Z) :
  sorted_by_bucket ks → Z.of_nat (length ks) < 4294967296 →
  (∀ c, (c < Z.to_nat (wrap32 (D - 1)))%nat →
        counts !! c = Some (Z.of_nat (count_bucket c ks))) →
  ∃ st, compact (Z.of_nat (length ks)) D counts ks bl = Some st
        ∧ keys st.1 = ks ∧ bufs st.1 = bl ∧ nswaps st.1 = 0%nat.
Proof.
  intros Hs Hlen Hc. unfold compact.
  destruct (for_loop_total
    (λ c st, keys st.1 = ks ∧ bufs st.1 = bl ∧ nswaps st.1 = 0%nat
             ∧ st.2 = Z.of_nat (below c ks) ∧ leftB st.1 = st.2)
    (Z.to_nat (wrap32 (D - 1))) 0%nat
    (bucket_pass counts (wrap32 (Z.of_nat (length ks) - 1)))
    ({| keys := ks; bufs := bl; leftB := 0; rightB := 0; nswaps := 0 |}, 0))
    as (st & H1 & H2 & H3 & H4 & _).
  - simpl. rewrite below_0. auto.
  - intros c [s nb] Hi (Hk & Hb & Hn & Hnb & HL). simpl in *. subst nb.
    pose proof (below_S c ks) as HS. pose proof (below_le_length (S c) ks) as Hle.
    unfold bucket_pass. rewrite (Hc c) by lia. simpl.
    rewrite wrap32_small by lia. rewrite HL.
    replace (Z.to_nat (Z.of_nat (below c ks) + Z.of_nat (count_bucket c ks)
                       - Z.of_nat (below c ks))) with (count_bucket c ks) by lia.
    rewrite (fill_sorted ks c (count_bucket c ks) (below c ks)); simpl;
      try assumption; try reflexivity; try lia.
    eexists. split; [reflexivity|]. simpl.
    repeat split; try assumption; lia.
  - exists st. auto.
Qed.

(** ** [sortParticlesByHash] on a well-formed input *)

Lemma getData_Forall (P : flag * list Z → Prop) (key : flag) (bl : BufferList) (col : list Z) :
  getData key bl = Some col → Forall P bl → P (key, col).
Proof.
  induction bl as [|[k c] bl IH]; simpl; intros Hg Hf; [discriminate|].
  inversion Hf as [|? ? Hh Ht]; subst.
  destruct (decide (k = key)) as [->|].
  - injection Hg as <-. assumption.
  - auto.
Qed.

Lemma keys_exist {A B : Type} (f : A → option B) (Q : B → Prop) (l : list A) :
  Forall (λ h, ∃ k, f h = Some k ∧ Q k) l →
  ∃ ks, Forall2 (λ k h, f h = Some k) ks l ∧ Forall Q ks.
Proof.
  induction 1 as [|h l (k & Hk & HQ) _ (ks & H2 & HQs)].
  - exists []. split; constructor.
  - exists (k :: ks). split; constructor; assumption.
Qed.

Lemma well_formed_keys (g : GlobalData) :
  well_formed g →
  ∃ hashes ks,
    getData BUFFER_HASH (s_hBuffers g) = Some hashes
    ∧ totParticles g = Z.of_nat (length ks)
    ∧ Forall2 (λ k h, key_of (s_hDeviceMap g) h = Some k) ks (take (length ks) hashes)
    ∧ Forall (valid_key g) ks
    ∧ particle_keys g = Some ks.
Proof.
  intros (Htot & [hashes Hg] & Hbufs & Hkeys & _).
  specialize (Hkeys hashes Hg).
  destruct (keys_exist _ _ _ Hkeys) as (ks & Hf & Hv).
  pose proof (getData_Forall _ _ _ _ Hg Hbufs) as Hlen. simpl in Hlen.
  pose proof (Forall2_length _ _ _ Hf) as Hl. rewrite length_take in Hl.
  assert (length ks = Z.to_nat (totParticles g)) as Hn by lia.
  exists hashes, ks. rewrite Hn.
  split; [assumption|]. split; [lia|]. split; [assumption|]. split; [assumption|].
  unfold particle_keys. rewrite Hg. simpl. apply mapM_Some_2.
  apply Forall2_flip. assumption.
Qed.

Lemma keys_match_particle_keys (g g' : GlobalData) (ks : list devcount_t) :
  keys_match (s_hDeviceMap g) ks (s_hBuffers g') →
  s_hDeviceMap g' = s_hDeviceMap g →
  totParticles g' = Z.of_nat (length ks) →
  particle_keys g' = Some ks.
Proof.
  intros [(hashes & Hg & Hf) _] Hmap Htot.
  unfold particle_keys. rewrite Hg, Hmap, Htot, Nat2Z.id. simpl.
  apply mapM_Some_2. apply Forall2_flip. assumption.
Qed.

Lemma sort_spec (g : GlobalData) :
  well_formed g →
  ∃ ks ks' g' n logs,
    particle_keys g = Some ks
    ∧ sortParticlesByHash_pure g = Some (g', n, logs)
    ∧ particle_keys g' = Some ks'
    ∧ ks' ≡ₚ ks
    ∧ sorted_by_bucket ks'
    ∧ counts_of (local_device (mpi_rank g)) MAX_DEVICES_PER_NODE ks (s_hPartsPerDevice g')
    ∧ (sorted_by_bucket ks → n = 0%nat ∧ s_hBuffers g' = s_hBuffers g).
Proof.
  intros Hwf.
  destruct (well_formed_keys g Hwf) as (hashes & ks & Hg & Htot & Hf & Hv & Hpk).
  destruct Hwf as (Htot32 & _ & Hbufs & _ & HD & HD32 & Hdev & Hstart & Hseg & Hrank).
  assert (Forall (countable_key (mpi_rank g)) ks) as Hck.
  { eapply Forall_impl; [exact Hv|]. intros k (V1 & V2 & V3).
    split; [assumption|]. split; [lia|]. intros _. assumption. }
  assert (Forall (λ k, (bucket k ≤ Z.to_nat (wrap32 (totDevices g - 1)))%nat) ks) as Hrange.
  { eapply Forall_impl; [exact Hv|]. intros k (_ & _ & V3).
    rewrite wrap32_small by lia. unfold bucket. lia. }
  destruct (count_particles_spec (mpi_rank g) (s_hDeviceMap g) (s_hBuffers g) hashes ks)
    as (c & Hc & Hkeys & HR & HG & HL); [assumption|assumption|lia|assumption|].
  assert (keys_match (s_hDeviceMap g) ks (s_hBuffers g)) as Hm.
  { split; [eauto|]. rewrite <- (Nat2Z.id (length ks)), <- Htot. assumption. }
  assert (∀ b, (b < Z.to_nat (wrap32 (totDevices g - 1)))%nat →
               particlesPerGlobalDevice c !! b = Some (Z.of_nat (count_bucket b ks))) as Hcounts.
  { intros b Hb. apply (counts_of_bucket MAX_DEVICES_PER_CLUSTER); [assumption|].
    rewrite wrap32_small in Hb by lia. lia. }
  destruct (compact_spec (s_hDeviceMap g) ks (s_hBuffers g) (particlesPerGlobalDevice c)
              (totDevices g)) as (st & Hcompact & Hinv); [lia|assumption|assumption|].
  pose proof (outer_inv_sorted _ _ _ _ Hinv Hrange) as Hsorted.
  destruct Hinv as (_ & _ & Hperm & _ & _ & _ & Hm').
  pose proof (Permutation_length Hperm) as Hlen'.
  destruct (add_prev_node_total (c_processParticles c) (<[0%nat := 0]> (s_hStartPerDevice g))
              0 (Z.to_nat (mpi_rank g))) as (sn & Hsn & Hsnl).
  { rewrite length_insert. lia. }
  { destruct HR as [-> _]. lia. }
  rewrite length_insert in Hsnl.
  assert (∃ st1, (if MULTI_NODE g
                  then for_loop (Z.to_nat (mpi_rank g)) 0
                         (add_prev_node (c_processParticles c))
                         (<[0%nat := 0]> (s_hStartPerDevice g))
                  else Some (<[0%nat := 0]> (s_hStartPerDevice g))) = Some st1
                 ∧ length st1 = length (s_hStartPerDevice g)) as (st1 & Hst1 & Hst1l).
  { destruct (MULTI_NODE g); [eauto|]. eexists. split; [reflexivity|]. apply length_insert. }
  destruct (add_prev_device_total (c_hPartsPerDevice c) st1 (Z.to_nat (devices g - 1)))
    as (st2 & Hst2 & _).
  { lia. }
  { destruct HL as [-> _]. lia. }
  destruct (init_segments_total (c_hPartsPerDevice c) (s_dSegmentsStart g)
              (Z.to_nat (devices g))) as (seg & Hsegs).
  { destruct HL as [-> _]. lia. }
  { assumption. }
  destruct (check_particles_total (mpi_rank g) (s_hDeviceMap g) (keys st.1) (bufs st.1)
              (length ks) 0
              {| monotonic := true; hcount := replicate MAX_DEVICES_PER_NODE 0;
                 check_log := [] |}) as (chk & Hchk & Hchkl).
  { assumption. }
  { rewrite Hperm. assumption. }
  { apply length_replicate. }
  { lia. }
  destruct (check_count_total (hcount chk) (c_hPartsPerDevice c) (Z.to_nat (devices g))
              (true, check_log chk)) as (cc & Hcc).
  { lia. }
  { destruct HL as [-> _]. lia. }
  exists ks, (keys st.1).
  unfold sortParticlesByHash_pure.
  rewrite Htot, Hc. simpl. rewrite store_Some by lia. simpl.
  rewrite Hst1. simpl. rewrite Hst2. simpl.
  rewrite Hkeys, Hcompact. simpl. rewrite Hsegs. simpl.
  rewrite Nat2Z.id, Hchk. simpl. rewrite Hcc. simpl.
  eexists _, _, _. split; [assumption|]. split; [reflexivity|].
  split; [|split; [assumption|split; [assumption|split; [assumption|]]]].
  - apply (keys_match_particle_keys g); [assumption|reflexivity|].
    simpl. rewrite Htot. f_equal. lia.
  - intros Hs.
    destruct (compact_sorted ks (s_hBuffers g) (particlesPerGlobalDevice c) (totDevices g))
      as (st0 & Hc0 & _ & Hb0 & Hn0); [assumption|lia|assumption|].
    assert (st0 = st) as -> by congruence. auto.
Qed.

(** ** The command monad: logging *)

Lemma add_trace_nil (s : GPUSPH) : add_trace [] s = s.
Proof. destruct s. unfold add_trace. simpl. rewrite app_nil_r. reflexivity. Qed.

Lemma add_trace_add_trace (es es' : list event) (s : GPUSPH) :
  add_trace es' (add_trace es s) = add_trace (es ++ es') s.
Proof. unfold add_trace. simpl. rewrite app_assoc. reflexivity. Qed.

Lemma for_each_log (lg : list log_msg) (s : GPUSPH) :
  for_each lg log s = (Ret tt, add_trace (EvLog <$> lg) s).
Proof.
  revert s. induction lg as [|m lg IH]; intros s; simpl.
  - unfold ret. rewrite add_trace_nil. reflexivity.
  - unfold bind, log, emit. rewrite IH, add_trace_add_trace. reflexivity.
Qed.

Lemma sortParticlesByHash_run (s : GPUSPH) (g' : GlobalData) (n : nat) (logs : list log_msg) :
  sortParticlesByHash_pure (gdata s) = Some (g', n, logs) →
  sortParticlesByHash s = (Ret tt, add_trace (EvLog <$> logs) (set_gdata g' s)).
Proof.
  intros H. unfold sortParticlesByHash, bind, read. rewrite H. simpl.
  rewrite for_each_log. reflexivity.
Qed.

(** ** The partitioner: the main results *)

(** What the partitioner leaves alone. *)
Lemma sort_frame (g g' : GlobalData) (n : nat) (logs : list log_msg) :
  sortParticlesByHash_pure g = Some (g', n, logs) →
  totParticles g' = totParticles g
  ∧ s_hDeviceMap g' = s_hDeviceMap g
  ∧ mpi_rank g' = mpi_rank g
  ∧ devices g' = devices g
  ∧ keep_going g' = keep_going g.
Proof.
  intros Hrun. unfold sortParticlesByHash_pure in Hrun.
  repeat match type of Hrun with
         | context [mbind _ ?o] => destruct o; simpl in Hrun; [|discriminate]
         | (let (_, _) := ?p in _) = _ => destruct p; simpl in Hrun
         end.
  injection Hrun as <- _ _. repeat split; reflexivity.
Qed.

(** C1. On a well-formed input [sortParticlesByHash] returns.  It changes
    neither the number of particles nor the device map, and the device
    keys of the array it leaves (read from the hash of each particle
    through the device map) are a permutation of the device keys of the
    input, in non-decreasing bucket order (for every pair of indices
    [i < j], [bucket i ≤ bucket j]).  For every device index [d] of the
    node, [s_hPartsPerDevice[d]] is the number of particles of the input
    whose cell the device map gives to device [d] of this node, counted
    on the input independently of the sort. *)
Theorem sortParticlesByHash_sorted_and_counted (s : GPUSPH) :
  well_formed (gdata s) →
  ∃ s' ks ks',
    sortParticlesByHash s = (Ret tt, s')
    ∧ particle_keys (gdata s) = Some ks
    ∧ particle_keys (gdata s') = Some ks'
    ∧ totParticles (gdata s') = totParticles (gdata s)
    ∧ s_hDeviceMap (gdata s') = s_hDeviceMap (gdata s)
    ∧ ks' ≡ₚ ks
    ∧ sorted_by_bucket ks'
    ∧ ∀ d, (d < MAX_DEVICES_PER_NODE)%nat →
           s_hPartsPerDevice (gdata s') !! d
           = Some (Z.of_nat (count_local (mpi_rank (gdata s)) d ks)).
Proof.
  intros Hwf.
  destruct (sort_spec (gdata s) Hwf)
    as (ks & ks' & g' & n & logs & Hpk & Hrun & Hpk' & Hperm & Hsorted & Hcounts & _).
  destruct (sort_frame _ _ _ _ Hrun) as (Htot & Hmap & _).
  exists (add_trace (EvLog <$> logs) (set_gdata g' s)), ks, ks'.
  split; [apply (sortParticlesByHash_run s g' n logs Hrun)|].
  cbn [gdata add_trace set_gdata].
  split; [exact Hpk|]. split; [exact Hpk'|]. split; [exact Htot|]. split; [exact Hmap|].
  split; [exact Hperm|]. split; [exact Hsorted|].
  intros d Hd. apply (counts_of_local _ MAX_DEVICES_PER_NODE); assumption.
Qed.

(** X16. The scan of the partitioning pass cannot fail on the counts of
    the keys.  When the counter of every bucket that the pass goes through
    holds the number of keys of that bucket, as the first loop of
    [sortParticlesByHash] leaves them, then, whatever the keys are, every
    right-to-left scan finds a particle of the current bucket inside the
    array: the pass runs to its end, on a permutation of the keys. *)
Theorem partition_pass_runs (map ks : list devcount_t) (bl : BufferList)
    (counts : list Z) (D : Z) (s : GPUSPH) :
  Z.of_nat (length ks) < 4294967296 →
  keys_match map ks bl →
  (∀ c, (c < Z.to_nat (wrap32 (D - 1)))%nat →
        counts !! c = Some (Z.of_nat (count_bucket c ks))) →
  ∃ st, partition_pass (Z.of_nat (length ks)) D counts ks bl s = (Ret st, s)
        ∧ keys st.1 ≡ₚ ks.
Proof.
  intros Hlen Hm Hc.
  destruct (compact_spec map ks bl counts D Hlen Hm Hc) as (st & Hst & Hinv).
  exists st. unfold partition_pass. rewrite Hst. split; [reflexivity|].
  apply Hinv.
Qed.

(** C6. On a well-formed input whose array is already in bucket order the
    pass calls [particleSwap] zero times and leaves the host buffers as
    they were, also with empty buckets and with a single bucket; and after
    one pass on any well-formed input the array holds the same particles,
    every particle lies in the range of its bucket, and the buckets are in
    non-decreasing order over the whole array. *)
Theorem partition_idempotent (g : GlobalData) :
  well_formed g →
  ∃ ks ks' g' n logs,
    particle_keys g = Some ks
    ∧ sortParticlesByHash_pure g = Some (g', n, logs)
    ∧ particle_keys g' = Some ks'
    ∧ ks' ≡ₚ ks
    ∧ bucket_membership ks'
    ∧ sorted_by_bucket ks'
    ∧ (sorted_by_bucket ks → n = 0%nat ∧ s_hBuffers g' = s_hBuffers g).
Proof.
  intros Hwf.
  destruct (sort_spec g Hwf)
    as (ks & ks' & g' & n & logs & Hpk & Hrun & Hpk' & Hperm & Hsorted & _ & Hidem).
  exists ks, ks', g', n, logs.
  repeat (split; [assumption|]). split; [|split; assumption].
  apply sorted_membership. assumption.
Qed.

(** ** The dispatch protocol *)

Lemma state_eq (s1 s2 : GPUSPH) :
  gdata s1 = gdata s2 → initialized s1 = initialized s2 →
  m_rcBitmap s1 = m_rcBitmap s2 → m_rcNotified s1 = m_rcNotified s2 →
  m_rcAddrs s1 = m_rcAddrs s2 → trace s1 = trace s2 → s1 = s2.
Proof. destruct s1, s2. simpl. intros. subst. reflexivity. Qed.

Lemma doCommand_run (cmd : CommandType) (flags : flag_t) (arg : float) (s : GPUSPH) :
  doCommand cmd flags arg s
  = (if keep_going (apply_workers (apply_workers (posted cmd flags arg (gdata s))))
     then Ret tt else Throw aborted_by_worker,
     add_trace [EvPost cmd flags arg (keep_going (gdata s));
                EvBarrier cmd flags arg; EvBarrier cmd flags arg]
       (set_gdata (apply_workers (apply_workers (posted cmd flags arg (gdata s)))) s)).
Proof.
  cbv [doCommand bind upd read emit barrier ret throw].
  match goal with
  | |- (if keep_going (gdata ?big) then _ else _) ?big' = _ =>
      change (keep_going (gdata big))
        with (keep_going (apply_workers (apply_workers (posted cmd flags arg (gdata s)))));
      assert (big' = add_trace [EvPost cmd flags arg (keep_going (gdata s));
                                EvBarrier cmd flags arg; EvBarrier cmd flags arg]
                       (set_gdata (apply_workers (apply_workers
                                     (posted cmd flags arg (gdata s)))) s)) as ->
  end.
  - apply state_eq; try reflexivity.
    cbn [trace add_trace set_gdata]. rewrite <- !app_assoc. reflexivity.
  - destruct (keep_going _); reflexivity.
Qed.

(** C2. Every call of [doCommand] writes the command kind, the flags and
    the argument into shared state, then goes through exactly two
    barriers, at both of which the shared state holds that command; after
    the second it reads the liveness flag and ends normally only if it is
    set, and throws the aborted-run exception otherwise; in particular it
    throws whenever a worker reported a failure at one of the two
    barriers. *)
Theorem doCommand_two_barriers (cmd : CommandType) (flags : flag_t) (arg : float)
    (s : GPUSPH) :
  let g1 := posted cmd flags arg (gdata s) in
  let g2 := apply_workers g1 in
  let r := doCommand cmd flags arg s in
  nextCommand g1 = cmd ∧ commandFlags g1 = flags ∧ extraCommandArg g1 = arg
  ∧ trace r.2 = trace s ++ [EvPost cmd flags arg (keep_going (gdata s));
                             EvBarrier cmd flags arg; EvBarrier cmd flags arg]
  ∧ gdata r.2 = apply_workers g2
  ∧ (r.1 = Ret tt ∧ keep_going (gdata r.2) = true
     ∨ r.1 = Throw aborted_by_worker ∧ keep_going (gdata r.2) = false)
  ∧ (failed (workers g1) = true ∨ failed (workers g2) = true →
     r.1 = Throw aborted_by_worker).
Proof.
  intros g1 g2 r. subst r. rewrite doCommand_run. fold g1. fold g2.
  unfold set_gdata, add_trace. cbn [fst snd gdata trace].
  split; [reflexivity|]. split; [reflexivity|]. split; [reflexivity|].
  split; [reflexivity|]. split; [reflexivity|]. split.
  - destruct (keep_going (apply_workers g2)); [left|right]; split; reflexivity.
  - intros Hf.
    assert (keep_going (apply_workers g2)
            = keep_going (gdata s) && negb (failed (workers g1))
              && negb (failed (workers g2))) as -> by reflexivity.
    destruct Hf as [-> | ->]; simpl; rewrite ?andb_false_r; reflexivity.
Qed.

(** ** Reasoning about host routines *)

Lemma hoare_bind {A B : Type} (P : GPUSPH → Prop) (R : A → GPUSPH → Prop)
    (Q : B → GPUSPH → Prop) (Qt : exn → GPUSPH → Prop) (Qu : GPUSPH → Prop)
    (m : M A) (k : A → M B) :
  hoare P m R Qt Qu → (∀ a, hoare (R a) (k a) Q Qt Qu) → hoare P (bind m k) Q Qt Qu.
Proof.
  intros Hm Hk s Hs. unfold bind. specialize (Hm s Hs).
  destruct (m s) as [[a|e|] s']; [|assumption|assumption].
  apply (Hk a s' Hm).
Qed.

Lemma hoare_weaken {A : Type} (P P' : GPUSPH → Prop) (Q Q' : A → GPUSPH → Prop)
    (Qt Qt' : exn → GPUSPH → Prop) (Qu Qu' : GPUSPH → Prop) (m : M A) :
  hoare P m Q Qt Qu →
  (∀ s, P' s → P s) → (∀ a s, Q a s → Q' a s) → (∀ e s, Qt e s → Qt' e s) →
  (∀ s, Qu s → Qu' s) →
  hoare P' m Q' Qt' Qu'.
Proof.
  intros Hm HP HQ HQt HQu s Hs. specialize (Hm s (HP s Hs)).
  destruct (m s) as [[a|e|] s']; auto.
Qed.

Section Invariant.

(** An invariant [Inv] of the host state, with what is left of it when a
    routine is cut short by an exception ([Et]) or by undefined behaviour
    ([Eu]).  It is assumed stable under the updates that keep the two
    flags, under benign events, and under the three routines that are not
    made of those. *)
Variable Inv : GPUSPH → Prop.
Variable Et : exn → GPUSPH → Prop.
Variable Eu : GPUSPH → Prop.

#[local] Abbreviation inv m := (hoare Inv m (λ _, Inv) Et Eu).

Hypothesis Inv_throw : ∀ e s, Inv s → Et e s.
Hypothesis Inv_undefined : ∀ s, Inv s → Eu s.
Hypothesis Inv_upd : ∀ f s, keeps f → Inv s → Inv (set_gdata (f (gdata s)) s).
Hypothesis Inv_emit : ∀ e s, benign e → Inv s → Inv (add_trace [e] s).
Hypothesis Inv_quit : ∀ s, Inv s → Inv (set_gdata (set_quit_request true (gdata s)) s).
Hypothesis Inv_doCommand : ∀ cmd flags arg, inv (doCommand cmd flags arg).
Hypothesis Inv_rollCall : inv rollCallParticles.

Lemma inv_ret {A : Type} (a : A) : inv (ret a).
Proof. intros s Hs. exact Hs. Qed.

Lemma inv_bind {A B : Type} (m : M A) (k : A → M B) :
  inv m → (∀ a, inv (k a)) → inv (bind m k).
Proof. intros Hm Hk. apply (hoare_bind _ (λ _, Inv)); assumption. Qed.

Lemma inv_read {A : Type} (f : GlobalData → A) : inv (read f).
Proof. intros s Hs. exact Hs. Qed.

Lemma inv_upd (f : GlobalData → GlobalData) : keeps f → inv (upd f).
Proof. intros Hf s Hs. apply Inv_upd; assumption. Qed.

Lemma inv_emit (e : event) : benign e → inv (emit e).
Proof. intros He s Hs. apply Inv_emit; assumption. Qed.

Lemma inv_throw {A : Type} (e : exn) : inv (@throw A e).
Proof. intros s Hs. apply Inv_throw. assumption. Qed.

Lemma inv_undefined {A : Type} : inv (@undefined A).
Proof. intros s Hs. apply Inv_undefined. assumption. Qed.

Lemma inv_lift_option {A : Type} (o : option A) : inv (lift_option o).
Proof. destruct o; [apply inv_ret|apply inv_undefined]. Qed.

Lemma inv_umod (a b : Z) : inv (umod a b).
Proof. unfold umod. destruct (decide (b = 0)); [apply inv_undefined|apply inv_ret]. Qed.

Lemma inv_when (b : bool) (m : M unit) : inv m → inv (when b m).
Proof. intros Hm. destruct b; [assumption|apply inv_ret]. Qed.

Lemma inv_for_each {A : Type} (l : list A) (body : A → M unit) :
  (∀ x, inv (body x)) → inv (for_each l body).
Proof.
  intros Hb. induction l as [|x l IH]; simpl; [apply inv_ret|].
  apply inv_bind; [apply Hb|intros _; assumption].
Qed.

Lemma inv_fold_M {A B : Type} (l : list A) (f : A → B → M B) (b : B) :
  (∀ x b, inv (f x b)) → inv (fold_M l f b).
Proof.
  intros Hf. revert b. induction l as [|x l IH]; intros b; simpl; [apply inv_ret|].
  apply inv_bind; [apply Hf|intros b'; apply IH].
Qed.

Lemma keeps_set_world (w : W) : keeps (set_world w).
Proof. intros g. split; reflexivity. Qed.

Lemma inv_call (c : host_call) : inv (call c).
Proof.
  unfold call. apply inv_bind; [apply inv_read|]. intros g.
  apply inv_bind; [apply inv_emit; exact Logic.I|]. intros _.
  apply inv_upd. apply keeps_set_world.
Qed.

Lemma inv_log (m : log_msg) : benign (EvLog m) → inv (log m).
Proof. apply inv_emit. Qed.

Lemma inv_quit : inv (upd (set_quit_request true)).
Proof. intros s Hs. apply Inv_quit. assumption. Qed.

Ltac inv_step :=
  lazymatch goal with
  | |- hoare _ (ret _) _ _ _ => apply inv_ret
  | |- hoare _ (read _) _ _ _ => apply inv_read
  | |- hoare _ (doCommand _ _ _) _ _ _ => apply Inv_doCommand
  | |- hoare _ rollCallParticles _ _ _ => apply Inv_rollCall
  | |- hoare _ (call _) _ _ _ => apply inv_call
  | |- hoare _ (throw _) _ _ _ => apply inv_throw
  | |- hoare _ undefined _ _ _ => apply inv_undefined
  | |- hoare _ (lift_option _) _ _ _ => apply inv_lift_option
  | |- hoare _ (umod _ _) _ _ _ => apply inv_umod
  | |- hoare _ (log _) _ _ _ => apply inv_log; exact Logic.I
  | |- hoare _ (upd (set_quit_request true)) _ _ _ => apply inv_quit
  | |- hoare _ (upd _) _ _ _ => apply inv_upd; intros ?; split; reflexivity
  | |- hoare _ (when _ _) _ _ _ => apply inv_when
  | |- hoare _ (for_each _ _) _ _ _ => apply inv_for_each; intros ?
  | |- hoare _ (fold_M _ _ _) _ _ _ => apply inv_fold_M; intros ? ?
  | |- hoare _ (bind _ _) _ _ _ => apply inv_bind; [|intros ?]
  | |- hoare _ (if ?b then _ else _) _ _ _ => destruct b
  | |- hoare _ (match ?x with _ => _ end) _ _ _ => destruct x
  | |- hoare _ ((λ _, _) _) _ _ _ => cbv beta
  | |- hoare _ (let _ := _ in _) _ _ _ => cbv zeta
  end.

(** The routines that are called by others are looked up first. *)
Ltac inv_routine := fail.
Ltac inv_auto := repeat first [inv_routine | inv_step].

Lemma inv_printStatus : inv printStatus.
Proof. unfold printStatus. inv_auto. Qed.

Lemma inv_write_out (write_flags : flag_t) (g : GlobalData) (ws : write_scan) :
  inv (write_out write_flags g ws).
Proof. unfold write_out. inv_auto. Qed.

Lemma inv_doWrite (write_flags : flag_t) : inv (doWrite write_flags).
Proof. unfold doWrite. inv_auto. apply inv_write_out. Qed.

Lemma inv_doCallBacks : inv doCallBacks.
Proof. unfold doCallBacks. inv_auto. Qed.

Ltac inv_routine ::=
  lazymatch goal with
  | |- hoare _ printStatus _ _ _ => apply inv_printStatus
  | |- hoare _ (doWrite _) _ _ _ => apply inv_doWrite
  | |- hoare _ doCallBacks _ _ _ => apply inv_doCallBacks
  end.

Lemma inv_saveParticles (enabledPostProcess : list PostProcessEngine) (write_flags : flag_t) :
  inv (saveParticles enabledPostProcess write_flags).
Proof. unfold saveParticles. inv_auto. Qed.

Lemma inv_move_bodies (step : Z) : inv (move_bodies step).
Proof. unfold move_bodies. inv_auto. Qed.

Lemma inv_recount : inv recount.
Proof. unfold recount. inv_auto. Qed.

Lemma inv_reconcile_total : inv reconcile_total.
Proof. unfold reconcile_total. inv_auto. Qed.

Lemma inv_check_capacity (processCount : Z) : inv (check_capacity processCount).
Proof. unfold check_capacity. inv_auto. Qed.

Lemma inv_updateArrayIndices : inv updateArrayIndices.
Proof.
  unfold updateArrayIndices.
  apply inv_bind; [apply inv_recount|intros processCount].
  apply inv_bind; [apply inv_reconcile_total|intros _].
  apply inv_check_capacity.
Qed.

Ltac inv_routine ::=
  lazymatch goal with
  | |- hoare _ printStatus _ _ _ => apply inv_printStatus
  | |- hoare _ (doWrite _) _ _ _ => apply inv_doWrite
  | |- hoare _ doCallBacks _ _ _ => apply inv_doCallBacks
  | |- hoare _ (saveParticles _ _) _ _ _ => apply inv_saveParticles
  | |- hoare _ (move_bodies _) _ _ _ => apply inv_move_bodies
  | |- hoare _ updateArrayIndices _ _ _ => apply inv_updateArrayIndices
  end.

Lemma inv_buildNeibList : inv buildNeibList.
Proof. unfold buildNeibList. inv_auto. Qed.

Lemma inv_saBoundaryConditions (cFlag : flag_t) : inv (saBoundaryConditions cFlag).
Proof. unfold saBoundaryConditions. inv_auto. Qed.

Lemma inv_run_filter (flt : Z * Z) : inv (run_filter flt).
Proof. unfold run_filter. inv_auto. Qed.

Lemma inv_grenier_density (step : flag) : inv (grenier_density step).
Proof. unfold grenier_density. inv_auto. Qed.

Lemma inv_sps_stress (step : flag) : inv (sps_stress step).
Proof. unfold sps_stress. inv_auto. Qed.

Lemma inv_compute_forces (step : flag) : inv (compute_forces step).
Proof. unfold compute_forces. inv_auto. Qed.

Lemma inv_download_created : inv download_created.
Proof. unfold download_created. inv_auto. Qed.

Ltac inv_routine ::=
  lazymatch goal with
  | |- hoare _ printStatus _ _ _ => apply inv_printStatus
  | |- hoare _ (doWrite _) _ _ _ => apply inv_doWrite
  | |- hoare _ doCallBacks _ _ _ => apply inv_doCallBacks
  | |- hoare _ (saveParticles _ _) _ _ _ => apply inv_saveParticles
  | |- hoare _ (move_bodies _) _ _ _ => apply inv_move_bodies
  | |- hoare _ updateArrayIndices _ _ _ => apply inv_updateArrayIndices
  | |- hoare _ buildNeibList _ _ _ => apply inv_buildNeibList
  | |- hoare _ (saBoundaryConditions _) _ _ _ => apply inv_saBoundaryConditions
  | |- hoare _ (run_filter _) _ _ _ => apply inv_run_filter
  | |- hoare _ (grenier_density _) _ _ _ => apply inv_grenier_density
  | |- hoare _ (sps_stress _) _ _ _ => apply inv_sps_stress
  | |- hoare _ (compute_forces _) _ _ _ => apply inv_compute_forces
  | |- hoare _ download_created _ _ _ => apply inv_download_created
  end.

Lemma inv_loop_commands : inv loop_commands.
Proof. unfold loop_commands. inv_auto. Qed.

Lemma inv_advance_time : inv advance_time.
Proof. unfold advance_time. inv_auto. Qed.

Lemma inv_check_timestep (previous_t : float) : inv (check_timestep previous_t).
Proof. unfold check_timestep. inv_auto. Qed.

(** The end of an iteration keeps the invariant up to its last
    statement, which may clear the liveness flag. *)
Lemma hoare_finish_iteration (Q : GPUSPH → Prop) :
  (∀ s, Inv s → Q s) →
  (∀ s, Inv s → Q (set_gdata (set_keep_going false (gdata s)) s)) →
  hoare Inv finish_iteration (λ _, Q) Et Eu.
Proof.
  intros HQ HQ'. unfold finish_iteration.
  apply (hoare_bind _ (λ _, Inv)); [inv_auto|intros g1]. cbv zeta.
  apply (hoare_bind _ (λ _, Inv)); [inv_auto|intros _].
  apply (hoare_bind _ (λ _, Inv)); [inv_auto|intros _].
  intros s Hs. unfold when.
  destruct (_ || quit_request g1); [apply HQ'|apply HQ]; assumption.
Qed.

(** With a quit request pending, it does clear it. *)
Lemma hoare_finish_iteration_quit :
  hoare (λ s, Inv s ∧ quit_request (gdata s) = true) finish_iteration
    (λ _ s, ∃ s0, Inv s0 ∧ s = set_gdata (set_keep_going false (gdata s0)) s0) Et Eu.
Proof.
  intros s [Hs Hq]. unfold finish_iteration. unfold bind at 1. unfold read.
  cbv beta iota zeta. set (g1 := gdata s) in *. clearbody g1. rewrite Hq, !orb_true_r.
  refine (hoare_bind Inv (λ _, Inv) _ Et Eu _ _ _ _ s Hs); [inv_auto|intros _].
  apply (hoare_bind _ (λ _, Inv)); [inv_auto|intros _].
  intros s' Hs'. simpl. exists s'. split; [assumption|reflexivity].
Qed.

Lemma hoare_conclude_iteration (Q : GPUSPH → Prop) (previous_t : float) :
  (∀ s, Inv s → Q s) →
  (∀ s, Inv s → Q (set_gdata (set_keep_going false (gdata s)) s)) →
  hoare Inv (conclude_iteration previous_t) (λ _, Q) Et Eu.
Proof.
  intros HQ HQ'. unfold conclude_iteration.
  apply (hoare_bind _ (λ _, Inv)); [apply inv_check_timestep|intros _].
  apply hoare_finish_iteration; assumption.
Qed.

Lemma hoare_loop_body (Q : GPUSPH → Prop) :
  (∀ s, Inv s → Q s) →
  (∀ s, Inv s → Q (set_gdata (set_keep_going false (gdata s)) s)) →
  hoare Inv loop_body (λ _, Q) Et Eu.
Proof.
  intros HQ HQ'. unfold loop_body.
  apply (hoare_bind _ (λ _, Inv)); [apply inv_loop_commands|intros _].
  apply (hoare_bind _ (λ _, Inv)); [apply inv_advance_time|intros previous_t].
  apply hoare_conclude_iteration; assumption.
Qed.

End Invariant.

(** ** No command is posted once the liveness flag is false *)

Lemma posts_alive_app (tr tr' : list event) :
  posts_alive tr → posts_alive tr' → posts_alive (tr ++ tr').
Proof. unfold posts_alive. intros. apply Forall_app. auto. Qed.

Lemma benign_posted_alive (e : event) : benign e → posted_alive e.
Proof. destruct e; simpl; auto. Qed.

Lemma alive_doCommand (cmd : CommandType) (flags : flag_t) (arg : float) :
  hoare alive_inv (doCommand cmd flags arg) (λ _, alive_inv)
    (λ _ s, posts_alive (trace s)) (λ s, posts_alive (trace s)).
Proof.
  intros s [Hk Hp]. rewrite doCommand_run.
  assert (posts_alive (trace s ++ [EvPost cmd flags arg (keep_going (gdata s));
                                   EvBarrier cmd flags arg; EvBarrier cmd flags arg])) as Hp'.
  { apply posts_alive_app; [assumption|]. repeat constructor. assumption. }
  destruct (keep_going (apply_workers _)) eqn:E; [split|]; assumption.
Qed.

Lemma alive_rollCall :
  hoare alive_inv rollCallParticles (λ _, alive_inv)
    (λ _ s, posts_alive (trace s)) (λ s, posts_alive (trace s)).
Proof.
  intros s [Hk Hp]. unfold rollCallParticles.
  destruct (rollCallParticles_pure _ _ _ _) as [r|]; [|assumption].
  split; [assumption|]. simpl. apply posts_alive_app; [assumption|].
  apply Forall_fmap. apply Forall_true. intros m. exact Logic.I.
Qed.

Lemma alive_loop_body :
  hoare alive_inv loop_body (λ _ s, posts_alive (trace s))
    (λ _ s, posts_alive (trace s)) (λ s, posts_alive (trace s)).
Proof.
  apply (hoare_loop_body alive_inv).
  - intros e s [_ H]. exact H.
  - intros s [_ H]. exact H.
  - intros f s Hf [Hk Hp]. split; [|assumption]. simpl. rewrite <- Hk. apply Hf.
  - intros e s He [Hk Hp]. split; [assumption|]. simpl.
    apply posts_alive_app; [assumption|]. repeat constructor.
    apply benign_posted_alive. assumption.
  - intros s [Hk Hp]. split; assumption.
  - apply alive_doCommand.
  - apply alive_rollCall.
  - intros s [_ H]. exact H.
  - intros s [_ H]. exact H.
Qed.

Lemma alive_iteration :
  hoare alive_inv iteration (λ _ s, posts_alive (trace s))
    (λ _ s, posts_alive (trace s)) (λ s, posts_alive (trace s)).
Proof.
  intros s Hs. unfold iteration, try_catch. pose proof (alive_loop_body s Hs) as H.
  destruct (loop_body s) as [[[]|e|] s']; [assumption| |assumption].
  cbv [loop_handler bind log emit upd forceUnlock]. simpl.
  rewrite <- app_assoc. apply posts_alive_app; [assumption|]. repeat constructor.
Qed.

Lemma alive_simulation_loop (fuel : nat) (s : GPUSPH) :
  posts_alive (trace s) → posts_alive (trace (simulation_loop fuel s).2).
Proof.
  revert s. induction fuel as [|fuel IH]; intros s Hp.
  - simpl. unfold bind, read, ret. destruct (keep_going (gdata s)); assumption.
  - simpl. unfold bind at 1. unfold read.
    destruct (keep_going (gdata s)) eqn:Hk; [|assumption].
    unfold bind. pose proof (alive_iteration s (conj Hk Hp)) as H.
    destruct (iteration s) as [[[]|e|] s']; [|assumption|assumption].
    apply IH. assumption.
Qed.

Lemma handler_run (e : exn) (s : GPUSPH) :
  loop_handler e s
  = (Ret tt, add_trace [EvLog (LogException e); EvForceUnlock]
               (set_gdata (set_keep_going false (gdata s)) s)).
Proof.
  cbv [loop_handler bind log emit upd forceUnlock].
  f_equal. apply state_eq; try reflexivity.
  cbn [trace add_trace set_gdata]. rewrite <- app_assoc. reflexivity.
Qed.

Lemma simulation_loop_stops (fuel : nat) (s : GPUSPH) :
  keep_going (gdata s) = false → simulation_loop fuel s = (Ret true, s).
Proof.
  intros H. destruct fuel; simpl; unfold bind, read, ret; rewrite H; reflexivity.
Qed.

(** C3. If the loop body ends by an exception, the loop catches it, logs
    it, clears the liveness flag, force-unlocks the synchronizer and is
    left, with no further iteration.  With the liveness flag cleared the
    loop does nothing at all; and, however many iterations it runs, with
    whatever nesting of conditional command sequences, every command it
    posts is posted while the liveness flag is set. *)
Theorem loop_failure_semantics (fuel : nat) (s s1 : GPUSPH) (e : exn) :
  (keep_going (gdata s) = true →
   loop_body s = (Throw e, s1) →
   ∃ s', simulation_loop (S fuel) s = (Ret true, s')
         ∧ keep_going (gdata s') = false
         ∧ trace s' = trace s1 ++ [EvLog (LogException e); EvForceUnlock])
  ∧ (∀ n s0, keep_going (gdata s0) = false → simulation_loop n s0 = (Ret true, s0))
  ∧ (∀ n s0, posts_alive (trace s0) → posts_alive (trace (simulation_loop n s0).2)).
Proof.
  split; [|split].
  - intros Hk Hb. eexists. split; [|split].
    + simpl. unfold bind at 1. unfold read. rewrite Hk.
      unfold bind, iteration, try_catch. rewrite Hb, handler_run.
      apply simulation_loop_stops. reflexivity.
    + reflexivity.
    + reflexivity.
  - intros n s0. apply simulation_loop_stops.
  - intros n s0. apply alive_simulation_loop.
Qed.

(** ** The timestep guards *)

Lemma bind_run {A B : Type} (m : M A) (k : A → M B) (s s1 : GPUSPH) (a : A) :
  m s = (Ret a, s1) → bind m k s = k a s1.
Proof. unfold bind. intros ->. reflexivity. Qed.

Lemma check_timestep_run (previous_t : float) (s : GPUSPH) :
  check_timestep previous_t s
  = let g := gdata s in
    if PrimFloat.eqb (t g) 0%float then (Throw (DtZeroException (t g) (dt g)), s)
    else
      let s1 := if PrimFloat.ltb (dt g) FLT_EPSILON
                then set_gdata (set_quit_request true (gdata s))
                       (add_trace [EvLog (LogDtUnderEpsilon (dt g) (iterations g))] s)
                else s in
      (Ret tt,
       if PrimFloat.eqb (t g) previous_t
       then set_gdata (set_quit_request true (gdata s1))
              (add_trace [EvLog (LogTimeStill (dt g) (iterations g))] s1)
       else s1).
Proof.
  cbv [check_timestep bind read when log emit upd throw ret]. cbv zeta.
  destruct (PrimFloat.eqb (t (gdata s)) 0); [reflexivity|].
  destruct (PrimFloat.ltb (dt (gdata s)) FLT_EPSILON);
    destruct (PrimFloat.eqb (t (gdata s)) previous_t); reflexivity.
Qed.

Lemma quit_pending_doCommand (pre : list event) (cmd : CommandType) (flags : flag_t)
    (arg : float) :
  hoare (quit_pending pre) (doCommand cmd flags arg) (λ _, quit_pending pre)
    (λ _, quit_pending pre) (λ _, False).
Proof.
  intros s [Hq [k Hk]]. rewrite doCommand_run.
  assert (quit_pending pre
            (add_trace [EvPost cmd flags arg (keep_going (gdata s));
                        EvBarrier cmd flags arg; EvBarrier cmd flags arg]
               (set_gdata (apply_workers (apply_workers (posted cmd flags arg (gdata s)))) s)))
    as H.
  { split.
    - change (quit_request (gdata s)
              || w_quit_request (workers (posted cmd flags arg (gdata s)))
              || w_quit_request (workers (apply_workers (posted cmd flags arg (gdata s))))
              = true).
      rewrite Hq. reflexivity.
    - cbn [trace add_trace set_gdata]. rewrite Hk, <- app_assoc. eexists. reflexivity. }
  destruct (keep_going (apply_workers _)); exact H.
Qed.

Lemma iteration_leaves_loop (fuel : nat) (s s' : GPUSPH) :
  keep_going (gdata s) = true → iteration s = (Ret tt, s') →
  keep_going (gdata s') = false →
  simulation_loop (S fuel) s = (Ret true, s').
Proof.
  intros Hk Hi Hk'. simpl. unfold bind at 1. unfold read. rewrite Hk.
  unfold bind. rewrite Hi. apply simulation_loop_stops. assumption.
Qed.

(** *** Where an iteration can end in undefined behaviour *)

Lemma oo_ret {A : Type} (a : A) : overruns_only (ret a).
Proof. intros s. exact Logic.I. Qed.

Lemma oo_bind {A B : Type} (m : M A) (k : A → M B) :
  overruns_only m → (∀ a, overruns_only (k a)) → overruns_only (bind m k).
Proof.
  intros Hm Hk s. unfold bind. specialize (Hm s).
  destruct (m s) as [[a|e|] s1]; [apply Hk|exact Logic.I|exact Hm].
Qed.

Lemma oo_read {A : Type} (f : GlobalData → A) : overruns_only (read f).
Proof. intros s. exact Logic.I. Qed.

Lemma oo_upd (f : GlobalData → GlobalData) : overruns_only (upd f).
Proof. intros s. exact Logic.I. Qed.

Lemma oo_emit (e : event) : overruns_only (emit e).
Proof. intros s. exact Logic.I. Qed.

Lemma oo_throw {A : Type} (e : exn) : overruns_only (@throw A e).
Proof. intros s. exact Logic.I. Qed.

Lemma oo_when (b : bool) (m : M unit) : overruns_only m → overruns_only (when b m).
Proof. intros Hm. destruct b; [exact Hm|apply oo_ret]. Qed.

Lemma oo_for_each {A : Type} (l : list A) (body : A → M unit) :
  (∀ x, overruns_only (body x)) → overruns_only (for_each l body).
Proof.
  intros Hb. induction l as [|x l IH]; [apply oo_ret|].
  apply oo_bind; [apply Hb|intros _; exact IH].
Qed.

Lemma oo_fold_M {A B : Type} (l : list A) (f : A → B → M B) (b : B) :
  (∀ x b, overruns_only (f x b)) → overruns_only (fold_M l f b).
Proof.
  intros Hf. revert b. induction l as [|x l IH]; intros b; [apply oo_ret|].
  apply oo_bind; [apply Hf|intros b'; apply IH].
Qed.

Lemma oo_call (c : host_call) : overruns_only (call c).
Proof. intros s. exact Logic.I. Qed.

Lemma oo_doCommand (cmd : CommandType) (flags : flag_t) (arg : float) :
  overruns_only (doCommand cmd flags arg).
Proof. intros s. rewrite doCommand_run. destruct (keep_going _); exact Logic.I. Qed.

Ltac oo_step :=
  lazymatch goal with
  | |- overruns_only (ret _) => apply oo_ret
  | |- overruns_only (read _) => apply oo_read
  | |- overruns_only (upd _) => apply oo_upd
  | |- overruns_only (emit _) => apply oo_emit
  | |- overruns_only (log _) => apply oo_emit
  | |- overruns_only printStatus => apply oo_emit
  | |- overruns_only (throw _) => apply oo_throw
  | |- overruns_only (call _) => apply oo_call
  | |- overruns_only (doCommand _ _ _) => apply oo_doCommand
  | |- overruns_only (when _ _) => apply oo_when
  | |- overruns_only (for_each _ _) => apply oo_for_each; intros ?
  | |- overruns_only (fold_M _ _ _) => apply oo_fold_M; intros ? ?
  | |- overruns_only (bind _ _) => apply oo_bind; [|intros ?]
  | |- overruns_only (if ?b then _ else _) => destruct b
  | |- overruns_only (match ?x with _ => _ end) => destruct x
  | |- overruns_only ((λ _, _) _) => cbv beta
  | |- overruns_only (let _ := _ in _) => cbv zeta
  end.

Lemma oo_write_out (write_flags : flag_t) (g : GlobalData) (ws : write_scan) :
  overruns_only (write_out write_flags g ws).
Proof. unfold write_out. repeat oo_step. Qed.

Lemma oo_doWrite (write_flags : flag_t) : overruns_only (doWrite write_flags).
Proof.
  intros s. unfold doWrite. unfold bind at 1. unfold read. unfold bind at 1.
  destruct (scan_particles (gdata s)) as [ws|] eqn:E; [|exact E].
  apply oo_write_out.
Qed.

Lemma oo_saveParticles (engines : list PostProcessEngine) (write_flags : flag_t) :
  overruns_only (saveParticles engines write_flags).
Proof.
  unfold saveParticles.
  repeat first [apply oo_doWrite | oo_step].
Qed.

Lemma oo_check_timestep (previous_t : float) : overruns_only (check_timestep previous_t).
Proof. unfold check_timestep. repeat oo_step. Qed.

Lemma oo_finish_iteration : overruns_only finish_iteration.
Proof.
  unfold finish_iteration.
  repeat first [apply oo_saveParticles | oo_step].
Qed.

(** With the quit request set, the end of the iteration clears the
    liveness flag, be it through the exception handler, unless the forced
    write of the particles runs off a host array. *)
Lemma finish_iteration_quits (s : GPUSPH) :
  quit_request (gdata s) = true →
  ∃ r s', try_catch finish_iteration loop_handler s = (r, s')
          ∧ quit_request (gdata s') = true
          ∧ trace s `prefix_of` trace s'
          ∧ (r = Ret tt ∧ keep_going (gdata s') = false
             ∨ r = Undefined ∧ scan_particles (gdata s') = None).
Proof.
  intros Hq.
  pose proof (hoare_finish_iteration_quit (quit_pending (trace s))
                (λ _, quit_pending (trace s)) (quit_pending (trace s))) as H.
  specialize (H ltac:(intros s0 H0; exact H0)).
  specialize (H ltac:(intros f s0 Hf [Hq0 Hp0]; split;
                        [rewrite <- Hq0; apply Hf|exact Hp0])).
  specialize (H ltac:(intros e s0 _ [Hq0 [k Hp0]]; split; [exact Hq0|];
                        cbn [trace add_trace]; rewrite Hp0, <- app_assoc;
                        eexists; reflexivity)).
  specialize (H ltac:(intros cmd flags arg;
                      apply (hoare_weaken _ _ _ _ _ _ _ _ _
                               (quit_pending_doCommand (trace s) cmd flags arg));
                      [intros s0 H0; exact H0|intros a s0 H0; exact H0
                      |intros e s0 H0; exact H0|intros s0 []]) s).
  specialize (H ltac:(split; [split; [exact Hq|reflexivity]|exact Hq])).
  pose proof (oo_finish_iteration s) as Ho.
  unfold try_catch. destruct (finish_iteration s) as [[[]|e|] s4].
  - destruct H as (s0 & [Hq0 Hp0] & ->). eexists _, _. split; [reflexivity|].
    split; [exact Hq0|]. split; [exact Hp0|]. left. split; reflexivity.
  - destruct H as [Hq0 [k Hp0]]. rewrite handler_run. eexists _, _. split; [reflexivity|].
    split; [exact Hq0|]. split.
    + cbn [trace add_trace set_gdata]. rewrite Hp0, <- app_assoc. eexists. reflexivity.
    + left. split; reflexivity.
  - destruct H as [Hq0 Hp0]. eexists _, _. split; [reflexivity|].
    split; [exact Hq0|]. split; [exact Hp0|]. right. split; [reflexivity|exact Ho].
Qed.

(** C4. When, after the clock was advanced and the next timestep chosen,
    the time equals the time before the step or the timestep is under
    machine epsilon, the condition is logged and termination requested
    within the iteration: when the time is zero the exception is thrown
    that the handler prints; otherwise each guard that fired printed its
    message and the quit request is set.  The iteration then ends with the
    liveness flag cleared and the loop is left without another iteration.
    The only other way the iteration can end is in the forced write of
    the particles, when [doWrite] runs off a host array: undefined
    behaviour, with the message logged and the quit request set. *)
Theorem timestep_guards_stop_the_loop (fuel : nat) (s s1 s2 : GPUSPH) (previous_t : float) :
  keep_going (gdata s) = true →
  loop_commands s = (Ret tt, s1) →
  advance_time s1 = (Ret previous_t, s2) →
  PrimFloat.eqb (t (gdata s2)) previous_t = true
  ∨ PrimFloat.ltb (dt (gdata s2)) FLT_EPSILON = true →
  ∃ r s',
    iteration s = (r, s')
    ∧ (r = Ret tt ∧ simulation_loop (S fuel) s = (Ret true, s')
       ∧ keep_going (gdata s') = false
       ∨ r = Undefined ∧ scan_particles (gdata s') = None
         ∧ PrimFloat.eqb (t (gdata s2)) 0%float = false)
    ∧ (if PrimFloat.eqb (t (gdata s2)) 0%float
       then logged_since s2 s'
              (LogException (DtZeroException (t (gdata s2)) (dt (gdata s2))))
       else quit_request (gdata s') = true
            ∧ (PrimFloat.ltb (dt (gdata s2)) FLT_EPSILON = true →
               logged_since s2 s'
                 (LogDtUnderEpsilon (dt (gdata s2)) (iterations (gdata s2))))
            ∧ (PrimFloat.eqb (t (gdata s2)) previous_t = true →
               logged_since s2 s'
                 (LogTimeStill (dt (gdata s2)) (iterations (gdata s2))))).
Proof.
  intros Hk Hc Ha Hg.
  assert (loop_body s = conclude_iteration previous_t s2) as Hb.
  { unfold loop_body. rewrite (bind_run _ _ _ _ _ Hc), (bind_run _ _ _ _ _ Ha). reflexivity. }
  cut (∃ r s',
         iteration s = (r, s')
         ∧ (r = Ret tt ∧ keep_going (gdata s') = false
            ∨ r = Undefined ∧ scan_particles (gdata s') = None
              ∧ PrimFloat.eqb (t (gdata s2)) 0%float = false)
         ∧ (if PrimFloat.eqb (t (gdata s2)) 0%float
            then logged_since s2 s'
                   (LogException (DtZeroException (t (gdata s2)) (dt (gdata s2))))
            else quit_request (gdata s') = true
                 ∧ (PrimFloat.ltb (dt (gdata s2)) FLT_EPSILON = true →
                    logged_since s2 s'
                      (LogDtUnderEpsilon (dt (gdata s2)) (iterations (gdata s2))))
                 ∧ (PrimFloat.eqb (t (gdata s2)) previous_t = true →
                    logged_since s2 s'
                      (LogTimeStill (dt (gdata s2)) (iterations (gdata s2)))))).
  { intros (r & s' & Hi & Hr & Hl). exists r, s'. split; [exact Hi|]. split; [|exact Hl].
    destruct Hr as [[-> Hk']|Hu]; [left|right; exact Hu].
    split; [reflexivity|]. split; [|exact Hk'].
    apply iteration_leaves_loop; assumption. }
  unfold iteration, try_catch. rewrite Hb. unfold conclude_iteration, bind at 1.
  rewrite check_timestep_run. cbv zeta.
  destruct (PrimFloat.eqb (t (gdata s2)) 0) eqn:Hz.
  - rewrite handler_run. eexists _, _. split; [reflexivity|].
    split; [left; split; reflexivity|].
    eexists. split; [reflexivity|]. constructor.
  - set (logs := (if PrimFloat.ltb (dt (gdata s2)) FLT_EPSILON
                  then [EvLog (LogDtUnderEpsilon (dt (gdata s2)) (iterations (gdata s2)))]
                  else [])
                 ++ (if PrimFloat.eqb (t (gdata s2)) previous_t
                     then [EvLog (LogTimeStill (dt (gdata s2)) (iterations (gdata s2)))]
                     else [])).
    match goal with
    | |- ∃ _ _, match finish_iteration ?x with _ => _ end = _ ∧ _ => set (s3 := x)
    end.
    assert (quit_request (gdata s3) = true ∧ trace s3 = trace s2 ++ logs) as [Hq Ht].
    { unfold s3, logs.
      destruct (PrimFloat.ltb (dt (gdata s2)) FLT_EPSILON);
        destruct (PrimFloat.eqb (t (gdata s2)) previous_t);
        cbn [trace add_trace set_gdata]; rewrite <- ?app_assoc, ?app_nil_r;
        (split; [reflexivity|reflexivity]) || (destruct Hg; discriminate). }
    clearbody s3.
    assert (∀ s', trace s3 `prefix_of` trace s' →
              (PrimFloat.ltb (dt (gdata s2)) FLT_EPSILON = true →
               logged_since s2 s'
                 (LogDtUnderEpsilon (dt (gdata s2)) (iterations (gdata s2))))
              ∧ (PrimFloat.eqb (t (gdata s2)) previous_t = true →
                 logged_since s2 s'
                   (LogTimeStill (dt (gdata s2)) (iterations (gdata s2))))) as Hlog.
    { intros s' [k Hs']. rewrite Ht, <- app_assoc in Hs'. unfold logs in Hs'.
      split; intros E; rewrite E in Hs'; eexists; (split; [exact Hs'|]);
        rewrite !elem_of_app; left; [left|right]; constructor. }
    destruct (finish_iteration_quits s3 Hq) as (r & s' & Hrun & Hq' & Hpre & Hr).
    exists r, s'. unfold try_catch in Hrun. split; [exact Hrun|]. split.
    + destruct Hr as [Hr|[-> Hu]]; [left; exact Hr|right].
      split; [reflexivity|]. split; [exact Hu|reflexivity].
    + split; [exact Hq'|]. apply Hlog. exact Hpre.
Qed.

(** ** The roll call warns once *)

Lemma warnings_app (pid : Z) (a b : list event) :
  warnings pid (a ++ b) = (warnings pid a + warnings pid b)%nat.
Proof. unfold warnings. rewrite List.filter_app, length_app. reflexivity. Qed.

Lemma warnings_silent (pid : Z) (tr : list event) : Forall silent tr → warnings pid tr = 0%nat.
Proof.
  unfold warnings. induction 1 as [|e tr He _ IH]; [reflexivity|].
  simpl. rewrite (He pid). exact IH.
Qed.

Lemma warnings_one (pid : Z) (e : event) :
  warnings pid [e] = if warns pid e then 1%nat else 0%nat.
Proof. unfold warnings. simpl. destruct (warns pid e); reflexivity. Qed.

Lemma benign_silent (e : event) : benign e → silent e.
Proof. intros He pid. destruct e as [| | |[]|]; try reflexivity; contradiction. Qed.

Lemma notified_kept_insert (n0 n : list bool) (id : nat) :
  notified_kept n0 n → notified_kept n0 (<[id := true]> n).
Proof.
  intros H i Hi. specialize (H i Hi). destruct (decide (i = id)) as [->|Hne].
  - apply list_lookup_insert_eq. apply lookup_lt_Some in H. exact H.
  - rewrite list_lookup_insert_ne by congruence. exact H.
Qed.

Lemma notified_kept_refl (n : list bool) : notified_kept n n.
Proof. intros id H. exact H. Qed.

Lemma warned_once_silent (tr tr' : list event) (n : list bool) :
  Forall silent tr' → warned_once_in tr n → warned_once_in (tr ++ tr') n.
Proof.
  intros Hs H pid. rewrite warnings_app, (warnings_silent pid tr' Hs), Nat.add_0_r.
  apply H.
Qed.

Lemma warned_once_mark (tr : list event) (n : list bool) (id : nat) :
  warned_once_in tr n → warned_once_in tr (<[id := true]> n).
Proof.
  intros H pid. destruct (H pid) as [H0|(H1 & Hp & Hn)]; [left; exact H0|right].
  split; [exact H1|]. split; [exact Hp|].
  apply (notified_kept_insert n n id (notified_kept_refl n)). exact Hn.
Qed.

Lemma warned_once_warn (tr : list event) (n : list bool) (id : nat) (m : log_msg) :
  n !! id = Some false →
  warns (Z.of_nat id) (EvLog m) = true →
  (∀ pid, pid ≠ Z.of_nat id → warns pid (EvLog m) = false) →
  warned_once_in tr n → warned_once_in (tr ++ [EvLog m]) (<[id := true]> n).
Proof.
  intros Hn Hw Ho H pid. rewrite warnings_app, warnings_one.
  destruct (decide (pid = Z.of_nat id)) as [->|Hne].
  - rewrite Hw. right. destruct (H (Z.of_nat id)) as [H0|(_ & _ & Hn')].
    + rewrite H0. split; [reflexivity|]. split; [lia|]. rewrite Nat2Z.id.
      apply list_lookup_insert_eq. apply lookup_lt_Some in Hn. exact Hn.
    + rewrite Nat2Z.id in Hn'. congruence.
  - rewrite (Ho pid Hne), Nat.add_0_r.
    apply (warned_once_mark tr n id H pid).
Qed.

Lemma rc_step_inv (tr0 : list event) (n0 : list bool) (r r' : rollcall) :
  rc_step r r' → rc_inv tr0 n0 r → rc_inv tr0 n0 r'.
Proof.
  intros [[Hn Hl]|(id & Hid & Hn & Hl)] [Hk Hw]; unfold rc_inv.
  - rewrite Hn, Hl. split; assumption.
  - rewrite Hn. split; [apply notified_kept_insert; exact Hk|].
    destruct Hl as [->|(m & -> & Hm & Ho)]; [apply warned_once_mark; exact Hw|].
    rewrite fmap_app, app_assoc. simpl. apply warned_once_warn; assumption.
Qed.

Lemma rc_reset_step (part_id : nat) (r r' : rollcall) :
  rc_reset part_id r = Some r' → rc_step r r'.
Proof.
  unfold rc_reset. destruct (store (rc_bitmap r) part_id false); [|discriminate].
  destruct (store (rc_addrs r) part_id UINT_MAX); [|discriminate].
  intros [= <-]. left. split; reflexivity.
Qed.

Lemma rc_mark_step (g : GlobalData) (part_index : nat) (r r' : rollcall) :
  rc_mark g part_index r = Some r' → rc_step r r'.
Proof.
  unfold rc_mark. destruct (getData BUFFER_INFO (s_hBuffers g)) as [infos|]; [|discriminate].
  simpl. destruct (infos !! part_index) as [info|]; [|discriminate].
  simpl. destruct (index (particle_id info)) as [part_id|]; [|discriminate].
  simpl. destruct (rc_bitmap r !! part_id) as [seen|]; [|discriminate].
  simpl. destruct seen.
  - destruct (rc_notified r !! part_id) as [nt|] eqn:Hn; [|discriminate].
    destruct nt; simpl.
    + destruct (store (rc_bitmap r) part_id true); [|discriminate]. simpl.
      destruct (store (rc_addrs r) part_id (Z.of_nat part_index)); [|discriminate].
      intros [= <-]. left. split; reflexivity.
    + destruct (first_double_warned r); simpl.
      * destruct (store (rc_notified r) part_id true) as [n|] eqn:Hs; [|discriminate].
        simpl. destruct (store (rc_bitmap r) part_id true); [|discriminate]. simpl.
        destruct (store (rc_addrs r) part_id (Z.of_nat part_index)); [|discriminate].
        intros [= <-]. right. exists part_id. apply store_inv in Hs as [_ ->].
        split; [exact Hn|]. split; [reflexivity|]. left. reflexivity.
      * destruct (rc_addrs r !! part_id) as [addr|]; [|discriminate]. simpl.
        destruct (store (rc_notified r) part_id true) as [n|] eqn:Hs; [|discriminate].
        simpl. destruct (store (rc_bitmap r) part_id true); [|discriminate]. simpl.
        destruct (store (rc_addrs r) part_id (Z.of_nat part_index)); [|discriminate].
        intros [= <-]. right. exists part_id. apply store_inv in Hs as [_ ->].
        split; [exact Hn|]. split; [reflexivity|]. right. eexists.
        split; [reflexivity|]. simpl. split; [apply Z.eqb_refl|].
        intros pid Hp. apply Z.eqb_neq. congruence.
  - simpl. destruct (store (rc_bitmap r) part_id true); [|discriminate]. simpl.
    destruct (store (rc_addrs r) part_id (Z.of_nat part_index)); [|discriminate].
    intros [= <-]. left. split; reflexivity.
Qed.

Lemma rc_missing_step (g : GlobalData) (part_id : nat) (r r' : rollcall) :
  rc_missing g part_id r = Some r' → rc_step r r'.
Proof.
  unfold rc_missing. destruct (rc_bitmap r !! part_id) as [seen|]; [|discriminate].
  simpl. destruct seen; simpl.
  - intros [= <-]. left. split; reflexivity.
  - destruct (rc_notified r !! part_id) as [nt|] eqn:Hn; [|discriminate].
    destruct nt; simpl.
    + intros [= <-]. left. split; reflexivity.
    + destruct (first_missing_warned r); simpl.
      * destruct (store (rc_notified r) part_id true) as [n|] eqn:Hs; [|discriminate].
        intros [= <-]. right. exists part_id. apply store_inv in Hs as [_ ->].
        split; [exact Hn|]. split; [reflexivity|]. left. reflexivity.
      * destruct (store (rc_notified r) part_id true) as [n|] eqn:Hs; [|discriminate].
        intros [= <-]. right. exists part_id. apply store_inv in Hs as [_ ->].
        split; [exact Hn|]. split; [reflexivity|]. right. eexists.
        split; [reflexivity|]. simpl. split; [apply Z.eqb_refl|].
        intros pid Hp. apply Z.eqb_neq. congruence.
Qed.

Lemma rc_loop_inv (tr0 : list event) (n0 : list bool) (n : nat)
    (body : nat → rollcall → option rollcall) (r r' : rollcall) :
  (∀ i x x', body i x = Some x' → rc_step x x') →
  for_loop n 0 body r = Some r' → rc_inv tr0 n0 r → rc_inv tr0 n0 r'.
Proof.
  intros Hb Hl Hr.
  apply (for_loop_inv (λ _, rc_inv tr0 n0) n 0 body r r' Hl Hr).
  intros i x x' _ Hx Hs. apply (rc_step_inv tr0 n0 x x' (Hb i x x' Hs) Hx).
Qed.

Lemma rc_recap_silent (g : GlobalData) (n : nat) (lg0 lg lg' : list log_msg) :
  for_loop n 0 (rc_recap g) lg = Some lg' →
  (∃ k, lg = lg0 ++ k ∧ Forall silent (EvLog <$> k)) →
  ∃ k, lg' = lg0 ++ k ∧ Forall silent (EvLog <$> k).
Proof.
  intros Hl H0.
  apply (for_loop_inv (λ _ l, ∃ k, l = lg0 ++ k ∧ Forall silent (EvLog <$> k))
           n 0 (rc_recap g) lg lg' Hl H0).
  intros i l l' _ (k & -> & Hk). unfold rc_recap.
  destruct (s_hPartsPerDevice g !! i); [|discriminate]. simpl.
  destruct (s_hStartPerDevice g !! i); [|discriminate]. simpl.
  intros [= <-]. exists (k ++ [LogRecapDevice i]). rewrite app_assoc.
  split; [reflexivity|]. rewrite fmap_app. apply Forall_app. split; [exact Hk|].
  repeat constructor.
Qed.

Lemma rollCallParticles_pure_inv (g : GlobalData) (tr0 : list event) (n0 bitmap notified : list bool)
    (addrs : list Z) (r : rollcall) :
  rollCallParticles_pure g bitmap notified addrs = Some r →
  notified_kept n0 notified → warned_once_in tr0 notified →
  rc_inv tr0 n0 r.
Proof.
  unfold rollCallParticles_pure. intros H Hk Hw.
  destruct (index (mpi_rank g)) as [rank|]; [|discriminate]. simpl in H.
  destruct (processParticles g !! rank) as [parts|]; [|discriminate]. simpl in H.
  destruct (for_loop _ 0 rc_reset _) as [r1|] eqn:H1; [|discriminate]. simpl in H.
  destruct (for_loop _ 0 (rc_mark g) r1) as [r2|] eqn:H2; [|discriminate]. simpl in H.
  destruct (for_loop _ 0 (rc_missing g) r2) as [r3|] eqn:H3; [|discriminate]. simpl in H.
  assert (rc_inv tr0 n0 r3) as [Hk3 Hw3].
  { apply (rc_loop_inv tr0 n0 _ _ _ _ (rc_missing_step g) H3).
    apply (rc_loop_inv tr0 n0 _ _ _ _ (rc_mark_step g) H2).
    apply (rc_loop_inv tr0 n0 _ _ _ _ rc_reset_step H1).
    split; simpl; [exact Hk|]. rewrite app_nil_r. exact Hw. }
  destruct (all_normal r3).
  - injection H as <-. split; assumption.
  - destruct (for_loop _ 0 (rc_recap g) _) as [lg|] eqn:H4; [|discriminate].
    injection H as <-. split; [exact Hk3|]. simpl.
    destruct (rc_recap_silent g _ (rc_log r3) _ lg H4) as (k & -> & Hs).
    { exists [LogRollCallRecap]. split; [reflexivity|]. repeat constructor. }
    rewrite fmap_app, app_assoc. apply warned_once_silent; assumption.
Qed.

Lemma rollcall_inv_rollCall (n0 : list bool) :
  hoare (rollcall_inv n0) rollCallParticles (λ _, rollcall_inv n0)
    (λ _, rollcall_inv n0) (rollcall_inv n0).
Proof.
  intros s [Hk Hw]. unfold rollCallParticles.
  destruct (rollCallParticles_pure _ _ _ _) as [r|] eqn:E; [|split; assumption].
  exact (rollCallParticles_pure_inv _ (trace s) n0 _ _ _ r E Hk Hw).
Qed.

Lemma rollcall_inv_quiet (n0 : list bool) (s s' : GPUSPH) (tr : list event) :
  m_rcNotified s' = m_rcNotified s → trace s' = trace s ++ tr → Forall silent tr →
  rollcall_inv n0 s → rollcall_inv n0 s'.
Proof.
  intros Hn Ht Hs [Hk Hw]. unfold rollcall_inv, warned_once. rewrite Hn, Ht.
  split; [exact Hk|]. apply warned_once_silent; assumption.
Qed.

Lemma rollcall_inv_set (n0 : list bool) (g : GlobalData) (s : GPUSPH) :
  rollcall_inv n0 s → rollcall_inv n0 (set_gdata g s).
Proof.
  apply (rollcall_inv_quiet n0 s _ []); [reflexivity| |constructor].
  simpl. rewrite app_nil_r. reflexivity.
Qed.

Lemma rollcall_inv_upd (n0 : list bool) (f : GlobalData → GlobalData) (s : GPUSPH) :
  keeps f → rollcall_inv n0 s → rollcall_inv n0 (set_gdata (f (gdata s)) s).
Proof. intros _. apply rollcall_inv_set. Qed.

Lemma rollcall_inv_emit (n0 : list bool) (e : event) (s : GPUSPH) :
  benign e → rollcall_inv n0 s → rollcall_inv n0 (add_trace [e] s).
Proof.
  intros He. apply (rollcall_inv_quiet n0 s _ [e]); [reflexivity|reflexivity|].
  constructor; [apply benign_silent; exact He|constructor].
Qed.

Lemma rollcall_inv_quit (n0 : list bool) (s : GPUSPH) :
  rollcall_inv n0 s → rollcall_inv n0 (set_gdata (set_quit_request true (gdata s)) s).
Proof. apply rollcall_inv_set. Qed.

Lemma rollcall_inv_throw (n0 : list bool) (e : exn) (s : GPUSPH) :
  rollcall_inv n0 s → rollcall_inv n0 s.
Proof. intros H. exact H. Qed.

Lemma rollcall_inv_undefined (n0 : list bool) (s : GPUSPH) :
  rollcall_inv n0 s → rollcall_inv n0 s.
Proof. intros H. exact H. Qed.

Lemma rollcall_inv_doCommand (n0 : list bool) (cmd : CommandType) (flags : flag_t)
    (arg : float) :
  hoare (rollcall_inv n0) (doCommand cmd flags arg) (λ _, rollcall_inv n0)
    (λ _, rollcall_inv n0) (rollcall_inv n0).
Proof.
  intros s Hs. rewrite doCommand_run.
  assert (rollcall_inv n0
            (add_trace [EvPost cmd flags arg (keep_going (gdata s));
                        EvBarrier cmd flags arg; EvBarrier cmd flags arg]
               (set_gdata (apply_workers (apply_workers (posted cmd flags arg (gdata s)))) s)))
    as H.
  { apply (rollcall_inv_quiet n0 s _ [EvPost cmd flags arg (keep_going (gdata s));
                                      EvBarrier cmd flags arg; EvBarrier cmd flags arg]);
      [reflexivity|reflexivity| |exact Hs].
    repeat (constructor; [intros pid; reflexivity|]). constructor. }
  destruct (keep_going (apply_workers _)); exact H.
Qed.

Lemma barrier_run (s : GPUSPH) :
  barrier s
  = (Ret tt,
     set_gdata (apply_workers (gdata s))
       (add_trace [EvBarrier (nextCommand (gdata s)) (commandFlags (gdata s))
                     (extraCommandArg (gdata s))] s)).
Proof. reflexivity. Qed.

Lemma post_kind_run (cmd : CommandType) (s : GPUSPH) :
  post_kind cmd s
  = (Ret tt,
     add_trace [EvPost cmd (commandFlags (gdata s)) (extraCommandArg (gdata s))
                  (keep_going (gdata s))]
       (set_gdata (set_nextCommand cmd (gdata s)) s)).
Proof. reflexivity. Qed.

Lemma rollcall_inv_barrier (n0 : list bool) :
  hoare (rollcall_inv n0) barrier (λ _, rollcall_inv n0) (λ _, rollcall_inv n0)
    (rollcall_inv n0).
Proof.
  intros s Hs. rewrite barrier_run. apply rollcall_inv_set.
  apply (rollcall_inv_quiet n0 s _ [EvBarrier (nextCommand (gdata s)) (commandFlags (gdata s))
                                      (extraCommandArg (gdata s))]);
    [reflexivity|reflexivity| |exact Hs].
  constructor; [intros pid; reflexivity|constructor].
Qed.

Lemma rollcall_inv_post_kind (n0 : list bool) (cmd : CommandType) :
  hoare (rollcall_inv n0) (post_kind cmd) (λ _, rollcall_inv n0) (λ _, rollcall_inv n0)
    (rollcall_inv n0).
Proof.
  intros s Hs. rewrite post_kind_run.
  apply (rollcall_inv_quiet n0 s _ [EvPost cmd (commandFlags (gdata s))
                                      (extraCommandArg (gdata s)) (keep_going (gdata s))]);
    [reflexivity|reflexivity| |exact Hs].
  constructor; [intros pid; reflexivity|constructor].
Qed.

Lemma rollcall_inv_iteration (n0 : list bool) :
  hoare (rollcall_inv n0) iteration (λ _, rollcall_inv n0) (λ _, rollcall_inv n0)
    (rollcall_inv n0).
Proof.
  intros s Hs. unfold iteration, try_catch.
  pose proof (hoare_loop_body (rollcall_inv n0) (λ _, rollcall_inv n0) (rollcall_inv n0)
                (rollcall_inv_throw n0) (rollcall_inv_undefined n0) (rollcall_inv_upd n0)
                (rollcall_inv_emit n0) (rollcall_inv_quit n0) (rollcall_inv_doCommand n0)
                (rollcall_inv_rollCall n0) (rollcall_inv n0)
                (λ s H, H) (λ s, rollcall_inv_set n0 _ s) s Hs) as H.
  destruct (loop_body s) as [[[]|e|] s']; [exact H| |exact H].
  rewrite handler_run.
  apply (rollcall_inv_quiet n0 s' _ [EvLog (LogException e); EvForceUnlock]);
    [reflexivity|reflexivity| |exact H].
  repeat (constructor; [intros pid; reflexivity|]). constructor.
Qed.

Lemma rollcall_inv_simulation_loop (n0 : list bool) (fuel : nat) :
  hoare (rollcall_inv n0) (simulation_loop fuel) (λ _, rollcall_inv n0)
    (λ _, rollcall_inv n0) (rollcall_inv n0).
Proof.
  induction fuel as [|fuel IH]; intros s Hs.
  - simpl. unfold bind, read, ret. destruct (keep_going (gdata s)); exact Hs.
  - simpl. unfold bind at 1. unfold read. destruct (keep_going (gdata s)); [|exact Hs].
    exact (hoare_bind _ (λ _, rollcall_inv n0) _ _ _ _ _
             (rollcall_inv_iteration n0) (λ _, IH) s Hs).
Qed.

Lemma rollcall_inv_runSimulation (n0 : list bool) (fuel : nat) :
  hoare (rollcall_inv n0) (runSimulation fuel) (λ _, rollcall_inv n0)
    (λ _, rollcall_inv n0) (rollcall_inv n0).
Proof.
  intros s Hs. unfold runSimulation. destruct (negb (initialized s)); [exact Hs|].
  refine (hoare_bind _ (λ _, rollcall_inv n0) _ _ _ _ _ _ _ s Hs).
  { apply (inv_doWrite _ _ _ (rollcall_inv_undefined n0) (rollcall_inv_upd n0)
             (rollcall_inv_emit n0)). }
  intros _. apply (hoare_bind _ (λ _, rollcall_inv n0)); [apply rollcall_inv_barrier|].
  intros _. apply (hoare_bind _ (λ _, rollcall_inv n0)); [apply rollcall_inv_post_kind|].
  intros _. apply (hoare_bind _ (λ _, rollcall_inv n0)); [apply rollcall_inv_barrier|].
  intros _. apply (hoare_bind _ (λ _, rollcall_inv n0)); [apply rollcall_inv_barrier|].
  intros _. apply (hoare_bind _ (λ _, rollcall_inv n0)); [intros x Hx; exact Hx|].
  intros g. apply (hoare_bind _ (λ _, rollcall_inv n0)).
  { unfold when. destruct (bool_decide _); [|intros x Hx; exact Hx].
    apply (hoare_bind _ (λ _, rollcall_inv n0)).
    - apply (inv_buildNeibList _ _ _ (rollcall_inv_undefined n0) (rollcall_inv_upd n0)
               (rollcall_inv_emit n0) (rollcall_inv_quit n0) (rollcall_inv_doCommand n0)
               (rollcall_inv_rollCall n0)).
    - intros _.
      apply (inv_saBoundaryConditions _ _ _ (rollcall_inv_throw n0) (rollcall_inv_upd n0)
               (rollcall_inv_emit n0) (rollcall_inv_doCommand n0)). }
  intros _. apply (hoare_bind _ (λ _, rollcall_inv n0)).
  { apply (inv_printStatus _ (λ _, rollcall_inv n0) (rollcall_inv n0) (rollcall_inv_emit n0)). }
  intros _. apply (hoare_bind _ (λ _, rollcall_inv n0));
    [apply rollcall_inv_simulation_loop|].
  intros left. destruct left; [|intros x Hx; exact Hx].
  apply (hoare_bind _ (λ _, rollcall_inv n0)); [apply rollcall_inv_post_kind|].
  intros _. apply (hoare_bind _ (λ _, rollcall_inv n0)); [apply rollcall_inv_barrier|].
  intros _. apply (hoare_bind _ (λ _, rollcall_inv n0)); [apply rollcall_inv_barrier|].
  intros _. apply (hoare_bind _ (λ _, rollcall_inv n0)); [apply rollcall_inv_barrier|].
  intros _ x Hx. exact Hx.
Qed.

Lemma hoare_snd {A : Type} (P Q : GPUSPH → Prop) (m : M A) (s : GPUSPH) :
  hoare P m (λ _, Q) (λ _, Q) Q → P s → Q (m s).2.
Proof. intros H Hs. specialize (H s Hs). destruct (m s) as [[a|e|] s']; exact H. Qed.

(** C10. Over a whole run, and over any single roll call, every particle
    identity is warned about at most once: if no identity was warned
    about twice so far and the warned ones are marked in the notified
    map, the same holds after a roll call and after the run (up to where
    it may have stopped), no entry of the notified map that was set has
    been reset, and a roll call prints no second warning for an identity
    that already has one. *)
Theorem rollCall_warns_once (fuel : nat) (s : GPUSPH) :
  warned_once s →
  (warned_once (rollCallParticles s).2
   ∧ notified_kept (m_rcNotified s) (m_rcNotified (rollCallParticles s).2)
   ∧ ∀ pid, warnings pid (trace s) = 1%nat →
            warnings pid (trace (rollCallParticles s).2) = 1%nat)
  ∧ (warned_once (runSimulation fuel s).2
     ∧ notified_kept (m_rcNotified s) (m_rcNotified (runSimulation fuel s).2)
     ∧ ∀ pid, (warnings pid (trace (runSimulation fuel s).2) ≤ 1)%nat).
Proof.
  intros Hw.
  assert (rollcall_inv (m_rcNotified s) s) as Hs by (split; [apply notified_kept_refl|exact Hw]).
  split.
  - destruct (hoare_snd _ _ _ s (rollcall_inv_rollCall (m_rcNotified s)) Hs) as [Hk Hw'].
    split; [exact Hw'|]. split; [exact Hk|]. intros pid H1.
    specialize (Hw' pid). revert Hw'. unfold rollCallParticles.
    destruct (rollCallParticles_pure _ _ _ _) as [r|]; simpl; [|intros _; exact H1].
    rewrite warnings_app, H1. intros [H|[H _]]; [discriminate|exact H].
  - destruct (hoare_snd _ _ _ s (rollcall_inv_runSimulation (m_rcNotified s) fuel) Hs)
      as [Hk Hw'].
    split; [exact Hw'|]. split; [exact Hk|]. intros pid.
    destruct (Hw' pid) as [->|[-> _]]; lia.
Qed.

(** ** Recounting the particles *)

Lemma usum_snoc (l : list Z) (x : Z) : usum (l ++ [x]) = wrap32 (usum l + x).
Proof. unfold usum. rewrite foldl_snoc. reflexivity. Qed.

Lemma zsum_snoc (l : list Z) (x : Z) : zsum (l ++ [x]) = zsum l + x.
Proof. unfold zsum. rewrite foldl_snoc. reflexivity. Qed.

Lemma zsum_nonneg (l : list Z) : Forall (λ x, 0 ≤ x) l → 0 ≤ zsum l.
Proof.
  induction l as [|x l IH] using rev_ind; intros H; [reflexivity|].
  apply Forall_app in H as [Hl Hx]. apply Forall_inv in Hx. cbv beta in Hx.
  rewrite zsum_snoc. specialize (IH Hl). lia.
Qed.

Lemma usum_zsum (l : list Z) :
  Forall (λ x, 0 ≤ x) l → zsum l < 4294967296 → usum l = zsum l.
Proof.
  induction l as [|x l IH] using rev_ind; intros H Hs; [reflexivity|].
  apply Forall_app in H as [Hl Hx]. apply Forall_inv in Hx. cbv beta in Hx.
  rewrite zsum_snoc in Hs. rewrite usum_snoc, zsum_snoc.
  pose proof (zsum_nonneg l Hl). rewrite IH by (assumption || lia).
  apply wrap32_small. lia.
Qed.

Lemma zsum_app (l k : list Z) : zsum (l ++ k) = zsum l + zsum k.
Proof.
  induction k as [|x k IH] using rev_ind.
  - rewrite app_nil_r. change (zsum []) with 0. lia.
  - rewrite app_assoc, !zsum_snoc, IH. lia.
Qed.

(** The counting loop stores what each worker reports. *)
Lemma count_device_loop (w : W) (parts : list Z) (D : nat) :
  (D ≤ length parts)%nat →
  ∃ parts', for_loop D 0 (count_device w) (parts, 0)
            = Some (parts', usum (getNumInternalParticles w <$> seq 0 D))
            ∧ length parts' = length parts
            ∧ ∀ d, (d < D)%nat → parts' !! d = Some (getNumInternalParticles w d).
Proof.
  intros HD.
  destruct (for_loop_total
              (λ i st, length st.1 = length parts
                       ∧ st.2 = usum (getNumInternalParticles w <$> seq 0 i)
                       ∧ ∀ d, (d < i)%nat → st.1 !! d = Some (getNumInternalParticles w d))
              D 0 (count_device w) (parts, 0)) as ([parts' pc] & Hl & Hlen & Hpc & Hp).
  - simpl. split; [reflexivity|]. split; [reflexivity|]. intros d Hd. lia.
  - intros i [p c] Hi (Hlen & Hc & Hp). cbn [fst snd] in *.
    eexists. split.
    { unfold count_device. cbn [fst snd]. rewrite store_Some by lia. reflexivity. }
    cbn [fst snd]. split; [rewrite length_insert; exact Hlen|]. split.
    + rewrite seq_S, fmap_app.
      change (getNumInternalParticles w <$> [(0 + i)%nat]) with [getNumInternalParticles w i].
      rewrite usum_snoc, Hc. reflexivity.
    + intros d Hd. destruct (decide (d = i)) as [->|Hne].
      * apply list_lookup_insert_eq. lia.
      * rewrite list_lookup_insert_ne by congruence. apply Hp. lia.
  - simpl in *. exists parts'. rewrite Hl, Hpc. auto.
Qed.

(** The first offset is the sum of the previous nodes. *)
Lemma add_prev_node_loop (pp start : list Z) (R : nat) :
  (0 < length start)%nat → (R ≤ length pp)%nat →
  for_loop R 0 (add_prev_node pp) (<[0%nat := 0]> start)
  = Some (<[0%nat := usum (take R pp)]> start).
Proof.
  intros Hs HR.
  destruct (for_loop_total (λ i st, st = <[0%nat := usum (take i pp)]> start)
              R 0 (add_prev_node pp) (<[0%nat := 0]> start)) as (st & Hl & ->).
  - rewrite take_0. reflexivity.
  - intros i st Hi ->. unfold add_prev_node.
    rewrite list_lookup_insert_eq by lia. simpl.
    destruct (lookup_lt_is_Some_2 pp i) as [pn Hpn]; [lia|]. rewrite Hpn. simpl.
    eexists. split; [reflexivity|].
    rewrite list_insert_insert_eq, (take_S_r _ _ _ Hpn), usum_snoc. reflexivity.
  - exact Hl.
Qed.

(** Each further offset is the previous one plus the previous count. *)
Lemma add_prev_device_loop (parts start : list Z) (D : nat) :
  (0 < D)%nat → (D ≤ length start)%nat → (D ≤ length parts)%nat →
  ∃ start', for_loop (D - 1) 1 (add_prev_device parts) start = Some start'
            ∧ length start' = length start
            ∧ start' !! 0%nat = start !! 0%nat
            ∧ ∀ d, (0 < d < D)%nat →
                ∃ a n, start' !! (d - 1)%nat = Some a ∧ parts !! (d - 1)%nat = Some n
                       ∧ start' !! d = Some (wrap32 (a + n)).
Proof.
  intros H0 Hs Hp.
  destruct (for_loop_total
              (λ i st, length st = length start ∧ st !! 0%nat = start !! 0%nat
                       ∧ ∀ d, (0 < d < i)%nat →
                           ∃ a n, st !! (d - 1)%nat = Some a ∧ parts !! (d - 1)%nat = Some n
                                  ∧ st !! d = Some (wrap32 (a + n)))
              (D - 1) 1 (add_prev_device parts) start) as (st & Hl & Hlen & Hz & Hd).
  - split; [reflexivity|]. split; [reflexivity|]. intros d Hd. lia.
  - intros i st Hi (Hlen & Hz & Hd). unfold add_prev_device.
    destruct (lookup_lt_is_Some_2 st (i - 1)) as [a Ha]; [lia|]. rewrite Ha. simpl.
    destruct (lookup_lt_is_Some_2 parts (i - 1)) as [n Hn]; [lia|]. rewrite Hn. simpl.
    rewrite store_Some by lia. eexists. split; [reflexivity|].
    split; [rewrite length_insert; exact Hlen|].
    split; [rewrite list_lookup_insert_ne by lia; exact Hz|].
    intros d Hdi. destruct (decide (d = i)) as [->|Hne].
    + exists a, n. rewrite list_lookup_insert_ne by lia.
      rewrite list_lookup_insert_eq by lia. auto.
    + destruct (Hd d) as (a' & n' & Ha' & Hn' & Hd'); [lia|].
      exists a', n'. rewrite !list_lookup_insert_ne by lia. auto.
  - exists st. replace (1 + (D - 1))%nat with D in Hd by lia. auto.
Qed.

Lemma recount_run (s : GPUSPH) :
  let g := gdata s in
  let D := Z.to_nat (devices g) in
  let rank := Z.to_nat (mpi_rank g) in
  (0 < D)%nat → (D ≤ length (s_hPartsPerDevice g))%nat →
  (D ≤ length (s_hStartPerDevice g))%nat →
  0 ≤ mpi_rank g → (rank < length (processParticles g))%nat →
  (∀ w c l, length (allGatherUints w c l) = length l) →
  ∃ s1, recount s = (Ret (usum (internal_counts g)), s1)
        ∧ trace s1 = trace s
        ∧ (∀ d, (d < D)%nat →
             s_hPartsPerDevice (gdata s1) !! d = Some (getNumInternalParticles (world g) d))
        ∧ s_hStartPerDevice (gdata s1) !! 0%nat
          = Some (usum (take rank (processParticles (gdata s1))))
        ∧ (∀ d, (0 < d < D)%nat →
             ∃ a n, s_hStartPerDevice (gdata s1) !! (d - 1)%nat = Some a
                    ∧ s_hPartsPerDevice (gdata s1) !! (d - 1)%nat = Some n
                    ∧ s_hStartPerDevice (gdata s1) !! d = Some (wrap32 (a + n))).
Proof.
  intros g D rank H0 Hparts Hstart Hr Hpp Hgather.
  destruct (count_device_loop (world g) (s_hPartsPerDevice g) D Hparts)
    as (parts' & Hc & Hlen & Hcount).
  cbv [recount bind read upd ret lift_option when undefined].
  fold g. fold D. rewrite Hc.
  unfold index. destruct (decide (0 ≤ mpi_rank g)) as [_|]; [|lia]. cbv beta iota.
  fold rank. rewrite store_Some by exact Hpp. cbv beta iota.
  set (pc := usum (getNumInternalParticles (world g) <$> seq 0 D)).
  set (pp' := if MULTI_NODE g
              then allGatherUints (world g) pc (<[rank := pc]> (processParticles g))
              else <[rank := pc]> (processParticles g)).
  assert (length pp' = length (processParticles g)) as Hpp'.
  { unfold pp'. destruct (MULTI_NODE g); rewrite ?Hgather, length_insert; reflexivity. }
  destruct (add_prev_device_loop parts' (<[0%nat := usum (take rank pp')]> (s_hStartPerDevice g)) D)
    as (start' & Hd & Hlen' & Hz & Hstep); [lia|rewrite length_insert; lia|lia|].
  exists (set_gdata (set_s_hStartPerDevice start'
                       (set_processParticles pp' (set_s_hPartsPerDevice parts' g))) s).
  assert (for_loop rank 0 (add_prev_node pp') (<[0%nat := 0]> (s_hStartPerDevice g))
          = Some (<[0%nat := usum (take rank pp')]> (s_hStartPerDevice g))) as Hn
    by (apply add_prev_node_loop; lia).
  replace (D - 1)%nat with (Z.to_nat (devices g - 1)) in Hd by (unfold D; lia).
  split.
  - unfold pp' in *. clear Hpp'.
    destruct (MULTI_NODE g) eqn:HM; cbv beta iota; simpl; fold g;
      (rewrite store_Some by lia); cbv beta iota; fold rank; rewrite Hn; cbv beta iota;
      rewrite Hd; reflexivity.
  - split; [reflexivity|]. simpl. split; [exact Hcount|]. split.
    + rewrite Hz. rewrite list_lookup_insert_eq by lia. reflexivity.
    + exact Hstep.
Qed.

(** ** The reconciled total *)

(** The routine, case by case. *)
Lemma reconcile_total_run (s : GPUSPH) :
  reconcile_total s
  = let g := gdata s in
    let inlet_outlet := has_simflag (simparams g) ENABLE_INLET_OUTLET in
    if bool_decide (mpi_rank g = 0) || inlet_outlet then
      match for_loop (Z.to_nat (mpi_nodes g)) 0 (sum_nodes (processParticles g)) 0 with
      | None => (Undefined, s)
      | Some newSimulationTotal =>
          if ((newSimulationTotal <? totParticles g) && inlet_outlet)
             || ((totParticles g <? newSimulationTotal) && inlet_outlet)
          then (Ret tt, set_gdata (set_totParticles newSimulationTotal g) s)
          else if bool_decide (newSimulationTotal ≠ totParticles g)
                  && bool_decide (mpi_rank g = 0)
          then
            if (totParticles g <? newSimulationTotal) || negb (no_leak_warning (clOptions g))
            then
              let s1 := add_trace [EvLog (LogCountChanged (iterations g) (totParticles g)
                                            newSimulationTotal)] s in
              if SINGLE_NODE g
              then bind (bind (doCommand DUMP [BUFFER_INFO; DBLBUFFER_READ] default_arg)
                           (λ _, rollCallParticles))
                     (λ _, upd (set_totParticles newSimulationTotal)) s1
              else (Ret tt, set_gdata (set_totParticles newSimulationTotal g) s1)
            else (Ret tt, set_gdata (set_totParticles newSimulationTotal g) s)
          else (Ret tt, s)
      end
    else (Ret tt, s).
Proof.
  unfold reconcile_total. unfold bind at 1. unfold read. cbv beta iota zeta.
  destruct (bool_decide (mpi_rank (gdata s) = 0) || _); [|reflexivity].
  unfold when at 1. unfold bind at 1.
  destruct (for_loop _ 0 _ 0) as [total|]; [|reflexivity].
  unfold lift_option, ret. cbv beta iota.
  destruct (_ && _ || _ && _); [reflexivity|].
  unfold when at 1. destruct (bool_decide _ && bool_decide _); [|reflexivity].
  unfold bind at 1. unfold when at 1.
  destruct (_ || negb _); [|reflexivity].
  unfold bind at 1. unfold log, emit. cbv beta iota. unfold when at 1.
  destruct (SINGLE_NODE _).
  - unfold bind at 2. reflexivity.
  - reflexivity.
Qed.

Lemma check_capacity_run (processCount : Z) (s : GPUSPH) :
  check_capacity processCount s
  = (Ret tt,
     if allocatedParticles (gdata s) <? processCount
     then set_gdata (set_quit_request true (gdata s))
            (add_trace [EvLog (LogCapacityExceeded (iterations (gdata s)) processCount
                                 (allocatedParticles (gdata s)))] s)
     else s).
Proof.
  cbv [check_capacity bind read when log emit upd ret].
  destruct (allocatedParticles (gdata s) <? processCount); reflexivity.
Qed.

(** What [reconcile_total] and [check_capacity] leave alone. *)
Lemma same_ranges_reconcile_total (s0 : GPUSPH) :
  hoare (same_ranges s0) reconcile_total (λ _, same_ranges s0) (λ _, same_ranges s0)
    (same_ranges s0).
Proof.
  intros s Hs. rewrite reconcile_total_run. cbv zeta.
  destruct (bool_decide (mpi_rank (gdata s) = 0) || _); [|exact Hs].
  destruct (for_loop _ 0 _ 0) as [total|]; [|exact Hs].
  destruct (_ && _ || _ && _); [exact Hs|].
  destruct (bool_decide _ && bool_decide _); [|exact Hs].
  destruct (_ || negb _); [|exact Hs].
  destruct (SINGLE_NODE _); [|exact Hs].
  unfold bind. rewrite doCommand_run.
  destruct (keep_going (apply_workers _)); [|exact Hs].
  unfold rollCallParticles. destruct (rollCallParticles_pure _ _ _ _); exact Hs.
Qed.

Lemma same_ranges_check_capacity (s0 : GPUSPH) (processCount : Z) :
  hoare (same_ranges s0) (check_capacity processCount) (λ _, same_ranges s0)
    (λ _, same_ranges s0) (same_ranges s0).
Proof.
  intros s Hs. rewrite check_capacity_run.
  destruct (allocatedParticles (gdata s) <? processCount); exact Hs.
Qed.

Lemma same_ranges_refl (s : GPUSPH) : same_ranges s s.
Proof. repeat split. Qed.

Lemma internal_counts_lookup (g : GlobalData) (d : nat) :
  (d < Z.to_nat (devices g))%nat →
  internal_counts g !! d = Some (getNumInternalParticles (world g) d).
Proof.
  intros Hd. unfold internal_counts. rewrite list_lookup_fmap, lookup_seq_lt by exact Hd.
  reflexivity.
Qed.

Lemma internal_counts_length (g : GlobalData) :
  length (internal_counts g) = Z.to_nat (devices g).
Proof. unfold internal_counts. rewrite length_fmap, length_seq. reflexivity. Qed.

Lemma zsum_take_le (l : list Z) (d : nat) :
  Forall (λ x, 0 ≤ x) l → zsum (take d l) ≤ zsum l.
Proof.
  intros H. rewrite <- (take_drop d l) at 2. rewrite zsum_app.
  pose proof (zsum_nonneg (drop d l) (Forall_drop _ _ _ H)). lia.
Qed.

(** Without wrap-around the offsets are the running sums of the counts. *)
Lemma offsets_running_sum (parts start counts : list Z) (D : nat) (first : Z) :
  length counts = D → Forall (λ x, 0 ≤ x) counts →
  0 ≤ first → first + zsum counts < 4294967296 →
  (∀ d, (d < D)%nat → parts !! d = counts !! d) →
  start !! 0%nat = Some first →
  (∀ d, (0 < d < D)%nat →
     ∃ a n, start !! (d - 1)%nat = Some a ∧ parts !! (d - 1)%nat = Some n
            ∧ start !! d = Some (wrap32 (a + n))) →
  ∀ d, (d < D)%nat → start !! d = Some (first + zsum (take d counts)).
Proof.
  intros Hlen Hpos Hf Hsum Hparts H0 Hstep d. induction d as [|d IH]; intros Hd.
  - rewrite H0, take_0. change (zsum []) with 0. f_equal. lia.
  - destruct (Hstep (S d)) as (a & n & Ha & Hn & Hs); [lia|].
    replace (S d - 1)%nat with d in * by lia.
    rewrite IH in Ha by lia. injection Ha as <-.
    rewrite Hparts in Hn by lia. rewrite (take_S_r _ _ _ Hn), zsum_snoc, Hs.
    f_equal. rewrite Z.add_assoc. apply wrap32_small.
    pose proof (zsum_take_le counts (S d) Hpos) as Hle.
    rewrite (take_S_r _ _ _ Hn), zsum_snoc in Hle.
    pose proof (zsum_nonneg (take d counts) (Forall_take _ _ _ Hpos)).
    apply (Forall_lookup_1 _ _ _ _ Hpos) in Hn. lia.
Qed.

(** C7. [updateArrayIndices] stores as the count of every local device
    what the worker of that device reports, whatever the array held
    before; the first offset is the sum of the totals of the previous
    nodes, and every further offset is the previous offset plus the
    previous count (in [uint] arithmetic); nothing after the recount
    touches them.  So, when the sums do not wrap around, the ranges of
    the devices follow each other in the order of the devices, from the
    offset of the node to that offset plus the number of particles of the
    node. *)
Theorem updateArrayIndices_recounts (s : GPUSPH) :
  let g := gdata s in
  let D := Z.to_nat (devices g) in
  let rank := Z.to_nat (mpi_rank g) in
  (0 < D)%nat → (D ≤ length (s_hPartsPerDevice g))%nat →
  (D ≤ length (s_hStartPerDevice g))%nat →
  0 ≤ mpi_rank g → (rank < length (processParticles g))%nat →
  (∀ w c l, length (allGatherUints w c l) = length l) →
  (∀ d, (d < D)%nat → 0 ≤ getNumInternalParticles (world g) d) →
  let g' := gdata (updateArrayIndices s).2 in
  let first := zsum (take rank (processParticles g')) in
  (∃ s1, recount s = (Ret (usum (internal_counts g)), s1)
         ∧ same_ranges s1 (updateArrayIndices s).2)
  ∧ (∀ d, (d < D)%nat →
       s_hPartsPerDevice g' !! d = Some (getNumInternalParticles (world g) d))
  ∧ s_hStartPerDevice g' !! 0%nat = Some (usum (take rank (processParticles g')))
  ∧ (∀ d, (0 < d < D)%nat →
       ∃ a n, s_hStartPerDevice g' !! (d - 1)%nat = Some a
              ∧ s_hPartsPerDevice g' !! (d - 1)%nat = Some n
              ∧ s_hStartPerDevice g' !! d = Some (wrap32 (a + n)))
  ∧ (Forall (λ x, 0 ≤ x) (take rank (processParticles g')) →
     first + zsum (internal_counts g) < 4294967296 →
     tiles (s_hPartsPerDevice g') (s_hStartPerDevice g') D
       first (first + zsum (internal_counts g))).
Proof.
  intros g D rank H0 Hparts Hstart Hr Hpp Hgather Hcount.
  destruct (recount_run s H0 Hparts Hstart Hr Hpp Hgather)
    as (s1 & Hrun & _ & Hp1 & Hz1 & Hs1).
  assert (same_ranges s1 (updateArrayIndices s).2) as Hsame.
  { unfold updateArrayIndices. rewrite (bind_run _ _ _ _ _ Hrun).
    apply (hoare_snd (same_ranges s1) (same_ranges s1)); [|apply same_ranges_refl].
    apply (hoare_bind _ (λ _, same_ranges s1));
      [apply same_ranges_reconcile_total|intros _; apply same_ranges_check_capacity]. }
  intros g' first. destruct Hsame as (Ep & Es & Epp).
  fold g' in Ep, Es, Epp. unfold first. rewrite Ep, Es, Epp.
  split; [exists s1; split; [exact Hrun|]; repeat split; assumption|].
  split; [exact Hp1|]. split; [exact Hz1|]. split; [exact Hs1|].
  intros Hpos Hsum.
  assert (Forall (λ x, 0 ≤ x) (internal_counts g)) as Hcpos.
  { apply Forall_lookup_2. intros d x Hx.
    assert (d < D)%nat as Hd.
    { apply lookup_lt_Some in Hx. rewrite internal_counts_length in Hx. exact Hx. }
    rewrite (internal_counts_lookup g d Hd) in Hx. injection Hx as <-. apply Hcount, Hd. }
  pose proof (zsum_nonneg _ Hpos) as Hfirst. pose proof (zsum_nonneg _ Hcpos) as Hcs.
  change (s_hStartPerDevice (gdata s1) !! 0%nat
          = Some (usum (take rank (processParticles (gdata s1))))) in Hz1.
  rewrite (usum_zsum _ Hpos) in Hz1 by lia.
  assert (∀ d, (d < D)%nat →
            s_hStartPerDevice (gdata s1) !! d
            = Some (zsum (take rank (processParticles (gdata s1)))
                    + zsum (take d (internal_counts g)))) as Hrun_sum.
  { apply (offsets_running_sum (s_hPartsPerDevice (gdata s1)));
      [apply internal_counts_length|exact Hcpos|exact Hfirst|exact Hsum| |exact Hz1|exact Hs1].
    intros d Hd. rewrite (Hp1 d Hd), (internal_counts_lookup g d Hd). reflexivity. }
  split; [exact Hz1|]. intros d Hd.
  exists (zsum (take rank (processParticles (gdata s1))) + zsum (take d (internal_counts g))),
    (getNumInternalParticles (world g) d).
  split; [apply Hrun_sum, Hd|]. split; [apply Hp1, Hd|]. split; [apply Hcount, Hd|].
  pose proof (internal_counts_lookup g d Hd) as Hcd.
  destruct (decide (S d = D)) as [HD|HD].
  - rewrite <- (take_ge (internal_counts g) (S d)) at 2
      by (rewrite internal_counts_length; fold D; lia).
    rewrite (take_S_r _ _ _ Hcd), zsum_snoc. lia.
  - rewrite Hrun_sum by lia. rewrite (take_S_r _ _ _ Hcd), zsum_snoc. f_equal. lia.
Qed.

(** X17. The capacity check, once it is reached.  When the recount and
    the comparison of the totals of [updateArrayIndices] return, with a
    process count above the allocated capacity, the routine returns, its
    last action was to log the condition with the iteration, the count
    and the capacity, and the quit request is set, which makes the
    termination test of the iteration true. *)
Theorem capacity_exceeded_after_totals (s s1 s2 : GPUSPH) (processCount : Z) :
  recount s = (Ret processCount, s1) →
  reconcile_total s1 = (Ret tt, s2) →
  allocatedParticles (gdata s2) < processCount →
  ∃ s', updateArrayIndices s = (Ret tt, s')
        ∧ quit_request (gdata s') = true
        ∧ we_are_done (gdata s') = true
        ∧ trace s' = trace s2
                     ++ [EvLog (LogCapacityExceeded (iterations (gdata s2)) processCount
                                  (allocatedParticles (gdata s2)))].
Proof.
  intros Hr Ht Hc. unfold updateArrayIndices.
  rewrite (bind_run _ _ _ _ _ Hr), (bind_run _ _ _ _ _ Ht), check_capacity_run.
  apply Z.ltb_lt in Hc. rewrite Hc. eexists. split; [reflexivity|].
  split; [reflexivity|]. split; [|reflexivity].
  unfold we_are_done. cbn [gdata set_gdata add_trace quit_request set_quit_request].
  apply orb_true_r.
Qed.

(** C9, as the code has it.  On the node of rank 0 and without open boundaries, a
    reconciled total that differs from the stored one is reported by a
    warning unless it decreased and leak warnings are off; when it is
    reported on a single node, the particle data is dumped and the roll
    call made; and whenever the routine returns, the stored total is the
    reconciled one, in either direction.  Nothing else is written to the
    shared state by the host. *)
Theorem count_drift_is_reported (s : GPUSPH) (total : Z) :
  let g := gdata s in
  let warn := (totParticles g <? total) || negb (no_leak_warning (clOptions g)) in
  let s1 := add_trace [EvLog (LogCountChanged (iterations g) (totParticles g) total)] s in
  mpi_rank g = 0 →
  has_simflag (simparams g) ENABLE_INLET_OUTLET = false →
  new_total g = Some total → total ≠ totParticles g →
  ∃ r s', reconcile_total s = (r, s')
    ∧ (r = Ret tt → totParticles (gdata s') = total)
    ∧ (warn = true →
       logged_since s s' (LogCountChanged (iterations g) (totParticles g) total))
    ∧ (warn = false → r = Ret tt ∧ s' = set_gdata (set_totParticles total g) s)
    ∧ (warn = true → SINGLE_NODE g = false →
       r = Ret tt ∧ s' = set_gdata (set_totParticles total g) s1)
    ∧ (warn = true → SINGLE_NODE g = true →
       match doCommand DUMP [BUFFER_INFO; DBLBUFFER_READ] default_arg s1 with
       | (Ret _, s2) =>
           match rollCallParticles s2 with
           | (Ret _, s3) =>
               r = Ret tt ∧ s' = set_gdata (set_totParticles total (gdata s3)) s3
           | (r3, s3) => r = r3 ∧ s' = s3
           end
       | (r2, s2) => r = r2 ∧ s' = s2
       end).
Proof.
  intros g warn s1 Hrank Hio Hsum Hne.
  rewrite reconcile_total_run. cbv zeta. fold g. unfold new_total in Hsum.
  rewrite Hsum, Hio, !andb_false_r, orb_false_r, Hrank.
  rewrite (bool_decide_eq_true_2 _ Hne), (bool_decide_eq_true_2 (0 = 0) eq_refl).
  cbn [orb andb]. fold warn. fold s1. destruct warn eqn:Hw.
  - destruct (SINGLE_NODE g) eqn:Hsn.
    + unfold bind.
      assert (trace s1 `prefix_of`
                trace (doCommand DUMP [BUFFER_INFO; DBLBUFFER_READ] default_arg s1).2) as Hp.
      { rewrite doCommand_run. cbn [snd trace add_trace set_gdata]. eexists. reflexivity. }
      destruct (doCommand DUMP [BUFFER_INFO; DBLBUFFER_READ] default_arg s1) as [[[]|e|] s2].
      * assert (trace s2 `prefix_of` trace (rollCallParticles s2).2) as Hp2.
        { unfold rollCallParticles. destruct (rollCallParticles_pure _ _ _ _);
            cbn [snd trace add_trace set_rollcall]; [eexists; reflexivity|reflexivity]. }
        cbn [snd] in Hp.
        assert (logged_since s s2 (LogCountChanged (iterations g) (totParticles g) total))
          as (tr & Htr & Hin).
        { destruct Hp as [k Hk]. exists ([EvLog (LogCountChanged (iterations g) (totParticles g)
                                                  total)] ++ k).
          split; [rewrite Hk; unfold s1; cbn [trace add_trace]; rewrite <- app_assoc;
                  reflexivity|].
          apply elem_of_app. left. constructor. }
        destruct (rollCallParticles s2) as [[[]|e|] s3]; cbn [snd] in Hp2;
          destruct Hp2 as [k2 Hk2]; eexists _, _; (split; [reflexivity|]);
          (split; [intros; try discriminate; reflexivity|]);
          (split; [intros _; exists (tr ++ k2);
                   split; [cbn [trace set_gdata upd snd]; rewrite Hk2, Htr, <- app_assoc;
                           reflexivity
                          |apply elem_of_app; left; exact Hin]|]);
          (split; [discriminate|]); (split; [discriminate|]);
          intros _ _; split; reflexivity.
      * cbn [snd] in Hp. destruct Hp as [k Hk]. eexists _, _. split; [reflexivity|].
        split; [discriminate|]. split.
        { intros _. exists ([EvLog (LogCountChanged (iterations g) (totParticles g) total)]
                              ++ k).
          split; [rewrite Hk; unfold s1; cbn [trace add_trace]; rewrite <- app_assoc;
                  reflexivity|].
          apply elem_of_app. left. constructor. }
        split; [discriminate|]. split; [discriminate|]. intros _ _. split; reflexivity.
      * cbn [snd] in Hp. destruct Hp as [k Hk]. eexists _, _. split; [reflexivity|].
        split; [discriminate|]. split.
        { intros _. exists ([EvLog (LogCountChanged (iterations g) (totParticles g) total)]
                              ++ k).
          split; [rewrite Hk; unfold s1; cbn [trace add_trace]; rewrite <- app_assoc;
                  reflexivity|].
          apply elem_of_app. left. constructor. }
        split; [discriminate|]. split; [discriminate|]. intros _ _. split; reflexivity.
    + eexists _, _. split; [reflexivity|]. split; [reflexivity|]. split.
      { intros _. eexists. split; [reflexivity|]. constructor. }
      split; [discriminate|]. split; [intros _ _; split; reflexivity|discriminate].
  - eexists _, _. split; [reflexivity|]. split; [reflexivity|].
    split; [discriminate|]. split; [intros _; split; reflexivity|].
    split; discriminate.
Qed.

(** ** The partitioner: counters, offsets, segments and the self-check *)

Lemma sort_details (g : GlobalData) :
  well_formed g →
  ∃ ks c (st : cursors * Z) st1 st2 (seg : list (list Z) * list log_msg) chk
    (cc : bool * list log_msg),
    particle_keys g = Some ks
    ∧ totParticles g = Z.of_nat (length ks)
    ∧ Forall (valid_key g) ks
    ∧ counts_of (λ k, Some (RANK k)) MAX_NODES_PER_CLUSTER ks (c_processParticles c)
    ∧ counts_of (local_device (mpi_rank g)) MAX_DEVICES_PER_NODE ks (c_hPartsPerDevice c)
    ∧ keys st.1 ≡ₚ ks
    ∧ sorted_by_bucket (keys st.1)
    ∧ keys_match (s_hDeviceMap g) (keys st.1) (bufs st.1)
    ∧ (if MULTI_NODE g
       then for_loop (Z.to_nat (mpi_rank g)) 0 (add_prev_node (c_processParticles c))
              (<[0%nat := 0]> (s_hStartPerDevice g))
       else Some (<[0%nat := 0]> (s_hStartPerDevice g))) = Some st1
    ∧ for_loop (Z.to_nat (devices g - 1)) 1 (add_prev_device (c_hPartsPerDevice c)) st1
      = Some st2
    ∧ for_loop (Z.to_nat (devices g)) 0 (init_segments (c_hPartsPerDevice c))
        (s_dSegmentsStart g, []) = Some seg
    ∧ check_particles (length ks) 0 (mpi_rank g) (s_hDeviceMap g) (bufs st.1)
        {| monotonic := true; hcount := replicate MAX_DEVICES_PER_NODE 0; check_log := [] |}
      = Some chk
    ∧ for_loop (Z.to_nat (devices g)) 0 (check_count (hcount chk) (c_hPartsPerDevice c))
        (true, check_log chk) = Some cc
    ∧ sortParticlesByHash_pure g
      = Some (set_s_hPartsPerDevice (c_hPartsPerDevice c)
                (set_processParticles (c_processParticles c)
                  (set_s_hStartPerDevice st2
                    (set_s_hBuffers (bufs st.1)
                      (set_s_dSegmentsStart seg.1 g)))),
              nswaps st.1,
              seg.2 ++ cc.2 ++ [if monotonic chk && cc.1 then LogArrayOK else LogArrayERROR]).
Proof.
  intros Hwf.
  destruct (well_formed_keys g Hwf) as (hashes & ks & Hg & Htot & Hf & Hv & Hpk).
  destruct Hwf as (Htot32 & _ & Hbufs & _ & HD & HD32 & Hdev & Hstart & Hseg & Hrank).
  assert (Forall (countable_key (mpi_rank g)) ks) as Hck.
  { eapply Forall_impl; [exact Hv|]. intros k (V1 & V2 & V3).
    split; [assumption|]. split; [lia|]. intros _. assumption. }
  assert (Forall (λ k, (bucket k ≤ Z.to_nat (wrap32 (totDevices g - 1)))%nat) ks) as Hrange.
  { eapply Forall_impl; [exact Hv|]. intros k (_ & _ & V3).
    rewrite wrap32_small by lia. unfold bucket. lia. }
  destruct (count_particles_spec (mpi_rank g) (s_hDeviceMap g) (s_hBuffers g) hashes ks)
    as (c & Hc & Hkeys & HR & HG & HL); [assumption|assumption|lia|assumption|].
  assert (keys_match (s_hDeviceMap g) ks (s_hBuffers g)) as Hm.
  { split; [eauto|]. rewrite <- (Nat2Z.id (length ks)), <- Htot. assumption. }
  assert (∀ b, (b < Z.to_nat (wrap32 (totDevices g - 1)))%nat →
               particlesPerGlobalDevice c !! b = Some (Z.of_nat (count_bucket b ks))) as Hcounts.
  { intros b Hb. apply (counts_of_bucket MAX_DEVICES_PER_CLUSTER); [assumption|].
    rewrite wrap32_small in Hb by lia. lia. }
  destruct (compact_spec (s_hDeviceMap g) ks (s_hBuffers g) (particlesPerGlobalDevice c)
              (totDevices g)) as (st & Hcompact & Hinv); [lia|assumption|assumption|].
  pose proof (outer_inv_sorted _ _ _ _ Hinv Hrange) as Hsorted.
  destruct Hinv as (_ & _ & Hperm & _ & _ & _ & Hm').
  pose proof (Permutation_length Hperm) as Hlen'.
  destruct (add_prev_node_total (c_processParticles c) (<[0%nat := 0]> (s_hStartPerDevice g))
              0 (Z.to_nat (mpi_rank g))) as (sn & Hsn & Hsnl).
  { rewrite length_insert. lia. }
  { destruct HR as [-> _]. lia. }
  rewrite length_insert in Hsnl.
  assert (∃ st1, (if MULTI_NODE g
                  then for_loop (Z.to_nat (mpi_rank g)) 0
                         (add_prev_node (c_processParticles c))
                         (<[0%nat := 0]> (s_hStartPerDevice g))
                  else Some (<[0%nat := 0]> (s_hStartPerDevice g))) = Some st1
                 ∧ length st1 = length (s_hStartPerDevice g)) as (st1 & Hst1 & Hst1l).
  { destruct (MULTI_NODE g); [eauto|]. eexists. split; [reflexivity|]. apply length_insert. }
  destruct (add_prev_device_total (c_hPartsPerDevice c) st1 (Z.to_nat (devices g - 1)))
    as (st2 & Hst2 & _).
  { lia. }
  { destruct HL as [-> _]. lia. }
  destruct (init_segments_total (c_hPartsPerDevice c) (s_dSegmentsStart g)
              (Z.to_nat (devices g))) as (seg & Hsegs).
  { destruct HL as [-> _]. lia. }
  { assumption. }
  destruct (check_particles_total (mpi_rank g) (s_hDeviceMap g) (keys st.1) (bufs st.1)
              (length ks) 0
              {| monotonic := true; hcount := replicate MAX_DEVICES_PER_NODE 0;
                 check_log := [] |}) as (chk & Hchk & Hchkl).
  { assumption. }
  { rewrite Hperm. assumption. }
  { apply length_replicate. }
  { lia. }
  destruct (check_count_total (hcount chk) (c_hPartsPerDevice c) (Z.to_nat (devices g))
              (true, check_log chk)) as (cc & Hcc).
  { lia. }
  { destruct HL as [-> _]. lia. }
  exists ks, c, st, st1, st2, seg, chk, cc.
  repeat (split; [assumption|]).
  unfold sortParticlesByHash_pure.
  rewrite Htot, Hc. simpl. rewrite store_Some by lia. simpl.
  rewrite Hst1. simpl. rewrite Hst2. simpl.
  rewrite Hkeys, Hcompact. simpl. rewrite Hsegs. simpl.
  rewrite Nat2Z.id, Hchk. simpl. rewrite Hcc. simpl.
  reflexivity.
Qed.

Lemma init_segments_loop (parts : list Z) (seg : list (list Z)) (n : nat → Z) (D : nat) :
  (D ≤ length seg)%nat →
  (∀ d, (d < D)%nat → parts !! d = Some (n d)) →
  ∃ r, for_loop D 0 (init_segments parts) (seg, []) = Some r
       ∧ r.2 = (λ d, LogDeviceParts d (n d)) <$> seq 0 D
       ∧ (∀ d, (d < D)%nat → r.1 !! d = Some (replicate 4 EMPTY_SEGMENT))
       ∧ (∀ d, (D ≤ d)%nat → r.1 !! d = seg !! d).
Proof.
  intros Hs Hp.
  destruct (for_loop_total
              (λ p (st : list (list Z) * list log_msg),
                 length st.1 = length seg
                 ∧ st.2 = (λ d, LogDeviceParts d (n d)) <$> seq 0 p
                 ∧ (∀ d, (d < p)%nat → st.1 !! d = Some (replicate 4 EMPTY_SEGMENT))
                 ∧ (∀ d, (p ≤ d)%nat → st.1 !! d = seg !! d))
              D 0 (init_segments parts) (seg, [])) as (r & Hr & _ & H2 & H3 & H4).
  - simpl. split; [reflexivity|]. split; [reflexivity|]. split; [intros; lia|auto].
  - intros i st Hi (Hlen & Hlog & Hlo & Hhi).
    exists (<[i := replicate 4 EMPTY_SEGMENT]> st.1, st.2 ++ [LogDeviceParts i (n i)]).
    split.
    { unfold init_segments. rewrite (Hp i) by lia. simpl.
      rewrite store_Some by lia. reflexivity. }
    cbn [fst snd].
    split; [rewrite length_insert; assumption|].
    split; [rewrite Hlog, seq_S, fmap_app; reflexivity|].
    split.
    + intros d Hd. destruct (decide (d = i)) as [->|Hne].
      * apply list_lookup_insert_eq. lia.
      * rewrite list_lookup_insert_ne by auto. apply Hlo. lia.
    + intros d Hd. rewrite list_lookup_insert_ne by lia. apply Hhi. lia.
  - exists r. auto.
Qed.

Lemma check_count_same (hc parts : list Z) (D : nat) (st : bool * list log_msg) :
  (∀ d, (d < D)%nat → ∃ x, hc !! d = Some x ∧ parts !! d = Some x) →
  for_loop D 0 (check_count hc parts) st = Some st.
Proof.
  intros H.
  destruct (for_loop_total (λ _ x, x = st) D 0 (check_count hc parts) st)
    as (r & Hr & ->); [reflexivity| |assumption].
  intros i x Hi ->. destruct (H i) as (v & Hv & Hw); [lia|].
  unfold check_count. rewrite Hv, Hw. simpl.
  destruct (decide (v ≠ v)); [contradiction|]. eauto.
Qed.

Lemma check_count_prefix (hc parts : list Z) (D p : nat) (st r : bool * list log_msg) :
  for_loop D p (check_count hc parts) st = Some r → st.2 `prefix_of` r.2.
Proof.
  revert p st. induction D as [|D IH]; intros p st H; simpl in H.
  - injection H as <-. reflexivity.
  - destruct (check_count hc parts p st) as [st'|] eqn:E; simpl in H; [|discriminate].
    transitivity st'.2; [|apply (IH _ _ H)].
    unfold check_count in E.
    destruct (hc !! p); simpl in E; [|discriminate].
    destruct (parts !! p); simpl in E; [|discriminate].
    destruct (decide (_ ≠ _)); injection E as <-; simpl; [|reflexivity].
    apply prefix_app_r. reflexivity.
Qed.

(** The self-check runs to the end of the array while the keys do not
    decrease, counting the particles of the node per device; at the
    first key below its predecessor it complains and stops. *)
Lemma check_particles_spec (mpi_rank : Z) (map ks : list devcount_t) (bl : BufferList)
    (m p : nat) (c : sort_check) :
  keys_match map ks bl →
  Forall (countable_key mpi_rank) ks →
  Z.of_nat (length ks) < 4294967296 →
  (p + m ≤ length ks)%nat →
  monotonic c = true →
  counts_of (local_device mpi_rank) MAX_DEVICES_PER_NODE (take p ks) (hcount c) →
  ∃ c', check_particles m p mpi_rank map bl c = Some c'
        ∧ ((monotonic c' = true ∧ check_log c' = check_log c
            ∧ counts_of (local_device mpi_rank) MAX_DEVICES_PER_NODE (take (p + m) ks)
                (hcount c')
            ∧ ∀ q a b, (p ≤ S q < p + m)%nat → ks !! q = Some a → ks !! S q = Some b →
                       (a ≤ b)%nat)
           ∨ (monotonic c' = false
              ∧ ∃ q a b, (p ≤ S q < p + m)%nat ∧ ks !! q = Some a ∧ ks !! S q = Some b
                         ∧ (b < a)%nat
                         ∧ check_log c' = check_log c ++ [LogSortNotMonotonic (S q) a b]
                         ∧ ∀ q' a' b', (p ≤ S q')%nat → (q' < q)%nat →
                             ks !! q' = Some a' → ks !! S q' = Some b' → (a' ≤ b')%nat)).
Proof.
  intros Hm Hvalid Hsmall. revert p c.
  induction m as [|m IH]; intros p c Hp Hmono Hcount; simpl.
  - eexists. split; [reflexivity|]. left. rewrite Nat.add_0_r.
    split; [assumption|]. split; [reflexivity|]. split; [assumption|]. intros; lia.
  - rewrite Hmono.
    destruct (lookup_lt_is_Some_2 ks p) as [k Hk]; [lia|].
    destruct (keys_match_hash _ _ _ _ _ Hm Hk) as (hashes & h & Hg & Hh & Hkey).
    pose proof Hvalid as Hv. rewrite Forall_lookup in Hv.
    destruct (Hv p k Hk) as (_ & _ & V3).
    assert (take (S p) ks = take p ks ++ [k]) as Htake by (apply take_S_r; assumption).
    assert (Z.of_nat (length (take p ks)) + 1 < 4294967296) as Hsm.
    { rewrite length_take. lia. }
    assert (∃ hc, (if decide (Z.of_nat (RANK k) = mpi_rank)
                   then incr (hcount c) (DEVICE k) else Some (hcount c)) = Some hc
                  ∧ counts_of (local_device mpi_rank) MAX_DEVICES_PER_NODE (take (S p) ks) hc)
      as (hc & Hhc & Hcount').
    { rewrite Htake. destruct (decide (Z.of_nat (RANK k) = mpi_rank)) as [Heq|Hne].
      - apply (counts_of_incr _ _ _ _ k (DEVICE k) Hcount); [|auto|assumption].
        unfold local_device.
        destruct (decide (Z.of_nat (RANK k) = mpi_rank)); [reflexivity|contradiction].
      - eexists. split; [reflexivity|]. apply counts_of_skip; [assumption|].
        unfold local_device.
        destruct (decide (Z.of_nat (RANK k) = mpi_rank)); [contradiction|reflexivity]. }
    unfold check_particle. rewrite Hg. simpl. rewrite Hh. simpl. rewrite Hkey. simpl.
    destruct p as [|p'].
    + simpl. rewrite Hhc. simpl.
      destruct (IH 1%nat {| monotonic := monotonic c; hcount := hc; check_log := check_log c |})
        as (c' & Hc' & Hres); [lia|assumption|assumption|].
      exists c'. split; [assumption|].
      destruct Hres as [(M1 & M2 & M3 & M4)|(M1 & q & a & b & Hq & M2 & M3 & M4 & M5 & M6)].
      * left. split; [assumption|]. split; [assumption|]. split; [assumption|].
        intros q a b Hq. apply M4. lia.
      * right. split; [assumption|]. exists q, a, b. split; [lia|].
        repeat (split; [assumption|]).
        intros q' a' b' _ Hq'. apply (M6 q'); lia.
    + destruct (lookup_lt_is_Some_2 ks p') as [k' Hk']; [lia|].
      destruct (keys_match_hash _ _ _ _ _ Hm Hk') as (hashes' & h' & Hg' & Hh' & Hkey').
      assert (hashes' = hashes) as -> by congruence.
      rewrite Hh'. simpl. rewrite Hkey'. simpl.
      destruct (decide (k < k')%nat) as [Hlt|Hge]; simpl; rewrite Hhc; simpl.
      * destruct m as [|m']; simpl; (eexists; split; [reflexivity|]); right;
          (split; [reflexivity|]); exists p', k', k; simpl;
          (split; [lia|]); repeat (split; [auto; lia|]); intros; lia.
      * destruct (IH (S (S p'))
                    {| monotonic := monotonic c; hcount := hc; check_log := check_log c |})
          as (c' & Hc' & Hres); [lia|assumption|assumption|].
        exists c'. split; [assumption|].
        destruct Hres as [(M1 & M2 & M3 & M4)|(M1 & q & a & b & Hq & M2 & M3 & M4 & M5 & M6)].
        -- left. split; [assumption|]. split; [assumption|].
           split.
           { replace (take _ ks) with (take (S (S p') + m) ks) by (f_equal; lia).
             assumption. }
           intros q a b Hq Ha Hb. destruct (decide (q = p')) as [->|Hne].
           ++ assert (a = k') as -> by congruence. assert (b = k) as -> by congruence. lia.
           ++ apply (M4 q); [lia|assumption|assumption].
        -- right. split; [assumption|]. exists q, a, b. split; [lia|].
           repeat (split; [assumption|]).
           intros q' a' b' Hp' Hq' Ha' Hb'. destruct (decide (q' = p')) as [->|Hne].
           ++ assert (a' = k') as -> by congruence. assert (b' = k) as -> by congruence. lia.
           ++ apply (M6 q'); [lia|assumption|assumption|assumption].
Qed.

Lemma valid_countable (g : GlobalData) (ks : list devcount_t) :
  totDevices g ≤ Z.of_nat MAX_DEVICES_PER_CLUSTER →
  Forall (valid_key g) ks → Forall (countable_key (mpi_rank g)) ks.
Proof.
  intros HD Hv. eapply Forall_impl; [exact Hv|]. intros k (V1 & V2 & V3).
  split; [assumption|]. split; [lia|]. intros _. assumption.
Qed.

Lemma particle_keys_in_map (g : GlobalData) (ks : list devcount_t) :
  particle_keys g = Some ks → Forall (λ k, k ∈ s_hDeviceMap g) ks.
Proof.
  unfold particle_keys. intros H.
  destruct (getData BUFFER_HASH (s_hBuffers g)) as [hashes|]; simpl in H; [|discriminate].
  apply mapM_Some in H.
  induction H as [|h k hs ks Hk _ IH]; constructor; [|assumption].
  unfold key_of in Hk. apply list_elem_of_lookup. eexists. eassumption.
Qed.

(** X1. On a well-formed input the self-check that ends
    [sortParticlesByHash] compares the keys of neighbouring particles of
    the array that the routine leaves, a permutation of the input, as
    numbers.  If they never decrease, the routine prints one line per
    device of the node and then the verdict OK, and no count is reported
    as wrong; otherwise it reports the first particle whose key is below
    its predecessor's, no pair before it decreasing, and the verdict is
    ERROR.  When, on the keys of the device map, the order of the keys
    agrees with the order of the linearized device numbers, the verdict
    is OK. *)
Theorem sortParticlesByHash_self_check (s : GPUSPH) :
  well_formed (gdata s) →
  ∃ s' ks ks' logs,
    sortParticlesByHash s = (Ret tt, s')
    ∧ particle_keys (gdata s) = Some ks
    ∧ particle_keys (gdata s') = Some ks'
    ∧ ks' ≡ₚ ks
    ∧ trace s' = trace s ++ (EvLog <$> logs)
    ∧ ((keys_nondecreasing ks'
        ∧ logs = device_lines (Z.to_nat (devices (gdata s))) (mpi_rank (gdata s)) ks'
                 ++ [LogArrayOK])
       ∨ (∃ q a b, first_decrease ks' q a b
                   ∧ LogSortNotMonotonic (S q) a b ∈ logs
                   ∧ last logs = Some LogArrayERROR))
    ∧ ((∀ a b, a ∈ s_hDeviceMap (gdata s) → b ∈ s_hDeviceMap (gdata s) →
               (GLOBAL_DEVICE_NUM a ≤ GLOBAL_DEVICE_NUM b)%nat → (a ≤ b)%nat) →
       last logs = Some LogArrayOK).
Proof.
  intros Hwf.
  destruct (sort_details (gdata s) Hwf)
    as (ks & c & st & st1 & st2 & seg & chk & cc & Hpk & Htot & Hv & HR & HL & Hperm
        & Hsorted & Hm' & Hst1 & Hst2 & Hseg & Hchk & Hcc & Hrun).
  destruct Hwf as (Htot32 & _ & _ & _ & HD & _ & Hdev & _ & Hsegl & _).
  pose proof (Permutation_length Hperm) as Hlen.
  assert (∀ d, (d < Z.to_nat (devices (gdata s)))%nat →
               c_hPartsPerDevice c !! d
               = Some (Z.of_nat (count_local (mpi_rank (gdata s)) d (keys st.1)))) as Hparts.
  { intros d Hd. rewrite (count_local_perm _ _ _ _ Hperm).
    apply (counts_of_local _ MAX_DEVICES_PER_NODE); [assumption|lia]. }
  destruct (init_segments_loop (c_hPartsPerDevice c) (s_dSegmentsStart (gdata s))
              (λ d, Z.of_nat (count_local (mpi_rank (gdata s)) d (keys st.1)))
              (Z.to_nat (devices (gdata s))) Hsegl Hparts) as (seg' & Hseg' & Hlines & _).
  assert (seg' = seg) as -> by congruence.
  destruct (check_particles_spec (mpi_rank (gdata s)) (s_hDeviceMap (gdata s)) (keys st.1)
              (bufs st.1) (length ks) 0
              {| monotonic := true; hcount := replicate MAX_DEVICES_PER_NODE 0;
                 check_log := [] |}) as (chk' & Hchk' & Hres).
  { assumption. }
  { rewrite Hperm. apply valid_countable; [lia|assumption]. }
  { lia. }
  { lia. }
  { reflexivity. }
  { apply counts_of_nil. }
  assert (chk' = chk) as -> by congruence.
  eexists _, ks, (keys st.1), _.
  split; [apply (sortParticlesByHash_run s _ _ _ Hrun)|].
  split; [exact Hpk|].
  split.
  { apply (keys_match_particle_keys (gdata s)); [assumption|reflexivity|].
    cbn [gdata add_trace set_gdata]. change (totParticles _) with (totParticles (gdata s)).
    rewrite Htot. f_equal. lia. }
  split; [exact Hperm|].
  split; [reflexivity|].
  destruct Hres as [(M1 & M2 & M3 & M4)
                   |(M1 & q & a & b & Hq & Ha & Hb & Hlt & M2 & Hfirst)].
  - simpl in M2. rewrite take_ge in M3 by lia.
    assert (cc = (true, [])) as ->.
    { rewrite M2 in Hcc. rewrite check_count_same in Hcc; [congruence|].
      intros d Hd. eexists. split; [|apply Hparts; assumption].
      apply (counts_of_local _ MAX_DEVICES_PER_NODE); [assumption|lia]. }
    rewrite M1, Hlines. simpl.
    split; [|intros _; apply last_snoc].
    left. split; [|reflexivity].
    intros q a b Ha Hb. apply (M4 q); [|assumption|assumption].
    apply lookup_lt_Some in Hb. lia.
  - rewrite M1. simpl. rewrite app_assoc.
    split.
    + right. exists q, a, b. split.
      { split; [assumption|]. split; [assumption|]. split; [assumption|].
        intros q' a' b' Hq'. apply (Hfirst q'); [lia|assumption]. }
      split; [|apply last_snoc].
      rewrite !elem_of_app. left. right.
      destruct (check_count_prefix _ _ _ _ _ _ Hcc) as [k ->]. simpl in M2. simpl.
      rewrite M2. rewrite elem_of_app. left. constructor.
    + intros Hord. exfalso.
      assert (bucket a ≤ bucket b)%nat as Hle by (apply (Hsorted q (S q)); [lia|assumption..]).
      pose proof (particle_keys_in_map _ _ Hpk) as Hin. rewrite <- Hperm in Hin.
      rewrite Forall_lookup in Hin.
      specialize (Hord a b (Hin _ _ Ha) (Hin _ _ Hb) Hle). lia.
Qed.

(** *** Sums of counters *)

Lemma filter_length_sum {A : Type} (P Q R : A → Prop)
    `{∀ x, Decision (P x)} `{∀ x, Decision (Q x)} `{∀ x, Decision (R x)} (l : list A) :
  Forall (λ x, (R x ↔ P x ∨ Q x) ∧ ¬ (P x ∧ Q x)) l →
  length (filter R l) = (length (filter P l) + length (filter Q l))%nat.
Proof using Type.
  induction 1 as [|x l [Hx Hd] _ IH]; [reflexivity|].
  rewrite !filter_cons.
  destruct (decide (R x)) as [r|r], (decide (P x)) as [p|p], (decide (Q x)) as [q|q];
    simpl; rewrite IH;
    first [lia
          |exfalso; apply Hd; split; assumption
          |exfalso; destruct (proj1 Hx r); contradiction
          |exfalso; apply r, Hx; auto].
Qed.

Lemma filter_length_ext {A : Type} (P Q : A → Prop)
    `{∀ x, Decision (P x)} `{∀ x, Decision (Q x)} (l : list A) :
  Forall (λ x, P x ↔ Q x) l → length (filter P l) = length (filter Q l).
Proof using Type.
  induction 1 as [|x l Hx _ IH]; [reflexivity|].
  rewrite !filter_cons.
  destruct (decide (P x)) as [p|p], (decide (Q x)) as [q|q]; simpl; rewrite IH;
    first [reflexivity
          |exfalso; apply q, Hx; assumption
          |exfalso; apply p, Hx; assumption].
Qed.

Lemma filter_length_disjoint {A : Type} (P Q : A → Prop)
    `{∀ x, Decision (P x)} `{∀ x, Decision (Q x)} (l : list A) :
  (∀ x, ¬ (P x ∧ Q x)) →
  (length (filter P l) + length (filter Q l) ≤ length l)%nat.
Proof using Type.
  intros Hd. rewrite <- (filter_length_sum P Q (λ x, P x ∨ Q x)).
  - apply length_filter.
  - apply Forall_true. intros x. split; [reflexivity|apply Hd].
Qed.

Lemma counts_of_nonneg (f : devcount_t → option nat) (N : nat) (ks : list devcount_t)
    (a : list Z) :
  counts_of f N ks a → Forall (λ x, 0 ≤ x) a.
Proof.
  intros [Hlen Hc]. apply Forall_lookup. intros i x Hi.
  rewrite Hc in Hi by (apply lookup_lt_Some in Hi; lia).
  injection Hi as <-. lia.
Qed.

(** The sum of the first [n] counters counts the keys of the first [n]
    classes. *)
Lemma counts_of_prefix (f : devcount_t → option nat) (N : nat) (ks : list devcount_t)
    (a : list Z) (P : nat → devcount_t → Prop) `{∀ n k, Decision (P n k)} :
  counts_of f N ks a →
  (∀ k, ¬ P 0%nat k) →
  (∀ n k, P (S n) k ↔ P n k ∨ f k = Some n) →
  (∀ n k, ¬ (P n k ∧ f k = Some n)) →
  ∀ n, (n ≤ N)%nat → zsum (take n a) = Z.of_nat (length (filter (P n) ks)).
Proof.
  intros [Hlen Hc] H0 HS Hd. induction n as [|n IH]; intros Hn.
  - rewrite take_0. change (zsum []) with 0.
    rewrite (filter_length_ext (P 0%nat) (λ _, False)).
    + clear. induction ks as [|k ks IHk]; [reflexivity|]. rewrite filter_cons. simpl. exact IHk.
    + apply Forall_true. intros k. split; [apply H0|contradiction].
  - rewrite (take_S_r a n _ (Hc n ltac:(lia))), zsum_snoc, IH by lia.
    rewrite (filter_length_sum (P n) (λ k, f k = Some n) (P (S n))); [lia|].
    apply Forall_true. intros k. split; [apply HS|apply Hd].
Qed.

Lemma sum_before_node (N : nat) (ks : list devcount_t) (a : list Z) (rank : Z) :
  counts_of (λ k, Some (RANK k)) N ks a → (Z.to_nat rank ≤ N)%nat →
  zsum (take (Z.to_nat rank) a) = Z.of_nat (count_before_node rank ks).
Proof.
  intros Hc Hr.
  rewrite (counts_of_prefix _ N ks a (λ n k, (RANK k < n)%nat)
             (H := ltac:(intros; cbv beta; apply _)) Hc); [| | | |assumption].
  - unfold count_before_node. f_equal. apply filter_length_ext, Forall_true. intros k. lia.
  - intros k. lia.
  - intros n k. split.
    + intros Hk. destruct (decide (RANK k = n)) as [->|]; [right; reflexivity|left; lia].
    + intros [Hk|[= <-]]; lia.
  - intros n k [Hk [= <-]]. lia.
Qed.

Lemma sum_before_device (N : nat) (ks : list devcount_t) (a : list Z) (rank : Z) (d : nat) :
  counts_of (local_device rank) N ks a → (d ≤ N)%nat →
  zsum (take d a) = Z.of_nat (count_before_device rank d ks).
Proof.
  intros Hc Hd.
  rewrite (counts_of_prefix _ N ks a
             (λ n k, Z.of_nat (RANK k) = rank ∧ (DEVICE k < n)%nat)
             (H := ltac:(intros; cbv beta; apply _)) Hc); [| | | |assumption].
  - unfold count_before_device. f_equal; apply filter_length_ext, Forall_true; tauto.
  - intros k. lia.
  - intros n k. unfold local_device.
    destruct (decide (Z.of_nat (RANK k) = rank)) as [Hr|Hr].
    + split.
      * intros [_ Hk]. destruct (decide (DEVICE k = n)) as [->|]; [right; reflexivity|].
        left. split; [assumption|lia].
      * intros [[_ Hk]|[= <-]]; (split; [assumption|lia]).
    + split; [intros [? _]; contradiction|intros [[? _]|?]; [contradiction|discriminate]].
  - intros n k [[Hr Hk] Hf]. unfold local_device in Hf.
    destruct (decide (Z.of_nat (RANK k) = rank)); [|discriminate].
    injection Hf as <-. lia.
Qed.

Lemma count_before_disjoint (rank : Z) (d : nat) (ks : list devcount_t) :
  (count_before_node rank ks + count_before_device rank d ks ≤ length ks)%nat.
Proof. apply filter_length_disjoint. intros k. lia. Qed.

Lemma count_before_node_perm (rank : Z) (l1 l2 : list devcount_t) :
  l1 ≡ₚ l2 → count_before_node rank l1 = count_before_node rank l2.
Proof. intros H. unfold count_before_node. rewrite H. reflexivity. Qed.

Lemma count_before_device_perm (rank : Z) (d : nat) (l1 l2 : list devcount_t) :
  l1 ≡ₚ l2 → count_before_device rank d l1 = count_before_device rank d l2.
Proof. intros H. unfold count_before_device. rewrite H. reflexivity. Qed.

Lemma count_node_perm (n : nat) (l1 l2 : list devcount_t) :
  l1 ≡ₚ l2 → count_node n l1 = count_node n l2.
Proof. intros H. unfold count_node. rewrite H. reflexivity. Qed.

(** The offsets that the sort leaves, without wrap-around. *)
Lemma sort_offsets (g : GlobalData) (ks : list devcount_t) (pp pd st1 st2 : list Z) :
  0 ≤ totParticles g < 4294967296 →
  totParticles g = Z.of_nat (length ks) →
  1 ≤ devices g ≤ Z.of_nat MAX_DEVICES_PER_NODE →
  (Z.to_nat (devices g) ≤ length (s_hStartPerDevice g))%nat →
  mpi_rank g ≤ Z.of_nat MAX_NODES_PER_CLUSTER →
  counts_of (λ k, Some (RANK k)) MAX_NODES_PER_CLUSTER ks pp →
  counts_of (local_device (mpi_rank g)) MAX_DEVICES_PER_NODE ks pd →
  (if MULTI_NODE g
   then for_loop (Z.to_nat (mpi_rank g)) 0 (add_prev_node pp)
          (<[0%nat := 0]> (s_hStartPerDevice g))
   else Some (<[0%nat := 0]> (s_hStartPerDevice g))) = Some st1 →
  for_loop (Z.to_nat (devices g - 1)) 1 (add_prev_device pd) st1 = Some st2 →
  ∀ d, (d < Z.to_nat (devices g))%nat →
    st2 !! d
    = Some (Z.of_nat ((if MULTI_NODE g then count_before_node (mpi_rank g) ks else 0)
                      + count_before_device (mpi_rank g) d ks)).
Proof.
  intros Htot32 Htot Hdev Hstart Hrank HR HL Hst1 Hst2.
  set (first := (if MULTI_NODE g then count_before_node (mpi_rank g) ks else 0)%nat).
  assert (st1 = <[0%nat := Z.of_nat first]> (s_hStartPerDevice g)) as ->.
  { unfold first. destruct (MULTI_NODE g).
    - rewrite add_prev_node_loop in Hst1.
      + injection Hst1 as <-. f_equal.
        rewrite usum_zsum.
        * apply sum_before_node with (N := MAX_NODES_PER_CLUSTER); [assumption|lia].
        * apply Forall_take. eapply counts_of_nonneg. eassumption.
        * rewrite (sum_before_node MAX_NODES_PER_CLUSTER ks pp (mpi_rank g))
            by (assumption || lia).
          pose proof (length_filter (λ k, Z.of_nat (RANK k) < mpi_rank g) ks).
          unfold count_before_node. lia.
      + lia.
      + destruct HR as [-> _]. lia.
    - injection Hst1 as <-. reflexivity. }
  destruct (add_prev_device_loop pd (<[0%nat := Z.of_nat first]> (s_hStartPerDevice g))
              (Z.to_nat (devices g))) as (st' & Hst' & _ & H0 & Hrec).
  { lia. }
  { rewrite length_insert. assumption. }
  { destruct HL as [-> _]. lia. }
  replace (Z.to_nat (devices g) - 1)%nat with (Z.to_nat (devices g - 1)) in Hst' by lia.
  assert (st' = st2) as -> by congruence.
  rewrite list_lookup_insert_eq in H0 by lia.
  assert (first ≤ (if MULTI_NODE g then count_before_node (mpi_rank g) ks else 0))%nat
    as Hfirst by reflexivity.
  assert (∀ d, (first + count_before_device (mpi_rank g) d ks ≤ length ks)%nat) as Hle.
  { intros d. pose proof (count_before_disjoint (mpi_rank g) d ks).
    destruct (MULTI_NODE g); lia. }
  intros d Hd.
  rewrite (offsets_running_sum pd st2 (take (Z.to_nat (devices g)) pd)
             (Z.to_nat (devices g)) (Z.of_nat first)); try assumption.
  - rewrite take_take, Nat.min_l by lia.
    rewrite (sum_before_device MAX_DEVICES_PER_NODE ks pd (mpi_rank g)) by (assumption || lia).
    f_equal. lia.
  - rewrite length_take. destruct HL as [-> _]. lia.
  - apply Forall_take. eapply counts_of_nonneg. eassumption.
  - lia.
  - rewrite (sum_before_device MAX_DEVICES_PER_NODE ks pd (mpi_rank g)) by (assumption || lia).
    specialize (Hle (Z.to_nat (devices g))). lia.
  - intros i Hi. rewrite lookup_take_lt by assumption. reflexivity.
Qed.

(** X2. On a well-formed input [sortParticlesByHash] leaves in
    [processParticles[n]] the number of particles of the input that the
    device map gives to node [n], and in [s_hStartPerDevice[d]], for
    every device [d] of the node, the number of particles of the input
    that belong to the nodes before this one (none in single-node mode)
    plus the number of those that belong to the devices of this node
    before [d]: no offset wraps around.  The array it leaves is a
    permutation of the input, so that the same counts hold of it. *)
Theorem sortParticlesByHash_offsets (s : GPUSPH) :
  well_formed (gdata s) →
  ∃ s' ks ks',
    sortParticlesByHash s = (Ret tt, s')
    ∧ particle_keys (gdata s) = Some ks
    ∧ particle_keys (gdata s') = Some ks'
    ∧ ks' ≡ₚ ks
    ∧ (∀ n, (n < MAX_NODES_PER_CLUSTER)%nat →
         processParticles (gdata s') !! n = Some (Z.of_nat (count_node n ks)))
    ∧ (∀ d, (d < Z.to_nat (devices (gdata s)))%nat →
         s_hStartPerDevice (gdata s') !! d
         = Some (Z.of_nat ((if MULTI_NODE (gdata s)
                            then count_before_node (mpi_rank (gdata s)) ks else 0)
                           + count_before_device (mpi_rank (gdata s)) d ks))).
Proof.
  intros Hwf.
  destruct (sort_details (gdata s) Hwf)
    as (ks & c & st & st1 & st2 & seg & chk & cc & Hpk & Htot & Hv & HR & HL & Hperm
        & Hsorted & Hm' & Hst1 & Hst2 & Hseg & Hchk & Hcc & Hrun).
  destruct Hwf as (Htot32 & _ & _ & _ & HD & _ & Hdev & Hstart & Hsegl & Hrank).
  pose proof (Permutation_length Hperm) as Hlen.
  eexists _, ks, (keys st.1).
  split; [apply (sortParticlesByHash_run s _ _ _ Hrun)|].
  split; [exact Hpk|].
  split.
  { apply (keys_match_particle_keys (gdata s)); [assumption|reflexivity|].
    cbn [gdata add_trace set_gdata]. change (totParticles _) with (totParticles (gdata s)).
    rewrite Htot. f_equal. lia. }
  split; [exact Hperm|].
  cbn [gdata add_trace set_gdata]. split.
  - intros n Hn.
    change (processParticles _) with (c_processParticles c).
    destruct HR as [_ HR]. rewrite (HR n Hn). unfold count_node. do 3 f_equal.
    apply list_filter_iff. intros k. split; [intros [= ?]; assumption|intros ->; reflexivity].
  - intros d Hd. change (s_hStartPerDevice _) with st2.
    apply (sort_offsets (gdata s) ks (c_processParticles c) (c_hPartsPerDevice c) st1);
      assumption.
Qed.

Lemma count_before_node_0 (rank : Z) (ks : list devcount_t) :
  rank ≤ 0 → count_before_node rank ks = 0%nat.
Proof.
  intros Hr. unfold count_before_node.
  induction ks as [|k ks IH]; [reflexivity|].
  rewrite filter_cons. destruct (decide (Z.of_nat (RANK k) < rank)); [lia|assumption].
Qed.

Lemma count_local_none (rank : Z) (d : nat) (ks : list devcount_t) :
  rank < 0 → count_local rank d ks = 0%nat.
Proof.
  intros Hr. unfold count_local.
  induction ks as [|k ks IH]; [reflexivity|].
  rewrite filter_cons.
  destruct (decide (Z.of_nat (RANK k) = rank ∧ DEVICE k = d)); [lia|assumption].
Qed.

Lemma linear_key (a b R d M : nat) :
  (b < M)%nat → (d < M)%nat → (a * M + b = R * M + d)%nat → a = R ∧ b = d.
Proof.
  intros Hb Hd H. destruct (lt_eq_lt_dec a R) as [[Hlt|Heq]|Hgt].
  - assert (S a * M ≤ R * M)%nat by (apply Nat.mul_le_mono_r; lia). simpl in *. lia.
  - subst a. lia.
  - assert (S R * M ≤ a * M)%nat by (apply Nat.mul_le_mono_r; lia). simpl in *. lia.
Qed.

Lemma linear_lt (a b R d M : nat) :
  (b < M)%nat → (d ≤ M)%nat →
  (a * M + b < R * M + d)%nat ↔ (a < R)%nat ∨ (a = R ∧ (b < d)%nat).
Proof.
  intros Hb Hd. destruct (lt_eq_lt_dec a R) as [[Hlt|Heq]|Hgt].
  - assert (S a * M ≤ R * M)%nat by (apply Nat.mul_le_mono_r; lia). simpl in *. lia.
  - subst a. lia.
  - assert (S R * M ≤ a * M)%nat by (apply Nat.mul_le_mono_r; lia). simpl in *. lia.
Qed.

(** With linearized device numbers, the particles before the range of
    device [d] of node [rank] are those of the nodes before and those of
    the devices of the node before [d]. *)
Lemma below_linearized (M : nat) (ks : list devcount_t) (rank : Z) (d : nat) :
  linearized M → Forall (λ k, (DEVICE k < M)%nat) ks → 0 ≤ rank →
  (d ≤ M)%nat →
  below (Z.to_nat rank * M + d) ks
  = (count_before_node rank ks + count_before_device rank d ks)%nat.
Proof.
  intros Hlin Hv Hr Hd. unfold below, count_before_node, count_before_device.
  apply filter_length_sum. eapply Forall_impl; [exact Hv|].
  intros k V2. cbv beta in V2. split; [|lia].
  unfold bucket. rewrite Hlin. rewrite linear_lt by assumption. lia.
Qed.

Lemma count_bucket_linearized (M : nat) (ks : list devcount_t) (rank : Z) (d : nat) :
  linearized M → Forall (λ k, (DEVICE k < M)%nat) ks → 0 ≤ rank →
  (d < M)%nat →
  count_bucket (Z.to_nat rank * M + d) ks = count_local rank d ks.
Proof.
  intros Hlin Hv Hr Hd. unfold count_bucket, count_local.
  apply filter_length_ext. eapply Forall_impl; [exact Hv|].
  intros k V2. cbv beta in V2. unfold bucket. rewrite Hlin. split.
  - intros H. apply linear_key in H as [-> ->]; [lia|assumption|assumption].
  - intros [H ->]. f_equal. lia.
Qed.

(** X3. When the linearized device number is the dense index of the
    device in the run, the number of the node times the number of
    devices per node plus the number of the device on its node, and the
    device map names only devices below the number of devices per node:
    on a well-formed input, after [sortParticlesByHash], which permutes
    the array, the range
    [s_hStartPerDevice[d] .. s_hStartPerDevice[d] + s_hPartsPerDevice[d])
    of every device [d] of the node holds exactly the particles that the
    device map gives to that device: a particle lies in the range if and
    only if its key names this node and device [d]. *)
Theorem sortParticlesByHash_slices (s : GPUSPH) :
  linearized (Z.to_nat (devices (gdata s))) →
  Forall (λ k, (DEVICE k < Z.to_nat (devices (gdata s)))%nat) (s_hDeviceMap (gdata s)) →
  well_formed (gdata s) →
  MULTI_NODE (gdata s) = true ∨ mpi_rank (gdata s) = 0 →
  ∃ s' ks ks',
    sortParticlesByHash s = (Ret tt, s')
    ∧ particle_keys (gdata s) = Some ks
    ∧ particle_keys (gdata s') = Some ks'
    ∧ ks' ≡ₚ ks
    ∧ ∀ d i k, (d < Z.to_nat (devices (gdata s)))%nat → ks' !! i = Some k →
        ∃ a n, s_hStartPerDevice (gdata s') !! d = Some a
               ∧ s_hPartsPerDevice (gdata s') !! d = Some n
               ∧ n = Z.of_nat (count_local (mpi_rank (gdata s)) d ks)
               ∧ (a ≤ Z.of_nat i < a + n
                  ↔ Z.of_nat (RANK k) = mpi_rank (gdata s) ∧ DEVICE k = d).
Proof.
  intros Hlin Hmap Hwf Hmode.
  destruct (sort_details (gdata s) Hwf)
    as (ks & c & st & st1 & st2 & seg & chk & cc & Hpk & Htot & Hv & HR & HL & Hperm
        & Hsorted & Hm' & Hst1 & Hst2 & Hseg & Hchk & Hcc & Hrun).
  destruct Hwf as (Htot32 & _ & _ & _ & HD & _ & Hdev & Hstart & Hsegl & Hrank).
  pose proof (Permutation_length Hperm) as Hlen.
  eexists _, ks, (keys st.1).
  split; [apply (sortParticlesByHash_run s _ _ _ Hrun)|].
  split; [exact Hpk|].
  split.
  { apply (keys_match_particle_keys (gdata s)); [assumption|reflexivity|].
    cbn [gdata add_trace set_gdata]. change (totParticles _) with (totParticles (gdata s)).
    rewrite Htot. f_equal. lia. }
  split; [exact Hperm|].
  cbn [gdata add_trace set_gdata].
  intros d i k Hd Hk.
  change (s_hStartPerDevice _) with st2.
  change (s_hPartsPerDevice _) with (c_hPartsPerDevice c).
  set (g := gdata s) in *.
  set (M := Z.to_nat (devices g)) in *.
  assert (Forall (λ k, (DEVICE k < M)%nat) (keys st.1)) as Hv'.
  { rewrite Hperm. pose proof (particle_keys_in_map _ _ Hpk) as Hin.
    rewrite Forall_forall in Hmap. eapply Forall_impl; [exact Hin|].
    intros x Hx. apply Hmap. exact Hx. }
  eexists _, _.
  split; [apply (sort_offsets g ks (c_processParticles c) (c_hPartsPerDevice c) st1);
          assumption|].
  split; [apply (counts_of_local (mpi_rank g) MAX_DEVICES_PER_NODE ks); [assumption|lia]|].
  split; [reflexivity|].
  rewrite <- (count_before_node_perm (mpi_rank g) _ _ Hperm),
    <- (count_before_device_perm (mpi_rank g) d _ _ Hperm),
    <- (count_local_perm (mpi_rank g) d _ _ Hperm).
  assert ((if MULTI_NODE g then count_before_node (mpi_rank g) (keys st.1) else 0%nat)
          = count_before_node (mpi_rank g) (keys st.1)) as ->.
  { destruct Hmode as [->| ->]; [reflexivity|].
    rewrite count_before_node_0 by lia. destruct (MULTI_NODE g); reflexivity. }
  destruct (decide (mpi_rank g < 0)) as [Hneg|Hpos].
  { rewrite count_local_none by assumption. split; lia. }
  assert (0 ≤ mpi_rank g) as Hr by lia.
  set (c0 := (Z.to_nat (mpi_rank g) * M + d)%nat).
  rewrite <- (below_linearized M (keys st.1) (mpi_rank g) d) by (assumption || lia).
  rewrite <- (count_bucket_linearized M (keys st.1) (mpi_rank g) d) by (assumption || lia).
  fold c0.
  pose proof (below_S c0 (keys st.1)) as HS.
  pose proof (sorted_membership _ Hsorted i k Hk) as [M1 M2].
  rewrite Forall_lookup in Hv'. pose proof (Hv' i k Hk) as V2. cbv beta in V2.
  assert (bucket k = c0 ↔ Z.of_nat (RANK k) = mpi_rank g ∧ DEVICE k = d) as <-.
  { unfold bucket, c0. rewrite Hlin. split.
    - intros H. apply linear_key in H as [-> ->]; [lia|assumption|lia].
    - intros [H ->]. f_equal. lia. }
  split.
  - intros Hi.
    destruct (decide (bucket k < c0)%nat) as [Hlt|Hge].
    + pose proof (below_mono (S (bucket k)) c0 (keys st.1) ltac:(lia)). lia.
    + destruct (decide (c0 < bucket k)%nat) as [Hgt|]; [|lia].
      pose proof (below_mono (S c0) (bucket k) (keys st.1) ltac:(lia)). lia.
  - intros <-. lia.
Qed.

(** X4. On a well-formed input [sortParticlesByHash] resets the segments
    of every device of the node to [EMPTY_SEGMENT] and leaves the other
    rows of the segment table alone; it changes neither the number of
    particles nor the device map nor the liveness flag. *)
Theorem sortParticlesByHash_segments (s : GPUSPH) :
  well_formed (gdata s) →
  ∃ s',
    sortParticlesByHash s = (Ret tt, s')
    ∧ (∀ d, (d < Z.to_nat (devices (gdata s)))%nat →
         s_dSegmentsStart (gdata s') !! d = Some (replicate 4 EMPTY_SEGMENT))
    ∧ (∀ d, (Z.to_nat (devices (gdata s)) ≤ d)%nat →
         s_dSegmentsStart (gdata s') !! d = s_dSegmentsStart (gdata s) !! d)
    ∧ totParticles (gdata s') = totParticles (gdata s)
    ∧ s_hDeviceMap (gdata s') = s_hDeviceMap (gdata s)
    ∧ keep_going (gdata s') = keep_going (gdata s).
Proof.
  intros Hwf.
  destruct (sort_details (gdata s) Hwf)
    as (ks & c & st & st1 & st2 & seg & chk & cc & Hpk & Htot & Hv & HR & HL & Hperm
        & Hsorted & Hm' & Hst1 & Hst2 & Hseg & Hchk & Hcc & Hrun).
  destruct Hwf as (Htot32 & _ & _ & _ & HD & _ & Hdev & Hstart & Hsegl & Hrank).
  assert (∀ d, (d < Z.to_nat (devices (gdata s)))%nat →
               c_hPartsPerDevice c !! d
               = Some (Z.of_nat (count_local (mpi_rank (gdata s)) d ks))) as Hparts.
  { intros d Hd. apply (counts_of_local _ MAX_DEVICES_PER_NODE); [assumption|lia]. }
  destruct (init_segments_loop (c_hPartsPerDevice c) (s_dSegmentsStart (gdata s))
              (λ d, Z.of_nat (count_local (mpi_rank (gdata s)) d ks))
              (Z.to_nat (devices (gdata s))) Hsegl Hparts) as (seg' & Hseg' & _ & Hlo & Hhi).
  assert (seg' = seg) as -> by congruence.
  eexists. split; [apply (sortParticlesByHash_run s _ _ _ Hrun)|].
  cbn [gdata add_trace set_gdata].
  split; [exact Hlo|]. split; [exact Hhi|]. split; [reflexivity|]. split; reflexivity.
Qed.

(** ** The reconciled total with open boundaries, and on the other nodes *)

Lemma sum_nodes_loop (pp : list Z) (N : nat) :
  (N ≤ length pp)%nat → for_loop N 0 (sum_nodes pp) 0 = Some (usum (take N pp)).
Proof.
  intros HN.
  destruct (for_loop_total (λ p acc, acc = usum (take p pp)) N 0 (sum_nodes pp) 0)
    as (r & Hr & ->); [reflexivity| |exact Hr].
  intros i acc Hi ->. destruct (lookup_lt_is_Some_2 pp i) as [x Hx]; [lia|].
  unfold sum_nodes. rewrite Hx. simpl. eexists. split; [reflexivity|].
  rewrite (take_S_r _ _ _ Hx), usum_snoc. reflexivity.
Qed.

Lemma set_totParticles_same (g : GlobalData) : set_totParticles (totParticles g) g = g.
Proof. destruct g. reflexivity. Qed.

Lemma set_gdata_same (s : GPUSPH) : set_gdata (gdata s) s = s.
Proof. destruct s. reflexivity. Qed.

(** X5. With open boundaries (inlets or outlets), on every node,
    [updateArrayIndices] takes the sum of the node totals over as the
    new particle count without a warning, a dump or a roll call,
    whichever way it changed; without open boundaries, a node of rank
    other than 0 does not touch the count. *)
Theorem reconcile_total_open_boundaries (s : GPUSPH) :
  let g := gdata s in
  let total := usum (take (Z.to_nat (mpi_nodes g)) (processParticles g)) in
  (Z.to_nat (mpi_nodes g) ≤ length (processParticles g))%nat →
  (has_simflag (simparams g) ENABLE_INLET_OUTLET = true →
   reconcile_total s = (Ret tt, set_gdata (set_totParticles total g) s))
  ∧ (has_simflag (simparams g) ENABLE_INLET_OUTLET = false → mpi_rank g ≠ 0 →
     reconcile_total s = (Ret tt, s)).
Proof.
  intros g total Hlen. split.
  - intros Hio. rewrite reconcile_total_run. cbv zeta. fold g.
    rewrite Hio, orb_true_r, (sum_nodes_loop _ _ Hlen), !andb_true_r. fold total.
    destruct (total <? totParticles g) eqn:E1; [reflexivity|].
    destruct (totParticles g <? total) eqn:E2; [reflexivity|].
    assert (total = totParticles g) as -> by lia.
    cbn [orb]. rewrite bool_decide_eq_false_2 by (intros H; apply H; reflexivity).
    unfold g. rewrite set_totParticles_same, set_gdata_same. reflexivity.
  - intros Hio Hrank. rewrite reconcile_total_run. cbv zeta. fold g.
    rewrite Hio, (bool_decide_eq_false_2 _ Hrank). reflexivity.
Qed.

(** ** The dispatch protocol over a whole run *)

Lemma protocol_ok_app (tr tr' : list event) :
  protocol_ok tr → protocol_ok tr' → protocol_ok (tr ++ tr').
Proof.
  intros H H' i cmd flags arg alive Hi.
  destruct (decide (i < length tr)%nat) as [Hlt|Hge].
  - rewrite lookup_app_l in Hi by assumption.
    destruct (H _ _ _ _ _ Hi) as [H1 H2].
    rewrite !lookup_app_l by (eapply lookup_lt_Some; eassumption). auto.
  - rewrite lookup_app_r in Hi by lia.
    destruct (H' _ _ _ _ _ Hi) as [H1 H2].
    rewrite !lookup_app_r by lia.
    replace (S i - length tr)%nat with (S (i - length tr)) by lia.
    replace (S (S i) - length tr)%nat with (S (S (i - length tr))) by lia. auto.
Qed.

Lemma protocol_ok_quiet (tr : list event) : Forall no_post tr → protocol_ok tr.
Proof.
  intros H i cmd flags arg alive Hi. rewrite Forall_lookup in H.
  destruct (H i _ Hi).
Qed.

Lemma protocol_ok_round (cmd : CommandType) (flags : flag_t) (arg : float) (alive : bool)
    (tr : list event) :
  Forall no_post tr →
  protocol_ok ([EvPost cmd flags arg alive; EvBarrier cmd flags arg; EvBarrier cmd flags arg]
               ++ tr).
Proof.
  intros H i c f a al Hi. destruct i as [|i].
  - injection Hi as <- <- <- <-. split; reflexivity.
  - exfalso. do 2 (destruct i as [|i]; [discriminate|]).
    simpl in Hi. rewrite Forall_lookup in H. destruct (H i _ Hi).
Qed.

Lemma benign_no_post (e : event) : benign e → no_post e.
Proof. destruct e; simpl; auto. Qed.

Lemma protocol_inv_quiet (s s' : GPUSPH) (tr : list event) :
  trace s' = trace s ++ tr → Forall no_post tr → protocol_inv s → protocol_inv s'.
Proof.
  unfold protocol_inv. intros -> Hq H. apply protocol_ok_app; [exact H|].
  apply protocol_ok_quiet. exact Hq.
Qed.

Lemma protocol_inv_upd (f : GlobalData → GlobalData) (s : GPUSPH) :
  keeps f → protocol_inv s → protocol_inv (set_gdata (f (gdata s)) s).
Proof. intros _ H. exact H. Qed.

Lemma protocol_inv_emit (e : event) (s : GPUSPH) :
  benign e → protocol_inv s → protocol_inv (add_trace [e] s).
Proof.
  intros He. apply (protocol_inv_quiet s _ [e]); [reflexivity|].
  constructor; [apply benign_no_post; exact He|constructor].
Qed.

Lemma protocol_inv_quit (s : GPUSPH) :
  protocol_inv s → protocol_inv (set_gdata (set_quit_request true (gdata s)) s).
Proof. intros H. exact H. Qed.

Lemma protocol_inv_doCommand (cmd : CommandType) (flags : flag_t) (arg : float) :
  hoare protocol_inv (doCommand cmd flags arg) (λ _, protocol_inv) (λ _, protocol_inv)
    protocol_inv.
Proof.
  intros s Hs. rewrite doCommand_run.
  assert (protocol_inv
            (add_trace [EvPost cmd flags arg (keep_going (gdata s));
                        EvBarrier cmd flags arg; EvBarrier cmd flags arg]
               (set_gdata (apply_workers (apply_workers (posted cmd flags arg (gdata s)))) s)))
    as H.
  { unfold protocol_inv. cbn [trace add_trace set_gdata].
    apply protocol_ok_app; [exact Hs|].
    apply (protocol_ok_round cmd flags arg _ []). constructor. }
  destruct (keep_going (apply_workers _)); exact H.
Qed.

Lemma protocol_inv_rollCall :
  hoare protocol_inv rollCallParticles (λ _, protocol_inv) (λ _, protocol_inv) protocol_inv.
Proof.
  intros s Hs. unfold rollCallParticles.
  destruct (rollCallParticles_pure _ _ _ _) as [r|]; [|exact Hs].
  apply (protocol_inv_quiet s _ (EvLog <$> rc_log r)); [reflexivity| |exact Hs].
  apply Forall_fmap, Forall_true. intros m. exact Logic.I.
Qed.

Lemma protocol_inv_barrier :
  hoare protocol_inv barrier (λ _, protocol_inv) (λ _, protocol_inv) protocol_inv.
Proof.
  intros s Hs. rewrite barrier_run.
  apply (protocol_inv_quiet s _ [EvBarrier (nextCommand (gdata s)) (commandFlags (gdata s))
                                   (extraCommandArg (gdata s))]);
    [reflexivity| |exact Hs].
  repeat constructor.
Qed.

(** A command kind written directly into the shared state, with the two
    barriers that follow it. *)
Lemma protocol_inv_post_kind {A : Type} (cmd : CommandType) (k : M A)
    (Q : A → GPUSPH → Prop) (Qt : exn → GPUSPH → Prop) (Qu : GPUSPH → Prop) :
  hoare protocol_inv k Q Qt Qu →
  hoare protocol_inv (bind (post_kind cmd) (λ _, bind barrier (λ _, bind barrier (λ _, k))))
    Q Qt Qu.
Proof.
  intros Hk s Hs.
  rewrite (bind_run _ _ _ _ _ (post_kind_run cmd s)).
  rewrite (bind_run _ _ _ _ _ (barrier_run _)).
  rewrite (bind_run _ _ _ _ _ (barrier_run _)).
  apply Hk. unfold protocol_inv. cbn [trace add_trace set_gdata].
  rewrite <- !app_assoc. apply protocol_ok_app; [exact Hs|].
  apply (protocol_ok_round cmd (commandFlags (gdata s)) (extraCommandArg (gdata s)) _ []).
  constructor.
Qed.

Lemma protocol_inv_iteration :
  hoare protocol_inv iteration (λ _, protocol_inv) (λ _, protocol_inv) protocol_inv.
Proof.
  intros s Hs. unfold iteration, try_catch.
  pose proof (hoare_loop_body protocol_inv (λ _, protocol_inv) protocol_inv
                (λ _ _ H, H) (λ _ H, H) protocol_inv_upd protocol_inv_emit protocol_inv_quit
                protocol_inv_doCommand protocol_inv_rollCall protocol_inv
                (λ s H, H) (λ s H, H) s Hs) as H.
  destruct (loop_body s) as [[[]|e|] s']; [exact H| |exact H].
  rewrite handler_run.
  apply (protocol_inv_quiet s' _ [EvLog (LogException e); EvForceUnlock]);
    [reflexivity| |exact H].
  repeat constructor.
Qed.

Lemma protocol_inv_simulation_loop (fuel : nat) :
  hoare protocol_inv (simulation_loop fuel) (λ _, protocol_inv) (λ _, protocol_inv)
    protocol_inv.
Proof.
  induction fuel as [|fuel IH]; intros s Hs.
  - simpl. unfold bind, read, ret. destruct (keep_going (gdata s)); exact Hs.
  - simpl. unfold bind at 1. unfold read. destruct (keep_going (gdata s)); [|exact Hs].
    exact (hoare_bind _ (λ _, protocol_inv) _ _ _ _ _ protocol_inv_iteration (λ _, IH) s Hs).
Qed.

(** X6. Over a whole run, every command that the host posts, through
    [doCommand] or by writing the command kind itself (IDLE at the start,
    QUIT at the end), is followed at once by two barriers at which the
    shared state holds that command, flags and argument; this holds of the
    trace wherever the run stops, by a normal end, an exception or
    undefined behaviour. *)
Theorem runSimulation_protocol (fuel : nat) (s : GPUSPH) :
  protocol_ok (trace s) → protocol_ok (trace (runSimulation fuel s).2).
Proof.
  intros Hs. apply (hoare_snd protocol_inv protocol_inv (runSimulation fuel) s); [|exact Hs].
  clear s Hs. intros s Hs. unfold runSimulation. destruct (negb (initialized s)); [exact Hs|].
  refine (hoare_bind _ (λ _, protocol_inv) _ _ _ _ _ _ _ s Hs).
  { apply (inv_doWrite _ _ _ (λ _ H, H) protocol_inv_upd protocol_inv_emit). }
  intros _. apply (hoare_bind _ (λ _, protocol_inv)); [apply protocol_inv_barrier|].
  intros _. apply protocol_inv_post_kind.
  apply (hoare_bind _ (λ _, protocol_inv)); [intros x Hx; exact Hx|].
  intros g. apply (hoare_bind _ (λ _, protocol_inv)).
  { unfold when. destruct (bool_decide _); [|intros x Hx; exact Hx].
    apply (hoare_bind _ (λ _, protocol_inv)).
    - apply (inv_buildNeibList _ _ _ (λ _ H, H) protocol_inv_upd protocol_inv_emit
               protocol_inv_quit protocol_inv_doCommand protocol_inv_rollCall).
    - intros _.
      apply (inv_saBoundaryConditions _ _ _ (λ _ _ H, H) protocol_inv_upd protocol_inv_emit
               protocol_inv_doCommand). }
  intros _. apply (hoare_bind _ (λ _, protocol_inv)).
  { apply (inv_printStatus _ (λ _, protocol_inv) protocol_inv protocol_inv_emit). }
  intros _. apply (hoare_bind _ (λ _, protocol_inv)); [apply protocol_inv_simulation_loop|].
  intros left. destruct left; [|intros x Hx; exact Hx].
  apply protocol_inv_post_kind.
  apply (hoare_bind _ (λ _, protocol_inv)); [apply protocol_inv_barrier|].
  intros _ x Hx. exact Hx.
Qed.

(** ** How [runSimulation] ends *)

Lemma call_run (c : host_call) (s : GPUSPH) :
  call c s
  = (Ret tt, set_gdata (set_world (host c (gdata s)) (gdata s)) (add_trace [EvHost c] s)).
Proof. reflexivity. Qed.


Lemma keep_going_apply_workers (g : GlobalData) :
  keep_going (apply_workers g) = keep_going g && negb (failed (workers g)).
Proof. reflexivity. Qed.



(** ** Configuration and clock: what the routines leave alone *)

Lemma sr_ret {A : Type} (a : A) : steady_routine (ret a).
Proof. intros s. split; reflexivity. Qed.

Lemma sr_bind {A B : Type} (m : M A) (k : A → M B) :
  steady_routine m → (∀ a, steady_routine (k a)) → steady_routine (bind m k).
Proof.
  intros Hm Hk s. unfold bind. specialize (Hm s).
  destruct (m s) as [[a|e|] s1]; [|exact Hm|exact Hm].
  cbn [snd] in Hm. destruct Hm as [H1 H2]. destruct (Hk a s1) as [H3 H4].
  split; [rewrite H3; exact H1|rewrite H4; exact H2].
Qed.

Lemma sr_read {A : Type} (f : GlobalData → A) : steady_routine (read f).
Proof. intros s. split; reflexivity. Qed.

Lemma sr_upd (f : GlobalData → GlobalData) : steady f → steady_routine (upd f).
Proof. intros Hf s. apply Hf. Qed.

Lemma sr_emit (e : event) : steady_routine (emit e).
Proof. intros s. split; reflexivity. Qed.

Lemma sr_log (m : log_msg) : steady_routine (log m).
Proof. intros s. split; reflexivity. Qed.

Lemma sr_throw {A : Type} (e : exn) : steady_routine (@throw A e).
Proof. intros s. split; reflexivity. Qed.

Lemma sr_undefined {A : Type} : steady_routine (@undefined A).
Proof. intros s. split; reflexivity. Qed.

Lemma sr_lift_option {A : Type} (o : option A) : steady_routine (lift_option o).
Proof. destruct o; [apply sr_ret|apply sr_undefined]. Qed.

Lemma sr_umod (a b : Z) : steady_routine (umod a b).
Proof. unfold umod. destruct (decide (b = 0)); [apply sr_undefined|apply sr_ret]. Qed.

Lemma sr_when (b : bool) (m : M unit) : steady_routine m → steady_routine (when b m).
Proof. intros Hm. destruct b; [assumption|apply sr_ret]. Qed.

Lemma sr_for_each {A : Type} (l : list A) (body : A → M unit) :
  (∀ x, steady_routine (body x)) → steady_routine (for_each l body).
Proof.
  intros Hb. induction l as [|x l IH]; simpl; [apply sr_ret|].
  apply sr_bind; [apply Hb|intros _; assumption].
Qed.

Lemma sr_fold_M {A B : Type} (l : list A) (f : A → B → M B) (b : B) :
  (∀ x b, steady_routine (f x b)) → steady_routine (fold_M l f b).
Proof.
  intros Hf. revert b. induction l as [|x l IH]; intros b; simpl; [apply sr_ret|].
  apply sr_bind; [apply Hf|intros b'; apply IH].
Qed.

Lemma sr_call (c : host_call) : steady_routine (call c).
Proof. intros s. split; reflexivity. Qed.

Lemma sr_barrier : steady_routine barrier.
Proof. intros s. split; reflexivity. Qed.

Lemma sr_doCommand (cmd : CommandType) (flags : flag_t) (arg : float) :
  steady_routine (doCommand cmd flags arg).
Proof. intros s. rewrite doCommand_run. split; reflexivity. Qed.

Lemma sr_rollCallParticles : steady_routine rollCallParticles.
Proof.
  intros s. unfold rollCallParticles.
  destruct (rollCallParticles_pure _ _ _ _); split; reflexivity.
Qed.

Ltac sr_step :=
  lazymatch goal with
  | |- steady_routine (ret _) => apply sr_ret
  | |- steady_routine (read _) => apply sr_read
  | |- steady_routine (doCommand _ _ _) => apply sr_doCommand
  | |- steady_routine rollCallParticles => apply sr_rollCallParticles
  | |- steady_routine barrier => apply sr_barrier
  | |- steady_routine (call _) => apply sr_call
  | |- steady_routine (throw _) => apply sr_throw
  | |- steady_routine undefined => apply sr_undefined
  | |- steady_routine (lift_option _) => apply sr_lift_option
  | |- steady_routine (umod _ _) => apply sr_umod
  | |- steady_routine (log _) => apply sr_log
  | |- steady_routine (emit _) => apply sr_emit
  | |- steady_routine (upd _) => apply sr_upd; intros ?; split; reflexivity
  | |- steady_routine (when _ _) => apply sr_when
  | |- steady_routine (for_each _ _) => apply sr_for_each; intros ?
  | |- steady_routine (fold_M _ _ _) => apply sr_fold_M; intros ? ?
  | |- steady_routine (bind _ _) => apply sr_bind; [|intros ?]
  | |- steady_routine (if ?b then _ else _) => destruct b
  | |- steady_routine (match ?x with _ => _ end) => destruct x
  | |- steady_routine ((λ _, _) _) => cbv beta
  | |- steady_routine (let _ := _ in _) => cbv zeta
  end.

Ltac sr_routine := fail.
Ltac sr_auto := repeat first [sr_routine | sr_step].

Lemma sr_printStatus : steady_routine printStatus.
Proof. unfold printStatus. sr_auto. Qed.

Lemma sr_doWrite (write_flags : flag_t) : steady_routine (doWrite write_flags).
Proof. unfold doWrite, write_out. sr_auto. Qed.

Lemma sr_doCallBacks : steady_routine doCallBacks.
Proof. unfold doCallBacks. sr_auto. Qed.

Ltac sr_routine ::=
  lazymatch goal with
  | |- steady_routine printStatus => apply sr_printStatus
  | |- steady_routine (doWrite _) => apply sr_doWrite
  | |- steady_routine doCallBacks => apply sr_doCallBacks
  end.

Lemma sr_saveParticles (enabledPostProcess : list PostProcessEngine) (write_flags : flag_t) :
  steady_routine (saveParticles enabledPostProcess write_flags).
Proof. unfold saveParticles. sr_auto. Qed.

Lemma sr_move_bodies (step : Z) : steady_routine (move_bodies step).
Proof. unfold move_bodies. sr_auto. Qed.

Lemma sr_recount : steady_routine recount.
Proof. unfold recount. sr_auto. Qed.

Lemma sr_reconcile_total : steady_routine reconcile_total.
Proof. unfold reconcile_total. sr_auto. Qed.

Lemma sr_check_capacity (processCount : Z) : steady_routine (check_capacity processCount).
Proof. unfold check_capacity. sr_auto. Qed.

Lemma sr_updateArrayIndices : steady_routine updateArrayIndices.
Proof.
  unfold updateArrayIndices.
  apply sr_bind; [apply sr_recount|intros processCount].
  apply sr_bind; [apply sr_reconcile_total|intros _].
  apply sr_check_capacity.
Qed.

Ltac sr_routine ::=
  lazymatch goal with
  | |- steady_routine printStatus => apply sr_printStatus
  | |- steady_routine (doWrite _) => apply sr_doWrite
  | |- steady_routine doCallBacks => apply sr_doCallBacks
  | |- steady_routine (saveParticles _ _) => apply sr_saveParticles
  | |- steady_routine (move_bodies _) => apply sr_move_bodies
  | |- steady_routine updateArrayIndices => apply sr_updateArrayIndices
  end.

Lemma sr_buildNeibList : steady_routine buildNeibList.
Proof. unfold buildNeibList. sr_auto. Qed.

Lemma sr_saBoundaryConditions (cFlag : flag_t) : steady_routine (saBoundaryConditions cFlag).
Proof. unfold saBoundaryConditions. sr_auto. Qed.

Lemma sr_run_filter (flt : Z * Z) : steady_routine (run_filter flt).
Proof. unfold run_filter. sr_auto. Qed.

Lemma sr_grenier_density (step : flag) : steady_routine (grenier_density step).
Proof. unfold grenier_density. sr_auto. Qed.

Lemma sr_sps_stress (step : flag) : steady_routine (sps_stress step).
Proof. unfold sps_stress. sr_auto. Qed.

Lemma sr_compute_forces (step : flag) : steady_routine (compute_forces step).
Proof. unfold compute_forces. sr_auto. Qed.

Lemma sr_download_created : steady_routine download_created.
Proof. unfold download_created. sr_auto. Qed.

Ltac sr_routine ::=
  lazymatch goal with
  | |- steady_routine printStatus => apply sr_printStatus
  | |- steady_routine (doWrite _) => apply sr_doWrite
  | |- steady_routine doCallBacks => apply sr_doCallBacks
  | |- steady_routine (saveParticles _ _) => apply sr_saveParticles
  | |- steady_routine (move_bodies _) => apply sr_move_bodies
  | |- steady_routine updateArrayIndices => apply sr_updateArrayIndices
  | |- steady_routine buildNeibList => apply sr_buildNeibList
  | |- steady_routine (saBoundaryConditions _) => apply sr_saBoundaryConditions
  | |- steady_routine (run_filter _) => apply sr_run_filter
  | |- steady_routine (grenier_density _) => apply sr_grenier_density
  | |- steady_routine (sps_stress _) => apply sr_sps_stress
  | |- steady_routine (compute_forces _) => apply sr_compute_forces
  | |- steady_routine download_created => apply sr_download_created
  end.

Lemma sr_loop_commands : steady_routine loop_commands.
Proof. unfold loop_commands. sr_auto. Qed.

Lemma sr_check_timestep (previous_t : float) : steady_routine (check_timestep previous_t).
Proof. unfold check_timestep. sr_auto. Qed.

Lemma sr_finish_iteration : steady_routine finish_iteration.
Proof. unfold finish_iteration. sr_auto. Qed.

(** [advance_time] is the one place where the clock moves. *)
Lemma advance_time_spec (s : GPUSPH) :
  let g := gdata s in
  let r := advance_time s in
  settings (gdata r.2) = settings g
  ∧ iterations (gdata r.2) = wrap64 (iterations g + 1)
  ∧ t (gdata r.2) = (t g + dt g)%float
  ∧ (has_simflag (simparams g) ENABLE_DTADAPT = false → dt (gdata r.2) = dt g)
  ∧ (r.1 = Ret (t g) ∨ r.1 = Undefined).
Proof.
  cbv zeta. unfold advance_time.
  cbv [bind upd read when lift_option ret undefined].
  destruct (has_simflag _ ENABLE_DTADAPT) eqn:E.
  - destruct (dts _ !! 0%nat) as [d0|];
      [|cbn [fst snd gdata set_gdata]; repeat split; try discriminate; auto].
    destruct (for_loop _ 1 _ d0) as [m|];
      [|cbn [fst snd gdata set_gdata]; repeat split; try discriminate; auto].
    destruct (MULTI_NODE _);
      cbn [fst snd gdata set_gdata]; repeat split; try discriminate; auto.
  - cbn [fst snd gdata set_gdata]. repeat split; auto.
Qed.

(** When the termination test holds at the end of an iteration, the
    liveness flag is cleared by the time the iteration returns. *)
Lemma finish_iteration_ends (s : GPUSPH) :
  we_are_done (gdata s) = true →
  match finish_iteration s with
  | (Ret _, s') => keep_going (gdata s') = false
  | _ => True
  end.
Proof.
  intros Hd. unfold finish_iteration. unfold bind at 1. unfold read. cbv beta zeta.
  change (problem_finished (world (gdata s)) (t (gdata s))
          || negb (maxiter (clOptions (gdata s)) =? 0)
             && (maxiter (clOptions (gdata s)) <=? iterations (gdata s))
          || quit_request (gdata s)) with (we_are_done (gdata s)).
  rewrite Hd.
  unfold bind at 1. destruct (when _ _ s) as [[[]|e|] s1]; [|exact Logic.I|exact Logic.I].
  unfold bind at 1. destruct (when _ _ s1) as [[[]|e|] s2]; [|exact Logic.I|exact Logic.I].
  reflexivity.
Qed.

Lemma steady_iterations {A : Type} (m : M A) (s : GPUSPH) :
  steady_routine m →
  iterations (gdata (m s).2) = iterations (gdata s)
  ∧ t (gdata (m s).2) = t (gdata s)
  ∧ dt (gdata (m s).2) = dt (gdata s)
  ∧ clOptions (gdata (m s).2) = clOptions (gdata s)
  ∧ simflags (simparams (gdata (m s).2)) = simflags (simparams (gdata s)).
Proof.
  intros H. destruct (H s) as [H1 H2].
  pose proof (f_equal (λ x, x.1.1.1.1) H1) as HO.
  pose proof (f_equal (λ x, simflags x.1.1.1.2) H1) as HP.
  unfold clock in H2. injection H2 as ? ? ?. auto.
Qed.

(** X8. One pass through the loop body never changes the configuration
    of the run: options, simulation parameters other than the wave
    gages, whose levels a write recomputes, framework, debug switches,
    cluster shape, capacity.  It moves the clock exactly once,
    at one place: if the pass fails before that place the iteration
    counter, the time and the timestep are as before; otherwise the
    counter is one more (as an [unsigned long]) and the time is the old
    time plus the old timestep, and without adaptive timestepping the
    timestep is unchanged.  A pass that returns normally has moved the
    clock. *)
Theorem loop_body_clock (s : GPUSPH) :
  let g := gdata s in
  let r := loop_body s in
  settings (gdata r.2) = settings g
  ∧ ((clock (gdata r.2) = clock g ∧ r.1 ≠ Ret tt)
     ∨ (iterations (gdata r.2) = wrap64 (iterations g + 1)
        ∧ t (gdata r.2) = (t g + dt g)%float
        ∧ (has_simflag (simparams g) ENABLE_DTADAPT = false → dt (gdata r.2) = dt g))).
Proof.
  intros g r. subst g. assert (r = loop_body s) as Hr by reflexivity. clearbody r.
  unfold loop_body in Hr. unfold bind at 1 in Hr.
  destruct (sr_loop_commands s) as [S1 C1].
  pose proof (steady_iterations _ s sr_loop_commands) as (I1 & T1 & D1 & _ & P1).
  destruct (loop_commands s) as [[[]|e|] s1]; cbn [fst snd] in *;
    [|subst r; split; [exact S1|left; split; [exact C1|discriminate]]..].
  unfold bind at 1 in Hr.
  pose proof (advance_time_spec s1) as (S2 & I2 & T2 & D2 & R2). cbv zeta in *.
  destruct (advance_time s1) as [[p|e|] s2]; cbn [fst snd] in *.
  - unfold conclude_iteration in Hr.
    assert (steady_routine (bind (check_timestep p) (λ _, finish_iteration))) as Hsr.
    { apply sr_bind; [apply sr_check_timestep|intros _; apply sr_finish_iteration]. }
    destruct (Hsr s2) as [S3 _].
    pose proof (steady_iterations _ s2 Hsr) as (I3 & T3 & D3 & _).
    subst r. split; [rewrite S3, S2; exact S1|]. right.
    rewrite I3, T3, D3, I2, T2, I1, T1, D1. split; [reflexivity|]. split; [reflexivity|].
    intros H. rewrite <- D1. apply D2. unfold has_simflag in *. rewrite P1. exact H.
  - destruct R2; discriminate.
  - subst r. cbn [fst snd]. split; [rewrite S2; exact S1|]. right.
    rewrite I2, T2, I1, T1, D1. split; [reflexivity|]. split; [reflexivity|].
    intros H. rewrite <- D1. apply D2. unfold has_simflag in *. rewrite P1. exact H.
Qed.

(** What one iteration of the loop, with its handler, does to the
    counter and to the liveness flag. *)
Lemma iteration_step (s : GPUSPH) :
  let g := gdata s in
  match iteration s with
  | (Ret _, s') =>
      clOptions (gdata s') = clOptions g
      ∧ (iterations (gdata s') = iterations g
         ∨ iterations (gdata s') = wrap64 (iterations g + 1))
      ∧ (keep_going (gdata s') = true →
         iterations (gdata s') = wrap64 (iterations g + 1)
         ∧ (negb (maxiter (clOptions g) =? 0)
            && (maxiter (clOptions g) <=? wrap64 (iterations g + 1))) = false)
  | (Throw _, _) => False
  | (Undefined, _) => True
  end.
Proof.
  cbv zeta. unfold iteration, try_catch.
  pose proof (loop_body_clock s) as [S0 C0]. cbv zeta in S0, C0.
  assert (clOptions (gdata (loop_body s).2) = clOptions (gdata s)
          ∧ (iterations (gdata (loop_body s).2) = iterations (gdata s)
             ∨ iterations (gdata (loop_body s).2) = wrap64 (iterations (gdata s) + 1)))
    as [HO HI].
  { unfold settings in S0. injection S0 as ? _ _ _ _ _ _ _ _. split; [assumption|].
    destruct C0 as [[C0 _]|[C0 _]]; [left|right; exact C0].
    unfold clock in C0. injection C0 as ? _ _. assumption. }
  remember (loop_body s) as r eqn:Hr. unfold loop_body in Hr. unfold bind at 1 in Hr.
  pose proof (steady_iterations _ s sr_loop_commands) as (I1 & _ & _ & O1 & _).
  destruct (loop_commands s) as [[[]|e|] s1]; cbn [fst snd] in *.
  - unfold bind at 1 in Hr.
    pose proof (advance_time_spec s1) as (S2 & I2 & _ & _ & R2). cbv zeta in *.
    destruct (advance_time s1) as [[p|e|] s2]; cbn [fst snd] in *;
      [|destruct R2; discriminate|subst r; exact Logic.I].
    unfold conclude_iteration in Hr. unfold bind at 1 in Hr.
    pose proof (steady_iterations _ s2 (sr_check_timestep p)) as (I3 & _ & _ & O3 & _).
    destruct (check_timestep p s2) as [[[]|e|] s3]; cbn [fst snd] in *.
    + pose proof (finish_iteration_ends s3) as Hend.
      pose proof (steady_iterations _ s3 sr_finish_iteration) as (I4 & _ & _ & O4 & _).
      assert (clOptions (gdata s3) = clOptions (gdata s)) as HO3.
      { rewrite O3. unfold settings in S2. injection S2 as -> _ _ _ _ _ _ _ _. exact O1. }
      assert (iterations (gdata s3) = wrap64 (iterations (gdata s) + 1)) as HI3.
      { rewrite I3, I2, I1. reflexivity. }
      destruct (finish_iteration s3) as [[[]|e|] s4]; subst r; cbn [fst snd] in *.
      * split; [exact HO|]. split; [exact HI|]. intros Hk.
        split; [rewrite I4; exact HI3|].
        destruct (negb _ && _) eqn:E; [|reflexivity].
        rewrite Hend in Hk; [discriminate|].
        unfold we_are_done. rewrite HO3, HI3, E, orb_true_r. reflexivity.
      * rewrite handler_run. cbn [gdata set_gdata add_trace].
        split; [exact HO|]. split; [exact HI|]. intros Hk. discriminate Hk.
      * exact Logic.I.
    + subst r. rewrite handler_run. cbn [gdata set_gdata add_trace].
      split; [exact HO|]. split; [exact HI|]. intros Hk. discriminate Hk.
    + subst r. exact Logic.I.
  - subst r. rewrite handler_run. cbn [gdata set_gdata add_trace].
    split; [exact HO|]. split; [exact HI|]. intros Hk. discriminate Hk.
  - subst r. exact Logic.I.
Qed.

Lemma maxiter_loop (fuel : nat) (N : Z) (s : GPUSPH) :
  maxiter (clOptions (gdata s)) = N → N < 18446744073709551616 →
  0 ≤ iterations (gdata s) ≤ N →
  (keep_going (gdata s) = true →
   iterations (gdata s) < N ∧ (Z.to_nat (N - iterations (gdata s)) ≤ fuel)%nat) →
  match simulation_loop fuel s with
  | (Ret b, s') =>
      b = true ∧ keep_going (gdata s') = false
      ∧ iterations (gdata s) ≤ iterations (gdata s') ≤ N
  | (Throw _, _) => False
  | (Undefined, _) => True
  end.
Proof.
  revert s. induction fuel as [|fuel IH]; intros s HN H64 Hi Hk.
  - simpl. unfold bind, read, ret. destruct (keep_going (gdata s)) eqn:E.
    + destruct (Hk eq_refl). lia.
    + split; [reflexivity|]. split; [exact E|lia].
  - simpl. unfold bind at 1. unfold read. destruct (keep_going (gdata s)) eqn:E.
    + destruct (Hk eq_refl) as [Hlt Hfuel]. unfold bind.
      pose proof (iteration_step s) as Hstep. cbv zeta in Hstep.
      destruct (iteration s) as [[[]|e|] s1]; [|destruct Hstep|exact Logic.I].
      destruct Hstep as (HO & HI & Hgo).
      assert (wrap64 (iterations (gdata s) + 1) = iterations (gdata s) + 1) as Hw.
      { unfold wrap64. apply Z.mod_small. lia. }
      rewrite Hw in HI, Hgo.
      specialize (IH s1). rewrite HO, HN in IH.
      assert (match simulation_loop fuel s1 with
              | (Ret b, s') =>
                  b = true ∧ keep_going (gdata s') = false
                  ∧ iterations (gdata s1) ≤ iterations (gdata s') ≤ N
              | (Throw _, _) => False
              | (Undefined, _) => True
              end) as Hres.
      { apply IH; [reflexivity|assumption|destruct HI; lia|].
        intros Hk1. destruct (Hgo Hk1) as [Hi1 Hmax]. rewrite HN in Hmax.
        rewrite Hi1. split; [|lia].
        destruct (N =? 0) eqn:E0; [lia|]. simpl in Hmax. lia. }
      destruct (simulation_loop fuel s1) as [[b|e|] s2]; [|exact Hres|exact Hres].
      destruct Hres as (Hb & Hk2 & Hi2). split; [exact Hb|]. split; [exact Hk2|].
      destruct HI; lia.
    + unfold ret. split; [reflexivity|]. split; [exact E|lia].
Qed.

(** X9. With an iteration limit [maxiter > 0] that the counter has not
    reached, the loop is left after at most [maxiter - iterations]
    passes: it never needs more (it ends normally, with the liveness flag
    cleared, or in undefined behaviour, never by an exception), and the
    counter never goes beyond the limit. *)
Theorem maxiter_bounds_the_loop (fuel : nat) (s : GPUSPH) :
  let g := gdata s in
  0 ≤ iterations g < maxiter (clOptions g) →
  maxiter (clOptions g) < 18446744073709551616 →
  (Z.to_nat (maxiter (clOptions g) - iterations g) ≤ fuel)%nat →
  match simulation_loop fuel s with
  | (Ret b, s') =>
      b = true ∧ keep_going (gdata s') = false
      ∧ iterations g ≤ iterations (gdata s') ≤ maxiter (clOptions g)
  | (Throw _, _) => False
  | (Undefined, _) => True
  end.
Proof.
  intros g Hi H64 Hfuel. subst g.
  apply (maxiter_loop fuel (maxiter (clOptions (gdata s))) s); [reflexivity|assumption|lia|].
  intros _. split; [lia|assumption].
Qed.

(** ** Dumping and writing *)











Lemma doCommand_alive (cmd : CommandType) (flags : flag_t) (arg : float) (s s' : GPUSPH) :
  doCommand cmd flags arg s = (Ret tt, s') →
  keep_going (gdata s) = true
  ∧ trace s' = trace s ++ [EvPost cmd flags arg true; EvBarrier cmd flags arg;
                           EvBarrier cmd flags arg].
Proof.
  rewrite doCommand_run. rewrite !keep_going_apply_workers.
  change (keep_going (posted cmd flags arg (gdata s))) with (keep_going (gdata s)).
  destruct (keep_going (gdata s)); cbn [andb]; intros H; [|discriminate H].
  split; [reflexivity|]. destruct (negb _ && negb _); [|discriminate H].
  injection H as <-. reflexivity.
Qed.














(** ** When an iteration writes *)


(** ** The neighbour statistics of [buildNeibList] *)

Lemma for_each_log_map {A : Type} (f : A → log_msg) (l : list A) (s : GPUSPH) :
  for_each l (λ x, log (f x)) s = (Ret tt, add_trace (EvLog <$> (f <$> l)) s).
Proof.
  revert s. induction l as [|x l IH]; intros s.
  - unfold for_each, ret. rewrite add_trace_nil. reflexivity.
  - change (for_each (x :: l) (λ x, log (f x)) s)
      with (bind (log (f x)) (λ _, for_each l (λ x, log (f x))) s).
    unfold bind, log, emit. rewrite IH, add_trace_add_trace. reflexivity.
Qed.

(** The scan over the devices: the peak is the largest of the devices'
    maxima (or zero), the interactions are added up, and the devices
    above the limit are noted, in their order. *)
Lemma scan_neibs_loop (g : GlobalData) (D : nat) (n0 peak inter : Z)
    (warned : list TimingInfo) :
  for_loop D 0 (scan_neibs g) (0, n0, []) = Some (peak, inter, warned) →
  (D ≤ length (timingInfo g))%nat
  ∧ 0 ≤ peak
  ∧ (∀ d ti, (d < D)%nat → timingInfo g !! d = Some ti → maxNeibs ti ≤ peak)
  ∧ (peak = 0 ∨ ∃ d ti, (d < D)%nat ∧ timingInfo g !! d = Some ti ∧ maxNeibs ti = peak)
  ∧ inter = foldl (λ acc ti, wrap32 (acc + numInteractions ti)) n0 (take D (timingInfo g))
  ∧ warned = filter (λ ti, maxneibsnum (simparams g) < maxNeibs ti) (take D (timingInfo g)).
Proof.
  intros H.
  apply (for_loop_inv
           (λ p (st : Z * Z * list TimingInfo),
              (p ≤ length (timingInfo g))%nat
              ∧ 0 ≤ st.1.1
              ∧ (∀ d ti, (d < p)%nat → timingInfo g !! d = Some ti → maxNeibs ti ≤ st.1.1)
              ∧ (st.1.1 = 0
                 ∨ ∃ d ti, (d < p)%nat ∧ timingInfo g !! d = Some ti ∧ maxNeibs ti = st.1.1)
              ∧ st.1.2 = foldl (λ acc ti, wrap32 (acc + numInteractions ti)) n0
                           (take p (timingInfo g))
              ∧ st.2 = filter (λ ti, maxneibsnum (simparams g) < maxNeibs ti)
                         (take p (timingInfo g)))
           D 0 (scan_neibs g) (0, n0, []) (peak, inter, warned) H).
  - cbn [fst snd]. split; [lia|]. split; [lia|]. split; [intros; lia|].
    split; [left; reflexivity|]. split; reflexivity.
  - intros i [[pk it] wn] st' Hi (Hlen & Hpos & Hub & Hatt & Hit & Hw) Hbody.
    cbn [fst snd] in *. unfold scan_neibs in Hbody.
    destruct (timingInfo g !! i) as [ti|] eqn:Hti; simpl in Hbody; [|discriminate].
    injection Hbody as <-. cbn [fst snd].
    pose proof (lookup_lt_Some _ _ _ Hti) as Hlt.
    rewrite (take_S_r _ _ _ Hti), foldl_app, filter_app, <- Hit, <- Hw.
    split; [lia|]. split; [destruct (pk <? maxNeibs ti) eqn:E; lia|]. split; [|split].
    + intros d x Hd Hx. destruct (decide (d = i)) as [->|Hne].
      * assert (x = ti) as -> by congruence. destruct (pk <? maxNeibs ti) eqn:E; lia.
      * specialize (Hub d x ltac:(lia) Hx). destruct (pk <? maxNeibs ti) eqn:E; lia.
    + destruct (pk <? maxNeibs ti) eqn:E.
      * right. exists i, ti. split; [lia|]. split; [assumption|reflexivity].
      * destruct Hatt as [->|(d & x & Hd & Hx & Hm)]; [left; reflexivity|].
        right. exists d, x. split; [lia|]. split; assumption.
    + split; [reflexivity|].
      rewrite filter_cons, filter_nil.
      destruct (maxneibsnum (simparams g) <? maxNeibs ti) eqn:E.
      * apply Z.ltb_lt in E. rewrite decide_True by exact E. reflexivity.
      * apply Z.ltb_ge in E. rewrite decide_False by lia. symmetry. apply app_nil_r.
Qed.

Lemma for_each_log2 {A : Type} (f : A → list log_msg) (body : A → M unit) (l : list A)
    (s : GPUSPH) :
  (∀ x s, body x s = (Ret tt, add_trace (EvLog <$> f x) s)) →
  for_each l body s = (Ret tt, add_trace (EvLog <$> flat_map f l) s).
Proof.
  intros Hb. revert s. induction l as [|x l IH]; intros s.
  - unfold for_each, ret. rewrite add_trace_nil. reflexivity.
  - change (for_each (x :: l) body s) with (bind (body x) (λ _, for_each l body) s).
    unfold bind. rewrite Hb, IH, add_trace_add_trace.
    change (flat_map f (x :: l)) with (f x ++ flat_map f l).
    rewrite fmap_app. reflexivity.
Qed.

(** The end of [buildNeibList]: the scan, the two updates, the warnings. *)
Lemma read_run {A : Type} (f : GlobalData → A) (s : GPUSPH) :
  read f s = (Ret (f (gdata s)), s).
Proof. reflexivity. Qed.

Lemma upd_run (f : GlobalData → GlobalData) (s : GPUSPH) :
  upd f s = (Ret tt, set_gdata (f (gdata s)) s).
Proof. reflexivity. Qed.

(** One more statement of a routine whose failure ends the story. *)
Ltac ret_step :=
  unfold bind at 1;
  lazymatch goal with
  | |- match (match ?m ?s with _ => _ end) with _ => _ end =>
      destruct (m s) as [[?|?|] ?]; [|exact Logic.I..]
  end.

Lemma buildNeibList_tail (s : GPUSPH) :
  match buildNeibList s with
  | (Ret _, s') =>
      ∃ s1 peak inter warned,
        for_loop (Z.to_nat (devices (gdata s1))) 0 (scan_neibs (gdata s1))
          (0, lastGlobalNumInteractions (gdata s1), []) = Some (peak, inter, warned)
        ∧ s' = add_trace
                 (EvLog <$> flat_map (neibs_warning (maxneibsnum (simparams (gdata s1)))
                                        (iterations (gdata s1))) warned)
                 (set_gdata (set_lastGlobalNumInteractions inter
                              (set_lastGlobalPeakNeibsNum peak (gdata s1))) s1)
  | _ => True
  end.
Proof.
  unfold buildNeibList.
  do 13 ret_step.
  rewrite (bind_run _ _ _ _ _ (read_run _ _)).
  unfold bind at 1.
  destruct (for_loop _ 0 _ _) as [[[peak inter] warned]|] eqn:Hfor; [|exact Logic.I].
  unfold lift_option, ret at 1.
  rewrite (bind_run _ _ _ _ _ (upd_run _ _)).
  rewrite (bind_run _ _ _ _ _ (upd_run _ _)).
  match type of Hfor with
  | for_loop _ _ (scan_neibs ?g1) _ = _ =>
      rewrite (for_each_log2 (neibs_warning (maxneibsnum (simparams g1)) (iterations g1)))
  end.
  - eexists _, peak, inter, warned. split; [exact Hfor|]. reflexivity.
  - intros ti s0. unfold bind, log, emit. rewrite add_trace_add_trace. reflexivity.
Qed.

(** X12. When [buildNeibList] returns, every device of the node has a
    timing record; the peak number of neighbours it leaves in the shared
    state was reset and recomputed: it is at least the maximum reported
    by every device of the node, and it is zero or the maximum of one of
    them; and the routine ended by printing the neighbour warnings: for
    each device whose maximum is above the limit [maxneibsnum], in the
    order of the devices, the line with that maximum, the limit and the
    iteration, and the line with the possible culprit, and nothing for
    the other devices. *)
Theorem buildNeibList_neibs_statistics (s s' : GPUSPH) :
  buildNeibList s = (Ret tt, s') →
  let g := gdata s' in
  let D := Z.to_nat (devices g) in
  let limit := maxneibsnum (simparams g) in
  (D ≤ length (timingInfo g))%nat
  ∧ 0 ≤ lastGlobalPeakNeibsNum g
  ∧ (∀ d ti, (d < D)%nat → timingInfo g !! d = Some ti →
             maxNeibs ti ≤ lastGlobalPeakNeibsNum g)
  ∧ (lastGlobalPeakNeibsNum g = 0
     ∨ ∃ d ti, (d < D)%nat ∧ timingInfo g !! d = Some ti
               ∧ maxNeibs ti = lastGlobalPeakNeibsNum g)
  ∧ ∃ tr,
      trace s' = tr ++ (EvLog <$> flat_map (neibs_warning limit (iterations g))
                                    (filter (λ ti, limit < maxNeibs ti)
                                       (take D (timingInfo g)))).
Proof.
  intros H. pose proof (buildNeibList_tail s) as Htail. rewrite H in Htail.
  destruct Htail as (s1 & peak & inter & warned & Hfor & ->).
  apply scan_neibs_loop in Hfor as (Hlen & Hpos & Hub & Hatt & _ & Hw).
  cbv zeta. cbn [gdata trace set_gdata add_trace].
  change (lastGlobalPeakNeibsNum _) with peak.
  change (timingInfo (set_lastGlobalNumInteractions _ _)) with (timingInfo (gdata s1)).
  change (devices (set_lastGlobalNumInteractions _ _)) with (devices (gdata s1)).
  change (simparams (set_lastGlobalNumInteractions _ _)) with (simparams (gdata s1)).
  change (iterations (set_lastGlobalNumInteractions _ _)) with (iterations (gdata s1)).
  split; [exact Hlen|]. split; [exact Hpos|]. split; [exact Hub|]. split; [exact Hatt|].
  exists (trace s1). rewrite Hw. reflexivity.
Qed.

(** ** What the roll call finds *)

Lemma rc_reset_loop (r0 : rollcall) (n : nat) :
  (n ≤ length (rc_bitmap r0))%nat → (n ≤ length (rc_addrs r0))%nat →
  ∃ r1, for_loop n 0 rc_reset r0 = Some r1
        ∧ length (rc_bitmap r1) = length (rc_bitmap r0)
        ∧ length (rc_addrs r1) = length (rc_addrs r0)
        ∧ rc_notified r1 = rc_notified r0 ∧ rc_log r1 = rc_log r0
        ∧ all_normal r1 = all_normal r0
        ∧ first_double_warned r1 = first_double_warned r0
        ∧ first_missing_warned r1 = first_missing_warned r0
        ∧ (∀ id, (id < n)%nat → rc_bitmap r1 !! id = Some false).
Proof.
  intros Hb Ha.
  destruct (for_loop_total
              (λ p r, length (rc_bitmap r) = length (rc_bitmap r0)
                      ∧ length (rc_addrs r) = length (rc_addrs r0)
                      ∧ rc_notified r = rc_notified r0 ∧ rc_log r = rc_log r0
                      ∧ all_normal r = all_normal r0
                      ∧ first_double_warned r = first_double_warned r0
                      ∧ first_missing_warned r = first_missing_warned r0
                      ∧ (∀ id, (id < p)%nat → rc_bitmap r !! id = Some false))
              n 0 rc_reset r0) as (r1 & Hr & H).
  - repeat (split; [reflexivity|]). intros; lia.
  - intros i r Hi (L1 & L2 & N & L & A & D & M & B).
    unfold rc_reset. rewrite !store_Some by lia. simpl.
    eexists. split; [reflexivity|]. cbn.
    rewrite !length_insert. repeat (split; [assumption|]).
    intros id Hid. destruct (decide (id = i)) as [->|Hne].
    + apply list_lookup_insert_eq. lia.
    + rewrite list_lookup_insert_ne by auto. apply B. lia.
  - exists r1. split; [exact Hr|exact H].
Qed.

(** One particle of the second loop. *)
Lemma rc_mark_one (g : GlobalData) (infos : list Z) (p id : nat) (info : Z) (r : rollcall) :
  getData BUFFER_INFO (s_hBuffers g) = Some infos →
  infos !! p = Some info → particle_id info = Z.of_nat id →
  (id < length (rc_bitmap r))%nat → (id < length (rc_notified r))%nat →
  (id < length (rc_addrs r))%nat →
  ∃ r', rc_mark g p r = Some r'
        ∧ rc_bitmap r' = <[id := true]> (rc_bitmap r)
        ∧ rc_addrs r' = <[id := Z.of_nat p]> (rc_addrs r)
        ∧ first_missing_warned r' = first_missing_warned r
        ∧ (rc_notified r' = rc_notified r ∨ rc_notified r' = <[id := true]> (rc_notified r))
        ∧ (rc_bitmap r !! id = Some false →
           rc_notified r' = rc_notified r ∧ rc_log r' = rc_log r
           ∧ all_normal r' = all_normal r).
Proof.
  intros Hg Hi Hid Hb Hn Ha. unfold rc_mark. rewrite Hg. simpl.
  rewrite Hi. simpl. rewrite Hid.
  unfold index. destruct (decide (0 ≤ Z.of_nat id)) as [_|]; [|lia].
  simpl. rewrite Nat2Z.id.
  destruct (lookup_lt_is_Some_2 _ _ Hb) as [seen Hseen].
  destruct (lookup_lt_is_Some_2 _ _ Hn) as [nt Hnt].
  destruct (lookup_lt_is_Some_2 _ _ Ha) as [addr Haddr].
  rewrite Hseen. simpl.
  destruct seen.
  - rewrite Hnt. simpl. destruct nt; simpl.
    + rewrite !store_Some by assumption. simpl.
      eexists. split; [reflexivity|]. simpl.
      repeat (split; [reflexivity|]). split; [left; reflexivity|]. discriminate.
    + destruct (first_double_warned r); simpl; rewrite ?Haddr; simpl;
        rewrite (store_Some (rc_notified r)) by assumption; simpl;
        rewrite !store_Some by assumption; simpl;
        (eexists; split; [reflexivity|]); simpl;
        repeat (split; [reflexivity|]); (split; [right; reflexivity|]); discriminate.
  - simpl. rewrite !store_Some by assumption. simpl.
    eexists. split; [reflexivity|]. simpl.
    repeat (split; [reflexivity|]). split; [left; reflexivity|].
    intros _. repeat split.
Qed.

(** The second loop: the bitmap tells which identities were met; on an
    array without repetitions nothing else changes. *)
Lemma rc_mark_loop (g : GlobalData) (infos : list Z) (ids : list nat) (n : nat)
    (r1 : rollcall) :
  getData BUFFER_INFO (s_hBuffers g) = Some infos →
  Forall2 (λ info id, particle_id info = Z.of_nat id) (take n infos) ids →
  length ids = n →
  Forall (λ id, (id < length (rc_bitmap r1))%nat ∧ (id < length (rc_notified r1))%nat
                ∧ (id < length (rc_addrs r1))%nat) ids →
  (∀ id, (id < n)%nat → rc_bitmap r1 !! id = Some false) →
  ∃ r2, for_loop n 0 (rc_mark g) r1 = Some r2
        ∧ length (rc_bitmap r2) = length (rc_bitmap r1)
        ∧ length (rc_notified r2) = length (rc_notified r1)
        ∧ first_missing_warned r2 = first_missing_warned r1
        ∧ (∀ id, (id < n)%nat → rc_bitmap r2 !! id = Some (bool_decide (id ∈ ids)))
        ∧ (∀ id, id ∉ ids → rc_notified r2 !! id = rc_notified r1 !! id)
        ∧ (NoDup ids → Forall (λ id, (id < n)%nat) ids →
           rc_notified r2 = rc_notified r1 ∧ rc_log r2 = rc_log r1
           ∧ all_normal r2 = all_normal r1
           ∧ ∀ i id, ids !! i = Some id → rc_addrs r2 !! id = Some (Z.of_nat i)).
Proof.
  intros Hg Hf Hlen Hfit Hreset.
  destruct (for_loop_total
    (λ p r,
       length (rc_bitmap r) = length (rc_bitmap r1)
       ∧ length (rc_notified r) = length (rc_notified r1)
       ∧ length (rc_addrs r) = length (rc_addrs r1)
       ∧ first_missing_warned r = first_missing_warned r1
       ∧ (∀ id, (id < n)%nat → rc_bitmap r !! id = Some (bool_decide (id ∈ take p ids)))
       ∧ (∀ id, id ∉ take p ids → rc_notified r !! id = rc_notified r1 !! id)
       ∧ (NoDup (take p ids) → Forall (λ id, (id < n)%nat) (take p ids) →
          rc_notified r = rc_notified r1 ∧ rc_log r = rc_log r1
          ∧ all_normal r = all_normal r1
          ∧ ∀ i id, (i < p)%nat → ids !! i = Some id →
                    rc_addrs r !! id = Some (Z.of_nat i)))
    n 0 (rc_mark g) r1) as (r2 & Hr & L1 & L2 & L3 & M & B & N & C).
  - repeat (split; [reflexivity|]). split; [|split].
    + intros id Hid. rewrite take_0, bool_decide_eq_false_2 by (apply not_elem_of_nil).
      apply Hreset. exact Hid.
    + reflexivity.
    + intros _ _. repeat (split; [reflexivity|]). intros; lia.
  - intros i r Hi (L1 & L2 & L3 & M & B & N & C).
    destruct (lookup_lt_is_Some_2 ids i) as [id Hid]; [lia|].
    destruct (Forall2_lookup_r _ _ _ _ _ Hf Hid) as (info & Hinfo & Hpid).
    rewrite lookup_take_lt in Hinfo by lia.
    rewrite Forall_lookup in Hfit. destruct (Hfit i id Hid) as (F1 & F2 & F3).
    destruct (rc_mark_one g infos i id info r Hg Hinfo Hpid)
      as (r' & Hmark & Hb' & Ha' & Hm' & Hn' & Hclean); [lia|lia|lia|].
    exists r'. split; [exact Hmark|].
    rewrite (take_S_r _ _ _ Hid).
    split; [rewrite Hb', length_insert; exact L1|].
    split; [destruct Hn' as [->| ->]; rewrite ?length_insert; exact L2|].
    split; [rewrite Ha', length_insert; exact L3|].
    split; [rewrite Hm'; exact M|].
    split; [|split].
    + intros id' Hid'. rewrite Hb'. destruct (decide (id' = id)) as [->|Hne].
      * rewrite list_lookup_insert_eq by lia. f_equal. symmetry.
        apply bool_decide_eq_true_2. rewrite elem_of_app, list_elem_of_singleton. auto.
      * rewrite list_lookup_insert_ne by auto. rewrite (B id' Hid'). f_equal.
        apply bool_decide_ext. rewrite elem_of_app, list_elem_of_singleton.
        split; [auto|intros [H|H]; [exact H|contradiction]].
    + intros id' Hnot. rewrite elem_of_app, list_elem_of_singleton in Hnot.
      rewrite <- (N id') by auto.
      destruct Hn' as [->| ->]; [reflexivity|].
      apply list_lookup_insert_ne. intros ->. auto.
    + intros Hnd Hlt. apply NoDup_app in Hnd as (Hnd & Hdis & _).
      apply Forall_app in Hlt as [Hlt Hidn]. apply Forall_inv in Hidn. cbv beta in Hidn.
      destruct (C Hnd Hlt) as (C1 & C2 & C3 & C4).
      assert (id ∉ take i ids) as Hfresh.
      { intros Hin. apply (Hdis id Hin). apply list_elem_of_singleton. reflexivity. }
      destruct Hclean as (K1 & K2 & K3).
      { rewrite (B id Hidn). f_equal. apply bool_decide_eq_false_2. exact Hfresh. }
      split; [rewrite K1; exact C1|]. split; [rewrite K2; exact C2|].
      split; [rewrite K3; exact C3|].
      intros j id' Hj Hid'. rewrite Ha'. destruct (decide (j = i)) as [->|Hne].
      * assert (id' = id) as -> by congruence. apply list_lookup_insert_eq. lia.
      * assert (id' ≠ id) as Hne'.
        { intros ->. apply Hfresh. apply list_elem_of_lookup. exists j.
          rewrite lookup_take_lt by lia. exact Hid'. }
        rewrite list_lookup_insert_ne by auto. apply C4; [lia|exact Hid'].
  - exists r2. split; [exact Hr|]. rewrite take_ge in B, N, C by lia.
    repeat (split; [assumption|]).
    intros Hnd Hlt. destruct (C Hnd Hlt) as (C1 & C2 & C3 & C4).
    repeat (split; [assumption|]). intros i id Hid. apply C4; [|exact Hid].
    apply lookup_lt_Some in Hid. lia.
Qed.

(** One identity of the third loop. *)
Lemma rc_missing_one (g : GlobalData) (id : nat) (r : rollcall) (seen nt : bool) :
  rc_bitmap r !! id = Some seen → rc_notified r !! id = Some nt →
  ∃ r', rc_missing g id r = Some r'
        ∧ rc_bitmap r' = rc_bitmap r ∧ rc_addrs r' = rc_addrs r
        ∧ ((seen || nt) = true → r' = r)
        ∧ ((seen || nt) = false →
           rc_notified r' = <[id := true]> (rc_notified r)
           ∧ all_normal r' = false ∧ first_missing_warned r' = true
           ∧ rc_log r' = (if first_missing_warned r then rc_log r
                          else rc_log r ++ [LogMissingId (iterations g) (t g) (Z.of_nat id)])).
Proof.
  intros Hseen Hnt. unfold rc_missing. rewrite Hseen. simpl.
  destruct seen; simpl.
  - eexists. split; [reflexivity|]. do 2 (split; [reflexivity|]).
    split; [intros _; reflexivity|intros H; discriminate H].
  - rewrite Hnt. simpl. destruct nt; simpl.
    + eexists. split; [reflexivity|]. do 2 (split; [reflexivity|]).
      split; [intros _; reflexivity|intros H; discriminate H].
    + rewrite store_Some by (eapply lookup_lt_Some; eassumption).
      destruct (first_missing_warned r); simpl;
        (eexists; split; [reflexivity|]); simpl;
        do 2 (split; [reflexivity|]); (split; [intros H; discriminate H|]);
        intros _; repeat split.
Qed.

(** The third loop: every identity that was not met is marked as
    notified, and the least of those that were not marked before is
    warned about. *)
Lemma rc_missing_loop (g : GlobalData) (ids : list nat) (n : nat) (r2 : rollcall) :
  (n ≤ length (rc_bitmap r2))%nat → (n ≤ length (rc_notified r2))%nat →
  (∀ id, (id < n)%nat → rc_bitmap r2 !! id = Some (bool_decide (id ∈ ids))) →
  first_missing_warned r2 = false →
  ∃ r3, for_loop n 0 (rc_missing g) r2 = Some r3
        ∧ rc_bitmap r3 = rc_bitmap r2 ∧ rc_addrs r3 = rc_addrs r2
        ∧ (∀ id, (id < n)%nat → id ∉ ids → rc_notified r3 !! id = Some true)
        ∧ ((∀ id, (id < n)%nat → id ∈ ids) → r3 = r2)
        ∧ (∀ m, (m < n)%nat → m ∉ ids → rc_notified r2 !! m = Some false →
               all_normal r3 = false
               ∧ ∃ m0, (m0 ≤ m)%nat ∧ (m0 ∉ ids)
                       ∧ LogMissingId (iterations g) (t g) (Z.of_nat m0) ∈ rc_log r3).
Proof.
  intros Hlb Hln Hbit Hfmw.
  destruct (for_loop_total
    (λ p r,
       rc_bitmap r = rc_bitmap r2 ∧ rc_addrs r = rc_addrs r2
       ∧ length (rc_notified r) = length (rc_notified r2)
       ∧ (∀ id, (p ≤ id)%nat → rc_notified r !! id = rc_notified r2 !! id)
       ∧ (∀ id, (id < p)%nat → id ∉ ids → rc_notified r !! id = Some true)
       ∧ ((∀ id, (id < p)%nat → id ∈ ids) → r = r2)
       ∧ (first_missing_warned r = false →
          ∀ id, (id < p)%nat → id ∉ ids → rc_notified r2 !! id = Some true)
       ∧ (first_missing_warned r = true →
          all_normal r = false
          ∧ ∃ m0, (m0 < p)%nat ∧ (m0 ∉ ids)
                  ∧ (∀ m', (m' < m0)%nat → m' ∉ ids → rc_notified r2 !! m' = Some true)
                  ∧ LogMissingId (iterations g) (t g) (Z.of_nat m0) ∈ rc_log r))
    n 0 (rc_missing g) r2) as (r3 & Hr & B3 & A3 & L3 & _ & Hmarked & Hclean & Hquiet & Hwarn).
  - do 3 (split; [reflexivity|]). split; [intros id _; reflexivity|].
    split; [intros id Hid; lia|]. split; [intros _; reflexivity|].
    split; [intros _ id Hid; lia|]. rewrite Hfmw. intros H. discriminate H.
  - intros i r Hi (B & A & L & Hhi & Hlo & Hcl & Hq & Hw).
    assert (rc_bitmap r !! i = Some (bool_decide (i ∈ ids))) as Hseen.
    { rewrite B. apply Hbit. lia. }
    destruct (lookup_lt_is_Some_2 (rc_notified r2) i) as [nt Hnt2]; [lia|].
    assert (rc_notified r !! i = Some nt) as Hnt by (rewrite Hhi by lia; exact Hnt2).
    destruct (rc_missing_one g i r _ _ Hseen Hnt) as (r' & Hrun & Hb' & Ha' & Hsame & Hanom).
    exists r'. split; [exact Hrun|].
    split; [rewrite Hb'; exact B|]. split; [rewrite Ha'; exact A|].
    destruct (bool_decide (i ∈ ids) || nt) eqn:E.
    + rewrite (Hsame eq_refl).
      split; [exact L|]. split; [intros id Hid; apply Hhi; lia|].
      assert (i ∉ ids → rc_notified r2 !! i = Some true) as Hi_nt.
      { intros Hnot. rewrite (bool_decide_eq_false_2 _ Hnot) in E. simpl in E.
        rewrite Hnt2, E. reflexivity. }
      split; [|split; [|split]].
      * intros id Hid Hnot. destruct (decide (id = i)) as [->|Hne].
        -- rewrite Hhi by lia. apply Hi_nt. exact Hnot.
        -- apply Hlo; [lia|exact Hnot].
      * intros Hall. apply Hcl. intros id Hid. apply Hall. lia.
      * intros Hf id Hid Hnot. destruct (decide (id = i)) as [->|Hne].
        -- apply Hi_nt. exact Hnot.
        -- apply (Hq Hf); [lia|exact Hnot].
      * intros Ht. destruct (Hw Ht) as (Han & m0 & Hm0 & Hrest).
        split; [exact Han|]. exists m0. split; [lia|exact Hrest].
    + apply orb_false_elim in E as [Ein Ent]. apply bool_decide_eq_false_1 in Ein. subst nt.
      destruct (Hanom eq_refl) as (Hn' & Han' & Hfm' & Hlog').
      split; [rewrite Hn', length_insert; exact L|].
      split; [|split; [|split; [|split]]].
      * intros id Hid. rewrite Hn', list_lookup_insert_ne by lia. apply Hhi. lia.
      * intros id Hid Hnot. rewrite Hn'. destruct (decide (id = i)) as [->|Hne].
        -- apply list_lookup_insert_eq. lia.
        -- rewrite list_lookup_insert_ne by auto. apply Hlo; [lia|exact Hnot].
      * intros Hall. exfalso. apply Ein. apply Hall. lia.
      * rewrite Hfm'. discriminate.
      * intros _. split; [exact Han'|].
        destruct (first_missing_warned r) eqn:Ef.
        -- destruct (Hw eq_refl) as (_ & m0 & Hm0 & Hm0' & Hmin & Hin).
           exists m0. split; [lia|]. split; [exact Hm0'|]. split; [exact Hmin|].
           rewrite Hlog'. exact Hin.
        -- exists i. split; [lia|]. split; [exact Ein|]. split; [apply (Hq eq_refl)|].
           rewrite Hlog'. apply elem_of_app. right. apply list_elem_of_singleton. reflexivity.
  - exists r3. split; [exact Hr|]. split; [exact B3|]. split; [exact A3|].
    split; [exact Hmarked|]. split; [exact Hclean|].
    intros m Hm Hnot Hfalse.
    destruct (first_missing_warned r3) eqn:Ef.
    + destruct (Hwarn eq_refl) as (Han & m0 & Hm0 & Hm0' & Hmin & Hin).
      split; [exact Han|]. exists m0. split; [|split; [exact Hm0'|exact Hin]].
      destruct (decide (m0 ≤ m)%nat) as [Hle|Hgt]; [exact Hle|].
      rewrite (Hmin m) in Hfalse by (lia || assumption). discriminate.
    + rewrite (Hquiet eq_refl m Hm Hnot) in Hfalse. discriminate.
Qed.

Lemma rc_recap_loop (g : GlobalData) (D p : nat) (lg0 : list log_msg) :
  (p + D ≤ length (s_hPartsPerDevice g))%nat → (p + D ≤ length (s_hStartPerDevice g))%nat →
  ∃ lg, for_loop D p (rc_recap g) lg0 = Some lg ∧ lg0 `prefix_of` lg.
Proof.
  intros Hp Hs.
  destruct (for_loop_total (λ _ lg, lg0 `prefix_of` lg) D p (rc_recap g) lg0)
    as (lg & Hlg & Hpre); [reflexivity| |eauto].
  intros i lg Hi Hpre. unfold rc_recap.
  destruct (lookup_lt_is_Some_2 (s_hPartsPerDevice g) i) as [x ->]; [lia|].
  destruct (lookup_lt_is_Some_2 (s_hStartPerDevice g) i) as [y ->]; [lia|].
  simpl. eexists. split; [reflexivity|].
  transitivity lg; [exact Hpre|]. apply prefix_app_r. reflexivity.
Qed.

(** The three loops of the roll call on an array whose identities fit
    the roll-call arrays. *)
Lemma rollCall_loops (g : GlobalData) (bitmap notified : list bool) (addrs : list Z)
    (ids : list nat) :
  let n := length ids in
  node_particle_ids g ids →
  (n ≤ length bitmap)%nat → (n ≤ length notified)%nat → (n ≤ length addrs)%nat →
  Forall (λ id, (id < length bitmap)%nat ∧ (id < length notified)%nat
                ∧ (id < length addrs)%nat) ids →
  ∃ r3,
    rollCallParticles_pure g bitmap notified addrs
    = (if all_normal r3 then Some r3
       else
         lg ← for_loop (Z.to_nat (devices g)) 0 (rc_recap g) (rc_log r3 ++ [LogRollCallRecap]);
         Some {| rc_bitmap := rc_bitmap r3; rc_notified := rc_notified r3;
                 rc_addrs := rc_addrs r3; all_normal := all_normal r3;
                 first_double_warned := first_double_warned r3;
                 first_missing_warned := first_missing_warned r3; rc_log := lg |})
    ∧ (∀ id, (id < n)%nat → id ∉ ids → rc_notified r3 !! id = Some true)
    ∧ (∀ m, (m < n)%nat → m ∉ ids → notified !! m = Some false →
           all_normal r3 = false
           ∧ ∃ m0, (m0 ≤ m)%nat ∧ (m0 ∉ ids)
                   ∧ LogMissingId (iterations g) (t g) (Z.of_nat m0) ∈ rc_log r3)
    ∧ (NoDup ids → (∀ id, (id < n)%nat ↔ id ∈ ids) →
       rc_notified r3 = notified ∧ rc_log r3 = [] ∧ all_normal r3 = true
       ∧ ∀ i id, ids !! i = Some id →
                 rc_bitmap r3 !! id = Some true ∧ rc_addrs r3 !! id = Some (Z.of_nat i)).
Proof.
  intros n (rank & parts & infos & Hrank & Hparts & Hinfos & Hlen & Hf) Hb Hn Ha Hfit.
  fold n in Hlen. rewrite <- Hlen in Hf.
  set (r0 := {| rc_bitmap := bitmap; rc_notified := notified; rc_addrs := addrs;
                all_normal := true; first_double_warned := false;
                first_missing_warned := false; rc_log := [] |}).
  destruct (rc_reset_loop r0 n Hb Ha)
    as (r1 & H1 & Lb1 & La1 & N1 & Lg1 & An1 & Fd1 & Fm1 & Hreset).
  destruct (rc_mark_loop g infos ids n r1 Hinfos Hf eq_refl)
    as (r2 & H2 & Lb2 & Ln2 & Fm2 & Hbit & Hkeep & Hclean2).
  { rewrite Lb1, La1, N1. exact Hfit. }
  { exact Hreset. }
  destruct (rc_missing_loop g ids n r2)
    as (r3 & H3 & B3 & A3 & Hmarked & Hclean3 & Hwarn).
  { rewrite Lb2, Lb1. exact Hb. }
  { rewrite Ln2, N1. exact Hn. }
  { exact Hbit. }
  { rewrite Fm2, Fm1. reflexivity. }
  exists r3. split; [|split; [exact Hmarked|split]].
  - unfold rollCallParticles_pure. rewrite Hrank. simpl. rewrite Hparts. simpl.
    rewrite <- Hlen. fold r0. rewrite H1. simpl. rewrite H2. simpl. rewrite H3. reflexivity.
  - intros m Hm Hnot Hfalse. apply (Hwarn m Hm Hnot).
    rewrite (Hkeep m Hnot), N1. exact Hfalse.
  - intros Hnd Hall.
    assert (Forall (λ id, (id < n)%nat) ids) as Hlt.
    { apply Forall_forall. intros id Hid. apply Hall. exact Hid. }
    destruct (Hclean2 Hnd Hlt) as (C1 & C2 & C3 & C4).
    rewrite (Hclean3 (λ id Hid, proj1 (Hall id) Hid)).
    split; [rewrite C1; exact N1|]. split; [rewrite C2; exact Lg1|].
    split; [rewrite C3; exact An1|].
    intros i id Hid. split; [|apply C4; exact Hid].
    assert (id ∈ ids) as Hin by (apply list_elem_of_lookup; eauto).
    rewrite (Hbit id) by (apply Hall; exact Hin).
    rewrite bool_decide_eq_true_2 by exact Hin. reflexivity.
Qed.

(** X13. No false alarm.  When the identities of the particles of the
    node are the numbers [0 .. n-1] in any order, and the roll-call
    arrays hold [n] entries, [rollCallParticles] returns without printing
    anything and without marking any identity as notified; it leaves
    every identity marked as present, with the index of its particle. *)
Theorem rollCall_silent_on_complete_array (s : GPUSPH) (ids : list nat) :
  node_particle_ids (gdata s) ids →
  ids ≡ₚ seq 0 (length ids) →
  rc_fits s (length ids) →
  ∃ s', rollCallParticles s = (Ret tt, s')
        ∧ trace s' = trace s
        ∧ gdata s' = gdata s
        ∧ m_rcNotified s' = m_rcNotified s
        ∧ ∀ i id, ids !! i = Some id →
                  m_rcBitmap s' !! id = Some true ∧ m_rcAddrs s' !! id = Some (Z.of_nat i).
Proof.
  intros Hids Hperm (Hb & Hn & Ha).
  assert (∀ id, (id < length ids)%nat ↔ id ∈ ids) as Hall.
  { intros id. rewrite Hperm, elem_of_seq. rewrite length_seq. lia. }
  assert (NoDup ids) as Hnd by (rewrite Hperm; apply NoDup_seq).
  destruct (rollCall_loops (gdata s) (m_rcBitmap s) (m_rcNotified s) (m_rcAddrs s) ids
              Hids Hb Hn Ha) as (r3 & Hrun & _ & _ & Hclean).
  { apply Forall_forall. intros id Hid. apply Hall in Hid. lia. }
  destruct (Hclean Hnd Hall) as (C1 & C2 & C3 & C4).
  rewrite C3 in Hrun.
  unfold rollCallParticles. rewrite Hrun. eexists. split; [reflexivity|].
  cbn [trace gdata m_rcNotified m_rcBitmap m_rcAddrs add_trace set_rollcall].
  rewrite C2. split; [apply app_nil_r|]. split; [reflexivity|]. split; [exact C1|exact C4].
Qed.

(** X14. A missing particle is reported.  When the identities of the
    particles fit the roll-call arrays, and an identity [m] below the
    number [n] of particles of the node is not among them and was not
    notified before, [rollCallParticles] returns after warning that an
    identity was not found, which is the least such identity, and
    printing the recap of the devices; and it marks [m] as notified. *)
Theorem rollCall_reports_missing (s : GPUSPH) (ids : list nat) (m : nat) :
  let g := gdata s in
  node_particle_ids g ids →
  rc_fits s (length ids) →
  Forall (λ id, rc_fits s (S id)) ids →
  (Z.to_nat (devices g) ≤ length (s_hPartsPerDevice g))%nat →
  (Z.to_nat (devices g) ≤ length (s_hStartPerDevice g))%nat →
  (m < length ids)%nat → m ∉ ids → m_rcNotified s !! m = Some false →
  ∃ s' tr m0,
    rollCallParticles s = (Ret tt, s')
    ∧ trace s' = trace s ++ tr
    ∧ (m0 ≤ m)%nat ∧ (m0 ∉ ids)
    ∧ EvLog (LogMissingId (iterations g) (t g) (Z.of_nat m0)) ∈ tr
    ∧ EvLog LogRollCallRecap ∈ tr
    ∧ m_rcNotified s' !! m = Some true.
Proof.
  intros g Hids (Hb & Hn & Ha) Hfit Hparts Hstart Hm Hnot Hfalse.
  destruct (rollCall_loops g (m_rcBitmap s) (m_rcNotified s) (m_rcAddrs s) ids
              Hids Hb Hn Ha) as (r3 & Hrun & Hmarked & Hwarn & _).
  { eapply Forall_impl; [exact Hfit|]. intros id (F1 & F2 & F3). lia. }
  destruct (Hwarn m Hm Hnot Hfalse) as (Han & m0 & Hm0 & Hm0' & Hin).
  rewrite Han in Hrun.
  destruct (rc_recap_loop g (Z.to_nat (devices g)) 0 (rc_log r3 ++ [LogRollCallRecap]))
    as (lg & Hlg & [k Hk]); [lia|lia|].
  rewrite Hlg in Hrun. simpl in Hrun.
  unfold rollCallParticles. fold g. rewrite Hrun.
  exists (add_trace (EvLog <$> lg)
            (set_rollcall (rc_bitmap r3) (rc_notified r3) (rc_addrs r3) s)),
    (EvLog <$> lg), m0.
  split; [reflexivity|]. split; [reflexivity|]. split; [exact Hm0|]. split; [exact Hm0'|].
  split; [|split].
  - apply list_elem_of_fmap_2. rewrite Hk, !elem_of_app. left. left. exact Hin.
  - apply list_elem_of_fmap_2. rewrite Hk, !elem_of_app. left. right.
    apply list_elem_of_singleton. reflexivity.
  - cbn [m_rcNotified add_trace set_rollcall]. apply Hmarked; assumption.
Qed.


(** ** Which buffers [saBoundaryConditions] leaves exchanged *)

Lemma swap_count_app (b : flag) (tr1 tr2 : list event) :
  swap_count b (tr1 ++ tr2) = (swap_count b tr1 + swap_count b tr2)%nat.
Proof. unfold swap_count. apply sum_list_with_app. Qed.

Lemma swaps_quiet (m : M unit) :
  (∀ s s', m s = (Ret tt, s') → trace s' = trace s) → swaps m (λ _, 0%nat).
Proof.
  intros Hm s s' H. exists []. rewrite app_nil_r. split; [exact (Hm s s' H)|reflexivity].
Qed.

Lemma swaps_upd (f : GlobalData → GlobalData) : swaps (upd f) (λ _, 0%nat).
Proof. apply swaps_quiet. intros s s' [= <-]. reflexivity. Qed.

Lemma swaps_when_throw (c : bool) (e : exn) : swaps (when c (throw e)) (λ _, 0%nat).
Proof. apply swaps_quiet. intros s s'. destruct c; intros [= <-]. reflexivity. Qed.

Lemma swaps_call (c : host_call) : swaps (call c) (λ _, 0%nat).
Proof.
  intros s s'. rewrite call_run. intros [= <-]. exists [EvHost c].
  split; reflexivity.
Qed.

Lemma swaps_doCommand (cmd : CommandType) (flags : flag_t) (arg : float) :
  swaps (doCommand cmd flags arg)
    (λ b, if is_swap_of b (EvPost cmd flags arg true) then 1%nat else 0%nat).
Proof.
  intros s s' H. apply doCommand_alive in H as [_ H]. eexists. split; [exact H|].
  intros b. unfold swap_count. cbn [sum_list_with is_swap_of]. lia.
Qed.

Lemma swaps_bind (m k : M unit) (c1 c2 : flag → nat) :
  swaps m c1 → swaps k c2 → swaps (bind m (λ _, k)) (λ b, (c1 b + c2 b)%nat).
Proof.
  intros Hm Hk s s' H. unfold bind in H.
  destruct (m s) as [[[]|e|] s1] eqn:E; try discriminate H.
  destruct (Hm _ _ E) as (tr1 & Ht1 & Hc1). destruct (Hk _ _ H) as (tr2 & Ht2 & Hc2).
  exists (tr1 ++ tr2). split; [rewrite Ht2, Ht1, app_assoc; reflexivity|].
  intros b. rewrite swap_count_app, Hc1, Hc2. reflexivity.
Qed.

Lemma swaps_when (c : bool) (m : M unit) (c1 : flag → nat) :
  swaps m c1 → swaps (when c m) (λ b, if c then c1 b else 0%nat).
Proof.
  intros Hm. destruct c; [exact Hm|]. apply swaps_quiet. intros s s' [= <-]. reflexivity.
Qed.

Ltac swaps_auto :=
  repeat lazymatch goal with
  | |- swaps (when _ (throw _)) _ => apply swaps_when_throw
  | |- swaps (upd _) _ => apply swaps_upd
  | |- swaps (call _) _ => apply swaps_call
  | |- swaps (doCommand _ _ _) _ => apply swaps_doCommand
  | |- swaps (bind _ _) _ => eapply swaps_bind
  | |- swaps (when _ _) _ => eapply swaps_when
  end.

(** X15. Which buffers a boundary-conditions pass leaves exchanged.
    When [saBoundaryConditions] returns, the SWAP_BUFFERS commands it
    posted name every buffer an even number of times, with these
    exceptions: at the initialization step the position buffer is named
    an odd number of times when open boundaries are enabled, and the
    gamma-gradient buffer when the run is not resumed from a file; at any
    other step the vertices buffer is named an odd number of times. *)
Theorem saBoundaryConditions_swaps (cFlag : flag_t) (s s' : GPUSPH) :
  saBoundaryConditions cFlag s = (Ret tt, s') →
  ∃ tr,
    trace s' = trace s ++ tr
    ∧ ∀ b, Nat.odd (swap_count b tr)
           = if has_flag cFlag INITIALIZATION_STEP
             then (has_simflag (simparams (gdata s)) ENABLE_INLET_OUTLET
                   && bool_decide (b = BUFFER_POS))
                  || (resume_fname_empty (clOptions (gdata s))
                      && bool_decide (b = BUFFER_GRADGAMMA))
             else bool_decide (b = BUFFER_VERTICES).
Proof.
  intros H.
  assert (match saBoundaryConditions cFlag s with
          | (Ret _, s') =>
              ∃ tr,
                trace s' = trace s ++ tr
                ∧ ∀ b, Nat.odd (swap_count b tr)
                       = if has_flag cFlag INITIALIZATION_STEP
                         then (has_simflag (simparams (gdata s)) ENABLE_INLET_OUTLET
                               && bool_decide (b = BUFFER_POS))
                              || (resume_fname_empty (clOptions (gdata s))
                                  && bool_decide (b = BUFFER_GRADGAMMA))
                         else bool_decide (b = BUFFER_VERTICES)
          | _ => True
          end) as L.
  { clear H s'. unfold saBoundaryConditions.
    rewrite (bind_run _ _ _ _ _ (read_run _ _)). cbv beta zeta.
    set (g := gdata s).
    match goal with
    | |- match ?m s with _ => _ end =>
        assert (∃ c, swaps m c
                     ∧ ∀ b, Nat.odd (c b)
                            = if has_flag cFlag INITIALIZATION_STEP
                              then (has_simflag (simparams g) ENABLE_INLET_OUTLET
                                    && bool_decide (b = BUFFER_POS))
                                   || (resume_fname_empty (clOptions g)
                                       && bool_decide (b = BUFFER_GRADGAMMA))
                              else bool_decide (b = BUFFER_VERTICES)) as (c & Hc & Hodd);
        [|destruct (m s) as [[[]|e|] s'] eqn:E; [|exact Logic.I..];
          destruct (Hc _ _ E) as (tr & Htr & Hcount); exists tr;
          split; [exact Htr|]; intros b; rewrite Hcount; apply Hodd]
    end.
    eexists. split; [swaps_auto|].
    intros b. cbn [is_swap_of].
    destruct (has_flag cFlag INITIALIZATION_STEP), (has_flag cFlag INTEGRATOR_STEP_2),
      (has_simflag (simparams g) ENABLE_INLET_OUTLET),
      (has_simflag (simparams g) ENABLE_WATER_DEPTH),
      (MULTI_DEVICE g), (resume_fname_empty (clOptions g));
      destruct b; reflexivity. }
  rewrite H in L. exact L.
Qed.
End GPUSPH.

Arguments GlobalData W : clear implicits.
Arguments GPUSPH W : clear implicits.
Arguments WorkerWrites W : clear implicits.
Arguments M W A : clear implicits.

(** * The sample runs *)

Lemma ex_well_formed :
  well_formed ex_RANK ex_DEVICE ex_DEVICE ex_cellHash 2 4 8 (gdata (ex_start tt)).
Proof.
  unfold well_formed. simpl.
  split; [lia|]. split; [eexists; reflexivity|].
  split; [repeat constructor; simpl; lia|].
  split.
  { intros hashes [= <-]. simpl.
    repeat (constructor;
            [eexists; split; [reflexivity|];
             unfold valid_key, ex_RANK, ex_DEVICE; simpl; lia|]).
    constructor. }
  repeat split; lia.
Qed.

Lemma ex_sorted_well_formed :
  well_formed ex_RANK ex_DEVICE ex_DEVICE ex_cellHash 2 4 8 (gdata (ex_sorted tt)).
Proof.
  unfold well_formed. simpl.
  split; [lia|]. split; [eexists; reflexivity|].
  split; [repeat constructor; simpl; lia|].
  split.
  { intros hashes [= <-]. simpl.
    repeat (constructor;
            [eexists; split; [reflexivity|];
             unfold valid_key, ex_RANK, ex_DEVICE; simpl; lia|]).
    constructor. }
  repeat split; lia.
Qed.

Lemma ex_cluster_well_formed :
  well_formed ex_cluster_RANK ex_cluster_DEVICE ex_cluster_NUM ex_cellHash 4 4 16
      (gdata (ex_cluster tt)).
Proof.
  unfold well_formed. simpl.
  split; [lia|]. split; [eexists; reflexivity|].
  split; [repeat constructor; simpl; lia|].
  split.
  { intros hashes [= <-]. simpl.
    repeat (constructor;
            [eexists; split; [reflexivity|];
             unfold valid_key, ex_cluster_RANK, ex_cluster_DEVICE, ex_cluster_NUM; simpl; lia|]).
    constructor. }
  repeat split; lia.
Qed.

(** The partitioner leaves the four particles of the sample, whose keys
    are 1, 0, 1 and 0, in bucket order, with two particles counted for
    each device. *)
Lemma ex_sort_sorted_and_counted :
  ∃ s' ks ks',
    sortParticlesByHash ex_RANK ex_DEVICE ex_DEVICE ex_cellHash 2 4 8 (-1) (ex_start tt) =
        (Ret tt, s')
    ∧ particle_keys ex_cellHash (gdata (ex_start tt)) = Some ks
    ∧ particle_keys ex_cellHash (gdata s') = Some ks'
    ∧ totParticles (gdata s') = totParticles (gdata (ex_start tt))
    ∧ s_hDeviceMap (gdata s') = s_hDeviceMap (gdata (ex_start tt))
    ∧ ks' ≡ₚ ks
    ∧ sorted_by_bucket ex_DEVICE ks'
    ∧ ∀ d, (d < 2)%nat →
        s_hPartsPerDevice (gdata s') !! d
        = Some (Z.of_nat (count_local ex_RANK ex_DEVICE (mpi_rank (gdata (ex_start tt))) d ks)).
Proof.
  apply (sortParticlesByHash_sorted_and_counted ex_RANK ex_DEVICE ex_DEVICE ex_cellHash 2 4 8
      (-1) (ex_start tt)).
  exact ex_well_formed.
Defined.

(** The array with the keys 0, 0, 1 and 1 is in bucket order: the pass
    makes no swap and leaves every buffer as it was. *)
Lemma ex_partition_idempotent :
  ∃ g' logs,
    particle_keys ex_cellHash (gdata (ex_sorted tt)) = Some [0; 0; 1; 1]%nat
    ∧ sortParticlesByHash_pure ex_RANK ex_DEVICE ex_DEVICE ex_cellHash 2 4 8 (-1)
        (gdata (ex_sorted tt)) = Some (g', 0%nat, logs)
    ∧ s_hBuffers g' = s_hBuffers (gdata (ex_sorted tt)).
Proof.
  destruct (partition_idempotent ex_RANK ex_DEVICE ex_DEVICE ex_cellHash 2 4 8 (-1)
      (gdata (ex_sorted tt)) ex_sorted_well_formed)
    as (ks & ks' & g' & n & logs & Hpk & Hrun & _ & _ & _ & _ & Hnoop).
  assert (ks = [0; 0; 1; 1]%nat) as -> by (vm_compute in Hpk; congruence).
  destruct Hnoop as [-> Hbufs].
  - intros i j ki kj Hij Hi Hj.
    destruct i as [|[|[|[|i]]]]; try discriminate Hi;
      destruct j as [|[|[|[|j]]]]; try discriminate Hj; try lia;
      injection Hi as <-; injection Hj as <-; vm_compute; lia.
  - exists g', logs. split; [exact Hpk|]. split; [exact Hrun|exact Hbufs].
Defined.

(** The pass on the keys 1, 0, 1 and 0 of the sample with the counts of
    their buckets, two and two. *)
Lemma ex_partition_pass_runs :
  ∃ st, partition_pass ex_DEVICE 4 2 [2; 2] [1; 0; 1; 0]%nat
          (s_hBuffers (gdata (ex_start tt))) (ex_start tt) = (Ret st, ex_start tt)
        ∧ keys st.1 ≡ₚ [1; 0; 1; 0]%nat.
Proof.
  apply (partition_pass_runs ex_DEVICE ex_cellHash [0; 1]%nat [1; 0; 1; 0]%nat
           (s_hBuffers (gdata (ex_start tt))) [2; 2] 2 (ex_start tt)).
  - vm_compute. reflexivity.
  - split.
    + eexists. split; [reflexivity|]. simpl. repeat constructor.
    + repeat constructor; simpl; lia.
  - intros c Hc. vm_compute in Hc. destruct c as [|c]; [reflexivity|lia].
Defined.

(** All workers fail: the first command of the body throws, and the loop
    is left. *)
Lemma ex_loop_failure :
  ∃ s', simulation_loop ex_cellHash (ex_workers false) ex_counts ex_gather ex_reduce_bool
      ex_reduce_min ex_never ex_never ex_no_writer ex_host ex_id 0%float ex_enum ex_reduce_max
      ex_position ex_word ex_no ex_no ex_fluid_num 1 ex_energies ex_speed 1 (ex_start tt) =
      (Ret true, s')
        ∧ keep_going (gdata s') = false.
Proof.
  destruct (loop_failure_semantics ex_cellHash (ex_workers false) ex_counts ex_gather
      ex_reduce_bool ex_reduce_min ex_never ex_never ex_no_writer ex_host ex_id 0%float ex_enum
      ex_reduce_max ex_position ex_word ex_no ex_no ex_fluid_num 1 ex_energies ex_speed 0%nat
      (ex_start tt)
              (loop_body ex_cellHash (ex_workers false) ex_counts ex_gather ex_reduce_bool
                  ex_reduce_min ex_never ex_never ex_no_writer ex_host ex_id 0%float ex_enum
                  ex_reduce_max ex_position ex_word ex_no ex_no ex_fluid_num 1 ex_energies
                  ex_speed (ex_start tt)).2
              aborted_by_worker) as [Hcatch _].
  destruct Hcatch as (s' & Hr & Hk & _).
  - reflexivity.
  - vm_compute. reflexivity.
  - exists s'. split; assumption.
Defined.

(** A timestep of [2^-30] on every device: the first iteration, whose
    final write finds every particle in the host buffers, is the last. *)
Lemma ex_timestep_guard :
  ∃ s', simulation_loop ex_cellHash (ex_workers true) ex_counts ex_gather ex_reduce_bool
      ex_reduce_min ex_never ex_never ex_no_writer ex_host ex_id 0%float ex_enum ex_reduce_max
      ex_position ex_word ex_no ex_no ex_fluid_num 1 ex_energies ex_speed 1 (ex_tiny tt) =
      (Ret true, s')
        ∧ keep_going (gdata s') = false.
Proof.
  destruct (timestep_guards_stop_the_loop ex_cellHash (ex_workers true) ex_counts ex_gather
      ex_reduce_bool ex_reduce_min ex_never ex_never ex_no_writer ex_host ex_id 0%float ex_enum
      ex_reduce_max ex_position ex_word ex_no ex_no ex_fluid_num 1 ex_energies ex_speed 0%nat
      (ex_tiny tt)
              (loop_commands ex_cellHash (ex_workers true) ex_counts ex_gather ex_reduce_bool
                  ex_host ex_id 0%float ex_enum ex_reduce_max ex_position ex_word ex_no ex_no
                  ex_fluid_num 1 ex_energies ex_speed (ex_tiny tt)).2
              (advance_time ex_reduce_min (loop_commands ex_cellHash (ex_workers true) ex_counts
                  ex_gather ex_reduce_bool ex_host ex_id 0%float ex_enum ex_reduce_max
                  ex_position ex_word ex_no ex_no ex_fluid_num 1 ex_energies ex_speed
                  (ex_tiny tt)).2).2
              0%float)
    as (r & s' & Hit & Hres & _).
  - reflexivity.
  - vm_compute. reflexivity.
  - vm_compute. reflexivity.
  - right. vm_compute. reflexivity.
  - destruct Hres as [(_ & Hl & Hk)|(-> & _)].
    + exists s'. split; assumption.
    + exfalso.
      assert ((iteration ex_cellHash (ex_workers true) ex_counts ex_gather ex_reduce_bool
          ex_reduce_min ex_never ex_never ex_no_writer ex_host ex_id 0%float ex_enum
          ex_reduce_max ex_position ex_word ex_no ex_no ex_fluid_num 1 ex_energies ex_speed
          (ex_tiny tt)).1 = Ret tt) as H by (vm_compute; reflexivity).
      rewrite Hit in H. discriminate H.
Defined.

(** The recount: device 0 holds the particles 0 and 1, device 1 the
    particles 2 and 3. *)
Lemma ex_ranges_tile :
  tiles
    (s_hPartsPerDevice (gdata (updateArrayIndices (ex_workers true) ex_counts ex_gather ex_id
        0%float (ex_start tt)).2))
    (s_hStartPerDevice (gdata (updateArrayIndices (ex_workers true) ex_counts ex_gather ex_id
        0%float (ex_start tt)).2))
    2 0 4.
Proof.
  destruct (updateArrayIndices_recounts (ex_workers true) ex_counts ex_gather ex_id 0%float
      (ex_start tt)) as (_ & _ & _ & _ & Ht).
  - vm_compute. lia.
  - vm_compute. lia.
  - vm_compute. lia.
  - vm_compute. discriminate.
  - vm_compute. lia.
  - intros w c l. reflexivity.
  - intros d Hd. vm_compute. discriminate.
  - apply Ht; [constructor|vm_compute; reflexivity].
Defined.

(** C8. On one node without open boundaries, with eight allocated slots,
    a stored total of four particles and two workers that report five
    particles each, [updateArrayIndices] counts ten particles, more than
    the capacity.  The changed total is reported, the particle infos are
    dumped and the roll call runs over ten particles in arrays of eight
    entries: the behaviour is undefined before the capacity check is
    reached, so that the condition is not logged and the quit request is
    not set.  With the same counts and open boundaries, where the total
    is corrected without a roll call, the routine returns, logs the
    condition and sets the quit request. *)
Theorem capacity_check_not_reached :
  (∃ s', updateArrayIndices (ex_workers true) ex_five ex_gather ex_id 0%float (ex_start tt) =
      (Undefined, s')
         ∧ processParticles (gdata s') = [10]
         ∧ allocatedParticles (gdata s') = 8
         ∧ length (m_rcBitmap s') = 8%nat
         ∧ rollCallParticles ex_id s' = (Undefined, s')
         ∧ quit_request (gdata s') = false
         ∧ trace s' = [EvLog (LogCountChanged 0 4 10);
                       EvPost DUMP [BUFFER_INFO; DBLBUFFER_READ] 0 true;
                       EvBarrier DUMP [BUFFER_INFO; DBLBUFFER_READ] 0;
                       EvBarrier DUMP [BUFFER_INFO; DBLBUFFER_READ] 0])
  ∧ (∃ s', updateArrayIndices (ex_workers true) ex_five ex_gather ex_id 0%float (ex_open tt) =
      (Ret tt, s')
           ∧ quit_request (gdata s') = true
           ∧ trace s' = [EvLog (LogCapacityExceeded 0 10 8)]).
Proof.
  split; eexists; (split; [vm_compute; reflexivity|]); repeat split.
Qed.

(** With an inlet and eight slots, two workers that report five
    particles each: the count of ten is logged as fatal and the quit
    request is set. *)
Lemma ex_capacity_exceeded :
  ∃ s', updateArrayIndices (ex_workers true) ex_five ex_gather ex_id 0%float (ex_open tt) =
      (Ret tt, s')
        ∧ quit_request (gdata s') = true
        ∧ we_are_done ex_never (gdata s') = true.
Proof.
  destruct (capacity_exceeded_after_totals (ex_workers true) ex_five ex_gather ex_never ex_id
      0%float (ex_open tt)
              (recount ex_five ex_gather (ex_open tt)).2
              (reconcile_total (ex_workers true) ex_id 0%float (recount ex_five ex_gather
                  (ex_open tt)).2).2 10)
    as (s' & Hr & Hq & Hd & _).
  - vm_compute. reflexivity.
  - vm_compute. reflexivity.
  - vm_compute. reflexivity.
  - exists s'. split; [exact Hr|]. split; [exact Hq|exact Hd].
Defined.

(** A stored total of five particles where the node holds four, with
    leak warnings off: the total is corrected and nothing is printed. *)
Lemma ex_count_drift_not_warned :
  ¬ count_drift_is_diagnostic (ex_workers true) ex_id 0%float (ex_leak tt).
Proof.
  intros H. destruct (H 4) as (s' & Hr & (tr & Ht & Hin) & _).
  - reflexivity.
  - discriminate.
  - reflexivity.
  - vm_compute in Hr. injection Hr as <-. simpl in Ht. subst tr.
    apply elem_of_nil in Hin. exact Hin.
Qed.

(** A stored total of three particles where the node holds four: the
    change is reported and the total corrected. *)
Lemma ex_count_drift_reported :
  ∃ r s', reconcile_total (ex_workers true) ex_id 0%float (ex_drift tt) = (r, s')
          ∧ (r = Ret tt → totParticles (gdata s') = 4)
          ∧ logged_since (ex_drift tt) s' (LogCountChanged 0 3 4).
Proof.
  destruct (count_drift_is_reported (ex_workers true) ex_id 0%float (ex_drift tt) 4)
    as (r & s' & Hr & Ht & Hw & _).
  - reflexivity.
  - reflexivity.
  - reflexivity.
  - discriminate.
  - exists r, s'. split; [exact Hr|]. split; [exact Ht|]. apply Hw. reflexivity.
Defined.

(** A first roll call over the identities 0, 1, 3 and 4 warns about the
    missing identity 2; a second roll call over the same array prints no
    second warning about it. *)
Lemma ex_rollCall_warns_once :
  warnings 2 (trace (rollCallParticles ex_id (ex_hole tt)).2) = 1%nat
  ∧ warnings 2
      (trace (rollCallParticles ex_id (rollCallParticles ex_id (ex_hole tt)).2).2) = 1%nat.
Proof.
  destruct (rollCall_warns_once ex_cellHash (ex_workers true) ex_counts ex_gather ex_reduce_bool
      ex_reduce_min ex_never ex_never ex_no_writer ex_host ex_id 0%float ex_enum ex_reduce_max
      ex_position ex_word ex_no ex_no ex_fluid_num 1 ex_energies ex_speed 0%nat (ex_hole tt)) as
      [(Hfirst & _) _].
  { intros pid. left. reflexivity. }
  destruct (rollCall_warns_once ex_cellHash (ex_workers true) ex_counts ex_gather ex_reduce_bool
      ex_reduce_min ex_never ex_never ex_no_writer ex_host ex_id 0%float ex_enum ex_reduce_max
      ex_position ex_word ex_no ex_no ex_fluid_num 1 ex_energies ex_speed 0%nat
      (rollCallParticles ex_id (ex_hole tt)).2 Hfirst)
    as [(_ & _ & Hsame) _].
  split; [vm_compute; reflexivity|].
  apply Hsame. vm_compute. reflexivity.
Defined.

(** The self-check of the array of the second node after the sort: on the
    keys 0, 1, 4 and 5 of the device map, the order of the keys is the
    order of the device numbers 0, 1, 2 and 3. *)
Lemma ex_sort_self_check :
  ∃ s' logs,
    sortParticlesByHash ex_cluster_RANK ex_cluster_DEVICE ex_cluster_NUM ex_cellHash 4 4 16 (-1)
        (ex_cluster tt) = (Ret tt, s')
    ∧ trace s' = trace (ex_cluster tt) ++ (EvLog <$> logs)
    ∧ last logs = Some LogArrayOK.
Proof.
  destruct (sortParticlesByHash_self_check ex_cluster_RANK ex_cluster_DEVICE ex_cluster_NUM
      ex_cellHash 4 4 16 (-1) (ex_cluster tt) ex_cluster_well_formed)
    as (s' & ks & ks' & logs & Hrun & _ & _ & _ & Htr & _ & Hok).
  exists s', logs. split; [exact Hrun|]. split; [exact Htr|].
  apply Hok. intros a b Ha Hb.
  change (s_hDeviceMap (gdata (ex_cluster tt))) with [0; 1; 4; 5]%nat in Ha, Hb.
  repeat (apply elem_of_cons in Ha as [->|Ha]); [| | | |apply elem_of_nil in Ha; destruct Ha];
    (repeat (apply elem_of_cons in Hb as [->|Hb]);
     [| | | |apply elem_of_nil in Hb; destruct Hb]);
    vm_compute; lia.
Defined.

(** On the second of two nodes: the node holds four of the six particles,
    and its second device starts after the two particles of the first
    node and the two of its first device. *)
Lemma ex_sort_offsets :
  ∃ s' ks,
    sortParticlesByHash ex_cluster_RANK ex_cluster_DEVICE ex_cluster_NUM ex_cellHash 4 4 16 (-1)
        (ex_cluster tt) = (Ret tt, s')
    ∧ particle_keys ex_cellHash (gdata (ex_cluster tt)) = Some ks
    ∧ processParticles (gdata s') !! 1%nat = Some (Z.of_nat (count_node ex_cluster_RANK 1 ks))
    ∧ s_hStartPerDevice (gdata s') !! 1%nat
      = Some (Z.of_nat (count_before_node ex_cluster_RANK 1 ks
                        + count_before_device ex_cluster_RANK ex_cluster_DEVICE 1 1 ks)).
Proof.
  destruct (sortParticlesByHash_offsets ex_cluster_RANK ex_cluster_DEVICE ex_cluster_NUM
      ex_cellHash 4 4 16 (-1) (ex_cluster tt) ex_cluster_well_formed)
    as (s' & ks & ks' & Hrun & Hpk & _ & _ & Hnode & Hstart).
  exists s', ks. split; [exact Hrun|]. split; [exact Hpk|].
  split; [apply (Hnode 1%nat); lia|].
  apply (Hstart 1%nat). vm_compute. lia.
Defined.

(** On the second of two nodes with two devices each: a particle of the
    sorted array lies in the range of the second device of the node if
    and only if its key names node 1 and device 1. *)
Lemma ex_sort_slices :
  ∃ s' ks',
    sortParticlesByHash ex_cluster_RANK ex_cluster_DEVICE ex_cluster_NUM ex_cellHash 4 4 16 (-1)
        (ex_cluster tt) = (Ret tt, s')
    ∧ particle_keys ex_cellHash (gdata s') = Some ks'
    ∧ ∀ i k, ks' !! i = Some k →
        ∃ a n, s_hStartPerDevice (gdata s') !! 1%nat = Some a
               ∧ s_hPartsPerDevice (gdata s') !! 1%nat = Some n
               ∧ (a ≤ Z.of_nat i < a + n
                  ↔ Z.of_nat (ex_cluster_RANK k) = 1 ∧ ex_cluster_DEVICE k = 1%nat).
Proof.
  destruct (sortParticlesByHash_slices ex_cluster_RANK ex_cluster_DEVICE ex_cluster_NUM
      ex_cellHash 4 4 16 (-1) (ex_cluster tt))
    as (s' & ks & ks' & Hrun & _ & Hpk & _ & Hslice).
  - intros k. reflexivity.
  - change (s_hDeviceMap (gdata (ex_cluster tt))) with [0; 1; 4; 5]%nat.
    repeat (constructor; [vm_compute; lia|]). constructor.
  - exact ex_cluster_well_formed.
  - left. reflexivity.
  - exists s', ks'. split; [exact Hrun|]. split; [exact Hpk|].
    intros i k Hk. destruct (Hslice 1%nat i k) as (a & n & Ha & Hn & _ & Hiff).
    + vm_compute. lia.
    + exact Hk.
    + exists a, n. split; [exact Ha|]. split; [exact Hn|exact Hiff].
Defined.

Lemma ex_sort_segments :
  ∃ s',
    sortParticlesByHash ex_RANK ex_DEVICE ex_DEVICE ex_cellHash 2 4 8 (-1) (ex_start tt) =
        (Ret tt, s')
    ∧ s_dSegmentsStart (gdata s') !! 1%nat = Some (replicate 4 (-1)).
Proof.
  destruct (sortParticlesByHash_segments ex_RANK ex_DEVICE ex_DEVICE ex_cellHash 2 4 8 (-1)
      (ex_start tt) ex_well_formed)
    as (s' & Hrun & Hseg & _).
  exists s'. split; [exact Hrun|]. apply Hseg. vm_compute. lia.
Defined.

(** With an inlet, the stored total of three becomes the counted four,
    and nothing is printed. *)
Lemma ex_reconcile_open_boundaries :
  reconcile_total (ex_workers true) ex_id 0%float (ex_open tt)
  = (Ret tt, set_gdata (set_totParticles 4 (gdata (ex_open tt))) (ex_open tt)).
Proof.
  destruct (reconcile_total_open_boundaries (ex_workers true) ex_id 0%float (ex_open tt)) as
      [Hopen _].
  - vm_compute. lia.
  - apply Hopen. reflexivity.
Defined.

(** The commands of a run of one iteration are all followed by their
    two barriers. *)
Lemma ex_run_protocol :
  protocol_ok (trace (runSimulation ex_cellHash (ex_workers true) ex_counts ex_gather
      ex_reduce_bool ex_reduce_min ex_never ex_never ex_no_writer ex_host ex_id 0%float ex_enum
      ex_reduce_max ex_position ex_word ex_no ex_no ex_fluid_num 1 ex_energies ex_speed 1
      (ex_start tt)).2).
Proof.
  apply (runSimulation_protocol ex_cellHash (ex_workers true) ex_counts ex_gather ex_reduce_bool
      ex_reduce_min ex_never ex_never ex_no_writer ex_host ex_id 0%float ex_enum ex_reduce_max
      ex_position ex_word ex_no ex_no ex_fluid_num 1 ex_energies ex_speed 1 (ex_start tt)).
  intros i cmd flags arg alive H. discriminate H.
Defined.

(** The sample run has an iteration limit of three. *)
Lemma ex_maxiter_bound :
  match simulation_loop ex_cellHash (ex_workers true) ex_counts ex_gather ex_reduce_bool
      ex_reduce_min ex_never ex_never ex_no_writer ex_host ex_id 0%float ex_enum ex_reduce_max
      ex_position ex_word ex_no ex_no ex_fluid_num 1 ex_energies ex_speed 3 (ex_start tt) with
  | (Ret b, s') =>
      b = true ∧ keep_going (gdata s') = false ∧ 0 ≤ iterations (gdata s') ≤ 3
  | (Throw _, _) => False
  | (Undefined, _) => True
  end.
Proof.
  apply (maxiter_bounds_the_loop ex_cellHash (ex_workers true) ex_counts ex_gather
      ex_reduce_bool ex_reduce_min ex_never ex_never ex_no_writer ex_host ex_id 0%float ex_enum
      ex_reduce_max ex_position ex_word ex_no ex_no ex_fluid_num 1 ex_energies ex_speed 3
      (ex_start tt)).
  - simpl. lia.
  - reflexivity.
  - vm_compute. lia.
Defined.

(** With a limit of three neighbours, the second device, whose largest
    number of neighbours is four, gets its two lines, last in the trace. *)
Lemma ex_neibs_statistics :
  ∃ tr,
    trace (buildNeibList (ex_workers true) ex_counts ex_gather ex_id 0%float (ex_crowded tt)).2
    = tr ++ [EvLog (LogTooManyNeibs 4 3 0); EvLog (LogPossibleCulprit (-1) 0)].
Proof.
  destruct (buildNeibList_neibs_statistics (ex_workers true) ex_counts ex_gather ex_id 0%float
      (ex_crowded tt)
              (buildNeibList (ex_workers true) ex_counts ex_gather ex_id 0%float
                  (ex_crowded tt)).2) as (_ & _ & _ & _ & tr & Htr).
  - vm_compute. reflexivity.
  - exists tr. exact Htr.
Defined.

(** The four particles of the sample have the identities 0 to 3. *)
Lemma ex_rollCall_silent :
  ∃ s', rollCallParticles ex_id (ex_start tt) = (Ret tt, s')
        ∧ trace s' = trace (ex_start tt)
        ∧ m_rcNotified s' = m_rcNotified (ex_start tt).
Proof.
  destruct (rollCall_silent_on_complete_array ex_id (ex_start tt) [0; 1; 2; 3]%nat)
    as (s' & Hrun & Htr & _ & Hn & _).
  - exists 0%nat, 4, [0; 1; 2; 3; 0; 0; 0; 0].
    repeat (split; [reflexivity|]). simpl. repeat constructor.
  - reflexivity.
  - unfold rc_fits. simpl. lia.
  - exists s'. split; [exact Hrun|]. split; [exact Htr|exact Hn].
Defined.

(** With the identities 0, 1, 3 and 4, the roll call misses identity 2. *)
Lemma ex_rollCall_missing :
  ∃ s' tr,
    rollCallParticles ex_id (ex_hole tt) = (Ret tt, s')
    ∧ trace s' = trace (ex_hole tt) ++ tr
    ∧ EvLog LogRollCallRecap ∈ tr
    ∧ m_rcNotified s' !! 2%nat = Some true.
Proof.
  destruct (rollCall_reports_missing ex_id (ex_hole tt) [0; 1; 3; 4]%nat 2)
    as (s' & tr & m0 & Hrun & Htr & _ & _ & _ & Hrecap & Hn).
  - exists 0%nat, 4, [0; 1; 3; 4; 0; 0; 0; 0].
    repeat (split; [reflexivity|]). simpl. repeat constructor.
  - unfold rc_fits. simpl. lia.
  - repeat constructor; simpl; lia.
  - simpl. lia.
  - simpl. lia.
  - simpl. lia.
  - intros H. repeat (apply elem_of_cons in H as [H|H]; [discriminate H|]).
    inversion H.
  - reflexivity.
  - exists s', tr. split; [exact Hrun|]. split; [exact Htr|]. split; [exact Hrecap|exact Hn].
Defined.

(** The first boundary-conditions pass of the sample run with
    semi-analytical and open boundaries. *)
Lemma ex_sa_swaps :
  ∃ tr,
    trace (saBoundaryConditions (ex_workers true) ex_host 0%float [INITIALIZATION_STEP]
        (ex_sa tt)).2
    = trace (ex_sa tt) ++ tr
    ∧ Nat.odd (swap_count BUFFER_POS tr) = true
    ∧ Nat.odd (swap_count BUFFER_GRADGAMMA tr) = true
    ∧ Nat.odd (swap_count BUFFER_VERTICES tr) = false.
Proof.
  destruct (saBoundaryConditions_swaps (ex_workers true) ex_host 0%float [INITIALIZATION_STEP]
      (ex_sa tt)
              (saBoundaryConditions (ex_workers true) ex_host 0%float [INITIALIZATION_STEP]
                  (ex_sa tt)).2)
    as (tr & Htr & Hodd).
  - vm_compute. reflexivity.
  - exists tr. split; [exact Htr|]. rewrite !Hodd. repeat split; reflexivity.
Defined.

